(** * Named pipes of the wine server: a shallow embedding of
      server/named_pipe.c and the properties of its specification.

    The file follows the C source function by function.  Pointers to
    pipe ends, named pipes and file descriptors are addresses into finite
    maps, so that the two ends of a connection alias each other exactly as
    the C objects do.  Sizes of type [data_size_t] are 32-bit unsigned and
    every arithmetic operation on them is written with its wrap-around. *)

From Stdlib Require Import ZArith Lia List Bool.
From stdpp Require Import base option list gmap.

Open Scope Z_scope.

(** ** Status codes, faults and machine integers *)

(** The NTSTATUS values that named_pipe.c sets or tests, as symbolic names;
    [STATUS_HOST] stands for a status chosen by a host service (errno
    translation, request parsing). *)
Inductive ntstatus :=
| STATUS_SUCCESS
| STATUS_PENDING
| STATUS_ALERTED
| STATUS_BUFFER_OVERFLOW
| STATUS_NO_MEMORY
| STATUS_PIPE_BROKEN
| STATUS_PIPE_DISCONNECTED
| STATUS_PIPE_LISTENING
| STATUS_PIPE_CONNECTED
| STATUS_NO_DATA_DETECTED
| STATUS_INVALID_HANDLE
| STATUS_PIPE_NOT_AVAILABLE
| STATUS_ACCESS_DENIED
| STATUS_INVALID_PARAMETER
| STATUS_INSTANCE_NOT_AVAILABLE
| STATUS_OBJECT_NAME_EXISTS
| STATUS_OBJECT_PATH_SYNTAX_BAD
| STATUS_OBJECT_NAME_INVALID
| STATUS_OBJECT_TYPE_MISMATCH
| STATUS_BAD_DEVICE_TYPE
| STATUS_NOT_SUPPORTED
| STATUS_INFO_LENGTH_MISMATCH
| STATUS_IO_TIMEOUT
| STATUS_HOST (code : Z).

#[global] Instance ntstatus_eq_dec : EqDecision ntstatus.
Proof. solve_decision. Defined.

(** What stops a C run short of returning: a failed [assert], a dereference
    of a pointer that is null or not a live object, or (in the model only)
    a recursion that used up its fuel. *)
Inductive fault := assertion_failed | invalid_pointer | out_of_fuel.

Inductive outcome (A : Type) :=
| Ok (a : A)
| Fault (f : fault).
Arguments Ok {A} a.
Arguments Fault {A} f.

(** [data_size_t] is [unsigned int]. *)
Definition wrap32 (z : Z) : Z := z mod 4294967296.
Definition add32 (a b : Z) : Z := wrap32 (a + b).
Definition sub32 (a b : Z) : Z := wrap32 (a - b).
Definition is_data_size (z : Z) : Prop := 0 <= z < 4294967296.

(** [flags & bit] read as a C truth value. *)
Definition has_flag (flags bit : Z) : bool := negb (Z.land flags bit =? 0).

(** The constants of the headers (server_protocol.h, winnt.h, winternl.h),
    which are not part of the sources at hand: they are parameters of the
    development, and [wine_constants] below gives their usual values. *)
Class protocol_constants := {
  NAMED_PIPE_MESSAGE_STREAM_WRITE : Z;
  NAMED_PIPE_MESSAGE_STREAM_READ : Z;
  NAMED_PIPE_NONBLOCKING_MODE : Z;
  NAMED_PIPE_SERVER_END : Z;
  FILE_SHARE_READ : Z;
  FILE_SHARE_WRITE : Z;
  GENERIC_READ : Z;
  GENERIC_WRITE : Z;
  FILE_SYNCHRONOUS_IO_ALERT : Z;
  FILE_SYNCHRONOUS_IO_NONALERT : Z;
  PEEK_DATA_OFFSET : Z   (* offsetof( FILE_PIPE_PEEK_BUFFER, Data ) *)
}.

Definition wine_constants : protocol_constants := {|
  NAMED_PIPE_MESSAGE_STREAM_WRITE := 1;
  NAMED_PIPE_MESSAGE_STREAM_READ := 2;
  NAMED_PIPE_NONBLOCKING_MODE := 4;
  NAMED_PIPE_SERVER_END := 32768;
  FILE_SHARE_READ := 1;
  FILE_SHARE_WRITE := 2;
  GENERIC_READ := 2147483648;
  GENERIC_WRITE := 1073741824;
  FILE_SYNCHRONOUS_IO_ALERT := 16;
  FILE_SYNCHRONOUS_IO_NONALERT := 32;
  PEEK_DATA_OFFSET := 16
|}.

(** ** I/O status blocks, asyncs and messages *)

(** [struct iosb] as the glossary of the specification gives it.  A data
    pointer is [None] when null. *)
Record iosb := mk_iosb {
  status : ntstatus;
  result : Z;
  in_size : Z;
  in_data : option (list Byte.byte);
  out_size : Z;
  out_data : option (list Byte.byte)
}.

(** A suspended caller: its identity, whether the caller blocks on it, and
    the status block it shares with the server. *)
Record async := mk_async {
  async_id : nat;
  async_blocking : bool;
  async_iosb : iosb
}.

(** [struct pipe_message].  [msg_async] is the pointer to the writer's async
    (its identity; [None] once woken); [msg_iosb] is the status block that
    the message shares with that async.  The pipe code reaches this block
    only through the message, so the model keeps it there. *)
Record pipe_message := mk_message {
  read_pos : Z;
  msg_iosb : iosb;
  msg_async : option nat
}.

(** Calls into the host's async layer, in the order the pipe code makes
    them.  A terminated async is reported with the status passed and the
    contents of its status block at the call. *)
Inductive host_call :=
| call_async_terminate (a : nat) (st : ntstatus) (io : iosb)
| call_release_async (a : nat)
| call_set_reply_data (avail message_length : Z) (data : list Byte.byte).

(** Bytes of a message that no read has consumed yet. *)
Definition remaining (m : pipe_message) : Z :=
  sub32 (in_size (msg_iosb m)) (read_pos m).

Definition remaining_bytes (m : pipe_message) : list Byte.byte :=
  drop (Z.to_nat (read_pos m)) (default [] (in_data (msg_iosb m))).

(** [wake_message]: the write is reported complete to the writer. *)
Definition wake_message (m : pipe_message) : pipe_message * list host_call :=
  let io := msg_iosb m in
  let io' := mk_iosb STATUS_SUCCESS (in_size io) (in_size io) (in_data io)
                     (out_size io) (out_data io) in
  (mk_message (read_pos m) io' None,
   match msg_async m with
   | Some a =>
       [call_async_terminate a
          (if result io' =? 0 then STATUS_SUCCESS else STATUS_ALERTED) io';
        call_release_async a]
   | None => []
   end).

(** [memcpy( buf + write_pos, in_data + read_pos, writing )] into the
    temporary buffer.  The copy loop writes at consecutive positions, so
    the buffer is kept as the bytes written so far; a null source is an
    invalid pointer. *)
Definition memcpy_from (m : pipe_message) (writing : Z) (buf : list Byte.byte)
  : outcome (list Byte.byte) :=
  match in_data (msg_iosb m) with
  | Some d => Ok (buf ++ take (Z.to_nat writing) (drop (Z.to_nat (read_pos m)) d))
  | None => Fault invalid_pointer
  end.

(** The do-while loop of [message_queue_read].  Each round takes the head
    of the queue again, as the C code does; [fuel] bounds the rounds. *)
Fixpoint copy_loop (fuel : nat) (req : Z) (q : list pipe_message)
    (buf : list Byte.byte) (write_pos : Z) (calls : list host_call)
  : outcome (list pipe_message * list Byte.byte * list host_call) :=
  match fuel with
  | O => Fault out_of_fuel
  | S fuel' =>
      match q with
      | [] => Fault invalid_pointer
      | m :: rest =>
          let writing := Z.min (sub32 req write_pos) (remaining m) in
          match (if writing =? 0 then Ok buf else memcpy_from m writing buf) with
          | Fault f => Fault f
          | Ok buf' =>
              let write_pos' := add32 write_pos writing in
              let m' := mk_message (add32 (read_pos m) writing) (msg_iosb m) (msg_async m) in
              let '(q', calls') :=
                if read_pos m' =? in_size (msg_iosb m')
                then (rest, calls ++ snd (wake_message m'))
                else (m' :: rest, calls) in
              if write_pos' <? req
              then copy_loop fuel' req q' buf' write_pos' calls'
              else Ok (q', buf', calls')
          end
      end
  end.

(** The first loop of the byte-stream branch: the bytes on offer, counted
    message by message until the request is covered. *)
Fixpoint queue_avail (req : Z) (q : list pipe_message) (avail : Z) : Z :=
  match q with
  | [] => avail
  | m :: rest =>
      let avail' := add32 avail (remaining m) in
      if avail' >=? req then avail' else queue_avail req rest avail'
  end.

Section with_constants.
Context `{protocol_constants}.

(** [message_queue_read].  [malloc_ok] tells whether the allocation of the
    temporary buffer succeeds, should the function ask for one.  The result
    is the queue left, the reader's status block and the host calls made. *)
Definition message_queue_read (malloc_ok : bool) (flags : Z)
    (q : list pipe_message) (io : iosb)
  : outcome (list pipe_message * iosb * list host_call) :=
  match q with
  | [] => Fault invalid_pointer
  | message :: rest =>
      let '(size, st) :=
        if has_flag flags NAMED_PIPE_MESSAGE_STREAM_READ
        then
          let size := Z.min (out_size io) (remaining message) in
          (size,
           if add32 (read_pos message) size <? in_size (msg_iosb message)
           then STATUS_BUFFER_OVERFLOW else STATUS_SUCCESS)
        else (Z.min (out_size io) (queue_avail (out_size io) q 0), STATUS_SUCCESS) in
      if (read_pos message =? 0) && (in_size (msg_iosb message) =? size)
      then (* fast path: the payload buffer moves to the reader *)
        let mio := msg_iosb message in
        let moved := mk_message (read_pos message)
                       (mk_iosb (status mio) (result mio) (in_size mio) None
                                (out_size mio) (out_data mio))
                       (msg_async message) in
        Ok (rest,
            mk_iosb st size (in_size io) (in_data io) size (in_data mio),
            snd (wake_message moved))
      else if negb (size =? 0) && negb malloc_ok
      then Ok (q, mk_iosb STATUS_NO_MEMORY (result io) (in_size io) (in_data io) 0 None,
               [])
      else
        match copy_loop (S (length q)) size q [] 0 [] with
        | Fault f => Fault f
        | Ok (q', buf, calls) =>
            Ok (q',
                mk_iosb st size (in_size io) (in_data io) size
                        (if size =? 0 then out_data io else Some buf),
                calls)
        end
  end.

(** Whether [message_queue_read] asks the host for the temporary buffer:
    not on the fast path, and not for a read of no bytes. *)
Definition read_allocates (flags : Z) (q : list pipe_message) (io : iosb) : bool :=
  match q with
  | [] => false
  | message :: _ =>
      let size :=
        if has_flag flags NAMED_PIPE_MESSAGE_STREAM_READ
        then Z.min (out_size io) (remaining message)
        else Z.min (out_size io) (queue_avail (out_size io) q 0) in
      negb ((read_pos message =? 0) && (in_size (msg_iosb message) =? size))
      && negb (size =? 0)
  end.

End with_constants.

(** One round of the loop of [reselect_read_queue]: a pending read is fed
    from the queue, then terminated with [alerted] when it got bytes and
    with the status of its block otherwise. *)
Section read_write_rounds.
Context `{protocol_constants}.

Definition read_round (malloc_ok : bool) (flags : Z) (q : list pipe_message)
    (a : async) : outcome (list pipe_message * async * list host_call) :=
  match message_queue_read malloc_ok flags q (async_iosb a) with
  | Fault f => Fault f
  | Ok (q', io, calls) =>
      Ok (q', mk_async (async_id a) (async_blocking a) io,
          calls ++ [call_async_terminate (async_id a)
                      (if result io =? 0 then status io else STATUS_ALERTED) io;
                    call_release_async (async_id a)])
  end.

(** The loop itself, over the pending asyncs of the read queue in order.
    [script] gives the outcome of the allocation of each round that asks
    for one.  The result is the queue left, the asyncs still pending, the
    host calls, whether a read was done, and the script left. *)
Fixpoint read_rounds (script : list bool) (flags : Z) (q : list pipe_message)
    (pending : list async) (calls : list host_call) (read_done : bool)
  : outcome (list pipe_message * list async * list host_call * bool * list bool) :=
  match q, pending with
  | [], _ | _, [] => Ok (q, pending, calls, read_done, script)
  | _ :: _, a :: pending' =>
      match read_round (default true (head script)) flags q a with
      | Fault f => Fault f
      | Ok (q', _, calls') =>
          read_rounds (if read_allocates flags q (async_iosb a) then tail script else script)
                      flags q' pending' (calls ++ calls') true
      end
  end.

End read_write_rounds.

(** The walk of [reselect_write_queue] over the reader's queue. *)
Fixpoint write_walk (buffer_size : Z) (q : list pipe_message) (avail : Z)
  : list pipe_message * list host_call :=
  match q with
  | [] => ([], [])
  | m :: rest =>
      let pending := bool_decide (status (msg_iosb m) = STATUS_PENDING) in
      match msg_async m, pending with
      | Some a, false =>
          let '(q', cs) := write_walk buffer_size rest avail in
          (q', call_release_async a :: cs)
      | _, _ =>
          let avail' := add32 avail (remaining m) in
          let '(m', c) :=
            if pending && ((avail' <=? buffer_size) || (in_size (msg_iosb m) =? 0))
            then wake_message m else (m, []) in
          let '(q', cs) := write_walk buffer_size rest avail' in
          (m' :: q', c ++ cs)
      end
  end.

(** The walk of [pipe_end_disconnect] over the end's own queue. *)
Fixpoint disconnect_walk (st : ntstatus) (q : list pipe_message)
  : list pipe_message * list host_call :=
  match q with
  | [] => ([], [])
  | m :: rest =>
      let '(q', cs) := disconnect_walk st rest in
      match msg_async m with
      | Some a =>
          (q', call_async_terminate a st (msg_iosb m) :: call_release_async a :: cs)
      | None =>
          if decide (st = STATUS_PIPE_DISCONNECTED) then (q', cs) else (m :: q', cs)
      end
  end.

(** ** The server's objects *)

Definition addr := nat.

Inductive pipe_state :=
| ps_idle_server
| ps_wait_open
| ps_connected_server
| ps_wait_disconnect
| ps_wait_connect.

#[global] Instance pipe_state_eq_dec : EqDecision pipe_state.
Proof. solve_decision. Defined.

(** [struct pipe_end].  An async queue is [None] while not created and
    otherwise lists its pending asyncs, oldest first; of a write queue only
    the identities matter. *)
Record pipe_end := mk_pipe_end {
  fd : option addr;
  flags : Z;
  connection : option addr;
  buffer_size : Z;
  message_queue : list pipe_message;
  read_q : option (list async);
  write_q : option (list nat)
}.

(** The fields that [struct pipe_server] adds to its [pipe_end]. *)
Record pipe_server := mk_pipe_server {
  ioctl_fd : option addr;
  state : pipe_state;
  client : option addr;
  pipe : addr;
  flush_poll : bool;
  options : Z
}.

(** The fields that [struct pipe_client] adds to its [pipe_end]. *)
Record pipe_client := mk_pipe_client {
  server : option addr;
  client_flags : Z
}.

(** A pipe object is a server or a client; either starts with its
    [pipe_end], so the address of the object is the address of the end. *)
Inductive pipe_object :=
| server_object (e : pipe_end) (s : pipe_server)
| client_object (e : pipe_end) (c : pipe_client).

Definition object_end (o : pipe_object) : pipe_end :=
  match o with server_object e _ | client_object e _ => e end.

Definition with_end (o : pipe_object) (e : pipe_end) : pipe_object :=
  match o with
  | server_object _ s => server_object e s
  | client_object _ c => client_object e c
  end.

(** [struct named_pipe]; [refcount] is the count of its object header. *)
Record named_pipe := mk_named_pipe {
  refcount : nat;
  pipe_flags : Z;
  sharing : Z;
  maxinstances : Z;
  outsize : Z;
  insize : Z;
  instances : Z;
  timeout : Z;
  servers : list addr;
  waiters : option (list async)
}.

(** Modelled from the spec: the host's file descriptors (section 6, "FD
    abstraction"): the object that uses the descriptor, the asyncs queued
    on it with the wait type, the signalled bit, the status reported while
    it has no host descriptor, and for a socket the count of bytes that
    are buffered for reading ([None] for a pseudo descriptor). *)
Record fd_object := mk_fd {
  fd_user : option addr;
  fd_wait_q : list async;
  fd_signaled : bool;
  fd_no_fd_status : ntstatus;
  fd_unix : option Z
}.

(** The state of the server process as far as named pipes go.  [script]
    lists the outcomes of the host services that can fail (allocations,
    socketpair), in the order they are asked for; an exhausted script
    means success. *)
Record world := mk_world {
  objects : gmap addr pipe_object;
  pipes : gmap addr named_pipe;
  namespace : gmap (list Z) addr;
  fds : gmap addr fd_object;
  error : ntstatus;
  ignore_reselect : bool;
  calls : list host_call;
  handles : nat;
  script : list bool
}.

Definition empty_world : world :=
  mk_world ∅ ∅ ∅ ∅ STATUS_SUCCESS false [] 0 [].

(** ** The monad of server code: state, with faults *)

Definition M (A : Type) : Type := world → outcome (A * world).

Definition ret {A} (a : A) : M A := λ w, Ok (a, w).
Definition bind {A B} (m : M A) (k : A → M B) : M B := λ w,
  match m w with
  | Ok (a, w') => k a w'
  | Fault f => Fault f
  end.

Notation "x <- y ; z" := (bind y (λ x, z))
  (at level 20, y at level 100, z at level 200, only parsing).
Notation "' x <- y ; z" := (bind y (λ x, z))
  (at level 20, x pattern, y at level 100, z at level 200, only parsing).
Notation "y ;; z" := (bind y (λ _, z))
  (at level 100, z at level 200, only parsing, right associativity).

Definition raise {A} (f : fault) : M A := λ _, Fault f.
Definition get_world : M world := λ w, Ok (w, w).
Definition modify (f : world → world) : M unit := λ w, Ok (tt, f w).
Definition c_assert (b : bool) : M unit :=
  if b then ret tt else raise assertion_failed.
Definition when (b : bool) (m : M unit) : M unit := if b then m else ret tt.

(** A pointer that the code dereferences must not be null. *)
Definition deref {A} (p : option A) : M A :=
  match p with
  | Some a => ret a
  | None => raise invalid_pointer
  end.

Definition set_objects (f : gmap addr pipe_object → gmap addr pipe_object) (w : world) : world :=
  mk_world (f (objects w)) (pipes w) (namespace w) (fds w) (error w)
           (ignore_reselect w) (calls w) (handles w) (script w).
Definition set_pipes (f : gmap addr named_pipe → gmap addr named_pipe) (w : world) : world :=
  mk_world (objects w) (f (pipes w)) (namespace w) (fds w) (error w)
           (ignore_reselect w) (calls w) (handles w) (script w).
Definition set_namespace (f : gmap (list Z) addr → gmap (list Z) addr) (w : world) : world :=
  mk_world (objects w) (pipes w) (f (namespace w)) (fds w) (error w)
           (ignore_reselect w) (calls w) (handles w) (script w).
Definition set_fds (f : gmap addr fd_object → gmap addr fd_object) (w : world) : world :=
  mk_world (objects w) (pipes w) (namespace w) (f (fds w)) (error w)
           (ignore_reselect w) (calls w) (handles w) (script w).
Definition with_error (st : ntstatus) (w : world) : world :=
  mk_world (objects w) (pipes w) (namespace w) (fds w) st
           (ignore_reselect w) (calls w) (handles w) (script w).
Definition with_ignore_reselect (b : bool) (w : world) : world :=
  mk_world (objects w) (pipes w) (namespace w) (fds w) (error w)
           b (calls w) (handles w) (script w).
Definition with_calls (cs : list host_call) (w : world) : world :=
  mk_world (objects w) (pipes w) (namespace w) (fds w) (error w)
           (ignore_reselect w) cs (handles w) (script w).
Definition with_handles (n : nat) (w : world) : world :=
  mk_world (objects w) (pipes w) (namespace w) (fds w) (error w)
           (ignore_reselect w) (calls w) n (script w).
Definition with_script (s : list bool) (w : world) : world :=
  mk_world (objects w) (pipes w) (namespace w) (fds w) (error w)
           (ignore_reselect w) (calls w) (handles w) s.

Definition set_error (st : ntstatus) : M unit := modify (with_error st).
Definition clear_error : M unit := set_error STATUS_SUCCESS.
Definition get_error : M ntstatus := w <- get_world; ret (error w).
Definition set_ignore_reselect (b : bool) : M unit := modify (with_ignore_reselect b).
Definition log_calls (cs : list host_call) : M unit :=
  modify (λ w, with_calls (calls w ++ cs) w).

(** The next outcome of a host service that can fail. *)
Definition host_try : M bool :=
  w <- get_world;
  modify (with_script (tail (script w)));;
  ret (default true (head (script w))).

(** *** Objects behind pointers *)

Definition get_object (a : addr) : M pipe_object :=
  w <- get_world; deref (objects w !! a).

Definition get_end (a : addr) : M pipe_end :=
  o <- get_object a; ret (object_end o).

Definition update_end (a : addr) (f : pipe_end → pipe_end) : M unit :=
  o <- get_object a;
  modify (set_objects (insert a (with_end o (f (object_end o))))).

Definition get_server (a : addr) : M pipe_server :=
  o <- get_object a;
  match o with
  | server_object _ s => ret s
  | client_object _ _ => raise invalid_pointer
  end.

Definition update_server (a : addr) (f : pipe_server → pipe_server) : M unit :=
  o <- get_object a;
  match o with
  | server_object e s => modify (set_objects (insert a (server_object e (f s))))
  | client_object _ _ => raise invalid_pointer
  end.

Definition get_client (a : addr) : M pipe_client :=
  o <- get_object a;
  match o with
  | client_object _ c => ret c
  | server_object _ _ => raise invalid_pointer
  end.

Definition update_client (a : addr) (f : pipe_client → pipe_client) : M unit :=
  o <- get_object a;
  match o with
  | client_object e c => modify (set_objects (insert a (client_object e (f c))))
  | server_object _ _ => raise invalid_pointer
  end.

Definition get_pipe (p : addr) : M named_pipe :=
  w <- get_world; deref (pipes w !! p).

Definition update_pipe (p : addr) (f : named_pipe → named_pipe) : M unit :=
  np <- get_pipe p; modify (set_pipes (insert p (f np))).

Definition get_fd (f : addr) : M fd_object :=
  w <- get_world; deref (fds w !! f).

Definition update_fd (f : addr) (g : fd_object → fd_object) : M unit :=
  o <- get_fd f; modify (set_fds (insert f (g o))).

(** Assignments to single fields. *)
Definition with_fd (v : option addr) (e : pipe_end) : pipe_end :=
  mk_pipe_end v (flags e) (connection e) (buffer_size e) (message_queue e) (read_q e) (write_q e).
Definition with_flags (v : Z) (e : pipe_end) : pipe_end :=
  mk_pipe_end (fd e) v (connection e) (buffer_size e) (message_queue e) (read_q e) (write_q e).
Definition with_connection (v : option addr) (e : pipe_end) : pipe_end :=
  mk_pipe_end (fd e) (flags e) v (buffer_size e) (message_queue e) (read_q e) (write_q e).
Definition with_message_queue (v : list pipe_message) (e : pipe_end) : pipe_end :=
  mk_pipe_end (fd e) (flags e) (connection e) (buffer_size e) v (read_q e) (write_q e).
Definition with_read_q (v : option (list async)) (e : pipe_end) : pipe_end :=
  mk_pipe_end (fd e) (flags e) (connection e) (buffer_size e) (message_queue e) v (write_q e).
Definition with_write_q (v : option (list nat)) (e : pipe_end) : pipe_end :=
  mk_pipe_end (fd e) (flags e) (connection e) (buffer_size e) (message_queue e) (read_q e) v.

Definition with_ioctl_fd (v : option addr) (s : pipe_server) : pipe_server :=
  mk_pipe_server v (state s) (client s) (pipe s) (flush_poll s) (options s).
Definition with_state (v : pipe_state) (s : pipe_server) : pipe_server :=
  mk_pipe_server (ioctl_fd s) v (client s) (pipe s) (flush_poll s) (options s).
Definition with_client (v : option addr) (s : pipe_server) : pipe_server :=
  mk_pipe_server (ioctl_fd s) (state s) v (pipe s) (flush_poll s) (options s).
Definition with_flush_poll (v : bool) (s : pipe_server) : pipe_server :=
  mk_pipe_server (ioctl_fd s) (state s) (client s) (pipe s) v (options s).

Definition with_server (v : option addr) (c : pipe_client) : pipe_client :=
  mk_pipe_client v (client_flags c).

Definition with_instances (v : Z) (p : named_pipe) : named_pipe :=
  mk_named_pipe (refcount p) (pipe_flags p) (sharing p) (maxinstances p) (outsize p)
                (insize p) v (timeout p) (servers p) (waiters p).
Definition with_servers (v : list addr) (p : named_pipe) : named_pipe :=
  mk_named_pipe (refcount p) (pipe_flags p) (sharing p) (maxinstances p) (outsize p)
                (insize p) (instances p) (timeout p) v (waiters p).
Definition with_waiters (v : option (list async)) (p : named_pipe) : named_pipe :=
  mk_named_pipe (refcount p) (pipe_flags p) (sharing p) (maxinstances p) (outsize p)
                (insize p) (instances p) (timeout p) (servers p) v.
Definition with_refcount (v : nat) (p : named_pipe) : named_pipe :=
  mk_named_pipe v (pipe_flags p) (sharing p) (maxinstances p) (outsize p)
                (insize p) (instances p) (timeout p) (servers p) (waiters p).

Definition with_wait_q (v : list async) (f : fd_object) : fd_object :=
  mk_fd (fd_user f) v (fd_signaled f) (fd_no_fd_status f) (fd_unix f).
Definition with_signaled (v : bool) (f : fd_object) : fd_object :=
  mk_fd (fd_user f) (fd_wait_q f) v (fd_no_fd_status f) (fd_unix f).
Definition with_no_fd_status (v : ntstatus) (f : fd_object) : fd_object :=
  mk_fd (fd_user f) (fd_wait_q f) (fd_signaled f) v (fd_unix f).

(** ** The host services that the pipe code calls *)

(** Modelled from the spec: the AsyncQueue facade (section 2: "enqueue, wake
    (one/all with status), terminate one").  Waking a queue terminates its
    pending asyncs with the status, only the first one for [alerted]; a
    null queue is left alone. *)
Definition terminate_call (st : ntstatus) (a : async) : host_call :=
  call_async_terminate (async_id a) st (async_iosb a).

Definition wake_up_list (st : ntstatus) (q : list async) : list async * list host_call :=
  if decide (st = STATUS_ALERTED)
  then match q with
       | [] => ([], [])
       | a :: rest => (rest, [terminate_call st a])
       end
  else ([], map (terminate_call st) q).

Definition async_wake_up (st : ntstatus) (q : option (list async))
  : option (list async) * list host_call :=
  match q with
  | None => (None, [])
  | Some l => let '(l', cs) := wake_up_list st l in (Some l', cs)
  end.

Definition async_is_blocking (a : async) : bool := async_blocking a.

(** Modelled from the spec: [alloc_handle], which yields a fresh non-zero
    handle or zero with [no_memory] (section 7, resource errors). *)
Definition alloc_handle : M Z :=
  ok <- host_try;
  if ok
  then w <- get_world;
       modify (with_handles (S (handles w)));;
       ret (4 * Z.of_nat (S (handles w)))
  else set_error STATUS_NO_MEMORY;; ret 0.

Definition close_handle (h : Z) : M unit := ret tt.

(** Modelled from the spec: the FD abstraction of section 6 (pseudo-FD
    allocation, anonymous FD wrapping of a host socket, no-FD status,
    signalled-state bit, queue_async(type), async_wake_up(status)). *)
Definition get_fd_user (f : addr) : M (option addr) :=
  o <- get_fd f; ret (fd_user o).

Definition new_fd (o : fd_object) : M (option addr) :=
  ok <- host_try;
  if ok
  then w <- get_world;
       let f := fresh (dom (fds w)) in
       modify (set_fds (insert f o));;
       ret (Some f)
  else set_error STATUS_NO_MEMORY;; ret None.

Definition alloc_pseudo_fd (user : addr) : M (option addr) :=
  new_fd (mk_fd (Some user) [] false STATUS_BAD_DEVICE_TYPE None).

Definition create_anonymous_fd (user : addr) : M (option addr) :=
  new_fd (mk_fd (Some user) [] false STATUS_BAD_DEVICE_TYPE (Some 0)).

Definition set_fd_signaled (f : option addr) (b : bool) : M unit :=
  a <- deref f; update_fd a (with_signaled b).

Definition set_no_fd_status (f : option addr) (st : ntstatus) : M unit :=
  a <- deref f; update_fd a (with_no_fd_status st).

Definition fd_queue_async (f : option addr) (a : async) : M bool :=
  fa <- deref f;
  o <- get_fd fa;
  ok <- host_try;
  if ok
  then update_fd fa (with_wait_q (fd_wait_q o ++ [a]));; ret true
  else set_error STATUS_NO_MEMORY;; ret false.

Definition fd_async_wake_up (f : option addr) (st : ntstatus) : M unit :=
  fa <- deref f;
  o <- get_fd fa;
  let '(q, cs) := wake_up_list st (fd_wait_q o) in
  update_fd fa (with_wait_q q);;
  log_calls cs.

(** Modelled from the spec: the default behaviours of section 9 ("method
    tables"), which leave the pipe alone and report [not_supported]. *)
Definition host_default : M Z := set_error STATUS_NOT_SUPPORTED;; ret 0.

(** Reference counts of named pipes; the last release destroys the pipe
    ([named_pipe_destroy]) and unlinks its name. *)
Definition grab_pipe (p : addr) : M unit :=
  update_pipe p (λ np, with_refcount (S (refcount np)) np).

Definition named_pipe_destroy (p : addr) : M unit :=
  np <- get_pipe p;
  c_assert (bool_decide (servers np = []));;
  c_assert (instances np =? 0);;
  modify (set_pipes (delete p));;
  modify (set_namespace (filter (λ kv, kv.2 ≠ p))).

Definition release_pipe (p : addr) : M unit :=
  np <- get_pipe p;
  match refcount np with
  | S (S n) => update_pipe p (with_refcount (S n))
  | _ => named_pipe_destroy p
  end.

(** The back pointers, under names that a parameter called [server] or
    [client] does not hide. *)
Definition client_of (s : pipe_server) : option addr := client s.
Definition server_of (c : pipe_client) : option addr := server c.
Definition pipe_of (s : pipe_server) : addr := pipe s.

(** ** The functions of named_pipe.c *)

Section named_pipe.
Context `{protocol_constants}.

(** Returns if we handle I/O via server calls. *)
Definition use_server_io (e : pipe_end) : bool :=
  has_flag (flags e) NAMED_PIPE_MESSAGE_STREAM_WRITE.

Definition set_server_state (server : addr) (st : pipe_state) : M unit :=
  update_server server (with_state st);;
  e <- get_end server;
  s <- get_server server;
  match st with
  | ps_connected_server | ps_wait_disconnect =>
      c_assert (bool_decide (is_Some (fd e)))
  | ps_wait_open | ps_idle_server =>
      c_assert (bool_decide (fd e = None));;
      set_no_fd_status (ioctl_fd s) STATUS_PIPE_LISTENING
  | ps_wait_connect =>
      c_assert (bool_decide (fd e = None));;
      set_no_fd_status (ioctl_fd s) STATUS_PIPE_DISCONNECTED
  end.

Definition notify_empty (server : addr) : M unit :=
  s <- get_server server;
  if negb (flush_poll s) then ret tt
  else
    c_assert (bool_decide (state s = ps_connected_server));;
    update_server server (with_flush_poll false);;
    e <- get_end server;
    fd_async_wake_up (fd e) STATUS_SUCCESS.

(** [pipe_end_disconnect].  [fuel] bounds the depth of the calls: one unit
    for the call itself and one for each nested call.  The terminations of
    the walk over the queue are recorded as host calls.  They are made
    outside a reselect, so the host may answer the termination of a writer
    by a reselect for the end that wrote, while the walk is under way; the
    model does not follow that reselect.  For the queue of the peer, in the
    nested call, the reselect has nothing to do: the end that wrote has
    lost its connection by then.  For the queue of the end that starts the
    teardown it may wake later messages, and what is stated of the writers
    of that queue is limited to the first of them. *)
Fixpoint pipe_end_disconnect (fuel : nat) (pipe_end : addr) (st : ntstatus) : M unit :=
  match fuel with
  | O => raise out_of_fuel
  | S fuel' =>
      e <- get_end pipe_end;
      let peer := connection e in
      update_end pipe_end (with_connection None);;
      when (use_server_io e)
        (when (bool_decide (is_Some (fd e))) (fd_async_wake_up (fd e) st);;
         (let '(rq, cs) := async_wake_up st (read_q e) in
          update_end pipe_end (with_read_q rq);; log_calls cs);;
         (let '(q, cs) := disconnect_walk st (message_queue e) in
          update_end pipe_end (with_message_queue q);; log_calls cs);;
         when (bool_decide (st = STATUS_PIPE_DISCONNECTED))
              (set_fd_signaled (fd e) false));;
      match peer with
      | Some c =>
          update_end c (with_connection None);;
          pipe_end_disconnect fuel' c st
      | None => ret tt
      end
  end.

Definition do_disconnect (server : addr) : M unit :=
  s <- get_server server;
  e <- get_end server;
  match client s with
  | Some c =>
      (* we may only have a server fd, if the client disconnected *)
      cl <- get_client c;
      ce <- get_end c;
      c_assert (bool_decide (server_of cl = Some server));;
      c_assert (bool_decide (is_Some (fd ce)));;
      when (negb (use_server_io e)) (update_end c (with_fd None))
  | None => ret tt
  end;;
  c_assert (bool_decide (is_Some (fd e)));;
  update_end server (with_fd None).

(** [pipe_end_destroy]: every message left must have lost its async. *)
Definition pipe_end_destroy (pipe_end : addr) : M unit :=
  e <- get_end pipe_end;
  c_assert (forallb (λ m, bool_decide (msg_async m = None)) (message_queue e));;
  update_end pipe_end (with_message_queue []);;
  update_end pipe_end (with_read_q None);;
  update_end pipe_end (with_write_q None).

Definition free_object (a : addr) : M unit :=
  modify (set_objects (delete a)).

Definition pipe_server_destroy (server : addr) : M unit :=
  pipe_end_disconnect 2 server STATUS_PIPE_BROKEN;;
  e <- get_end server;
  when (bool_decide (is_Some (fd e)))
       (notify_empty server;; do_disconnect server);;
  pipe_end_destroy server;;
  s <- get_server server;
  match client s with
  | Some c =>
      update_client c (with_server None);;
      update_server server (with_client None)
  | None => ret tt
  end;;
  np <- get_pipe (pipe s);
  c_assert (negb (instances np =? 0));;
  update_pipe (pipe s) (with_instances (sub32 (instances np) 1));;
  update_pipe (pipe s) (λ p, with_servers (filter (λ a, a ≠ server) (servers p)) p);;
  release_pipe (pipe s);;
  free_object server.

Definition pipe_client_destroy (client : addr) : M unit :=
  cl <- get_client client;
  pipe_end_disconnect 2 client STATUS_PIPE_BROKEN;;
  match server_of cl with
  | Some server =>
      notify_empty server;;
      s <- get_server server;
      match state s with
      | ps_connected_server =>
          (* Don't destroy the server's fd here as we can't
             do a successful flush without it. *)
          set_server_state server ps_wait_disconnect
      | _ => raise assertion_failed
      end;;
      s <- get_server server;
      c_assert (bool_decide (is_Some (client_of s)));;
      update_server server (with_client None);;
      update_client client (with_server None)
  | None => ret tt
  end;;
  pipe_end_destroy client;;
  free_object client.

Definition pipe_data_remaining (server : addr) : M bool :=
  s <- get_server server;
  e <- get_end server;
  c_assert (bool_decide (is_Some (client_of s)));;
  c <- deref (client_of s);
  ce <- get_end c;
  if use_server_io e
  then ret (negb (bool_decide (message_queue ce = [])))
  else
    f <- deref (fd ce);
    o <- get_fd f;
    match fd_unix o with
    | None => ret false
    | Some n =>
        ok <- host_try;   (* poll *)
        ret (ok && (0 <? n))
    end.

Definition check_flushed (server : addr) : M unit :=
  r <- pipe_data_remaining server;
  if r then update_server server (with_flush_poll true)
  else
    update_server server (with_flush_poll false);;
    e <- get_end server;
    fd_async_wake_up (fd e) STATUS_SUCCESS.

Definition pipe_end_flush (pipe_end : addr) (a : async) : M Z :=
  e <- get_end pipe_end;
  drained <-
    (if use_server_io e
     then match connection e with
          | None => ret true
          | Some c => ce <- get_end c; ret (bool_decide (message_queue ce = []))
          end
     else ret false);
  if drained then ret 0
  else
    queued <- fd_queue_async (fd e) a;
    if negb queued then ret 0
    else if negb (async_is_blocking a) then set_error STATUS_PENDING;; ret 0
    else
      handle <- alloc_handle;
      when (negb (handle =? 0)) (set_error STATUS_PENDING);;
      ret handle.

Definition pipe_server_flush (f : addr) (a : async) : M Z :=
  user <- get_fd_user f;
  match user with
  | None => ret 0
  | Some server =>
      s <- get_server server;
      if negb (bool_decide (state s = ps_connected_server)) then ret 0
      else
        r <- pipe_data_remaining server;
        if negb r then ret 0
        else
          handle <- pipe_end_flush server a;
          e <- get_end server;
          s <- get_server server;
          (* there's no unix way to be alerted when a pipe becomes empty,
             so resort to polling *)
          when (negb (handle =? 0) && negb (use_server_io e) && negb (flush_poll s))
               (update_server server (with_flush_poll true));;
          ret handle
  end.

Definition pipe_client_flush (f : addr) (a : async) : M Z :=
  user <- get_fd_user f;
  pipe_end <- deref user;
  e <- get_end pipe_end;
  (* FIXME: Support byte mode. *)
  if use_server_io e then pipe_end_flush pipe_end a else ret 0.

(** [reselect_write_queue], given the function to call for the final
    [reselect_read_queue]. *)
Definition reselect_write_queue_then (read_reselect : addr → M unit)
    (pipe_end : addr) : M unit :=
  e <- get_end pipe_end;
  match connection e with
  | None => ret tt
  | Some reader =>
      set_ignore_reselect true;;
      re <- get_end reader;
      (let '(q, cs) := write_walk (buffer_size re) (message_queue re) 0 in
       update_end reader (with_message_queue q);; log_calls cs);;
      set_ignore_reselect false;;
      read_reselect reader
  end.

(** [reselect_read_queue]; it and [reselect_write_queue] call each other,
    and [fuel] bounds the depth of these calls. *)
Fixpoint reselect_read_queue (fuel : nat) (pipe_end : addr) : M unit :=
  match fuel with
  | O => raise out_of_fuel
  | S fuel' =>
      set_ignore_reselect true;;
      e <- get_end pipe_end;
      w <- get_world;
      '(q, pending, cs, read_done, script') <-
        (λ w', match read_rounds (script w) (flags e) (message_queue e)
                                 (default [] (read_q e)) [] false with
               | Ok r => Ok (r, w')
               | Fault f => Fault f
               end);
      update_end pipe_end (with_message_queue q);;
      update_end pipe_end (with_read_q (match read_q e with Some _ => Some pending | None => None end));;
      log_calls cs;;
      modify (with_script script');;
      set_ignore_reselect false;;
      match connection e with
      | Some c =>
          if bool_decide (q = [])
          then ce <- get_end c; fd_async_wake_up (fd ce) STATUS_SUCCESS
          else if read_done
               then reselect_write_queue_then (reselect_read_queue fuel') c
               else ret tt
      | None => ret tt
      end
  end.

Definition reselect_write_queue (fuel : nat) (pipe_end : addr) : M unit :=
  reselect_write_queue_then (reselect_read_queue fuel) pipe_end.

(** [async_get_iosb( async )->status] after a reselect.  For a reader, the
    block of an async that is still queued is untouched, and the block of a
    terminated one is the one reported at its termination.  For a writer,
    the block is the one of its message while the message keeps the async;
    a message that was woken or removed has a block that is not pending. *)
Fixpoint terminated_iosb (id : nat) (cs : list host_call) : option iosb :=
  match cs with
  | [] => None
  | call_async_terminate a _ io :: rest =>
      match terminated_iosb id rest with
      | Some io' => Some io'
      | None => if decide (a = id) then Some io else None
      end
  | _ :: rest => terminated_iosb id rest
  end.

Definition reader_iosb_status (pipe_end : addr) (a : async) : M ntstatus :=
  e <- get_end pipe_end;
  w <- get_world;
  if bool_decide (async_id a ∈ map async_id (default [] (read_q e)))
  then ret (status (async_iosb a))
  else ret (status (default (async_iosb a) (terminated_iosb (async_id a) (calls w)))).

Definition writer_iosb_status (read_end : addr) (a : async) : M ntstatus :=
  re <- get_end read_end;
  match find (λ m, bool_decide (msg_async m = Some (async_id a))) (message_queue re) with
  | Some m => ret (status (msg_iosb m))
  | None =>
      ret (if decide (status (async_iosb a) = STATUS_PENDING)
           then STATUS_SUCCESS else status (async_iosb a))
  end.

(** Create an async queue on first use. *)
Definition create_async_queue : M bool :=
  ok <- host_try;
  if ok then ret true else set_error STATUS_NO_MEMORY;; ret false.

Definition pipe_end_read (fuel : nat) (f : addr) (a : async) : M Z :=
  user <- get_fd_user f;
  pipe_end <- deref user;
  e <- get_end pipe_end;
  if negb (use_server_io e) then host_default
  else if bool_decide (connection e = None) && bool_decide (message_queue e = [])
  then set_error STATUS_PIPE_BROKEN;; ret 0
  else
    have_q <- (match read_q e with
               | Some _ => ret true
               | None =>
                   ok <- create_async_queue;
                   when ok (update_end pipe_end (with_read_q (Some [])));;
                   ret ok
               end);
    if negb have_q then ret 0
    else
      handle <- alloc_handle;
      if handle =? 0 then ret 0
      else
        e <- get_end pipe_end;
        update_end pipe_end (with_read_q (Some (default [] (read_q e) ++ [a])));;
        reselect_read_queue fuel pipe_end;;
        set_error STATUS_PENDING;;
        if negb (async_is_blocking a)
        then
          st <- reader_iosb_status pipe_end a;
          if bool_decide (st = STATUS_PENDING)
          then close_handle handle;; ret 0
          else ret handle
        else ret handle.

Definition pipe_end_write (fuel : nat) (f : addr) (a : async) : M Z :=
  user <- get_fd_user f;
  write_end <- deref user;
  e <- get_end write_end;
  if negb (use_server_io e) then host_default
  else
    match connection e with
    | None => set_error STATUS_PIPE_DISCONNECTED;; ret 0
    | Some read_end =>
        have_q <- (match write_q e with
                   | Some _ => ret true
                   | None =>
                       ok <- create_async_queue;
                       when ok (update_end write_end (with_write_q (Some [])));;
                       ret ok
                   end);
        if negb have_q then ret 0
        else
          handle <- alloc_handle;
          if handle =? 0 then ret 0
          else
            ok <- host_try;   (* mem_alloc of the message *)
            if negb ok
            then set_error STATUS_NO_MEMORY;; close_handle handle;; ret 0
            else
              re <- get_end read_end;
              update_end read_end
                (with_message_queue
                   (message_queue re ++ [mk_message 0 (async_iosb a) (Some (async_id a))]));;
              e <- get_end write_end;
              update_end write_end
                (with_write_q (Some (default [] (write_q e) ++ [async_id a])));;
              reselect_write_queue fuel write_end;;
              set_error STATUS_PENDING;;
              if negb (async_is_blocking a)
              then
                st <- writer_iosb_status read_end a;
                if bool_decide (st = STATUS_PENDING)
                then close_handle handle;; ret 0
                else ret handle
              else ret handle
    end.

(** The queue that the host asks to reselect. *)
Inductive queue_id := the_read_q | the_write_q | another_queue.

Definition pipe_end_reselect_async (fuel : nat) (f : addr) (queue : queue_id) : M unit :=
  user <- get_fd_user f;
  pipe_end <- deref user;
  w <- get_world;
  if ignore_reselect w then ret tt
  else
    e <- get_end pipe_end;
    if negb (use_server_io e) then ret tt   (* default_fd_reselect_async *)
    else
      match queue, write_q e, read_q e with
      | the_write_q, Some _, _ => reselect_write_queue fuel pipe_end
      | the_read_q, _, Some _ => reselect_read_queue fuel pipe_end
      | _, _, _ => ret tt
      end.

Definition is_overlapped (options : Z) : bool :=
  negb (has_flag options (Z.lor FILE_SYNCHRONOUS_IO_ALERT FILE_SYNCHRONOUS_IO_NONALERT)).

(** [pipe_end_peek]; [reply_max] is [get_reply_max_size()], and the reply
    ([ReadDataAvailable], [MessageLength], [Data]) is handed to the host. *)
Definition pipe_end_peek (reply_max : Z) (pipe_end : addr) : M unit :=
  e <- get_end pipe_end;
  if negb (use_server_io e) then set_error STATUS_NOT_SUPPORTED
  else if reply_max <? PEEK_DATA_OFFSET then set_error STATUS_INFO_LENGTH_MISMATCH
  else
    let reply_size := sub32 reply_max PEEK_DATA_OFFSET in
    let avail := fold_left (λ acc m, add32 acc (remaining m)) (message_queue e) 0 in
    '(message_length, reply_size, data) <-
      (if avail =? 0 then ret (0, 0, Ok [])
       else
         message <- deref (head (message_queue e));
         let reply_size := Z.min reply_size (remaining message) in
         ret (remaining message, reply_size,
              if reply_size =? 0 then Ok [] else memcpy_from message reply_size []));
    ok <- host_try;   (* set_reply_data_size *)
    if negb ok then set_error STATUS_NO_MEMORY
    else
      match data with
      | Ok d => log_calls [call_set_reply_data avail message_length d]
      | Fault f => raise f
      end.

Inductive ioctl_code :=
| FSCTL_PIPE_LISTEN
| FSCTL_PIPE_DISCONNECT
| FSCTL_PIPE_PEEK
| FSCTL_PIPE_WAIT
| FSCTL_OTHER (code : Z).

Definition pipe_server_ioctl (reply_max : Z) (f : addr) (code : ioctl_code) (a : async)
  : M Z :=
  user <- get_fd_user f;
  match code with
  | FSCTL_PIPE_LISTEN =>
      server <- deref user;
      s <- get_server server;
      match state s with
      | ps_idle_server | ps_wait_connect =>
          queued <- fd_queue_async (ioctl_fd s) a;
          if queued
          then
            wait_handle <- (if async_is_blocking a then alloc_handle else ret 0);
            set_server_state server ps_wait_open;;
            np <- get_pipe (pipe s);
            match waiters np with
            | Some q =>
                let '(q', cs) := wake_up_list STATUS_SUCCESS q in
                update_pipe (pipe s) (with_waiters (Some q'));; log_calls cs
            | None => ret tt
            end;;
            set_error STATUS_PENDING;;
            ret wait_handle
          else ret 0
      | ps_connected_server => set_error STATUS_PIPE_CONNECTED;; ret 0
      | ps_wait_disconnect => set_error STATUS_NO_DATA_DETECTED;; ret 0
      | ps_wait_open => set_error STATUS_INVALID_HANDLE;; ret 0
      end
  | FSCTL_PIPE_DISCONNECT =>
      server <- deref user;
      s <- get_server server;
      match state s with
      | ps_connected_server =>
          c_assert (bool_decide (is_Some (client_of s)));;
          c <- deref (client_of s);
          ce <- get_end c;
          c_assert (bool_decide (is_Some (fd ce)));;
          notify_empty server;;
          (* dump the client and server fds - client loses all waiting data *)
          pipe_end_disconnect 2 server STATUS_PIPE_DISCONNECTED;;
          do_disconnect server;;
          s <- get_server server;
          c <- deref (client_of s);
          update_client c (with_server None);;
          update_server server (with_client None);;
          set_server_state server ps_wait_connect;;
          ret 0
      | ps_wait_disconnect =>
          c_assert (bool_decide (client_of s = None));;
          pipe_end_disconnect 2 server STATUS_PIPE_DISCONNECTED;;
          do_disconnect server;;
          set_server_state server ps_wait_connect;;
          ret 0
      | ps_idle_server | ps_wait_open => set_error STATUS_PIPE_LISTENING;; ret 0
      | ps_wait_connect => set_error STATUS_PIPE_DISCONNECTED;; ret 0
      end
  | FSCTL_PIPE_PEEK =>
      server <- deref user;
      pipe_end_peek reply_max server;;
      ret 0
  | _ => host_default
  end.

Definition pipe_client_ioctl (reply_max : Z) (f : addr) (code : ioctl_code) (a : async)
  : M Z :=
  user <- get_fd_user f;
  match code with
  | FSCTL_PIPE_PEEK =>
      client <- deref user;
      pipe_end_peek reply_max client;;
      ret 0
  | _ => host_default
  end.

Definition init_pipe_end (pipe_flags : Z) (buffer_size : Z) : pipe_end :=
  mk_pipe_end None pipe_flags None buffer_size [] None None.

(** [alloc_object]: a fresh address for the new object, or null. *)
Definition alloc_object (o : pipe_object) : M (option addr) :=
  ok <- host_try;
  if ok
  then w <- get_world;
       let a := fresh (dom (objects w)) in
       modify (set_objects (insert a o));;
       ret (Some a)
  else set_error STATUS_NO_MEMORY;; ret None.

(** [create_pipe_server].  The state of the new object is written by
    [set_server_state] at the end; until then the model holds
    [ps_idle_server] there. *)
Definition create_pipe_server (pipe : addr) (options : Z) (pipe_flags : Z)
  : M (option addr) :=
  np <- get_pipe pipe;
  allocated <- alloc_object
    (server_object (init_pipe_end pipe_flags (insize np))
                   (mk_pipe_server None ps_idle_server None pipe false options));
  match allocated with
  | None => ret None
  | Some server =>
      update_pipe pipe (λ p, with_servers (server :: servers p) p);;
      grab_pipe pipe;;
      f <- alloc_pseudo_fd server;
      update_server server (with_ioctl_fd f);;
      match f with
      | None => pipe_server_destroy server;; ret None
      | Some _ =>
          set_fd_signaled f true;;
          set_server_state server ps_idle_server;;
          ret (Some server)
      end
  end.

Definition create_pipe_client (flags : Z) (pipe_flags : Z) (buffer_size : Z)
  : M (option addr) :=
  alloc_object (client_object (init_pipe_end pipe_flags buffer_size)
                              (mk_pipe_client None flags)).

(** The first server of the list that is in the given state. *)
Fixpoint first_server_in (st : pipe_state) (l : list addr) : M (option addr) :=
  match l with
  | [] => ret None
  | server :: rest =>
      s <- get_server server;
      if bool_decide (state s = st) then ret (Some server)
      else first_server_in st rest
  end.

Definition find_available_server (pipe : addr) : M (option addr) :=
  np <- get_pipe pipe;
  (* look for pipe servers that are listening *)
  listening <- first_server_in ps_wait_open (servers np);
  match listening with
  | Some server => ret (Some server)
  | None =>
      (* fall back to pipe servers that are idle *)
      first_server_in ps_idle_server (servers np)
  end.

(** [named_pipe_open_file]: the client end created, or null. *)
Definition named_pipe_open_file (pipe : addr) (access : Z) (sharing_req : Z) (options : Z)
  : M (option addr) :=
  np <- get_pipe pipe;
  found <- find_available_server pipe;
  match found with
  | None => set_error STATUS_PIPE_NOT_AVAILABLE;; ret None
  | Some server =>
      s <- get_server server;
      sp <- get_pipe (pipe_of s);
      let pipe_sharing := sharing sp in
      if (has_flag access GENERIC_READ && negb (has_flag pipe_sharing FILE_SHARE_READ))
         || (has_flag access GENERIC_WRITE && negb (has_flag pipe_sharing FILE_SHARE_WRITE))
      then set_error STATUS_ACCESS_DENIED;; ret None
      else
        created <- create_pipe_client options (pipe_flags np) (outsize np);
        match created with
        | None => ret None
        | Some client =>
            e <- get_end server;
            paired <-
              (if use_server_io e
               then
                 cf <- alloc_pseudo_fd client;
                 update_end client (with_fd cf);;
                 match cf with
                 | Some _ =>
                     set_fd_signaled cf true;;
                     update_end server (with_fd (ioctl_fd s));;
                     set_no_fd_status (ioctl_fd s) STATUS_BAD_DEVICE_TYPE;;
                     ret true
                 | None => pipe_client_destroy client;; ret false
                 end
               else
                 socketpair_ok <- host_try;
                 if socketpair_ok
                 then
                   c_assert (bool_decide (fd e = None));;
                   cf <- create_anonymous_fd client;
                   update_end client (with_fd cf);;
                   sf <- create_anonymous_fd server;
                   update_end server (with_fd sf);;
                   if bool_decide (is_Some cf) && bool_decide (is_Some sf)
                   then ret true
                   else pipe_client_destroy client;; ret false
                 else
                   set_error (STATUS_HOST 0);;   (* file_set_error *)
                   pipe_client_destroy client;;
                   ret false);
            if paired
            then
              s <- get_server server;
              when (bool_decide (state s = ps_wait_open))
                   (fd_async_wake_up (ioctl_fd s) STATUS_SUCCESS);;
              set_server_state server ps_connected_server;;
              update_server server (with_client (Some client));;
              update_client client (with_server (Some server));;
              update_end server (with_connection (Some client));;
              update_end client (with_connection (Some server));;
              ret (Some client)
            else ret None
        end
  end.

(** Modelled from the spec: the object manager's lookup of a named pipe by
    name (section 4.6, "opens the named pipe object by name under the
    device"); a missing name is reported by the host. *)
Definition open_named_object (name : list Z) : M (option addr) :=
  w <- get_world;
  match namespace w !! name with
  | Some p => ret (Some p)
  | None => set_error (STATUS_HOST 1);; ret None
  end.

(** [named_pipe_device_ioctl].  [wait_request] is the request buffer of
    FSCTL_PIPE_WAIT once its sizes are checked: the name and the timeout
    when one is specified, or [None] for a buffer that is too short. *)
Definition named_pipe_device_ioctl (code : ioctl_code)
    (wait_request : option (list Z * option Z)) (a : async) : M Z :=
  match code with
  | FSCTL_PIPE_WAIT =>
      match wait_request with
      | None => set_error STATUS_INVALID_PARAMETER;; ret 0
      | Some (name, _) =>
          opened <- open_named_object name;
          match opened with
          | None => ret 0
          | Some pipe =>
              found <- find_available_server pipe;
              match found with
              | Some _ => ret 0
              | None =>
                  np <- get_pipe pipe;
                  have_q <- (match waiters np with
                             | Some _ => ret true
                             | None =>
                                 ok <- create_async_queue;
                                 when ok (update_pipe pipe (with_waiters (Some [])));;
                                 ret ok
                             end);
                  if negb have_q then ret 0
                  else
                    np <- get_pipe pipe;
                    update_pipe pipe (with_waiters (Some (default [] (waiters np) ++ [a])));;
                    wait_handle <- (if async_is_blocking a then alloc_handle else ret 0);
                    set_error STATUS_PENDING;;
                    ret wait_handle
              end
          end
      end
  | _ => host_default
  end.

(** The part of [struct object_attributes] that the handler reads. *)
Record object_attributes := mk_objattr {
  rootdir : Z;
  attributes : Z;
  name : list Z
}.

(** The create_named_pipe request.  [req_objattr] is what
    [get_req_object_attributes] makes of the request: the attributes, or
    the status it failed with. *)
Record create_named_pipe_request := mk_create_request {
  req_access : Z;
  req_options : Z;
  req_sharing : Z;
  req_maxinstances : Z;
  req_outsize : Z;
  req_insize : Z;
  req_timeout : Z;
  req_flags : Z;
  req_objattr : object_attributes + ntstatus
}.

(** Modelled from the spec: [create_named_object] with OPEN-IF semantics
    (section 4.1, "looks up or creates the NamedPipe object"): an object of
    that name is returned with the name-collision indication, otherwise a
    new object is linked under the name. *)
Definition create_named_object (nm : list Z) : M (option addr) :=
  clear_error;;
  w <- get_world;
  match (if decide (nm = []) then None else namespace w !! nm) with
  | Some p => grab_pipe p;; set_error STATUS_OBJECT_NAME_EXISTS;; ret (Some p)
  | None =>
      ok <- host_try;
      if ok
      then
        let p := fresh (dom (pipes w)) in
        modify (set_pipes (insert p (mk_named_pipe 1 0 0 0 0 0 0 0 [] None)));;
        when (negb (bool_decide (nm = []))) (modify (set_namespace (insert nm p)));;
        ret (Some p)
      else set_error STATUS_NO_MEMORY;; ret None
  end.

(** DECL_HANDLER(create_named_pipe): the handle of the reply. *)
Definition create_named_pipe (req : create_named_pipe_request) : M Z :=
  match req_objattr req with
  | inr st => set_error st;; ret 0
  | inl objattr =>
      if (req_sharing req =? 0)
         || negb (Z.land (req_sharing req) (Z.lnot (Z.lor FILE_SHARE_READ FILE_SHARE_WRITE)) =? 0)
         || (negb (has_flag (req_flags req) NAMED_PIPE_MESSAGE_STREAM_WRITE)
             && has_flag (req_flags req) NAMED_PIPE_MESSAGE_STREAM_READ)
      then set_error STATUS_INVALID_PARAMETER;; ret 0
      else
        root_ok <-
          (if bool_decide (name objattr = [])
           then (* pipes need a root directory even without a name *)
             if rootdir objattr =? 0
             then set_error STATUS_OBJECT_PATH_SYNTAX_BAD;; ret false
             else
               ok <- host_try;   (* get_directory_obj *)
               when (negb ok) (set_error STATUS_INVALID_HANDLE);;
               ret ok
           else ret true);
        if negb root_ok then ret 0
        else
          created <- create_named_object (name objattr);
          match created with
          | None => ret 0
          | Some pipe =>
              err <- get_error;
              proceed <-
                (if negb (bool_decide (err = STATUS_OBJECT_NAME_EXISTS))
                 then
                   (* initialize it if it didn't already exist *)
                   update_pipe pipe (λ p,
                     mk_named_pipe (refcount p)
                       (Z.land (req_flags req) NAMED_PIPE_MESSAGE_STREAM_WRITE)
                       (req_sharing req) (req_maxinstances req) (req_outsize req)
                       (req_insize req) 0 (req_timeout req) [] None);;
                   ret true
                 else
                   np <- get_pipe pipe;
                   if maxinstances np <=? instances np
                   then set_error STATUS_INSTANCE_NOT_AVAILABLE;;
                        release_pipe pipe;; ret false
                   else if negb (sharing np =? req_sharing req)
                   then set_error STATUS_ACCESS_DENIED;;
                        release_pipe pipe;; ret false
                   else clear_error;; ret true);   (* clear the name collision *)
              if negb proceed then ret 0
              else
                created_server <- create_pipe_server pipe (req_options req) (req_flags req);
                handle <-
                  match created_server with
                  | Some server =>
                      handle <- alloc_handle;
                      s <- get_server server;
                      np <- get_pipe (pipe_of s);
                      update_pipe (pipe_of s) (with_instances (add32 (instances np) 1));;
                      (* the caller's handle is the reference that keeps
                         the server; without it the release destroys it *)
                      when (handle =? 0) (pipe_server_destroy server);;
                      ret handle
                  | None => ret 0
                  end;
                release_pipe pipe;;
                ret handle
          end
  end.

(** The object behind the handle of get/set_named_pipe_info: [None] for a
    handle that is not valid. *)
Record named_pipe_info := mk_info {
  info_flags : Z;
  info_sharing : Z;
  info_maxinstances : Z;
  info_instances : Z;
  info_insize : Z;
  info_outsize : Z
}.

Definition get_named_pipe_info (target : option addr) : M (option named_pipe_info) :=
  match target with
  | None => set_error STATUS_INVALID_HANDLE;; ret None
  | Some a =>
      o <- get_object a;
      '(fl, srv) <-
        match o with
        | server_object e _ => ret (Z.lor (flags e) NAMED_PIPE_SERVER_END, Some a)
        | client_object e c => clear_error;; ret (flags e, server_of c)
        end;
      match srv with
      | Some sa =>
          s <- get_server sa;
          np <- get_pipe (pipe_of s);
          ret (Some (mk_info fl (sharing np) (maxinstances np) (instances np)
                             (insize np) (outsize np)))
      | None => ret (Some (mk_info fl 0 0 0 0 0))
      end
  end.

Definition set_named_pipe_info (target : option addr) (new_flags : Z) : M unit :=
  match target with
  | None => set_error STATUS_INVALID_HANDLE
  | Some a =>
      o <- get_object a;
      '(is_client, srv) <-
        match o with
        | server_object _ _ => ret (false, Some a)
        | client_object _ c => clear_error;; ret (true, server_of c)
        end;
      match srv with
      | None => ret tt
      | Some sa =>
          s <- get_server sa;
          np <- get_pipe (pipe_of s);
          if negb (Z.land new_flags
                     (Z.lnot (Z.lor NAMED_PIPE_MESSAGE_STREAM_READ NAMED_PIPE_NONBLOCKING_MODE))
                   =? 0)
             || (has_flag new_flags NAMED_PIPE_MESSAGE_STREAM_READ
                 && negb (has_flag (pipe_flags np) NAMED_PIPE_MESSAGE_STREAM_WRITE))
          then set_error STATUS_INVALID_PARAMETER
          else update_end a (with_flags (Z.lor (pipe_flags np) new_flags))
      end
  end.

End named_pipe.

(** ** Well-formed queues and what they hold *)

(** A queued message is well formed when its sizes are those of a
    [data_size_t], its cursor lies within the payload, and the payload has
    the length that the status block announces. *)
Definition message_ok (m : pipe_message) : Prop :=
  0 <= read_pos m <= in_size (msg_iosb m)
  ∧ in_size (msg_iosb m) < 4294967296
  ∧ Z.of_nat (length (default [] (in_data (msg_iosb m)))) = in_size (msg_iosb m).

(** The unread bytes of a queue, in queue order, and their count. *)
Definition queue_bytes (q : list pipe_message) : list Byte.byte :=
  concat (map remaining_bytes q).

Definition queue_total (q : list pipe_message) : Z :=
  foldr (λ m n, in_size (msg_iosb m) - read_pos m + n) 0 q.

(** A queue is well formed when its messages are and its unread bytes can
    be counted in a [data_size_t]. *)
Definition queue_ok (q : list pipe_message) : Prop :=
  Forall message_ok q ∧ queue_total q < 4294967296.

(** ** Statements about single reads *)

Section read_statements.
Context `{protocol_constants}.


End read_statements.

(** ** Statements about the write reselect *)

(** A message stays queued in the walk of [reselect_write_queue] unless it
    still holds its writer's async while its status block is no longer
    pending. *)
Definition still_queued (m : pipe_message) : bool :=
  negb (bool_decide (is_Some (msg_async m))
        && negb (bool_decide (status (msg_iosb m) = STATUS_PENDING))).

(** A pending message is woken when the bytes counted up to and including
    it are within the budget, or when it is empty. *)
Definition within_budget (budget : Z) (counted : Z) (m : pipe_message) : bool :=
  bool_decide (status (msg_iosb m) = STATUS_PENDING)
  && ((counted <=? budget) || (in_size (msg_iosb m) =? 0)).

(** The count that the walk of [reselect_write_queue] has reached after
    the messages [l], from [counted]: the unread bytes are added up in a
    [data_size_t], as the code does, so modulo 2^32. *)
Definition walk_count (counted : Z) (l : list pipe_message) : Z :=
  foldl (λ n m, add32 n (remaining m)) counted l.

(** The reading of the specification that the walk removes every message
    whose status block is no longer pending. *)
Definition walk_removes_completed (budget : Z) (q : list pipe_message) : Prop :=
  ∀ m, m ∈ q → status (msg_iosb m) ≠ STATUS_PENDING →
       m ∉ fst (write_walk budget q 0).

(** The world in which [reselect_write_queue] calls [reselect_read_queue]:
    the reader's queue is the walked one and the calls of the walk are
    made. *)
Definition after_write_walk (reader : addr) (ro : pipe_object) (w : world) : world :=
  let walked := write_walk (buffer_size (object_end ro))
                           (message_queue (object_end ro)) 0 in
  with_ignore_reselect false
    (with_calls (calls w ++ snd walked)
       (set_objects
          (insert reader (with_end ro (with_message_queue (fst walked) (object_end ro))))
          (with_ignore_reselect true w))).

(** A woken message of three bytes: its writer's async is completed. *)
Definition woken_abc : pipe_message :=
  mk_message 0 (mk_iosb STATUS_SUCCESS 3 3 (Some [Byte.x41; Byte.x42; Byte.x43]) 0 None)
             None.

(** ** The server as a transition system *)

Section transitions.
Context `{protocol_constants}.

(** What the host can ask of the named-pipe code: the two request
    handlers that create and configure pipes, the operations that the
    object and descriptor tables dispatch to, the timer of the flush poll,
    and the destruction of an object whose last reference is dropped.  The
    last three are moves of the host itself: it decides the outcomes of its
    fallible services, cancels the async of a queued write (the status
    block of the message stops being pending), and moves data in and out of
    a socket. *)
Inductive request :=
| do_create_named_pipe (req : create_named_pipe_request)
| do_open_file (pipe : addr) (access sharing_req options : Z)
| do_server_ioctl (reply_max : Z) (f : addr) (code : ioctl_code) (a : async)
| do_client_ioctl (reply_max : Z) (f : addr) (code : ioctl_code) (a : async)
| do_device_ioctl (code : ioctl_code) (wait_request : option (list Z * option Z)) (a : async)
| do_read (fuel : nat) (f : addr) (a : async)
| do_write (fuel : nat) (f : addr) (a : async)
| do_server_flush (f : addr) (a : async)
| do_client_flush (f : addr) (a : async)
| do_reselect_async (fuel : nat) (f : addr) (queue : queue_id)
| do_check_flushed (server : addr)
| do_get_info (target : option addr)
| do_set_info (target : option addr) (new_flags : Z)
| do_destroy_server (server : addr)
| do_destroy_client (client : addr)
| host_decides (outcomes : list bool)
| host_cancels (pipe_end : addr) (a : nat) (st : ntstatus)
| host_socket (f : addr) (unread : Z).

Definition cancel_message (a : nat) (st : ntstatus) (m : pipe_message) : pipe_message :=
  if bool_decide (msg_async m = Some a)
  then mk_message (read_pos m)
         (mk_iosb st (result (msg_iosb m)) (in_size (msg_iosb m)) (in_data (msg_iosb m))
                  (out_size (msg_iosb m)) (out_data (msg_iosb m)))
         (msg_async m)
  else m.

Definition execute (r : request) : M unit :=
  match r with
  | do_create_named_pipe req => create_named_pipe req;; ret tt
  | do_open_file pipe access sharing_req options =>
      named_pipe_open_file pipe access sharing_req options;; ret tt
  | do_server_ioctl reply_max f code a => pipe_server_ioctl reply_max f code a;; ret tt
  | do_client_ioctl reply_max f code a => pipe_client_ioctl reply_max f code a;; ret tt
  | do_device_ioctl code wait_request a => named_pipe_device_ioctl code wait_request a;; ret tt
  | do_read fuel f a => pipe_end_read fuel f a;; ret tt
  | do_write fuel f a => pipe_end_write fuel f a;; ret tt
  | do_server_flush f a => pipe_server_flush f a;; ret tt
  | do_client_flush f a => pipe_client_flush f a;; ret tt
  | do_reselect_async fuel f queue => pipe_end_reselect_async fuel f queue
  | do_check_flushed server => check_flushed server
  | do_get_info target => get_named_pipe_info target;; ret tt
  | do_set_info target new_flags => set_named_pipe_info target new_flags
  | do_destroy_server server => pipe_server_destroy server
  | do_destroy_client client => pipe_client_destroy client
  | host_decides outcomes => modify (with_script outcomes)
  | host_cancels pipe_end a st =>
      e <- get_end pipe_end;
      update_end pipe_end (with_message_queue (map (cancel_message a st) (message_queue e)))
  | host_socket f unread =>
      update_fd f (λ o, mk_fd (fd_user o) (fd_wait_q o) (fd_signaled o) (fd_no_fd_status o)
                              (match fd_unix o with Some _ => Some unread | None => None end))
  end.

(** The states that the server process can be in. *)
Inductive reachable : world → Prop :=
| reachable_start : reachable empty_world
| reachable_step w r w' :
    reachable w → execute r w = Ok (tt, w') → reachable w'.

(** The requests whose code calls [pipe_end_disconnect]. *)
Definition disconnects (r : request) : Prop :=
  match r with
  | do_server_ioctl _ _ FSCTL_PIPE_DISCONNECT _
  | do_destroy_server _ | do_destroy_client _ => True
  | _ => False
  end.

(** The request that pairs two ends. *)
Definition pairs (r : request) : Prop :=
  match r with
  | do_open_file _ _ _ _ => True
  | _ => False
  end.

End transitions.

(** The connection graph of a world: for each pipe object, the connection
    of its end and, for a server, its state. *)
Abbreviation node := (option addr * option pipe_state)%type.

Definition node_of (o : pipe_object) : node :=
  (connection (object_end o),
   match o with
   | server_object _ s => Some (state s)
   | client_object _ _ => None
   end).

Definition graph (w : world) : gmap addr node := node_of <$> objects w.

(** The connection of the object at [a], if there is an object, and the
    state of the server there, if it is a server. *)
Definition conn_of (g : gmap addr node) (a : addr) : option (option addr) :=
  fst <$> g !! a.

Definition state_of (g : gmap addr node) (a : addr) : option pipe_state :=
  g !! a ≫= snd.

(** The central invariant: a connection points to a live end whose
    connection points back. *)
Definition symmetric (g : gmap addr node) : Prop :=
  ∀ a b, conn_of g a = Some (Some b) → conn_of g b = Some (Some a).

(** A server that idles, listens or waits for a connection is not
    connected; this is what the pairing step relies on. *)
Definition waiting (st : pipe_state) : Prop :=
  st = ps_idle_server ∨ st = ps_wait_open ∨ st = ps_wait_connect.

Definition waiting_unconnected (g : gmap addr node) : Prop :=
  ∀ a st, state_of g a = Some st → waiting st → conn_of g a = Some None.

Definition graph_ok (g : gmap addr node) : Prop :=
  symmetric g ∧ waiting_unconnected g.

(** What the code does to the graph.  [clear_connection] is
    [pipe_end->connection = NULL]; [cut] is [pipe_end_disconnect], which
    clears the connection of the end and of the peer it had; [connect] is
    the assignment of a connection and [set_state] the assignment of
    [server->state]. *)
Definition clear_connection (a : addr) (g : gmap addr node) : gmap addr node :=
  alter (λ n : node, (None, n.2)) a g.

Definition cut (a : addr) (g : gmap addr node) : gmap addr node :=
  match conn_of g a with
  | Some (Some b) => clear_connection b (clear_connection a g)
  | _ => clear_connection a g
  end.

Definition connect (a b : addr) (g : gmap addr node) : gmap addr node :=
  alter (λ n : node, (Some b, n.2)) a g.

Definition set_state (a : addr) (st : pipe_state) (g : gmap addr node) : gmap addr node :=
  alter (λ n : node, (n.1, Some st)) a g.

(** A computation that leaves the connection graph as it is. *)
Definition keeps_graph {A} (m : M A) : Prop :=
  ∀ w a w', m w = Ok (a, w') → graph w' = graph w.

(** What a request can do to the graph. *)
Definition request_moves `{protocol_constants} (r : request) (g g' : gmap addr node) : Prop :=
  match r with
  | do_create_named_pipe _ =>
      g' = g ∨ ∃ a, g !! a = None ∧ g' = <[a := (None, Some ps_idle_server)]> g
  | do_open_file _ _ _ _ =>
      g' = g
      ∨ (∃ s, g' = set_state s ps_wait_disconnect g)
      ∨ (∃ s c, g !! c = None
                ∧ (state_of g s = Some ps_wait_open ∨ state_of g s = Some ps_idle_server)
                ∧ g' = connect c s (connect s c (set_state s ps_connected_server
                                                  (<[c := (None, None)]> g))))
  | do_server_ioctl _ _ FSCTL_PIPE_LISTEN _ =>
      g' = g
      ∨ ∃ s, (state_of g s = Some ps_idle_server ∨ state_of g s = Some ps_wait_connect)
             ∧ g' = set_state s ps_wait_open g
  | do_server_ioctl _ _ FSCTL_PIPE_DISCONNECT _ =>
      g' = g ∨ ∃ s, g' = set_state s ps_wait_connect (cut s g)
  | do_destroy_server s => g' = delete s (cut s g)
  | do_destroy_client c =>
      g' = delete c (cut c g)
      ∨ ∃ s, g' = delete c (set_state s ps_wait_disconnect (cut c g))
  | _ => g' = g
  end.

(** How a request may change the connection of an object that it keeps:
    the pairing step sets a null connection, and the peer then points
    back; a request that disconnects clears it, and then the former peer,
    if it is kept, has a null connection as well. *)
Definition connection_discipline `{protocol_constants}
    (r : request) (g g' : gmap addr node) : Prop :=
  ∀ a c c', conn_of g a = Some c → conn_of g' a = Some c' → c' ≠ c →
    (pairs r ∧ c = None ∧ ∃ b, c' = Some b ∧ conn_of g' b = Some (Some a))
    ∨ (disconnects r ∧ c' = None
       ∧ ∀ b c'', c = Some b → conn_of g' b = Some c'' → c'' = None).

(** The world after a sequence of requests, where a request that fails
    leaves the world as it is. *)
Definition run_requests `{protocol_constants} (rs : list request) (w : world) : world :=
  fold_left (λ w r, match execute r w with Ok (_, w') => w' | Fault _ => w end) rs w.

(** ** Statements about the disconnect *)

(** A computation that never runs out of fuel. *)
Definition fuel_free {A} (m : M A) : Prop := ∀ w, m w ≠ Fault out_of_fuel.

(** What [pipe_end_disconnect] does to the end itself, before it turns to
    the peer. *)
Definition disconnect_own_end `{protocol_constants}
    (a : addr) (e : pipe_end) (st : ntstatus) : M unit :=
  update_end a (with_connection None);;
  when (use_server_io e)
    (when (bool_decide (is_Some (fd e))) (fd_async_wake_up (fd e) st);;
     (let '(rq, cs) := async_wake_up st (read_q e) in
      update_end a (with_read_q rq);; log_calls cs);;
     (let '(q, cs) := disconnect_walk st (message_queue e) in
      update_end a (with_message_queue q);; log_calls cs);;
     when (bool_decide (st = STATUS_PIPE_DISCONNECTED))
          (set_fd_signaled (fd e) false)).

(** ** Statements about reads after the peer is gone *)

(** A computation that leaves every pipe object as it is. *)
Definition keeps_objects {A} (m : M A) : Prop :=
  ∀ w a w', m w = Ok (a, w') → objects w' = objects w.

(** A message whose writer's async has completed: the message no longer
    holds it. *)
Definition writer_completed (m : pipe_message) : bool :=
  bool_decide (msg_async m = None).

(** The end that [pipe_end_disconnect] leaves when it is called for the
    end itself. *)
Definition torn_down `{protocol_constants} (st : ntstatus) (e : pipe_end) : pipe_end :=
  if use_server_io e
  then with_message_queue (disconnect_walk st (message_queue e)).1
         (with_read_q (async_wake_up st (read_q e)).1 (with_connection None e))
  else with_connection None e.

(** A message-mode end at [p], behind the descriptor [f], whose peer is
    gone: its connection is null; [fl] are its flags, [q] is its message
    queue, and no read is pending on it. *)
Definition peerless `{protocol_constants}
    (w : world) (f p : addr) (fl : Z) (q : list pipe_message) : Prop :=
  ∃ fo o,
    fds w !! f = Some fo ∧ fd_user fo = Some p ∧ objects w !! p = Some o
    ∧ use_server_io (object_end o) = true
    ∧ connection (object_end o) = None
    ∧ flags (object_end o) = fl
    ∧ message_queue (object_end o) = q
    ∧ default [] (read_q (object_end o)) = [].

(** A read of [a] on such an end with the queue [m :: rest] is served: the
    async is terminated with the bytes at the front of the queue (of the
    head message only in message-stream-read mode), the bytes that follow
    stay queued, and the end is as before with the queue that is left. *)
Definition read_served `{protocol_constants} (f p : addr) (fl : Z)
    (m : pipe_message) (rest : list pipe_message) (a : async)
    (h : Z) (w' : world) : Prop :=
  ∃ q' io,
    h ≠ 0 ∧ error w' = STATUS_PENDING
    ∧ call_async_terminate (async_id a)
        (if result io =? 0 then status io else STATUS_ALERTED) io ∈ calls w'
    ∧ (status io = STATUS_SUCCESS ∨ status io = STATUS_BUFFER_OVERFLOW)
    ∧ result io = out_size io
    ∧ out_size io
      = Z.min (out_size (async_iosb a))
          (if has_flag fl NAMED_PIPE_MESSAGE_STREAM_READ
           then in_size (msg_iosb m) - read_pos m
           else queue_total (m :: rest))
    ∧ (0 < out_size io →
       out_data io = Some (take (Z.to_nat (out_size io)) (queue_bytes (m :: rest))))
    ∧ queue_bytes q' = drop (Z.to_nat (out_size io)) (queue_bytes (m :: rest))
    ∧ queue_ok q' ∧ peerless w' f p fl q'.

(** The read is refused for want of memory: the request fails with
    no_memory, or the async is terminated with a status block that holds
    no_memory and no bytes; the end and its queue are as before. *)
Definition read_starved `{protocol_constants} (f p : addr) (fl : Z)
    (q : list pipe_message) (a : async) (w' : world) : Prop :=
  peerless w' f p fl q
  ∧ (error w' = STATUS_NO_MEMORY
     ∨ ∃ io, status io = STATUS_NO_MEMORY ∧ out_size io = 0
             ∧ call_async_terminate (async_id a)
                 (if result io =? 0 then STATUS_NO_MEMORY else STATUS_ALERTED) io
               ∈ calls w').

(** The reading of the specification that a read on a peerless end with
    the queue [m :: rest] delivers what is queued: the read returns and is
    served. *)
Definition read_delivers `{protocol_constants} (w : world) (f p : addr) (fl : Z)
    (m : pipe_message) (rest : list pipe_message) (a : async) : Prop :=
  ∃ h w', pipe_end_read 1 f a w = Ok (h, w') ∧ read_served f p fl m rest a h w'.

(** ** Statements about the client open *)

(** The state of the server at an address, if a server lives there. *)
Definition server_state_at (w : world) (a : addr) : option pipe_state :=
  match objects w !! a with
  | Some (server_object _ s) => Some (state s)
  | _ => None
  end.

(** The requested access conflicts with the sharing of the pipe: read
    without share-read, or write without share-write. *)
Definition access_conflicts `{protocol_constants} (access sh : Z) : Prop :=
  (has_flag access GENERIC_READ = true ∧ has_flag sh FILE_SHARE_READ = false)
  ∨ (has_flag access GENERIC_WRITE = true ∧ has_flag sh FILE_SHARE_WRITE = false).

(** ** Statements about create_named_pipe *)

Section create_statements.
Context `{protocol_constants}.


(** The parameters that the handler refuses: a sharing mode that is zero or
    has a bit that is neither share-read nor share-write, or the
    message-stream-read flag without the message-stream-write flag. *)
Definition bad_parameters (req : create_named_pipe_request) : Prop :=
  req_sharing req = 0
  ∨ (∃ i, 0 <= i ∧ Z.testbit (req_sharing req) i = true
          ∧ Z.testbit FILE_SHARE_READ i = false
          ∧ Z.testbit FILE_SHARE_WRITE i = false)
  ∨ (has_flag (req_flags req) NAMED_PIPE_MESSAGE_STREAM_READ = true
     ∧ has_flag (req_flags req) NAMED_PIPE_MESSAGE_STREAM_WRITE = false).

(** The request is refused with access-denied. *)
Definition denies_access (req : create_named_pipe_request) (w : world) : Prop :=
  ∃ handle w', create_named_pipe req w = Ok (handle, w')
               ∧ error w' = STATUS_ACCESS_DENIED.

End create_statements.

Definition request_share_read : create_named_pipe_request :=
  mk_create_request 0 0 1 1 4 4 0 1 (inl (mk_objattr 0 0 [112; 105; 112; 101])).

(** A pending write of two bytes by async 7. *)
Definition pending_de : pipe_message :=
  mk_message 0 (mk_iosb STATUS_PENDING 0 2 (Some [Byte.x44; Byte.x45]) 0 None)
             (Some 7%nat).

(** A message-mode server (object 1, descriptor 10) of the pipe 20,
    connected to its client (object 2, descriptor 11); the server holds a
    woken message and a pending one that the client wrote. *)
Definition pair_server : pipe_object :=
  server_object
    (mk_pipe_end (Some 10%nat) 3 (Some 2%nat) 4 [woken_abc; pending_de] None None)
    (mk_pipe_server (Some 10%nat) ps_connected_server (Some 2%nat) 20%nat false 0).

Definition pair_client : pipe_object :=
  client_object
    (mk_pipe_end (Some 11%nat) 1 (Some 1%nat) 4 [] None (Some [7%nat]))
    (mk_pipe_client (Some 1%nat) 0).

Definition connected_pair : world :=
  mk_world
    {[ 1%nat := pair_server; 2%nat := pair_client ]}
    {[ 20%nat := mk_named_pipe 1 1 3 1 4 4 1 0 [1%nat] None ]}
    {[ [112; 105; 112; 101] := 20%nat ]}
    {[ 10%nat := mk_fd (Some 1%nat) [] true STATUS_BAD_DEVICE_TYPE None;
       11%nat := mk_fd (Some 2%nat) [] true STATUS_BAD_DEVICE_TYPE None ]}
    STATUS_SUCCESS false [] 1 [].

(** A write of one byte by async 8 that is pending, and a write by async 6
    that was cancelled: its status block is no longer pending and the
    message still holds the async. *)
Definition pending_f : pipe_message :=
  mk_message 0 (mk_iosb STATUS_PENDING 0 1 (Some [Byte.x46]) 0 None) (Some 8%nat).
Definition cancelled_g : pipe_message :=
  mk_message 0 (mk_iosb STATUS_IO_TIMEOUT 0 1 (Some [Byte.x47]) 0 None) (Some 6%nat).

(** The connected pair when the server holds, from its client, a cancelled
    message, a woken one of three bytes, a pending one of one byte and a
    pending one of two bytes; the buffer of the server has four bytes. *)
Definition crowded_queue : list pipe_message :=
  [cancelled_g; woken_abc; pending_f; pending_de].

Definition crowded_server : pipe_object :=
  server_object
    (mk_pipe_end (Some 10%nat) 3 (Some 2%nat) 4 crowded_queue None None)
    (mk_pipe_server (Some 10%nat) ps_connected_server (Some 2%nat) 20%nat false 0).

Definition crowded_pair : world :=
  mk_world
    {[ 1%nat := crowded_server;
       2%nat := client_object
                  (mk_pipe_end (Some 11%nat) 1 (Some 1%nat) 4 [] None
                               (Some [6%nat; 8%nat; 7%nat]))
                  (mk_pipe_client (Some 1%nat) 0) ]}
    {[ 20%nat := mk_named_pipe 1 1 3 1 4 4 1 0 [1%nat] None ]}
    {[ [112; 105; 112; 101] := 20%nat ]}
    {[ 10%nat := mk_fd (Some 1%nat) [] true STATUS_BAD_DEVICE_TYPE None;
       11%nat := mk_fd (Some 2%nat) [] true STATUS_BAD_DEVICE_TYPE None ]}
    STATUS_SUCCESS false [] 1 [].

(** The worlds that the server reaches from its start when a message-mode
    pipe is created and then opened by a client. *)
Definition request_message_pipe : create_named_pipe_request :=
  mk_create_request 0 0 3 2 4 4 0 3 (inl (mk_objattr 0 0 [112; 105; 112; 101])).

Definition listening_world : world :=
  run_requests (H := wine_constants) [do_create_named_pipe request_message_pipe] empty_world.

Definition paired_world : world :=
  run_requests (H := wine_constants)
    [do_create_named_pipe request_message_pipe; do_open_file 0%nat 3221225472 0 0]
    empty_world.

Definition read_of_four : async :=
  mk_async 9 true (mk_iosb STATUS_PENDING 0 0 None 4 None).

(** A connected byte-mode pair of the pipe 20: the server (object 1) reads
    from the socket of descriptor 10, which holds five bytes that the
    client (object 2, descriptor 11) has written and the server has not
    read. *)
Definition byte_pair : world :=
  mk_world
    {[ 1%nat := server_object
                  (mk_pipe_end (Some 10%nat) 0 (Some 2%nat) 4 [] None None)
                  (mk_pipe_server (Some 12%nat) ps_connected_server (Some 2%nat) 20%nat false 0);
       2%nat := client_object
                  (mk_pipe_end (Some 11%nat) 0 (Some 1%nat) 4 [] None None)
                  (mk_pipe_client (Some 1%nat) 0) ]}
    {[ 20%nat := mk_named_pipe 1 0 3 1 4 4 1 0 [1%nat] None ]}
    {[ [112; 105; 112; 101] := 20%nat ]}
    {[ 10%nat := mk_fd (Some 1%nat) [] false STATUS_BAD_DEVICE_TYPE (Some 5);
       11%nat := mk_fd (Some 2%nat) [] false STATUS_BAD_DEVICE_TYPE (Some 0);
       12%nat := mk_fd (Some 1%nat) [] true STATUS_BAD_DEVICE_TYPE None ]}
    STATUS_SUCCESS false [] 1 [].

(** A blocking async for a flush. *)
Definition flush_async : async :=
  mk_async 8 true (mk_iosb STATUS_PENDING 0 0 None 0 None).

(** The connected pair once its client is torn down with pipe_broken. *)
Definition broken_pair : world :=
  match pipe_end_disconnect (H := wine_constants) 2 2%nat STATUS_PIPE_BROKEN connected_pair with
  | Ok (_, w) => w
  | Fault _ => connected_pair
  end.

(** The connected pair once its client is torn down with pipe_broken, when
    the host will refuse the next allocation. *)
Definition refusing_pair : world := with_script [false] broken_pair.

(** ** Statements about peeking *)

(** The reply of a peek on an end with the queue [q], for a reply buffer
    of [reply_max] bytes: the count of all unread bytes, the unread length
    of the first message, and as many of its unread bytes as fit behind the
    header. *)
Definition peek_reply `{protocol_constants} (reply_max : Z) (q : list pipe_message)
  : host_call :=
  match q with
  | [] => call_set_reply_data 0 0 []
  | m :: _ =>
      call_set_reply_data (queue_total q) (in_size (msg_iosb m) - read_pos m)
        (take (Z.to_nat (reply_max - PEEK_DATA_OFFSET)) (remaining_bytes m))
  end.

(** ** Statements about the pipe information requests *)

(** The server whose pipe the information requests on the object [o] at
    [a] look at: the object itself, or the server of a client. *)
Definition info_server (a : addr) (o : pipe_object) : option addr :=
  match o with
  | server_object _ _ => Some a
  | client_object _ c => server c
  end.

(** The bit that the reply adds for a server end. *)
Definition info_side `{protocol_constants} (o : pipe_object) : Z :=
  match o with
  | server_object _ _ => NAMED_PIPE_SERVER_END
  | client_object _ _ => 0
  end.

(** The flags that set_named_pipe_info refuses for a pipe with the flags
    [pipe_fl]: a bit other than message-stream-read and nonblocking-mode,
    or message-stream-read on a pipe that is not written in messages. *)
Definition refused_flags `{protocol_constants} (pipe_fl fl : Z) : Prop :=
  Z.land fl (Z.lnot (Z.lor NAMED_PIPE_MESSAGE_STREAM_READ NAMED_PIPE_NONBLOCKING_MODE)) ≠ 0
  ∨ (has_flag fl NAMED_PIPE_MESSAGE_STREAM_READ = true
     ∧ has_flag pipe_fl NAMED_PIPE_MESSAGE_STREAM_WRITE = false).

(** ** Statements about listening and waiting *)

(** A server of the list that a client open can take: one that listens or
    is idle. *)
Definition server_available (w : world) (l : list addr) : Prop :=
  ∃ sa, sa ∈ l ∧ (server_state_at w sa = Some ps_wait_open
                  ∨ server_state_at w sa = Some ps_idle_server).

(** The world [w'] and the handle [h] after the async [a] was parked and
    the request reported pending: a blocking caller, and no other, has a
    wait handle. *)
Definition parked (a : async) (h : Z) (w' : world) : Prop :=
  error w' = STATUS_PENDING ∧ (h ≠ 0 ↔ async_blocking a = true).

(** The world after a listen by [a] on the server at [server], which was
    [server_object e s] with the ioctl descriptor [io] at [fi] and the pipe
    [np], in a world [w]. *)
Definition listening_after (server fi : addr) (e : pipe_end) (s : pipe_server)
    (io : fd_object) (np : named_pipe) (a : async) (w w' : world) : Prop :=
  objects w' = <[server := server_object e (with_state ps_wait_open s)]> (objects w)
  ∧ fds w' = <[fi := with_no_fd_status STATUS_PIPE_LISTENING
                       (with_wait_q (fd_wait_q io ++ [a]) io)]> (fds w)
  ∧ pipes w'
    = <[pipe s := with_waiters (match waiters np with Some _ => Some [] | None => None end)
                    np]> (pipes w)
  ∧ calls w' = calls w ++ map (terminate_call STATUS_SUCCESS) (default [] (waiters np)).

(** The world after the async [a] was queued to wait for a listener of the
    pipe [np] at [p]. *)
Definition waiting_after (p : addr) (np : named_pipe) (a : async) (w w' : world) : Prop :=
  pipes w' = <[p := with_waiters (Some (default [] (waiters np) ++ [a])) np]> (pipes w)
  ∧ objects w' = objects w ∧ fds w' = fds w ∧ calls w' = calls w
  ∧ namespace w' = namespace w ∧ script w' = [].

(** ** Statements about the teardown of a connection *)

(** What [pipe_end_disconnect] does to the descriptor of a message-mode
    end, and the calls it makes for the end: the asyncs on the descriptor
    and the pending reads are woken with the status, and the writers of
    the queued messages are terminated with it. *)
Definition torn_down_fd (st : ntstatus) (fo : fd_object) : fd_object :=
  let woken := with_wait_q (wake_up_list st (fd_wait_q fo)).1 fo in
  if bool_decide (st = STATUS_PIPE_DISCONNECTED) then with_signaled false woken else woken.

Definition teardown_calls (st : ntstatus) (e : pipe_end) (fo : fd_object) : list host_call :=
  (wake_up_list st (fd_wait_q fo)).2
  ++ (async_wake_up st (read_q e)).2
  ++ (disconnect_walk st (message_queue e)).2.

(** A connected message-mode pair in the world [w]: the server
    [server_object e s] at [server] and the client [client_object ec cl] at
    [c] point at each other, the server's end uses its ioctl descriptor
    [fso] at [fs], and the client has the descriptor [fco] at [fc]. *)
Definition message_pair `{protocol_constants} (w : world) (server c : addr)
    (e : pipe_end) (s : pipe_server) (ec : pipe_end) (cl : pipe_client)
    (fs fc : addr) (fso fco : fd_object) : Prop :=
  objects w !! server = Some (server_object e s)
  ∧ objects w !! c = Some (client_object ec cl)
  ∧ state s = ps_connected_server ∧ flush_poll s = false
  ∧ client s = Some c ∧ server_of cl = Some server
  ∧ connection e = Some c ∧ connection ec = Some server
  ∧ use_server_io e = true ∧ use_server_io ec = true
  ∧ fd e = Some fs ∧ ioctl_fd s = Some fs ∧ fd ec = Some fc ∧ fc ≠ fs
  ∧ fds w !! fs = Some fso ∧ fds w !! fc = Some fco
  ∧ fd_user fso = Some server ∧ fd_user fco = Some c.

(** An end as every reselect of its read queue leaves it: no read is
    pending while messages are queued. *)
Definition read_settled (e : pipe_end) : Prop :=
  message_queue e = [] ∨ default [] (read_q e) = [].

(** A message that still holds the async of its writer. *)
Definition holds_writer (m : pipe_message) : bool :=
  bool_decide (is_Some (msg_async m)).

(** The two ends after FSCTL_PIPE_DISCONNECT. *)
Definition disconnected_server `{protocol_constants} (e : pipe_end) (s : pipe_server)
  : pipe_object :=
  server_object (with_fd None (torn_down STATUS_PIPE_DISCONNECTED e))
                (with_state ps_wait_connect (with_client None s)).

Definition disconnected_client `{protocol_constants} (ec : pipe_end) (cl : pipe_client)
  : pipe_object :=
  client_object (torn_down STATUS_PIPE_DISCONNECTED ec) (with_server None cl).

(** The world [w'] after a client open paired the server
    [server_object e s] at [server], with the ioctl descriptor [io] at
    [fi], with the new client at [c], whose new descriptor is at [fc]: the
    two are a connected pair, the asyncs of a listen are completed with
    success, and the request reports nothing. *)
Definition opened_pair `{protocol_constants} (server c fi fc : addr)
    (e : pipe_end) (s : pipe_server) (io : fd_object) (np : named_pipe) (options : Z)
    (w w' : world) : Prop :=
  message_pair w' server c
    (with_connection (Some c) (with_fd (Some fi) e))
    (with_client (Some c) (with_state ps_connected_server s))
    (mk_pipe_end (Some fc) (pipe_flags np) (Some server) (outsize np) [] None None)
    (mk_pipe_client (Some server) options)
    fi fc
    (with_no_fd_status STATUS_BAD_DEVICE_TYPE
       (if bool_decide (state s = ps_wait_open) then with_wait_q [] io else io))
    (mk_fd (Some c) [] true STATUS_BAD_DEVICE_TYPE None)
  ∧ (∀ x, x ≠ server → x ≠ c → objects w' !! x = objects w !! x)
  ∧ (∀ x, x ≠ fi → x ≠ fc → fds w' !! x = fds w !! x)
  ∧ calls w'
    = calls w ++ (if bool_decide (state s = ps_wait_open)
                  then map (terminate_call STATUS_SUCCESS) (fd_wait_q io) else [])
  ∧ pipes w' = pipes w ∧ error w' = error w ∧ script w' = [].

(** ** Statements about writes and reads across a connection *)

(** Two message-mode ends that are connected to each other: the end [oa]
    at [a], with the descriptor [fao] at [fa], and the end [ob] at [b],
    with the descriptor [fbo] at [fb]. *)
Definition connected_ends `{protocol_constants} (w : world) (a b : addr)
    (oa ob : pipe_object) (fa fb : addr) (fao fbo : fd_object) : Prop :=
  a ≠ b ∧ objects w !! a = Some oa ∧ objects w !! b = Some ob
  ∧ connection (object_end oa) = Some b ∧ connection (object_end ob) = Some a
  ∧ use_server_io (object_end oa) = true ∧ use_server_io (object_end ob) = true
  ∧ fds w !! fa = Some fao ∧ fd_user fao = Some a ∧ fd (object_end oa) = Some fa
  ∧ fds w !! fb = Some fbo ∧ fd_user fbo = Some b.

(** The message that a write of [a] queues, and the message once the
    reselect of the write queue has looked at it: it is woken when its
    bytes fit the buffer of the reader or it is empty. *)
Definition written_message (a : async) : pipe_message :=
  mk_message 0 (async_iosb a) (Some (async_id a)).

Definition fits_buffer (buffer : Z) (a : async) : bool :=
  (in_size (async_iosb a) <=? buffer) || (in_size (async_iosb a) =? 0).

Definition queued_message (buffer : Z) (a : async) : pipe_message :=
  if fits_buffer buffer a then (wake_message (written_message a)).1 else written_message a.

Definition write_calls (buffer : Z) (a : async) : list host_call :=
  if fits_buffer buffer a then (wake_message (written_message a)).2 else [].

(** The world [w1] after the write of [wa] on the end at [a] of two
    connected ends, when the reader at [b] had an empty queue: the message
    is at the reader, the async is on the write queue of the writer, and
    the request reports pending. *)
Definition written `{protocol_constants} (a b : addr) (oa ob : pipe_object) (wa : async)
    (w w1 : world) : Prop :=
  error w1 = STATUS_PENDING
  ∧ objects w1
    = <[b := with_end ob (with_message_queue
                            [queued_message (buffer_size (object_end ob)) wa]
                            (object_end ob))]>
        (<[a := with_end oa (with_write_q
                               (Some (default [] (write_q (object_end oa)) ++ [async_id wa]))
                               (object_end oa))]> (objects w))
  ∧ fds w1 = fds w
  ∧ calls w1 = calls w ++ write_calls (buffer_size (object_end ob)) wa
  ∧ script w1 = [].

(** The message as its buffer is handed to a reader that takes it whole,
    and the status block of that reader. *)
Definition moved_message (m : pipe_message) : pipe_message :=
  mk_message (read_pos m)
    (mk_iosb (status (msg_iosb m)) (result (msg_iosb m)) (in_size (msg_iosb m)) None
             (out_size (msg_iosb m)) (out_data (msg_iosb m)))
    (msg_async m).

Definition whole_read (m : pipe_message) (io : iosb) : iosb :=
  mk_iosb STATUS_SUCCESS (in_size (msg_iosb m)) (in_size io) (in_data io)
          (in_size (msg_iosb m)) (in_data (msg_iosb m)).

(** A connected byte-mode pair: the server [server_object e s] at [server]
    reads and writes through the socket behind its descriptor [fso] at
    [fs], the client [client_object ec cl] at [c] through the one behind
    [fco] at [fc], which holds [unread] bytes that the server wrote and the
    client has not read; no flush poll is running. *)
Definition byte_mode_pair `{protocol_constants} (w : world) (server c : addr)
    (e : pipe_end) (s : pipe_server) (ec : pipe_end) (cl : pipe_client)
    (fs fc : addr) (fso fco : fd_object) (unread : Z) : Prop :=
  objects w !! server = Some (server_object e s)
  ∧ objects w !! c = Some (client_object ec cl)
  ∧ state s = ps_connected_server ∧ flush_poll s = false
  ∧ client s = Some c
  ∧ use_server_io e = false
  ∧ fd e = Some fs ∧ fd ec = Some fc ∧ fc ≠ fs
  ∧ fds w !! fs = Some fso ∧ fds w !! fc = Some fco
  ∧ fd_user fso = Some server ∧ fd_unix fco = Some unread.

(** ** Statements about the first instance of a pipe *)

(** The pipe that create_named_pipe makes for a new name, with its first
    server at [sv], and that server, an idle one with the ioctl descriptor
    at [fi]. *)
Definition first_pipe `{protocol_constants} (req : create_named_pipe_request) (sv : addr)
  : named_pipe :=
  mk_named_pipe 1 (Z.land (req_flags req) NAMED_PIPE_MESSAGE_STREAM_WRITE)
    (req_sharing req) (req_maxinstances req) (req_outsize req) (req_insize req)
    1 (req_timeout req) [sv] None.

Definition first_server (req : create_named_pipe_request) (p fi : addr) : pipe_object :=
  server_object (init_pipe_end (req_flags req) (req_insize req))
                (mk_pipe_server (Some fi) ps_idle_server None p false (req_options req)).

(** The world [w'] after the creation of the pipe [nm], which did not
    exist in [w]: the pipe, its name, the server and the descriptor of the
    server are new, and nothing else has changed. *)
Definition first_instance `{protocol_constants} (req : create_named_pipe_request)
    (nm : list Z) (p sv fi : addr) (w w' : world) : Prop :=
  pipes w !! p = None ∧ objects w !! sv = None ∧ fds w !! fi = None
  ∧ pipes w' = <[p := first_pipe req sv]> (pipes w)
  ∧ namespace w' = <[nm := p]> (namespace w)
  ∧ objects w' = <[sv := first_server req p fi]> (objects w)
  ∧ fds w' = <[fi := mk_fd (Some sv) [] true STATUS_PIPE_LISTENING None]> (fds w)
  ∧ error w' = STATUS_SUCCESS ∧ calls w' = calls w ∧ script w' = [].

(** ** More worlds for the statements below *)

(** The parts of the connected pair. *)
Definition pair_server_end : pipe_end :=
  mk_pipe_end (Some 10%nat) 3 (Some 2%nat) 4 [woken_abc; pending_de] None None.
Definition pair_server_state : pipe_server :=
  mk_pipe_server (Some 10%nat) ps_connected_server (Some 2%nat) 20%nat false 0.
Definition pair_client_end : pipe_end :=
  mk_pipe_end (Some 11%nat) 1 (Some 1%nat) 4 [] None (Some [7%nat]).
Definition pair_client_state : pipe_client := mk_pipe_client (Some 1%nat) 0.
Definition pair_server_fd : fd_object :=
  mk_fd (Some 1%nat) [] true STATUS_BAD_DEVICE_TYPE None.
Definition pair_client_fd : fd_object :=
  mk_fd (Some 2%nat) [] true STATUS_BAD_DEVICE_TYPE None.
Definition pair_pipe : named_pipe := mk_named_pipe 1 1 3 1 4 4 1 0 [1%nat] None.

(** The connected pair after FSCTL_PIPE_DISCONNECT on its server: the
    server waits to be connected again, and the client has lost its
    server. *)
Definition disconnected_server_end : pipe_end := mk_pipe_end None 3 None 4 [] None None.
Definition disconnected_server_state : pipe_server :=
  mk_pipe_server (Some 10%nat) ps_wait_connect None 20%nat false 0.
Definition orphan_client : pipe_object :=
  client_object (mk_pipe_end (Some 11%nat) 1 None 4 [] None (Some [7%nat]))
                (mk_pipe_client None 0).
Definition disconnected_fd : fd_object :=
  mk_fd (Some 1%nat) [] false STATUS_PIPE_DISCONNECTED None.

Definition disconnected_pair : world :=
  mk_world
    {[ 1%nat := server_object disconnected_server_end disconnected_server_state;
       2%nat := orphan_client ]}
    {[ 20%nat := pair_pipe ]}
    {[ [112; 105; 112; 101] := 20%nat ]}
    {[ 10%nat := disconnected_fd;
       11%nat := mk_fd (Some 2%nat) [] false STATUS_BAD_DEVICE_TYPE None ]}
    STATUS_SUCCESS false [] 1 [].

(** A connected message-mode pair whose client has the three bytes of the
    woken message to read. *)
Definition served_server_end : pipe_end :=
  mk_pipe_end (Some 10%nat) 3 (Some 2%nat) 4 [] None None.
Definition served_client_end : pipe_end :=
  mk_pipe_end (Some 11%nat) 1 (Some 1%nat) 4 [woken_abc] None None.

Definition served_pair : world :=
  mk_world
    {[ 1%nat := server_object served_server_end pair_server_state;
       2%nat := client_object served_client_end pair_client_state ]}
    {[ 20%nat := pair_pipe ]}
    {[ [112; 105; 112; 101] := 20%nat ]}
    {[ 10%nat := pair_server_fd; 11%nat := pair_client_fd ]}
    STATUS_SUCCESS false [] 1 [].

(** The byte-mode pair when the socket of the client holds five bytes that
    the server wrote. *)
Definition byte_server_end : pipe_end :=
  mk_pipe_end (Some 10%nat) 0 (Some 2%nat) 4 [] None None.
Definition byte_server_state : pipe_server :=
  mk_pipe_server (Some 12%nat) ps_connected_server (Some 2%nat) 20%nat false 0.
Definition byte_client_end : pipe_end :=
  mk_pipe_end (Some 11%nat) 0 (Some 1%nat) 4 [] None None.
Definition byte_server_socket : fd_object :=
  mk_fd (Some 1%nat) [] false STATUS_BAD_DEVICE_TYPE (Some 0).
Definition byte_client_socket : fd_object :=
  mk_fd (Some 2%nat) [] false STATUS_BAD_DEVICE_TYPE (Some 5).

Definition byte_pair_unread : world :=
  mk_world
    {[ 1%nat := server_object byte_server_end byte_server_state;
       2%nat := client_object byte_client_end pair_client_state ]}
    {[ 20%nat := mk_named_pipe 1 0 3 1 4 4 1 0 [1%nat] None ]}
    {[ [112; 105; 112; 101] := 20%nat ]}
    {[ 10%nat := byte_server_socket;
       11%nat := byte_client_socket;
       12%nat := mk_fd (Some 1%nat) [] true STATUS_BAD_DEVICE_TYPE None ]}
    STATUS_SUCCESS false [] 1 [].

(** A world in which the pipe object exists and has no instance yet, as
    it is while its first server is created; the host will grant the next
    allocation and refuse the one after it. *)
Definition pipe_without_instance : named_pipe := mk_named_pipe 1 1 3 1 4 4 0 0 [] None.

Definition first_server_refused : world :=
  mk_world ∅ {[ 20%nat := pipe_without_instance ]} {[ [112; 105; 112; 101] := 20%nat ]} ∅
           STATUS_SUCCESS false [] 0 [true; false].

(** The connected pair when the host will do the same. *)
Definition second_server_refused : world := with_script [true; false] connected_pair.

(** The parts of the world with the newly created pipe. *)
Definition idle_server_end : pipe_end := mk_pipe_end None 3 None 4 [] None None.
Definition idle_server_state : pipe_server :=
  mk_pipe_server (Some 0%nat) ps_idle_server None 0%nat false 0.
Definition idle_fd : fd_object := mk_fd (Some 0%nat) [] true STATUS_PIPE_LISTENING None.
Definition created_pipe : named_pipe := mk_named_pipe 1 1 3 2 4 4 1 0 [0%nat] None.

(** Asyncs for a write of two bytes, a listen and a wait. *)
Definition write_of_two : async :=
  mk_async 5 false (mk_iosb STATUS_PENDING 0 2 (Some [Byte.x48; Byte.x49]) 0 None).
Definition listen_async : async :=
  mk_async 6 false (mk_iosb STATUS_PENDING 0 0 None 0 None).
Definition wait_async : async :=
  mk_async 4 true (mk_iosb STATUS_PENDING 0 0 None 0 None).

(** ** The access rights of a named pipe *)

(** The access masks that named_pipe_map_access uses beside GENERIC_READ
    and GENERIC_WRITE; their values come from the Windows headers. *)
Class access_rights := {
  GENERIC_EXECUTE : Z;
  GENERIC_ALL : Z;
  STANDARD_RIGHTS_READ : Z;
  STANDARD_RIGHTS_WRITE : Z;
  STANDARD_RIGHTS_EXECUTE : Z;
  STANDARD_RIGHTS_ALL : Z;
  FILE_CREATE_PIPE_INSTANCE : Z
}.

Definition wine_access_rights : access_rights := {|
  GENERIC_EXECUTE := 536870912;
  GENERIC_ALL := 268435456;
  STANDARD_RIGHTS_READ := 131072;
  STANDARD_RIGHTS_WRITE := 131072;
  STANDARD_RIGHTS_EXECUTE := 131072;
  STANDARD_RIGHTS_ALL := 2031616;
  FILE_CREATE_PIPE_INSTANCE := 4
|}.

Section map_access.
Context `{protocol_constants} `{access_rights}.

(** The four generic bits. *)
Definition generic_mask : Z :=
  Z.lor (Z.lor (Z.lor GENERIC_READ GENERIC_WRITE) GENERIC_EXECUTE) GENERIC_ALL.

(** [named_pipe_map_access]; the object is not looked at. *)
Definition named_pipe_map_access (access : Z) : Z :=
  let access :=
    if has_flag access GENERIC_READ then Z.lor access STANDARD_RIGHTS_READ else access in
  let access :=
    if has_flag access GENERIC_WRITE
    then Z.lor access (Z.lor STANDARD_RIGHTS_WRITE FILE_CREATE_PIPE_INSTANCE)
    else access in
  let access :=
    if has_flag access GENERIC_EXECUTE then Z.lor access STANDARD_RIGHTS_EXECUTE
    else access in
  let access :=
    if has_flag access GENERIC_ALL then Z.lor access STANDARD_RIGHTS_ALL else access in
  Z.land access (Z.lnot generic_mask).

End map_access.

(** The connected pair on a pipe with a second instance, an idle server
    (object 3) with the descriptor 12. *)
Definition shared_pipe : named_pipe := mk_named_pipe 2 1 3 2 4 4 2 0 [3%nat; 1%nat] None.

Definition shared_pair : world :=
  mk_world
    {[ 1%nat := server_object pair_server_end pair_server_state;
       2%nat := client_object pair_client_end pair_client_state;
       3%nat := server_object (mk_pipe_end None 3 None 4 [] None None)
                  (mk_pipe_server (Some 12%nat) ps_idle_server None 20%nat false 0) ]}
    {[ 20%nat := shared_pipe ]}
    {[ [112; 105; 112; 101] := 20%nat ]}
    {[ 10%nat := pair_server_fd; 11%nat := pair_client_fd;
       12%nat := mk_fd (Some 3%nat) [] true STATUS_PIPE_LISTENING None ]}
    STATUS_SUCCESS false [] 1 [].

(** A byte-mode pipe with one idle server (object 1, ioctl descriptor 12),
    in a world where the host will grant two requests, refuse the third and
    grant the fourth. *)
Definition byte_idle_end : pipe_end := mk_pipe_end None 0 None 4 [] None None.
Definition byte_idle_state : pipe_server :=
  mk_pipe_server (Some 12%nat) ps_idle_server None 20%nat false 0.
Definition byte_pipe : named_pipe := mk_named_pipe 1 0 3 1 4 4 1 0 [1%nat] None.

Definition byte_idle_world : world :=
  mk_world
    {[ 1%nat := server_object byte_idle_end byte_idle_state ]}
    {[ 20%nat := byte_pipe ]}
    {[ [112; 105; 112; 101] := 20%nat ]}
    {[ 12%nat := mk_fd (Some 1%nat) [] true STATUS_PIPE_LISTENING None ]}
    STATUS_SUCCESS false [] 1 [true; true; false; true].

(** The descriptor that [create_anonymous_fd] makes for the end at [a]: a
    socket with nothing to read. *)
Definition socket_of (a : addr) : fd_object :=
  mk_fd (Some a) [] false STATUS_BAD_DEVICE_TYPE (Some 0).

(** The world [w'] after a client open paired the byte-mode server
    [server_object e s] at [server], whose ioctl descriptor is [io] at
    [fi], with the new client at [c]: each end has a socket of its own, at
    [fsv] and at [fc], the two are a connected byte-mode pair, and the
    asyncs of a listen are completed with success. *)
Definition opened_sockets `{protocol_constants} (server c fi fsv fc : addr)
    (e : pipe_end) (s : pipe_server) (io : fd_object) (np : named_pipe) (options : Z)
    (w w' : world) : Prop :=
  byte_mode_pair w' server c
    (with_connection (Some c) (with_fd (Some fsv) e))
    (with_client (Some c) (with_state ps_connected_server s))
    (mk_pipe_end (Some fc) (pipe_flags np) (Some server) (outsize np) [] None None)
    (mk_pipe_client (Some server) options)
    fsv fc (socket_of server) (socket_of c) 0
  ∧ fsv ≠ fi ∧ fc ≠ fi
  ∧ fds w' !! fi = Some (if bool_decide (state s = ps_wait_open) then with_wait_q [] io else io)
  ∧ (∀ x, x ≠ server → x ≠ c → objects w' !! x = objects w !! x)
  ∧ (∀ x, x ≠ fi → x ≠ fsv → x ≠ fc → fds w' !! x = fds w !! x)
  ∧ calls w'
    = calls w ++ (if bool_decide (state s = ps_wait_open)
                  then map (terminate_call STATUS_SUCCESS) (fd_wait_q io) else [])
  ∧ pipes w' = pipes w ∧ error w' = error w ∧ script w' = [].

(** * Properties *)

(** ** Machine arithmetic *)

Lemma wrap32_small z : is_data_size z → wrap32 z = z.
Proof. unfold wrap32, is_data_size. intros Hz. apply Z.mod_small. lia. Qed.

Lemma add32_small a b : is_data_size (a + b) → add32 a b = a + b.
Proof. apply wrap32_small. Qed.

Lemma sub32_small a b : is_data_size (a - b) → sub32 a b = a - b.
Proof. apply wrap32_small. Qed.

Lemma remaining_ok m :
  message_ok m → remaining m = in_size (msg_iosb m) - read_pos m.
Proof.
  intros (Hpos & Hsize & _). unfold remaining. apply sub32_small.
  unfold is_data_size. lia.
Qed.

Lemma remaining_bytes_length m :
  message_ok m → Z.of_nat (length (remaining_bytes m)) = in_size (msg_iosb m) - read_pos m.
Proof.
  intros (Hpos & Hsize & Hlen). unfold remaining_bytes.
  rewrite length_drop. lia.
Qed.

Lemma queue_total_nonneg q : Forall message_ok q → 0 <= queue_total q.
Proof.
  induction 1 as [|m q Hm _ IH]; simpl; [lia|].
  destruct Hm as (Hpos & _). lia.
Qed.

Lemma queue_bytes_length q :
  Forall message_ok q → Z.of_nat (length (queue_bytes q)) = queue_total q.
Proof.
  induction 1 as [|m q Hm _ IH]; simpl; [reflexivity|].
  unfold queue_bytes in *. simpl. rewrite length_app, Nat2Z.inj_add, IH.
  rewrite remaining_bytes_length by assumption. reflexivity.
Qed.

Lemma queue_ok_cons m q : queue_ok (m :: q) → message_ok m ∧ queue_ok q.
Proof.
  intros [Hall Htot]. inversion Hall as [|? ? Hm Hq]; subst.
  split; [assumption|]. split; [assumption|].
  simpl in Htot. destruct Hm as (Hpos & _). lia.
Qed.

(** ** Reading from a message queue *)

Lemma memcpy_from_ok m n buf :
  message_ok m → 0 < n <= in_size (msg_iosb m) - read_pos m →
  memcpy_from m n buf = Ok (buf ++ take (Z.to_nat n) (remaining_bytes m)).
Proof.
  intros (Hpos & Hsize & Hlen) Hn. unfold memcpy_from, remaining_bytes.
  destruct (in_data (msg_iosb m)) as [d|]; simpl in *; [reflexivity|lia].
Qed.

Lemma message_ok_advance m n :
  message_ok m → 0 <= n <= in_size (msg_iosb m) - read_pos m →
  message_ok (mk_message (read_pos m + n) (msg_iosb m) (msg_async m)).
Proof. intros (Hpos & Hsize & Hlen) Hn. repeat split; simpl; lia. Qed.

Lemma remaining_bytes_advance m n :
  0 <= read_pos m → 0 <= n →
  remaining_bytes (mk_message (read_pos m + n) (msg_iosb m) (msg_async m))
  = drop (Z.to_nat n) (remaining_bytes m).
Proof.
  intros Hpos Hn. unfold remaining_bytes. simpl.
  rewrite drop_drop. f_equal. lia.
Qed.

Lemma copy_loop_consume m q fuel req buf wp cs :
  message_ok m → 0 <= wp <= req → req < 4294967296 →
  in_size (msg_iosb m) - read_pos m <= req - wp →
  copy_loop (S fuel) req (m :: q) buf wp cs
  = let wp' := wp + (in_size (msg_iosb m) - read_pos m) in
    let cs' := cs ++ snd (wake_message
                 (mk_message (in_size (msg_iosb m)) (msg_iosb m) (msg_async m))) in
    if wp' <? req
    then copy_loop fuel req q (buf ++ remaining_bytes m) wp' cs'
    else Ok (q, buf ++ remaining_bytes m, cs').
Proof.
  intros Hm Hwp Hreq Hle. pose proof Hm as (Hpos & Hsize & Hlen).
  pose proof (remaining_bytes_length m Hm) as Hrl.
  simpl copy_loop. rewrite (remaining_ok m Hm).
  rewrite sub32_small by (unfold is_data_size; lia).
  set (r := in_size (msg_iosb m) - read_pos m) in *.
  rewrite Z.min_r by lia.
  assert (Hcopy : (if r =? 0 then Ok buf else memcpy_from m r buf)
                  = Ok (buf ++ remaining_bytes m)).
  { destruct (Z.eqb_spec r 0) as [H0|H0].
    - rewrite (nil_length_inv (remaining_bytes m)) by lia.
      rewrite app_nil_r. reflexivity.
    - rewrite memcpy_from_ok by (auto; lia).
      rewrite take_ge by lia. reflexivity. }
  rewrite Hcopy. simpl.
  rewrite (add32_small (read_pos m)) by (unfold is_data_size; lia).
  replace (read_pos m + r) with (in_size (msg_iosb m)) by (unfold r; lia).
  rewrite Z.eqb_refl.
  rewrite (add32_small wp) by (unfold is_data_size; lia).
  reflexivity.
Qed.

Lemma copy_loop_partial m q fuel req buf wp cs :
  message_ok m → 0 <= wp <= req → req < 4294967296 →
  req - wp < in_size (msg_iosb m) - read_pos m →
  copy_loop (S fuel) req (m :: q) buf wp cs
  = Ok (mk_message (read_pos m + (req - wp)) (msg_iosb m) (msg_async m) :: q,
        buf ++ take (Z.to_nat (req - wp)) (remaining_bytes m), cs).
Proof.
  intros Hm Hwp Hreq Hgt. pose proof Hm as (Hpos & Hsize & Hlen).
  simpl copy_loop. rewrite (remaining_ok m Hm).
  rewrite sub32_small by (unfold is_data_size; lia).
  rewrite Z.min_l by lia.
  set (n := req - wp) in *.
  assert (Hcopy : (if n =? 0 then Ok buf else memcpy_from m n buf)
                  = Ok (buf ++ take (Z.to_nat n) (remaining_bytes m))).
  { destruct (Z.eqb_spec n 0) as [H0|H0].
    - rewrite H0. simpl. rewrite take_0, app_nil_r. reflexivity.
    - apply memcpy_from_ok; auto. lia. }
  rewrite Hcopy. simpl.
  rewrite (add32_small (read_pos m)) by (unfold is_data_size; lia).
  destruct (Z.eqb_spec (read_pos m + n) (in_size (msg_iosb m))) as [Heq|_]; [lia|].
  rewrite (add32_small wp) by (unfold is_data_size; lia).
  destruct (Z.ltb_spec (wp + n) req) as [Hlt|_]; [unfold n in Hlt; lia|].
  reflexivity.
Qed.

(** With fuel for one round per message, the copy loop returns: it appends
    the next [req - wp] unread bytes of the queue to the buffer and leaves
    the bytes after them in the queue. *)
Lemma copy_loop_spec q : ∀ m fuel req buf wp cs,
  queue_ok (m :: q) → 0 <= wp <= req → req < 4294967296 →
  req - wp <= queue_total (m :: q) → (length q < fuel)%nat →
  ∃ q' cs',
    copy_loop fuel req (m :: q) buf wp cs
    = Ok (q', buf ++ take (Z.to_nat (req - wp)) (queue_bytes (m :: q)), cs')
    ∧ queue_ok q'
    ∧ queue_bytes q' = drop (Z.to_nat (req - wp)) (queue_bytes (m :: q))
    ∧ (req - wp <= in_size (msg_iosb m) - read_pos m →
       q' = q ∨ ∃ p, q' = mk_message p (msg_iosb m) (msg_async m) :: q).
Proof.
  induction q as [|m2 q IH]; intros m fuel req buf wp cs Hok Hwp Hreq Htot Hfuel;
    (destruct fuel as [|fuel]; [simpl in Hfuel; lia|]);
    destruct (queue_ok_cons _ _ Hok) as [Hm Hq];
    pose proof Hm as (Hpos & Hsize & Hlen);
    pose proof (remaining_bytes_length m Hm) as Hrl;
    simpl in Htot;
    destruct (Z.le_gt_cases (in_size (msg_iosb m) - read_pos m) (req - wp)) as [Hle|Hgt].
  - (* the last message, taken whole *)
    rewrite copy_loop_consume by assumption. cbv zeta.
    destruct (Z.ltb_spec (wp + (in_size (msg_iosb m) - read_pos m)) req) as [Hlt|_]; [lia|].
    eexists _, _. split; [|split; [|split]].
    + unfold queue_bytes. simpl. rewrite app_nil_r, take_ge by lia. reflexivity.
    + assumption.
    + unfold queue_bytes. simpl. rewrite app_nil_r, drop_ge by lia. reflexivity.
    + intros _. left. reflexivity.
  - (* the last message, taken in part *)
    rewrite copy_loop_partial by (assumption || lia).
    eexists _, _. split; [|split; [|split]].
    + unfold queue_bytes. simpl. rewrite app_nil_r. reflexivity.
    + split; [|simpl; lia].
      constructor; [|constructor]. apply message_ok_advance; auto. lia.
    + unfold queue_bytes. simpl. rewrite !app_nil_r.
      apply remaining_bytes_advance; lia.
    + intros _. right. eexists. reflexivity.
  - (* a message taken whole, with more behind it *)
    rewrite copy_loop_consume by assumption. cbv zeta.
    destruct (Z.ltb_spec (wp + (in_size (msg_iosb m) - read_pos m)) req) as [Hlt|Hge].
    + edestruct (IH m2 fuel req (buf ++ remaining_bytes m)
                    (wp + (in_size (msg_iosb m) - read_pos m)))
        as (q' & cs' & Hrun & Hok' & Hbytes & _);
        [exact Hq|lia|assumption|simpl; lia|simpl in Hfuel |- *; lia|].
      exists q', cs'. split; [|split; [|split]].
      * rewrite Hrun. f_equal. f_equal. f_equal.
        rewrite <- app_assoc. f_equal.
        change (queue_bytes (m :: m2 :: q)) with (remaining_bytes m ++ queue_bytes (m2 :: q)).
        rewrite take_app_ge by lia. f_equal. f_equal. lia.
      * assumption.
      * rewrite Hbytes.
        change (queue_bytes (m :: m2 :: q)) with (remaining_bytes m ++ queue_bytes (m2 :: q)).
        rewrite drop_app_ge by lia. f_equal. lia.
      * intros Hhead. lia.
    + eexists _, _. split; [|split; [|split]].
      * change (queue_bytes (m :: m2 :: q)) with (remaining_bytes m ++ queue_bytes (m2 :: q)).
        rewrite take_app_le, take_ge by lia. reflexivity.
      * assumption.
      * change (queue_bytes (m :: m2 :: q)) with (remaining_bytes m ++ queue_bytes (m2 :: q)).
        rewrite drop_app_ge by lia.
        replace (Z.to_nat (req - wp) - length (remaining_bytes m))%nat with 0%nat by lia.
        reflexivity.
      * intros _. left. reflexivity.
  - (* a message taken in part, with more behind it *)
    rewrite copy_loop_partial by (assumption || lia).
    eexists _, _. split; [|split; [|split]].
    + change (queue_bytes (m :: m2 :: q)) with (remaining_bytes m ++ queue_bytes (m2 :: q)).
      rewrite take_app_le by lia. reflexivity.
    + split.
      * constructor; [|apply Hq]. apply message_ok_advance; auto. lia.
      * destruct Hok as [_ Hlim]. simpl in Hlim |- *. lia.
    + change (queue_bytes (m :: m2 :: q)) with (remaining_bytes m ++ queue_bytes (m2 :: q)).
      rewrite drop_app_le by lia.
      unfold queue_bytes at 1. simpl. fold (queue_bytes q). f_equal.
      apply remaining_bytes_advance; lia.
    + intros _. right. eexists. reflexivity.
Qed.

Lemma queue_avail_spec q : ∀ req acc,
  Forall message_ok q → 0 <= acc → acc + queue_total q < 4294967296 →
  Z.min req (queue_avail req q acc) = Z.min req (acc + queue_total q).
Proof.
  induction q as [|m q IH]; intros req acc Hall Hacc Htot; simpl.
  - f_equal. lia.
  - inversion Hall as [|? ? Hm Hq]; subst. pose proof Hm as (Hpos & _).
    pose proof (queue_total_nonneg q Hq) as Hnn. simpl in Htot.
    rewrite (remaining_ok m Hm).
    rewrite add32_small by (unfold is_data_size; lia).
    destruct (Z.geb_spec (acc + (in_size (msg_iosb m) - read_pos m)) req) as [Hge|Hlt].
    + lia.
    + rewrite IH by (assumption || lia). f_equal. lia.
Qed.

Section message_queue_read_properties.
Context `{protocol_constants}.

(** What [message_queue_read] delivers when its buffer can be allocated. *)
Lemma message_queue_read_spec flags m rest io :
  queue_ok (m :: rest) → is_data_size (out_size io) →
  let q := m :: rest in
  let head_left := in_size (msg_iosb m) - read_pos m in
  let message_mode := has_flag flags NAMED_PIPE_MESSAGE_STREAM_READ in
  let size := Z.min (out_size io) (if message_mode then head_left else queue_total q) in
  let st := if message_mode && (out_size io <? head_left)
            then STATUS_BUFFER_OVERFLOW else STATUS_SUCCESS in
  ∃ q' data cs,
    message_queue_read true flags q io
    = Ok (q', mk_iosb st size (in_size io) (in_data io) size data, cs)
    ∧ (0 < size → data = Some (take (Z.to_nat size) (queue_bytes q)))
    ∧ queue_ok q'
    ∧ queue_bytes q' = drop (Z.to_nat size) (queue_bytes q)
    ∧ (message_mode = true →
       q' = rest ∨ ∃ p, q' = mk_message p (msg_iosb m) (msg_async m) :: rest).
Proof.
  intros Hok Hout q head_left message_mode size st. subst q.
  destruct (queue_ok_cons _ _ Hok) as [Hm Hrest].
  pose proof Hm as (Hpos & Hsize & Hlen).
  pose proof (queue_total_nonneg rest (proj1 Hrest)) as Hnn.
  pose proof (remaining_bytes_length m Hm) as Hrl.
  assert (Htot : queue_total (m :: rest) = head_left + queue_total rest) by reflexivity.
  assert (Hsz : 0 <= size ∧ size <= queue_total (m :: rest) ∧ size < 4294967296
                ∧ (message_mode = true → size <= head_left)).
  { unfold size, is_data_size in *.
    destruct message_mode; repeat split; intros; try discriminate; lia. }
  destruct Hsz as (Hsz0 & Hsz1 & Hsz2 & Hsz3).
  assert (Hpick :
    (if has_flag flags NAMED_PIPE_MESSAGE_STREAM_READ
     then (Z.min (out_size io) (remaining m),
           if add32 (read_pos m) (Z.min (out_size io) (remaining m))
              <? in_size (msg_iosb m)
           then STATUS_BUFFER_OVERFLOW else STATUS_SUCCESS)
     else (Z.min (out_size io) (queue_avail (out_size io) (m :: rest) 0), STATUS_SUCCESS))
    = (size, st)).
  { unfold size, st, message_mode.
    destruct (has_flag flags NAMED_PIPE_MESSAGE_STREAM_READ); cbn [andb].
    - rewrite (remaining_ok m Hm). fold head_left.
      rewrite add32_small by (unfold is_data_size in *; lia).
      f_equal.
      destruct (Z.ltb_spec (read_pos m + Z.min (out_size io) head_left)
                           (in_size (msg_iosb m))),
               (Z.ltb_spec (out_size io) head_left); try reflexivity; lia.
    - destruct Hok as [Hall Hlim].
      rewrite queue_avail_spec by (assumption || lia). reflexivity. }
  unfold message_queue_read. rewrite Hpick.
  destruct ((read_pos m =? 0) && (in_size (msg_iosb m) =? size)) eqn:Hfast.
  - (* fast path *)
    apply andb_true_iff in Hfast as [Hp0 Hfull].
    apply Z.eqb_eq in Hp0. apply Z.eqb_eq in Hfull.
    eexists rest, _, _. split; [reflexivity|].
    assert (Hbytes : remaining_bytes m = default [] (in_data (msg_iosb m))).
    { unfold remaining_bytes. rewrite Hp0. reflexivity. }
    split; [|split; [|split]].
    + intros Hpos'. destruct (in_data (msg_iosb m)) as [d|] eqn:Hd.
      * f_equal. unfold queue_bytes. simpl. fold (queue_bytes rest).
        rewrite Hbytes. simpl in *. rewrite take_app_le, take_ge by lia. reflexivity.
      * simpl in Hlen. lia.
    + assumption.
    + unfold queue_bytes. simpl. fold (queue_bytes rest).
      rewrite drop_app_ge by lia.
      replace (Z.to_nat size - length (remaining_bytes m))%nat with 0%nat by lia.
      reflexivity.
    + intros _. left. reflexivity.
  - (* copy path *)
    replace (negb (size =? 0) && negb true) with false
      by (rewrite andb_false_r; reflexivity).
    destruct (copy_loop_spec rest m (S (length (m :: rest))) size [] 0 [])
      as (q' & cs & Hrun & Hok' & Hbytes & Hhead);
      [assumption|lia|assumption|lia|simpl; lia|].
    rewrite Hrun. rewrite Z.sub_0_r in *. simpl app.
    eexists q', _, cs. split; [reflexivity|]. split; [|split; [|split]].
    + intros Hpos'. destruct (Z.eqb_spec size 0); [lia|reflexivity].
    + assumption.
    + assumption.
    + intros Hmode. apply Hhead. fold head_left. auto.
Qed.

End message_queue_read_properties.

Section read_properties.
Context `{protocol_constants}.


End read_properties.



(** ** The walk of the write reselect *)

Lemma still_queued_false m :
  still_queued m = false ↔
  ∃ a, msg_async m = Some a ∧ status (msg_iosb m) ≠ STATUS_PENDING.
Proof.
  unfold still_queued. destruct (msg_async m) as [a|]; simpl.
  - destruct (bool_decide_reflect (status (msg_iosb m) = STATUS_PENDING)); simpl.
    + split; [discriminate|]. intros (? & ? & ?). contradiction.
    + split; [|reflexivity]. intros _. eauto.
  - split; [discriminate|]. intros (? & ? & _). discriminate.
Qed.

Lemma queue_total_filter q f :
  Forall message_ok q → queue_total (List.filter f q) <= queue_total q.
Proof.
  induction 1 as [|m q Hm _ IH]; simpl; [lia|].
  destruct Hm as (Hpos & _). destruct (f m); simpl; lia.
Qed.

Lemma message_ok_filter q f :
  Forall message_ok q → Forall message_ok (List.filter f q).
Proof.
  induction 1 as [|m q Hm _ IH]; simpl; [constructor|].
  destruct (f m); [constructor|]; assumption.
Qed.

Lemma write_walk_calls_tail budget m0 q counted c :
  (∀ counted', c ∈ snd (write_walk budget q counted')) →
  c ∈ snd (write_walk budget (m0 :: q) counted).
Proof.
  intros Htail. simpl write_walk.
  destruct (msg_async m0) as [a0|];
    destruct (bool_decide (status (msg_iosb m0) = STATUS_PENDING));
    cbv iota beta;
    try match goal with
        | |- context [if ?b then wake_message ?x else (?x, [])] => destruct b
        end;
    match goal with
    | |- context [write_walk budget q ?k] =>
        specialize (Htail k); destruct (write_walk budget q k)
    end; simpl in *;
    first [ apply list_elem_of_further; assumption
          | apply elem_of_app; right; assumption
          | assumption ].
Qed.

Lemma write_walk_releases budget q : ∀ counted m a,
  m ∈ q → msg_async m = Some a → status (msg_iosb m) ≠ STATUS_PENDING →
  call_release_async a ∈ snd (write_walk budget q counted).
Proof.
  induction q as [|m0 q IH]; intros counted m a Hin Ha Hst.
  - inversion Hin.
  - apply elem_of_cons in Hin as [->|Hin'].
    + simpl write_walk. rewrite Ha. rewrite (bool_decide_eq_false_2 _ Hst).
      rewrite (surjective_pairing (write_walk budget q counted)). simpl.
      apply list_elem_of_here.
    + apply write_walk_calls_tail. intros counted'. eapply IH; eassumption.
Qed.

(** ** Running the monad *)

Lemma bind_ok {A B} (m : M A) (k : A → M B) w a w' :
  m w = Ok (a, w') → bind m k w = k a w'.
Proof. unfold bind. intros ->. reflexivity. Qed.

Lemma bind_inv {A B} (m : M A) (k : A → M B) w b w' :
  bind m k w = Ok (b, w') → ∃ a w1, m w = Ok (a, w1) ∧ k a w1 = Ok (b, w').
Proof.
  unfold bind. destruct (m w) as [[a w1]|f]; [|discriminate]. eauto.
Qed.

Lemma get_object_ok a o w :
  objects w !! a = Some o → get_object a w = Ok (o, w).
Proof. unfold get_object, bind, get_world, deref. intros ->. reflexivity. Qed.

Lemma get_end_ok a o w :
  objects w !! a = Some o → get_end a w = Ok (object_end o, w).
Proof. intros Ho. unfold get_end. rewrite (bind_ok _ _ _ _ _ (get_object_ok _ _ _ Ho)). reflexivity. Qed.

Lemma update_end_ok a o f w :
  objects w !! a = Some o →
  update_end a f w
  = Ok (tt, set_objects (insert a (with_end o (f (object_end o)))) w).
Proof. intros Ho. unfold update_end. rewrite (bind_ok _ _ _ _ _ (get_object_ok _ _ _ Ho)). reflexivity. Qed.

Lemma get_server_ok a e s w :
  objects w !! a = Some (server_object e s) → get_server a w = Ok (s, w).
Proof. intros Ho. unfold get_server. rewrite (bind_ok _ _ _ _ _ (get_object_ok _ _ _ Ho)). reflexivity. Qed.

Lemma get_client_ok a e c w :
  objects w !! a = Some (client_object e c) → get_client a w = Ok (c, w).
Proof. intros Ho. unfold get_client. rewrite (bind_ok _ _ _ _ _ (get_object_ok _ _ _ Ho)). reflexivity. Qed.

Lemma get_pipe_ok p np w :
  pipes w !! p = Some np → get_pipe p w = Ok (np, w).
Proof. unfold get_pipe, bind, get_world, deref. intros ->. reflexivity. Qed.

Lemma get_fd_ok f o w :
  fds w !! f = Some o → get_fd f w = Ok (o, w).
Proof. unfold get_fd, bind, get_world, deref. intros ->. reflexivity. Qed.

Lemma get_fd_user_ok f o w :
  fds w !! f = Some o → get_fd_user f w = Ok (fd_user o, w).
Proof. intros Ho. unfold get_fd_user. rewrite (bind_ok _ _ _ _ _ (get_fd_ok _ _ _ Ho)). reflexivity. Qed.

(** *** The walk with the count of the code *)

Lemma walk_count_cons counted m l :
  walk_count counted (m :: l) = walk_count (add32 counted (remaining m)) l.
Proof. reflexivity. Qed.

(** On a well-formed stretch of the queue whose unread bytes can be
    counted in a [data_size_t] the count of the walk is the exact sum. *)
Lemma walk_count_exact l : ∀ counted,
  Forall message_ok l → 0 <= counted → counted + queue_total l < 4294967296 →
  walk_count counted l = counted + queue_total l.
Proof.
  induction l as [|m l IH]; intros counted Hall Hc Htot; [simpl; lia|].
  inversion Hall as [|? ? Hm Hl]; subst. pose proof Hm as (Hpos & _).
  pose proof (queue_total_nonneg _ Hl) as Hnn. simpl in Htot.
  rewrite walk_count_cons, (remaining_ok m Hm).
  rewrite add32_small by (unfold is_data_size; lia).
  rewrite IH by (assumption || lia). simpl. lia.
Qed.

Lemma message_ok_take l i : Forall message_ok l → Forall message_ok (take i l).
Proof. intros Hall. apply Forall_take, Hall. Qed.

Lemma queue_total_take l : ∀ i,
  Forall message_ok l → queue_total (take i l) <= queue_total l.
Proof.
  induction l as [|m l IH]; intros i Hall; [rewrite take_nil; simpl; lia|].
  inversion Hall as [|? ? Hm Hl]; subst. pose proof Hm as (Hpos & _).
  pose proof (queue_total_nonneg _ Hl) as Hnn.
  destruct i as [|i]; simpl; [lia|]. specialize (IH i Hl). lia.
Qed.

(** What the walk does to a message that stays. *)
Lemma write_walk_keeps budget m q counted :
  still_queued m = true →
  write_walk budget (m :: q) counted
  = let counted' := add32 counted (remaining m) in
    let woken := if within_budget budget counted' m then wake_message m else (m, []) in
    (fst woken :: fst (write_walk budget q counted'),
     snd woken ++ snd (write_walk budget q counted')).
Proof.
  intros Hk. unfold still_queued in Hk. simpl write_walk. unfold within_budget.
  destruct (msg_async m) as [a|];
    destruct (bool_decide (status (msg_iosb m) = STATUS_PENDING));
    try discriminate Hk; cbv iota beta zeta;
    rewrite (surjective_pairing (write_walk budget q _));
    match goal with
    | |- context [if ?b then wake_message ?x else (?x, [])] => destruct b
    end; reflexivity.
Qed.

(** What the walk does to a message that goes. *)
Lemma write_walk_drops budget m q counted :
  still_queued m = false →
  write_walk budget (m :: q) counted
  = (fst (write_walk budget q counted),
     match msg_async m with
     | Some a => call_release_async a :: snd (write_walk budget q counted)
     | None => snd (write_walk budget q counted)
     end).
Proof.
  intros Hk. unfold still_queued in Hk. simpl write_walk.
  destruct (msg_async m) as [a|];
    destruct (bool_decide (status (msg_iosb m) = STATUS_PENDING));
    try discriminate Hk; cbv iota beta.
  rewrite (surjective_pairing (write_walk budget q counted)). reflexivity.
Qed.

(** The queue that the walk leaves, message by message, with the count as
    the code keeps it. *)
Lemma write_walk_lookup budget q : ∀ counted i,
  fst (write_walk budget q counted) !! i
  = (λ m, if within_budget budget
               (walk_count counted (take (S i) (List.filter still_queued q))) m
          then fst (wake_message m) else m)
    <$> List.filter still_queued q !! i.
Proof.
  induction q as [|m q IH]; intros counted i; [reflexivity|].
  simpl List.filter. destruct (still_queued m) eqn:Hk.
  - rewrite (write_walk_keeps _ _ _ _ Hk). cbv zeta. cbn [fst].
    destruct i as [|i].
    + simpl. destruct (within_budget _ _ _); reflexivity.
    + rewrite !lookup_cons_ne_0 by lia. simpl pred. rewrite IH. reflexivity.
  - rewrite (write_walk_drops _ _ _ _ Hk). cbn [fst]. apply IH.
Qed.

Lemma write_walk_length budget q : ∀ counted,
  length (fst (write_walk budget q counted)) = length (List.filter still_queued q).
Proof.
  induction q as [|m q IH]; intros counted; [reflexivity|].
  simpl List.filter. destruct (still_queued m) eqn:Hk.
  - rewrite (write_walk_keeps _ _ _ _ Hk). cbv zeta. cbn [fst length]. rewrite IH.
    reflexivity.
  - rewrite (write_walk_drops _ _ _ _ Hk). cbn [fst]. apply IH.
Qed.

(** The calls that the walk makes for a message that it wakes. *)
Lemma write_walk_wakes_counted budget q : ∀ counted i m a,
  List.filter still_queued q !! i = Some m →
  within_budget budget
    (walk_count counted (take (S i) (List.filter still_queued q))) m = true →
  msg_async m = Some a →
  call_async_terminate a
    (if in_size (msg_iosb m) =? 0 then STATUS_SUCCESS else STATUS_ALERTED)
    (msg_iosb (fst (wake_message m))) ∈ snd (write_walk budget q counted)
  ∧ call_release_async a ∈ snd (write_walk budget q counted).
Proof.
  induction q as [|m0 q IH]; intros counted i m a Hi Hw Ha; [discriminate Hi|].
  simpl List.filter in Hi, Hw. destruct (still_queued m0) eqn:Hk.
  - rewrite (write_walk_keeps _ _ _ _ Hk). cbv zeta. cbn [snd].
    destruct i as [|i]; simpl in Hi.
    + injection Hi as ->. simpl in Hw. rewrite Hw.
      split; apply elem_of_app; left; unfold wake_message; rewrite Ha; simpl.
      * apply list_elem_of_here.
      * apply list_elem_of_further, list_elem_of_here.
    + destruct (IH (add32 counted (remaining m0)) i m a Hi Hw Ha) as [Ht Hr].
      split; apply elem_of_app; right; assumption.
  - rewrite (write_walk_drops _ _ _ _ Hk). cbn [snd].
    destruct (IH counted i m a Hi Hw Ha) as [Ht Hr].
    destruct (msg_async m0); split; try apply list_elem_of_further; assumption.
Qed.

Section write_reselect_properties.
Context `{protocol_constants}.

Lemma reselect_write_queue_runs fuel pipe_end reader o ro w :
  objects w !! pipe_end = Some o →
  connection (object_end o) = Some reader →
  objects w !! reader = Some ro →
  reselect_write_queue fuel pipe_end w
  = reselect_read_queue fuel reader (after_write_walk reader ro w).
Proof.
  intros Ho Hc Hro.
  unfold reselect_write_queue, reselect_write_queue_then.
  rewrite (bind_ok _ _ _ _ _ (get_end_ok _ _ _ Ho)). rewrite Hc.
  unfold set_ignore_reselect at 1. unfold bind at 1, modify at 1.
  assert (Hro' : objects (with_ignore_reselect true w) !! reader = Some ro) by exact Hro.
  rewrite (bind_ok _ _ _ _ _ (get_end_ok _ _ _ Hro')).
  unfold after_write_walk.
  destruct (write_walk (buffer_size (object_end ro)) (message_queue (object_end ro)) 0)
    as [q cs].
  unfold bind at 1. unfold bind at 1.
  rewrite (update_end_ok _ _ _ _ Hro').
  reflexivity.
Qed.

End write_reselect_properties.

Section write_reselect_claim.
Context `{protocol_constants}.

(** C3 (as the code has it): for every write reselect on a pipe end whose
    connection (the reader) is not null: every queued message that still
    holds its writer's async while its status block is no longer pending is
    removed from the reader's queue and that async released; every other
    message stays, in order, so a message that was woken before stays
    queued although its writer's async is completed; a message that stays
    and is pending is woken (status success, result equal to its full size,
    its writer's async terminated and released) exactly when the count of
    the remaining bytes, taken in queue order over the messages that stay,
    up to and including it, is within the reader's buffer_size, or it has
    zero length.  The count is kept in a data_size_t, so modulo 2^32; on a
    well-formed queue whose unread bytes total less than 2^32 it is the
    exact sum.  After the walk a read reselect is driven on the reader. *)
Theorem reselect_write_queue_wakes fuel pipe_end reader o ro w :
  objects w !! pipe_end = Some o →
  connection (object_end o) = Some reader →
  objects w !! reader = Some ro →
  let q := message_queue (object_end ro) in
  let budget := buffer_size (object_end ro) in
  let kept := List.filter still_queued q in
  let walked := write_walk budget q 0 in
  (∀ m, m ∈ q → still_queued m = false →
        ∃ a, msg_async m = Some a ∧ call_release_async a ∈ snd walked)
  ∧ length (fst walked) = length kept
  ∧ (∀ i m, kept !! i = Some m →
       if within_budget budget (walk_count 0 (take (S i) kept)) m
       then fst walked !! i = Some (fst (wake_message m))
            ∧ status (msg_iosb (fst (wake_message m))) = STATUS_SUCCESS
            ∧ result (msg_iosb (fst (wake_message m))) = in_size (msg_iosb m)
            ∧ ∀ a, msg_async m = Some a →
                call_async_terminate a
                  (if in_size (msg_iosb m) =? 0 then STATUS_SUCCESS else STATUS_ALERTED)
                  (msg_iosb (fst (wake_message m))) ∈ snd walked
                ∧ call_release_async a ∈ snd walked
       else fst walked !! i = Some m)
  ∧ (queue_ok q → ∀ i, walk_count 0 (take i kept) = queue_total (take i kept))
  ∧ reselect_write_queue fuel pipe_end w
    = reselect_read_queue fuel reader (after_write_walk reader ro w).
Proof.
  intros Ho Hc Hro q budget kept walked.
  split; [|split; [|split; [|split]]].
  - intros m Hin Hk. apply still_queued_false in Hk as (a & Ha & Hst).
    exists a. split; [assumption|]. eapply write_walk_releases; eassumption.
  - apply write_walk_length.
  - intros i m Hi.
    pose proof (write_walk_lookup budget q 0 i) as Hlook.
    fold kept walked in Hlook. rewrite Hi in Hlook. simpl in Hlook.
    destruct (within_budget budget (walk_count 0 (take (S i) kept)) m) eqn:Hw;
      [|assumption].
    split; [assumption|]. split; [reflexivity|]. split; [reflexivity|].
    intros a Ha. apply (write_walk_wakes_counted budget q 0 i m a); assumption.
  - intros [Hall Htot] i.
    pose proof (message_ok_filter q still_queued Hall) as Hkept.
    pose proof (queue_total_filter q still_queued Hall) as Hle.
    pose proof (queue_total_take kept i Hkept) as Hti.
    rewrite walk_count_exact; [lia|apply message_ok_take, Hkept|lia|].
    fold kept in Hle. lia.
  - eapply reselect_write_queue_runs; eassumption.
Qed.

End write_reselect_claim.

(** The statement at the crowded pair, for the write reselect of the
    client: of the queue of the server the cancelled message is removed and
    its async released, the woken message stays, the pending message of one
    byte is woken, as it brings the count to the four bytes of the buffer,
    and the pending message of two bytes stays pending. *)
Lemma reselect_write_queue_wakes_witness :
  (∃ a, msg_async cancelled_g = Some a
        ∧ call_release_async a ∈ snd (write_walk 4 crowded_queue 0))
  ∧ fst (write_walk 4 crowded_queue 0)
    = [woken_abc; fst (wake_message pending_f); pending_de]
  ∧ call_async_terminate 8 STATUS_ALERTED (msg_iosb (fst (wake_message pending_f)))
    ∈ snd (write_walk 4 crowded_queue 0)
  ∧ reselect_write_queue (H := wine_constants) 3 2%nat crowded_pair
    = reselect_read_queue (H := wine_constants) 3 1%nat
        (after_write_walk 1%nat crowded_server crowded_pair).
Proof.
  pose proof (reselect_write_queue_wakes (H := wine_constants) 3 2%nat 1%nat
    (client_object
       (mk_pipe_end (Some 11%nat) 1 (Some 1%nat) 4 [] None (Some [6%nat; 8%nat; 7%nat]))
       (mk_pipe_client (Some 1%nat) 0))
    crowded_server crowded_pair eq_refl eq_refl eq_refl) as Hthm.
  cbv zeta in Hthm. destruct Hthm as (Hrel & Hlen & Hkept & _ & Hrun).
  change (buffer_size (object_end crowded_server)) with 4 in *.
  change (message_queue (object_end crowded_server)) with crowded_queue in *.
  pose proof (Hkept 0%nat woken_abc eq_refl) as Hwoken.
  pose proof (Hkept 1%nat pending_f eq_refl) as Hf.
  pose proof (Hkept 2%nat pending_de eq_refl) as Hde.
  change (within_budget 4 (walk_count 0 (take 1 (List.filter still_queued crowded_queue)))
            woken_abc) with false in Hwoken.
  change (within_budget 4 (walk_count 0 (take 2 (List.filter still_queued crowded_queue)))
            pending_f) with true in Hf.
  change (within_budget 4 (walk_count 0 (take 3 (List.filter still_queued crowded_queue)))
            pending_de) with false in Hde.
  cbv iota in Hwoken, Hf, Hde. destruct Hf as (Hf & _ & _ & Hcalls).
  split; [apply (Hrel cancelled_g); [apply list_elem_of_here|reflexivity]|].
  split; [|split; [apply (Hcalls 8%nat eq_refl)|exact Hrun]].
  apply list_eq. intros [|[|[|i]]]; [exact Hwoken|exact Hf|exact Hde|].
  apply lookup_ge_None_2. rewrite Hlen. simpl. lia.
Defined.

(** A message woken before (its writer's async is completed, its status
    block is not pending) stays in the queue: the walk does not remove every
    message whose status block is no longer pending. *)
Lemma write_walk_keeps_woken : ¬ walk_removes_completed 10 [woken_abc].
Proof.
  intros Hclaim.
  apply (Hclaim woken_abc); [apply list_elem_of_here|discriminate|].
  apply list_elem_of_here.
Qed.

(** ** The ioctls of a server that fail *)

Section ioctl_properties.
Context `{protocol_constants}.

(** C4: for every pipe server, the failing ioctls return exactly the
    statuses of the state table, and the world after them is the world
    before with only the error set (state, queues and descriptors are
    unchanged): FSCTL_PIPE_LISTEN fails with invalid_handle in wait_open,
    pipe_connected in connected_server and no_data_detected in
    wait_disconnect; FSCTL_PIPE_DISCONNECT fails with pipe_listening in
    idle_server and wait_open and with pipe_disconnected in wait_connect. *)
Theorem pipe_server_ioctl_fails reply_max f fo server e s a w :
  fds w !! f = Some fo → fd_user fo = Some server →
  objects w !! server = Some (server_object e s) →
  (state s = ps_wait_open →
   pipe_server_ioctl reply_max f FSCTL_PIPE_LISTEN a w
   = Ok (0, with_error STATUS_INVALID_HANDLE w))
  ∧ (state s = ps_connected_server →
     pipe_server_ioctl reply_max f FSCTL_PIPE_LISTEN a w
     = Ok (0, with_error STATUS_PIPE_CONNECTED w))
  ∧ (state s = ps_wait_disconnect →
     pipe_server_ioctl reply_max f FSCTL_PIPE_LISTEN a w
     = Ok (0, with_error STATUS_NO_DATA_DETECTED w))
  ∧ (state s = ps_idle_server ∨ state s = ps_wait_open →
     pipe_server_ioctl reply_max f FSCTL_PIPE_DISCONNECT a w
     = Ok (0, with_error STATUS_PIPE_LISTENING w))
  ∧ (state s = ps_wait_connect →
     pipe_server_ioctl reply_max f FSCTL_PIPE_DISCONNECT a w
     = Ok (0, with_error STATUS_PIPE_DISCONNECTED w)).
Proof.
  intros Hf Huser Ho.
  repeat split; intros Hst; unfold pipe_server_ioctl;
    rewrite (bind_ok _ _ _ _ _ (get_fd_user_ok _ _ _ Hf)), Huser;
    simpl deref; unfold bind at 1, ret at 1;
    rewrite (bind_ok _ _ _ _ _ (get_server_ok _ _ _ _ Ho));
    try (destruct Hst as [Hst|Hst]); rewrite Hst; reflexivity.
Qed.

End ioctl_properties.

(** The statement at the connected pair, whose server is connected. *)
Lemma pipe_server_ioctl_fails_witness :
  pipe_server_ioctl (H := wine_constants) 64 10%nat FSCTL_PIPE_LISTEN read_of_four
    connected_pair
  = Ok (0, with_error STATUS_PIPE_CONNECTED connected_pair).
Proof.
  apply (pipe_server_ioctl_fails (H := wine_constants) 64 10%nat
           (mk_fd (Some 1%nat) [] true STATUS_BAD_DEVICE_TYPE None) 1%nat
           (mk_pipe_end (Some 10%nat) 3 (Some 2%nat) 4 [woken_abc; pending_de] None None)
           (mk_pipe_server (Some 10%nat) ps_connected_server (Some 2%nat) 20%nat false 0)
           read_of_four connected_pair eq_refl eq_refl eq_refl).
  reflexivity.
Defined.

(** ** Creating named pipes *)

Section create_properties.
Context `{protocol_constants}.



End create_properties.



(** ** Stepping through monadic code *)

Lemma bind_assoc {A B C} (m : M A) (f : A → M B) (g : B → M C) w :
  bind (bind m f) g w = bind m (λ a, bind (f a) g) w.
Proof. unfold bind. destruct (m w) as [[a w']|]; reflexivity. Qed.

Lemma bind_ret {A B} (a : A) (k : A → M B) w : bind (ret a) k w = k a w.
Proof. reflexivity. Qed.

Lemma bind_modify {B} (f : world → world) (k : unit → M B) w :
  bind (modify f) k w = k tt (f w).
Proof. reflexivity. Qed.

Lemma bind_get_world {B} (k : world → M B) w : bind get_world k w = k w w.
Proof. reflexivity. Qed.

Lemma bind_raise {A B} (f : fault) (k : A → M B) w : bind (raise f) k w = Fault f.
Proof. reflexivity. Qed.

Lemma bind_set_error {B} st (k : unit → M B) w :
  bind (set_error st) k w = k tt (with_error st w).
Proof. reflexivity. Qed.

Lemma bind_host_try {B} (k : bool → M B) w :
  bind host_try k w
  = k (default true (head (script w))) (with_script (tail (script w)) w).
Proof. reflexivity. Qed.

Lemma bind_get_object {B} a o (k : pipe_object → M B) w :
  objects w !! a = Some o → bind (get_object a) k w = k o w.
Proof. intros Ho. apply bind_ok, get_object_ok, Ho. Qed.

Lemma bind_get_end {B} a o (k : pipe_end → M B) w :
  objects w !! a = Some o → bind (get_end a) k w = k (object_end o) w.
Proof. intros Ho. apply bind_ok, get_end_ok, Ho. Qed.

Lemma bind_update_end {B} a o f (k : unit → M B) w :
  objects w !! a = Some o →
  bind (update_end a f) k w
  = k tt (set_objects (insert a (with_end o (f (object_end o)))) w).
Proof. intros Ho. apply bind_ok, update_end_ok, Ho. Qed.

Lemma bind_get_server {B} a e s (k : pipe_server → M B) w :
  objects w !! a = Some (server_object e s) → bind (get_server a) k w = k s w.
Proof. intros Ho. eapply bind_ok, get_server_ok, Ho. Qed.

Lemma bind_update_server {B} a e s f (k : unit → M B) w :
  objects w !! a = Some (server_object e s) →
  bind (update_server a f) k w
  = k tt (set_objects (insert a (server_object e (f s))) w).
Proof.
  intros Ho. apply bind_ok. unfold update_server.
  rewrite (bind_get_object _ _ _ _ Ho). reflexivity.
Qed.

Lemma bind_get_client {B} a e c (k : pipe_client → M B) w :
  objects w !! a = Some (client_object e c) → bind (get_client a) k w = k c w.
Proof. intros Ho. eapply bind_ok, get_client_ok, Ho. Qed.

Lemma bind_update_client {B} a e c f (k : unit → M B) w :
  objects w !! a = Some (client_object e c) →
  bind (update_client a f) k w
  = k tt (set_objects (insert a (client_object e (f c))) w).
Proof.
  intros Ho. apply bind_ok. unfold update_client.
  rewrite (bind_get_object _ _ _ _ Ho). reflexivity.
Qed.

Lemma bind_get_pipe {B} p np (k : named_pipe → M B) w :
  pipes w !! p = Some np → bind (get_pipe p) k w = k np w.
Proof. intros Hp. apply bind_ok, get_pipe_ok, Hp. Qed.

Lemma bind_update_pipe {B} p np f (k : unit → M B) w :
  pipes w !! p = Some np →
  bind (update_pipe p f) k w = k tt (set_pipes (insert p (f np)) w).
Proof.
  intros Hp. apply bind_ok. unfold update_pipe.
  rewrite (bind_get_pipe _ _ _ _ Hp). reflexivity.
Qed.

Lemma bind_get_fd {B} f o (k : fd_object → M B) w :
  fds w !! f = Some o → bind (get_fd f) k w = k o w.
Proof. intros Hf. apply bind_ok, get_fd_ok, Hf. Qed.

Lemma bind_update_fd {B} f o g (k : unit → M B) w :
  fds w !! f = Some o →
  bind (update_fd f g) k w = k tt (set_fds (insert f (g o)) w).
Proof.
  intros Hf. apply bind_ok. unfold update_fd.
  rewrite (bind_get_fd _ _ _ _ Hf). reflexivity.
Qed.

Lemma bind_ret_r {A} (m : M A) w : m w = bind m ret w.
Proof. unfold bind, ret. destruct (m w) as [[a w']|]; reflexivity. Qed.

(** Projections of an updated world. *)
Ltac world_simpl :=
  cbn [objects pipes namespace fds error ignore_reselect calls handles script
       set_objects set_pipes set_namespace set_fds with_error
       with_ignore_reselect with_calls with_handles with_script] in *.

(** Fields of an updated record. *)
Ltac fields_simpl :=
  cbn [fd flags connection buffer_size message_queue read_q write_q
       with_fd with_flags with_connection with_message_queue with_read_q with_write_q
       ioctl_fd state client pipe flush_poll options
       with_ioctl_fd with_state with_client with_flush_poll
       server client_flags with_server client_of server_of pipe_of
       refcount pipe_flags sharing maxinstances outsize insize instances timeout
       servers waiters with_instances with_servers with_waiters with_refcount
       fd_user fd_wait_q fd_signaled fd_no_fd_status fd_unix
       with_wait_q with_signaled with_no_fd_status
       object_end with_end init_pipe_end] in *.

(** A lookup in a map that was built by insertions. *)
Ltac solve_lookup :=
  world_simpl;
  repeat first
    [ eassumption
    | reflexivity
    | rewrite lookup_insert_eq
    | rewrite lookup_insert_ne by (first [assumption | congruence | discriminate]) ].

(** One step of a computation [bind m k w]. *)
Ltac mstep :=
  first
    [ rewrite bind_assoc
    | rewrite bind_ret
    | rewrite bind_modify
    | rewrite bind_get_world
    | rewrite bind_raise
    | rewrite bind_set_error
    | rewrite bind_host_try
    | erewrite bind_get_end by solve_lookup
    | erewrite bind_get_server by solve_lookup
    | erewrite bind_get_client by solve_lookup
    | erewrite bind_get_object by solve_lookup
    | erewrite bind_get_pipe by solve_lookup
    | erewrite bind_get_fd by solve_lookup
    | erewrite bind_update_end by solve_lookup
    | erewrite bind_update_server by solve_lookup
    | erewrite bind_update_client by solve_lookup
    | erewrite bind_update_pipe by solve_lookup
    | erewrite bind_update_fd by solve_lookup
    | match goal with
      | |- ?m ?w = _ =>
          lazymatch type of m with
          | M _ =>
              lazymatch m with
              | bind _ _ => fail
              | ret _ => fail
              | raise _ => fail
              | _ => rewrite (bind_ret_r m w)
              end
          end
      end ].

Ltac mrun := repeat (mstep; world_simpl; fields_simpl).

Section create_existing.
Context `{protocol_constants}.

End create_existing.

Section create_existing_claim.
Context `{protocol_constants}.

Lemma nonzero_has_bit z : z ≠ 0 → ∃ i, 0 <= i ∧ Z.testbit z i = true.
Proof.
  intros Hz. destruct (Z.lt_trichotomy z 0) as [Hneg|[Hzero|Hpos]]; [|contradiction|].
  - exists (Z.succ (Z.log2 (Z.pred (- z)))). split.
    + pose proof (Z.log2_nonneg (Z.pred (- z))). lia.
    + apply Z.bits_above_log2_neg; [assumption|lia].
  - exists (Z.log2 z). split; [apply Z.log2_nonneg|apply Z.bit_log2; assumption].
Qed.

Lemma good_parameters req :
  ¬ bad_parameters req →
  (req_sharing req =? 0)
  || negb (Z.land (req_sharing req) (Z.lnot (Z.lor FILE_SHARE_READ FILE_SHARE_WRITE)) =? 0)
  || (negb (has_flag (req_flags req) NAMED_PIPE_MESSAGE_STREAM_WRITE)
      && has_flag (req_flags req) NAMED_PIPE_MESSAGE_STREAM_READ) = false.
Proof.
  intros Hgood. unfold bad_parameters in Hgood.
  apply orb_false_iff. split; [apply orb_false_iff; split|].
  - apply Z.eqb_neq. tauto.
  - apply negb_false_iff, Z.eqb_eq.
    destruct (Z.eq_dec (Z.land (req_sharing req)
                (Z.lnot (Z.lor FILE_SHARE_READ FILE_SHARE_WRITE))) 0) as [|Hnz];
      [assumption|exfalso].
    destruct (nonzero_has_bit _ Hnz) as (i & Hi & Hbit).
    rewrite Z.land_spec, Z.lnot_spec, Z.lor_spec in Hbit by assumption.
    apply andb_true_iff in Hbit as [Hs Hn].
    apply negb_true_iff, orb_false_iff in Hn as [Hr Hw].
    apply Hgood. right. left. exists i. auto.
  - destruct (has_flag (req_flags req) NAMED_PIPE_MESSAGE_STREAM_WRITE) eqn:Hw;
      [reflexivity|].
    destruct (has_flag (req_flags req) NAMED_PIPE_MESSAGE_STREAM_READ) eqn:Hr;
      [|reflexivity].
    exfalso. apply Hgood. right. right. auto.
Qed.

Lemma create_named_object_existing nm p np w :
  nm ≠ [] → namespace w !! nm = Some p → pipes w !! p = Some np →
  create_named_object nm w
  = Ok (Some p, with_error STATUS_OBJECT_NAME_EXISTS
                  (set_pipes (insert p (with_refcount (S (refcount np)) np)) w)).
Proof.
  intros Hnm Hns Hp. unfold create_named_object, clear_error, grab_pipe. mrun.
  destruct (decide (nm = [])) as [|_]; [contradiction|].
  rewrite Hns. mrun. reflexivity.
Qed.

Lemma world_eq w1 w2 :
  objects w1 = objects w2 → pipes w1 = pipes w2 → namespace w1 = namespace w2 →
  fds w1 = fds w2 → error w1 = error w2 → ignore_reselect w1 = ignore_reselect w2 →
  calls w1 = calls w2 → handles w1 = handles w2 → script w1 = script w2 → w1 = w2.
Proof. destruct w1, w2. simpl. intros. subst. reflexivity. Qed.

(** A request that is refused after the lookup leaves the world as it
    was, but for the error. *)
Lemma create_named_pipe_refused p np w st :
  pipes w !! p = Some np → (0 < refcount np)%nat →
  bind (set_error st) (λ _, bind (release_pipe p) (λ _, ret false))
    (with_error STATUS_OBJECT_NAME_EXISTS
       (set_pipes (insert p (with_refcount (S (refcount np)) np)) w))
  = Ok (false, with_error st w).
Proof.
  intros Hp Href. unfold release_pipe. mrun.
  destruct (refcount np) as [|n] eqn:Hn; [lia|]. mrun.
  unfold ret. f_equal. f_equal. apply world_eq; world_simpl; try reflexivity.
  rewrite insert_insert_eq. apply insert_id. rewrite Hp. f_equal.
  destruct np. simpl in *. subst. reflexivity.
Qed.

(** C6 (as the code has it): for every create_named_pipe request with
    accepted attributes and parameters that finds a pre-existing named pipe
    of the same name: if instance_count >= max_instances it fails with
    instance-not-available; otherwise, if the requested sharing differs from
    the pipe's stored sharing, it fails with access-denied; on either
    failure no server is added and instance_count is unchanged (the world is
    as before but for the error); otherwise, when the host grants the
    allocations, the name collision is cleared, a new server in state
    idle_server is added to the pipe, and instance_count is incremented. *)
Theorem create_named_pipe_existing req oa p np w :
  req_objattr req = inl oa → name oa ≠ [] →
  namespace w !! name oa = Some p → pipes w !! p = Some np →
  (0 < refcount np)%nat → ¬ bad_parameters req →
  (maxinstances np <= instances np →
   create_named_pipe req w = Ok (0, with_error STATUS_INSTANCE_NOT_AVAILABLE w))
  ∧ (instances np < maxinstances np → sharing np ≠ req_sharing req →
     create_named_pipe req w = Ok (0, with_error STATUS_ACCESS_DENIED w))
  ∧ (instances np < maxinstances np → sharing np = req_sharing req →
     script w = [] → 0 <= instances np → maxinstances np < 4294967296 →
     ∃ server handle w' e s np',
       create_named_pipe req w = Ok (handle, w')
       ∧ handle ≠ 0
       ∧ error w' = STATUS_SUCCESS
       ∧ objects w !! server = None
       ∧ objects w' = <[server := server_object e s]> (objects w)
       ∧ state s = ps_idle_server ∧ pipe_of s = p
       ∧ pipes w' = <[p := np']> (pipes w)
       ∧ servers np' = server :: servers np
       ∧ instances np' = instances np + 1).
Proof.
  intros Hoa Hname Hns Hp Href Hgood.
  pose proof (create_named_object_existing _ _ _ _ Hname Hns Hp) as Hlookup.
  split; [|split].
  - intros Hfull. unfold create_named_pipe.
    rewrite Hoa, (good_parameters req Hgood).
    rewrite (bool_decide_eq_false_2 _ Hname). mrun. simpl negb. cbv iota.
    rewrite ?bind_assoc. rewrite (bind_ok _ _ _ _ _ Hlookup).
    unfold get_error. mrun.
    rewrite bool_decide_eq_true_2 by reflexivity. simpl negb. cbv iota. mrun.
    destruct (Z.leb_spec (maxinstances np) (instances np)) as [_|]; [|lia].
    rewrite (bind_ok _ _ _ _ _ (create_named_pipe_refused _ _ _ _ Hp Href)).
    reflexivity.
  - intros Hroom Hdiff. unfold create_named_pipe.
    rewrite Hoa, (good_parameters req Hgood).
    rewrite (bool_decide_eq_false_2 _ Hname). mrun. simpl negb. cbv iota.
    rewrite ?bind_assoc. rewrite (bind_ok _ _ _ _ _ Hlookup).
    unfold get_error. mrun.
    rewrite bool_decide_eq_true_2 by reflexivity. simpl negb. cbv iota. mrun.
    destruct (Z.leb_spec (maxinstances np) (instances np)) as [|_]; [lia|].
    destruct (Z.eqb_spec (sharing np) (req_sharing req)) as [|_]; [contradiction|].
    simpl negb. cbv iota.
    rewrite (bind_ok _ _ _ _ _ (create_named_pipe_refused _ _ _ _ Hp Href)).
    reflexivity.
  - intros Hroom Hshare Hscript Hins Hmax.
    eexists (fresh (dom (objects w))), _, _, _, _, _. split.
    { unfold create_named_pipe.
    rewrite Hoa, (good_parameters req Hgood).
    rewrite (bool_decide_eq_false_2 _ Hname). mrun. simpl negb. cbv iota.
    rewrite ?bind_assoc. rewrite (bind_ok _ _ _ _ _ Hlookup).
    unfold get_error. mrun.
    rewrite bool_decide_eq_true_2 by reflexivity. simpl negb. cbv iota. mrun.
    destruct (Z.leb_spec (maxinstances np) (instances np)) as [|_]; [lia|].
    rewrite <- Hshare, Z.eqb_refl. simpl negb. cbv iota.
    unfold clear_error. mrun. simpl negb. cbv iota.
    unfold create_pipe_server at 1. mrun.
    unfold alloc_object at 1. mrun. rewrite Hscript. simpl default. cbv iota. mrun.
    unfold grab_pipe at 1. mrun.
    unfold alloc_pseudo_fd, new_fd. mrun. simpl default. cbv iota. mrun.
    unfold set_fd_signaled at 1. simpl deref. mrun.
    unfold set_server_state at 1. mrun.
    unfold c_assert. rewrite bool_decide_eq_true_2 by reflexivity. mrun.
    unfold set_no_fd_status at 1. simpl deref. mrun.
    unfold alloc_handle at 1. mrun. simpl default. cbv iota. mrun.
    destruct (Z.eqb_spec (4 * Z.of_nat (S (handles w))) 0) as [|_]; [lia|].
    unfold when. mrun. unfold release_pipe. mrun. reflexivity. }
    world_simpl.
    split; [lia|]. split; [reflexivity|].
    split; [apply not_elem_of_dom, is_fresh|].
    split; [rewrite !insert_insert_eq; reflexivity|].
    split; [reflexivity|]. split; [reflexivity|].
    split; [rewrite !insert_insert_eq; reflexivity|].
    fields_simpl. split; [reflexivity|].
    apply add32_small. unfold is_data_size. lia.
Qed.

End create_existing_claim.

(** The statement for a second create of the pipe of the connected pair,
    which has no room for another instance. *)
Lemma create_named_pipe_existing_witness :
  create_named_pipe (H := wine_constants)
    (mk_create_request 0 0 3 1 4 4 0 1 (inl (mk_objattr 0 0 [112; 105; 112; 101])))
    connected_pair
  = Ok (0, with_error STATUS_INSTANCE_NOT_AVAILABLE connected_pair).
Proof.
  apply (create_named_pipe_existing (H := wine_constants)
           (mk_create_request 0 0 3 1 4 4 0 1 (inl (mk_objattr 0 0 [112; 105; 112; 101])))
           (mk_objattr 0 0 [112; 105; 112; 101]) 20%nat
           (mk_named_pipe 1 1 3 1 4 4 1 0 [1%nat] None) connected_pair
           eq_refl).
  - discriminate.
  - reflexivity.
  - reflexivity.
  - simpl. lia.
  - intros [Hz|[(i & Hi & Hs & Hr & Hw)|[Hr Hw]]]; try discriminate.
    simpl in Hs, Hr, Hw.
    destruct i as [|[i|i|]|i]; simpl in *; try discriminate; lia.
  - simpl. lia.
Defined.

(** A request that quotes another sharing than the stored one, for a pipe
    that has no room for another instance, fails with
    instance-not-available and not with access-denied. *)
Lemma create_named_pipe_checks_room_first :
  ¬ denies_access (H := wine_constants) request_share_read connected_pair.
Proof.
  intros (handle & w' & Hrun & Herr).
  vm_compute in Hrun. injection Hrun as <- <-. discriminate Herr.
Qed.

(** ** Opening a client end *)

Section open_properties.
Context `{protocol_constants}.

Lemma first_server_in_spec st l w :
  (∀ a, a ∈ l → ∃ e s, objects w !! a = Some (server_object e s)) →
  first_server_in st l w
  = Ok (List.find (λ a, bool_decide (server_state_at w a = Some st)) l, w).
Proof.
  induction l as [|a l IH]; intros Hlive; [reflexivity|].
  destruct (Hlive a) as (e & s & Ho); [apply list_elem_of_here|].
  simpl first_server_in. rewrite (bind_get_server _ _ _ _ _ Ho).
  assert (Hat : server_state_at w a = Some (state s))
    by (unfold server_state_at; rewrite Ho; reflexivity).
  simpl List.find.
  destruct (bool_decide_reflect (state s = st)) as [Hs|Hs].
  - rewrite (bool_decide_eq_true_2 (server_state_at w a = Some st))
      by (rewrite Hat; f_equal; assumption).
    reflexivity.
  - rewrite (bool_decide_eq_false_2 (server_state_at w a = Some st))
      by (rewrite Hat; intros [= ?]; contradiction).
    apply IH. intros a' Ha'. apply Hlive. apply list_elem_of_further, Ha'.
Qed.

Lemma find_state_some st l w server :
  List.find (λ a, bool_decide (server_state_at w a = Some st)) l = Some server →
  server ∈ l ∧ server_state_at w server = Some st.
Proof.
  intros Hfind. apply find_some in Hfind as [Hin Hst].
  split; [apply list_elem_of_In, Hin|apply bool_decide_eq_true_1 in Hst; exact Hst].
Qed.

Lemma find_state_none st l w :
  List.find (λ a, bool_decide (server_state_at w a = Some st)) l = None →
  ∀ a, a ∈ l → server_state_at w a ≠ Some st.
Proof.
  intros Hfind a Ha. apply list_elem_of_In in Ha.
  pose proof (find_none _ _ Hfind a Ha) as Hst. simpl in Hst.
  apply bool_decide_eq_false_1 in Hst. exact Hst.
Qed.

(** C5: for every client open on a named pipe (whose servers are live
    servers of that pipe): the server chosen is a server in state wait_open
    if any exists, otherwise a server in state idle_server; if neither
    exists the open fails with pipe_not_available; if a server is chosen
    but the requested access conflicts with the pipe's sharing (read without
    share-read, or write without share-write) the open fails with
    access-denied; in both failures the world, and with it the state of
    every server, is as before but for the error. *)
Theorem named_pipe_open_file_chooses pipe np access sharing_req options w :
  pipes w !! pipe = Some np →
  (∀ a, a ∈ servers np →
        ∃ e s, objects w !! a = Some (server_object e s) ∧ pipe_of s = pipe) →
  ∃ chosen,
    find_available_server pipe w = Ok (chosen, w)
    ∧ match chosen with
      | Some server =>
          server ∈ servers np
          ∧ (server_state_at w server = Some ps_wait_open
             ∨ (server_state_at w server = Some ps_idle_server
                ∧ ∀ a, a ∈ servers np → server_state_at w a ≠ Some ps_wait_open))
      | None =>
          ∀ a, a ∈ servers np →
               server_state_at w a ≠ Some ps_wait_open
               ∧ server_state_at w a ≠ Some ps_idle_server
      end
    ∧ (chosen = None →
       named_pipe_open_file pipe access sharing_req options w
       = Ok (None, with_error STATUS_PIPE_NOT_AVAILABLE w))
    ∧ (is_Some chosen → access_conflicts access (sharing np) →
       named_pipe_open_file pipe access sharing_req options w
       = Ok (None, with_error STATUS_ACCESS_DENIED w)).
Proof.
  intros Hp Hlive.
  assert (Hlive' : ∀ a, a ∈ servers np → ∃ e s, objects w !! a = Some (server_object e s)).
  { intros a Ha. destruct (Hlive a Ha) as (e & s & Ho & _). eauto. }
  assert (Hfind : ∃ chosen,
    find_available_server pipe w = Ok (chosen, w)
    ∧ chosen = match List.find (λ a, bool_decide (server_state_at w a = Some ps_wait_open))
                                (servers np) with
               | Some server => Some server
               | None => List.find (λ a, bool_decide (server_state_at w a = Some ps_idle_server))
                                   (servers np)
               end).
  { eexists. split; [|reflexivity].
    unfold find_available_server. rewrite (bind_get_pipe _ _ _ _ Hp).
    rewrite (bind_ok _ _ _ _ _ (first_server_in_spec _ _ _ Hlive')).
    destruct (List.find _ (servers np)); [reflexivity|].
    apply first_server_in_spec, Hlive'. }
  destruct Hfind as (chosen & Hrun & Hchosen). exists chosen.
  split; [assumption|]. split; [|split].
  - subst chosen.
    destruct (List.find (λ a, bool_decide (server_state_at w a = Some ps_wait_open))
                (servers np)) as [server|] eqn:Hopen.
    + apply find_state_some in Hopen as [Hin Hst]. auto.
    + pose proof (find_state_none _ _ _ Hopen) as Hnone.
      destruct (List.find (λ a, bool_decide (server_state_at w a = Some ps_idle_server))
                  (servers np)) as [server|] eqn:Hidle.
      * apply find_state_some in Hidle as [Hin Hst]. auto.
      * pose proof (find_state_none _ _ _ Hidle). auto.
  - intros ->. unfold named_pipe_open_file.
    rewrite (bind_get_pipe _ _ _ _ Hp), (bind_ok _ _ _ _ _ Hrun). reflexivity.
  - intros [server ->] Hconflict.
    assert (Hin : server ∈ servers np).
    { destruct (List.find (λ a, bool_decide (server_state_at w a = Some ps_wait_open))
                  (servers np)) as [server'|] eqn:Hopen.
      - injection Hchosen as ->. apply (find_state_some _ _ _ _ Hopen).
      - symmetry in Hchosen. apply (find_state_some _ _ _ _ Hchosen). }
    destruct (Hlive server Hin) as (e & s & Ho & Hpipe).
    unfold named_pipe_open_file.
    rewrite (bind_get_pipe _ _ _ _ Hp), (bind_ok _ _ _ _ _ Hrun).
    rewrite (bind_get_server _ _ _ _ _ Ho), Hpipe, (bind_get_pipe _ _ _ _ Hp).
    assert (Hcond :
      has_flag access GENERIC_READ && negb (has_flag (sharing np) FILE_SHARE_READ)
      || has_flag access GENERIC_WRITE && negb (has_flag (sharing np) FILE_SHARE_WRITE)
      = true).
    { destruct Hconflict as [[-> ->]|[-> ->]]; simpl; [reflexivity|apply orb_true_r]. }
    rewrite Hcond. reflexivity.
Qed.

End open_properties.

(** The statement at the pipe of the connected pair, whose only server is
    connected: no server is chosen. *)
Lemma named_pipe_open_file_chooses_witness :
  ∃ chosen,
    find_available_server 20%nat connected_pair = Ok (chosen, connected_pair)
    ∧ (chosen = None →
       named_pipe_open_file (H := wine_constants) 20%nat 2147483648 0 0 connected_pair
       = Ok (None, with_error STATUS_PIPE_NOT_AVAILABLE connected_pair)).
Proof.
  destruct (named_pipe_open_file_chooses (H := wine_constants) 20%nat
              (mk_named_pipe 1 1 3 1 4 4 1 0 [1%nat] None) 2147483648 0 0
              connected_pair eq_refl)
    as (chosen & Hrun & _ & Hnone & _).
  - intros a Ha. apply list_elem_of_singleton in Ha as ->.
    eexists _, _. split; reflexivity.
  - exists chosen. split; assumption.
Defined.

(** ** The depth of the disconnect *)

Lemma fuel_free_ret {A} (a : A) : fuel_free (ret a).
Proof. intros w. discriminate. Qed.

Lemma fuel_free_bind {A B} (m : M A) (k : A → M B) :
  fuel_free m → (∀ a, fuel_free (k a)) → fuel_free (bind m k).
Proof.
  intros Hm Hk w. unfold bind. specialize (Hm w).
  destruct (m w) as [[a w']|f]; [apply Hk|].
  intros [= ->]. apply Hm. reflexivity.
Qed.

Lemma fuel_free_modify f : fuel_free (modify f).
Proof. intros w. discriminate. Qed.

Lemma fuel_free_get_world : fuel_free get_world.
Proof. intros w. discriminate. Qed.

Lemma fuel_free_deref {A} (p : option A) : fuel_free (deref p).
Proof. intros w. destruct p; discriminate. Qed.

Lemma fuel_free_when b m : fuel_free m → fuel_free (when b m).
Proof. intros Hm. destruct b; [exact Hm|apply fuel_free_ret]. Qed.

Create HintDb fuel.
#[local] Hint Resolve fuel_free_ret fuel_free_modify fuel_free_get_world
  fuel_free_deref fuel_free_when : fuel.

Ltac fuel_free_tac :=
  repeat first
    [ apply fuel_free_bind; [|intros]
    | apply fuel_free_when
    | solve [auto with fuel]
    | match goal with
      | |- fuel_free (match ?x with _ => _ end) => destruct x
      | |- fuel_free (let '(_, _) := ?x in _) => destruct x
      end ].

Lemma fuel_free_get_end a : fuel_free (get_end a).
Proof. unfold get_end, get_object. fuel_free_tac. Qed.

Lemma fuel_free_update_end a f : fuel_free (update_end a f).
Proof. unfold update_end, get_object. fuel_free_tac. Qed.

Lemma fuel_free_update_fd a f : fuel_free (update_fd a f).
Proof. unfold update_fd, get_fd. fuel_free_tac. Qed.

Lemma fuel_free_log_calls cs : fuel_free (log_calls cs).
Proof. apply fuel_free_modify. Qed.

Lemma fuel_free_fd_async_wake_up f st : fuel_free (fd_async_wake_up f st).
Proof.
  unfold fd_async_wake_up, get_fd. fuel_free_tac; try apply fuel_free_log_calls.
Qed.

Lemma fuel_free_set_fd_signaled f b : fuel_free (set_fd_signaled f b).
Proof. unfold set_fd_signaled. fuel_free_tac; try apply fuel_free_update_fd. Qed.

#[local] Hint Resolve fuel_free_get_end fuel_free_update_end fuel_free_update_fd
  fuel_free_log_calls fuel_free_fd_async_wake_up fuel_free_set_fd_signaled : fuel.

Lemma bind_ext {A B} (m : M A) (k1 k2 : A → M B) w :
  (∀ a w', m w = Ok (a, w') → k1 a w' = k2 a w') → bind m k1 w = bind m k2 w.
Proof.
  intros Hk. unfold bind. destruct (m w) as [[a w']|f]; [apply Hk|]; reflexivity.
Qed.

Lemma bind_fuel {A B} (m : M A) (k : A → M B) w :
  fuel_free m → (∀ a w', m w = Ok (a, w') → k a w' ≠ Fault out_of_fuel) →
  bind m k w ≠ Fault out_of_fuel.
Proof.
  intros Hm Hk. unfold bind. specialize (Hm w).
  destruct (m w) as [[a w']|f]; [apply Hk; reflexivity|].
  intros [= ->]. apply Hm. reflexivity.
Qed.

Lemma get_end_inv a e w w' :
  get_end a w = Ok (e, w') →
  w' = w ∧ ∃ o, objects w !! a = Some o ∧ e = object_end o.
Proof.
  unfold get_end, get_object, bind, get_world, deref, ret.
  destruct (objects w !! a) as [o|]; [|discriminate].
  intros [= <- <-]. eauto.
Qed.

Lemma update_end_inv a f w w' :
  update_end a f w = Ok (tt, w') →
  ∃ o, objects w !! a = Some o
       ∧ w' = set_objects (insert a (with_end o (f (object_end o)))) w.
Proof.
  unfold update_end, get_object, bind, get_world, deref, modify.
  destruct (objects w !! a) as [o|]; [|discriminate].
  intros [= <-]. eauto.
Qed.

Section disconnect_depth.
Context `{protocol_constants}.

Lemma fuel_free_disconnect_own_end pipe_end e st :
  fuel_free (disconnect_own_end pipe_end e st).
Proof. unfold disconnect_own_end. fuel_free_tac. Qed.

Lemma pipe_end_disconnect_unfold fuel pipe_end st w :
  pipe_end_disconnect (S fuel) pipe_end st w
  = bind (get_end pipe_end)
      (λ e, bind (disconnect_own_end pipe_end e st)
              (λ _, match connection e with
                    | Some c =>
                        update_end c (with_connection None);;
                        pipe_end_disconnect fuel c st
                    | None => ret tt
                    end)) w.
Proof.
  simpl. apply bind_ext. intros e w' _. unfold disconnect_own_end.
  rewrite !bind_assoc. reflexivity.
Qed.

(** The call for an end whose connection is null does not call again. *)
Lemma pipe_end_disconnect_unconnected fuel c st w :
  (∀ o, objects w !! c = Some o → connection (object_end o) = None) →
  pipe_end_disconnect (S fuel) c st w = pipe_end_disconnect 1 c st w
  ∧ pipe_end_disconnect 1 c st w ≠ Fault out_of_fuel.
Proof.
  intros Hnull. rewrite !pipe_end_disconnect_unfold. split.
  - apply bind_ext. intros e w' He.
    apply get_end_inv in He as (-> & o & Ho & ->). rewrite (Hnull o Ho). reflexivity.
  - apply bind_fuel; [apply fuel_free_get_end|]. intros e w' He.
    apply get_end_inv in He as (-> & o & Ho & ->). rewrite (Hnull o Ho).
    apply bind_fuel; [apply fuel_free_disconnect_own_end|]. discriminate.
Qed.

(** C8: pipe_end_disconnect terminates for every pipe end and every
    status, with calls to itself nested at most one deep: the fuel for the
    call and one nested call is always enough, more fuel changes nothing,
    and this is because the connection of the peer is cleared before the
    nested call, which then finds a null connection. *)
Theorem pipe_end_disconnect_depth_one n pipe_end st w :
  pipe_end_disconnect (2 + n) pipe_end st w = pipe_end_disconnect 2 pipe_end st w
  ∧ pipe_end_disconnect 2 pipe_end st w ≠ Fault out_of_fuel.
Proof.
  change (2 + n)%nat with (S (S n)).
  rewrite (pipe_end_disconnect_unfold (S n)), (pipe_end_disconnect_unfold 1).
  assert (Hcleared : ∀ c w1 w2,
    update_end c (with_connection None) w1 = Ok (tt, w2) →
    ∀ o, objects w2 !! c = Some o → connection (object_end o) = None).
  { intros c w1 w2 Hup o Ho. apply update_end_inv in Hup as (o' & Ho' & ->).
    world_simpl. rewrite lookup_insert_eq in Ho. injection Ho as <-.
    destruct o'; reflexivity. }
  split.
  - apply bind_ext. intros e w1 _. apply bind_ext. intros [] w2 _.
    destruct (connection e) as [c|]; [|reflexivity].
    apply bind_ext. intros [] w3 Hup.
    apply pipe_end_disconnect_unconnected. eapply Hcleared, Hup.
  - apply bind_fuel; [apply fuel_free_get_end|]. intros e w1 _.
    apply bind_fuel; [apply fuel_free_disconnect_own_end|]. intros [] w2 _.
    destruct (connection e) as [c|]; [|discriminate].
    apply bind_fuel; [apply fuel_free_update_end|]. intros [] w3 Hup.
    apply (pipe_end_disconnect_unconnected 0). eapply Hcleared, Hup.
Qed.

End disconnect_depth.

(** ** Computations that leave the connection graph alone *)

Lemma graph_insert a o w :
  graph (set_objects (insert a o) w) = <[a := node_of o]> (graph w).
Proof. unfold graph. simpl. apply fmap_insert. Qed.

Lemma graph_delete a w :
  graph (set_objects (delete a) w) = delete a (graph w).
Proof. unfold graph. simpl. apply fmap_delete. Qed.

Lemma graph_lookup a o w :
  objects w !! a = Some o → graph w !! a = Some (node_of o).
Proof. intros Ho. unfold graph. rewrite lookup_fmap, Ho. reflexivity. Qed.

Lemma graph_insert_same a o o' w :
  objects w !! a = Some o → node_of o' = node_of o →
  graph (set_objects (insert a o') w) = graph w.
Proof.
  intros Ho Hn. rewrite graph_insert, Hn. apply insert_id, graph_lookup, Ho.
Qed.

Lemma keeps_ret {A} (a : A) : keeps_graph (ret a).
Proof. intros w a' w' [= <- <-]. reflexivity. Qed.

Lemma keeps_raise {A} f : keeps_graph (@raise A f).
Proof. intros w a w' [=]. Qed.

Lemma keeps_bind {A B} (m : M A) (k : A → M B) :
  keeps_graph m → (∀ a, keeps_graph (k a)) → keeps_graph (bind m k).
Proof.
  intros Hm Hk w b w' Hrun. apply bind_inv in Hrun as (a & w1 & Hm1 & Hk1).
  rewrite (Hk a _ _ _ Hk1). eapply Hm, Hm1.
Qed.

Lemma keeps_get_world : keeps_graph get_world.
Proof. intros w a w' [= <- <-]. reflexivity. Qed.

Lemma keeps_modify f :
  (∀ w, objects (f w) = objects w) → keeps_graph (modify f).
Proof. intros Hf w [] w' [= <-]. unfold graph. rewrite Hf. reflexivity. Qed.

Lemma keeps_deref {A} (p : option A) : keeps_graph (deref p).
Proof. destruct p; [apply keeps_ret|apply keeps_raise]. Qed.

Lemma keeps_c_assert b : keeps_graph (c_assert b).
Proof. destruct b; [apply keeps_ret|apply keeps_raise]. Qed.

Lemma keeps_when b m : keeps_graph m → keeps_graph (when b m).
Proof. intros Hm. destruct b; [exact Hm|apply keeps_ret]. Qed.

Lemma keeps_update_end a f :
  (∀ e, connection (f e) = connection e) → keeps_graph (update_end a f).
Proof.
  intros Hf w [] w' Hrun. apply update_end_inv in Hrun as (o & Ho & ->).
  apply (graph_insert_same _ o); [assumption|].
  unfold node_of. destruct o; simpl; rewrite Hf; reflexivity.
Qed.

Lemma keeps_update_server a f :
  (∀ s, state (f s) = state s) → keeps_graph (update_server a f).
Proof.
  intros Hf w [] w' Hrun. unfold update_server in Hrun.
  apply bind_inv in Hrun as (o & w1 & Hget & Hrun).
  unfold get_object, bind, get_world, deref in Hget.
  destruct (objects w !! a) as [o'|] eqn:Ho; [|discriminate].
  injection Hget as <- <-. destruct o' as [e s|e c]; [|discriminate].
  injection Hrun as <-. apply (graph_insert_same _ (server_object e s)); [assumption|].
  unfold node_of. simpl. rewrite Hf. reflexivity.
Qed.

Lemma keeps_update_client a f : keeps_graph (update_client a f).
Proof.
  intros w [] w' Hrun. unfold update_client in Hrun.
  apply bind_inv in Hrun as (o & w1 & Hget & Hrun).
  unfold get_object, bind, get_world, deref in Hget.
  destruct (objects w !! a) as [o'|] eqn:Ho; [|discriminate].
  injection Hget as <- <-. destruct o' as [e s|e c]; [discriminate|].
  injection Hrun as <-. apply (graph_insert_same _ (client_object e c)); [assumption|].
  reflexivity.
Qed.

Create HintDb keeps.
#[local] Hint Resolve keeps_ret keeps_raise keeps_get_world keeps_deref keeps_c_assert
  keeps_update_client : keeps.
#[local] Hint Extern 1 (keeps_graph (modify _)) =>
  apply keeps_modify; intros; reflexivity : keeps.
#[local] Hint Extern 1 (keeps_graph (update_end _ _)) =>
  apply keeps_update_end; intros; reflexivity : keeps.
#[local] Hint Extern 1 (keeps_graph (update_server _ _)) =>
  apply keeps_update_server; intros; reflexivity : keeps.

(** The frame of a computation that is built from computations with a
    frame. *)
Ltac keeps_tac :=
  repeat first
    [ solve [auto with keeps]
    | apply keeps_bind; [|intros]
    | apply keeps_when
    | match goal with
      | |- keeps_graph (match ?x with _ => _ end) => destruct x
      | |- keeps_graph (if ?b then _ else _) => destruct b
      | |- keeps_graph (let '(_, _) := ?x in _) => destruct x
      end ].

Lemma keeps_set_error st : keeps_graph (set_error st).
Proof. unfold set_error. keeps_tac. Qed.

Lemma keeps_get_error : keeps_graph get_error.
Proof. unfold get_error. keeps_tac. Qed.

Lemma keeps_set_ignore_reselect b : keeps_graph (set_ignore_reselect b).
Proof. unfold set_ignore_reselect. keeps_tac. Qed.

Lemma keeps_log_calls cs : keeps_graph (log_calls cs).
Proof. unfold log_calls. keeps_tac. Qed.

Lemma keeps_host_try : keeps_graph host_try.
Proof. unfold host_try. keeps_tac. Qed.

Lemma keeps_get_object a : keeps_graph (get_object a).
Proof. unfold get_object. keeps_tac. Qed.

#[local] Hint Resolve keeps_set_error keeps_get_error keeps_set_ignore_reselect
  keeps_log_calls keeps_host_try keeps_get_object : keeps.

Lemma keeps_get_end a : keeps_graph (get_end a).
Proof. unfold get_end. keeps_tac. Qed.

Lemma keeps_get_server a : keeps_graph (get_server a).
Proof. unfold get_server. keeps_tac. Qed.

Lemma keeps_get_client a : keeps_graph (get_client a).
Proof. unfold get_client. keeps_tac. Qed.

Lemma keeps_get_pipe p : keeps_graph (get_pipe p).
Proof. unfold get_pipe. keeps_tac. Qed.

Lemma keeps_get_fd f : keeps_graph (get_fd f).
Proof. unfold get_fd. keeps_tac. Qed.

#[local] Hint Resolve keeps_get_end keeps_get_server keeps_get_client keeps_get_pipe
  keeps_get_fd : keeps.

Lemma keeps_update_pipe p f : keeps_graph (update_pipe p f).
Proof. unfold update_pipe. keeps_tac. Qed.

Lemma keeps_update_fd f g : keeps_graph (update_fd f g).
Proof. unfold update_fd. keeps_tac. Qed.

Lemma keeps_clear_error : keeps_graph clear_error.
Proof. unfold clear_error. keeps_tac. Qed.

#[local] Hint Resolve keeps_update_pipe keeps_update_fd keeps_clear_error : keeps.

Lemma keeps_alloc_handle : keeps_graph alloc_handle.
Proof. unfold alloc_handle. keeps_tac. Qed.

Lemma keeps_close_handle h : keeps_graph (close_handle h).
Proof. unfold close_handle. keeps_tac. Qed.

Lemma keeps_get_fd_user f : keeps_graph (get_fd_user f).
Proof. unfold get_fd_user. keeps_tac. Qed.

Lemma keeps_new_fd o : keeps_graph (new_fd o).
Proof. unfold new_fd. keeps_tac. Qed.

Lemma keeps_set_fd_signaled f b : keeps_graph (set_fd_signaled f b).
Proof. unfold set_fd_signaled. keeps_tac. Qed.

Lemma keeps_set_no_fd_status f st : keeps_graph (set_no_fd_status f st).
Proof. unfold set_no_fd_status. keeps_tac. Qed.

Lemma keeps_fd_queue_async f a : keeps_graph (fd_queue_async f a).
Proof. unfold fd_queue_async. keeps_tac. Qed.

Lemma keeps_fd_async_wake_up f st : keeps_graph (fd_async_wake_up f st).
Proof. unfold fd_async_wake_up. keeps_tac. Qed.

Lemma keeps_host_default : keeps_graph host_default.
Proof. unfold host_default. keeps_tac. Qed.

Lemma keeps_create_async_queue : keeps_graph create_async_queue.
Proof. unfold create_async_queue. keeps_tac. Qed.

Lemma keeps_grab_pipe p : keeps_graph (grab_pipe p).
Proof. unfold grab_pipe. keeps_tac. Qed.

Lemma keeps_named_pipe_destroy p : keeps_graph (named_pipe_destroy p).
Proof. unfold named_pipe_destroy. keeps_tac. Qed.

#[local] Hint Resolve keeps_alloc_handle keeps_close_handle keeps_get_fd_user
  keeps_new_fd keeps_set_fd_signaled keeps_set_no_fd_status keeps_fd_queue_async
  keeps_fd_async_wake_up keeps_host_default keeps_create_async_queue keeps_grab_pipe
  keeps_named_pipe_destroy : keeps.

Lemma keeps_release_pipe p : keeps_graph (release_pipe p).
Proof. unfold release_pipe. keeps_tac. Qed.

Lemma keeps_open_named_object nm : keeps_graph (open_named_object nm).
Proof. unfold open_named_object. keeps_tac. Qed.

Lemma keeps_create_named_object nm : keeps_graph (create_named_object nm).
Proof. unfold create_named_object. keeps_tac. Qed.

#[local] Hint Resolve keeps_release_pipe keeps_open_named_object
  keeps_create_named_object : keeps.

Lemma keeps_run {A} (m : M A) w a w' :
  keeps_graph m → m w = Ok (a, w') → graph w' = graph w.
Proof. intros Hm Hrun. exact (Hm w a w' Hrun). Qed.

Section connection_graph.
Context `{protocol_constants}.

Lemma keeps_notify_empty server : keeps_graph (notify_empty server).
Proof. unfold notify_empty. keeps_tac. Qed.

Lemma keeps_do_disconnect server : keeps_graph (do_disconnect server).
Proof. unfold do_disconnect. keeps_tac. Qed.

Lemma keeps_pipe_end_destroy a : keeps_graph (pipe_end_destroy a).
Proof. unfold pipe_end_destroy. keeps_tac. Qed.

Lemma keeps_pipe_data_remaining server : keeps_graph (pipe_data_remaining server).
Proof. unfold pipe_data_remaining. keeps_tac. Qed.

Hint Resolve keeps_notify_empty keeps_do_disconnect keeps_pipe_end_destroy
  keeps_pipe_data_remaining : keeps.

Lemma keeps_check_flushed server : keeps_graph (check_flushed server).
Proof. unfold check_flushed. keeps_tac. Qed.

Lemma keeps_pipe_end_flush a x : keeps_graph (pipe_end_flush a x).
Proof. unfold pipe_end_flush. keeps_tac. Qed.

Hint Resolve keeps_check_flushed keeps_pipe_end_flush : keeps.

Lemma keeps_pipe_server_flush f x : keeps_graph (pipe_server_flush f x).
Proof. unfold pipe_server_flush. keeps_tac. Qed.

Lemma keeps_pipe_client_flush f x : keeps_graph (pipe_client_flush f x).
Proof. unfold pipe_client_flush. keeps_tac. Qed.

Lemma keeps_reselect_write_queue_then k a :
  (∀ c, keeps_graph (k c)) → keeps_graph (reselect_write_queue_then k a).
Proof. intros Hk. unfold reselect_write_queue_then. keeps_tac. Qed.

Lemma keeps_read_rounds {A} (r : outcome A) :
  keeps_graph (λ w', match r with Ok x => Ok (x, w') | Fault f => Fault f end).
Proof. intros w a w'. destruct r; [|discriminate]. intros [= <- <-]. reflexivity. Qed.

Lemma keeps_reselect_read_queue fuel a : keeps_graph (reselect_read_queue fuel a).
Proof.
  revert a. induction fuel as [|fuel IH]; intros a; [apply keeps_raise|].
  simpl. apply keeps_bind; [auto with keeps|]. intros [].
  apply keeps_bind; [auto with keeps|]. intros e.
  apply keeps_bind; [auto with keeps|]. intros w0.
  apply keeps_bind; [apply keeps_read_rounds|]. intros [[[[q pending] cs] read_done] script'].
  keeps_tac; try apply keeps_reselect_write_queue_then, IH.
Qed.

Lemma keeps_reselect_write_queue fuel a : keeps_graph (reselect_write_queue fuel a).
Proof. apply keeps_reselect_write_queue_then. intros c. apply keeps_reselect_read_queue. Qed.

Lemma keeps_reader_iosb_status a x : keeps_graph (reader_iosb_status a x).
Proof. unfold reader_iosb_status. keeps_tac. Qed.

Lemma keeps_writer_iosb_status a x : keeps_graph (writer_iosb_status a x).
Proof. unfold writer_iosb_status. keeps_tac. Qed.

Hint Resolve keeps_pipe_server_flush keeps_pipe_client_flush keeps_reselect_read_queue
  keeps_reselect_write_queue keeps_reader_iosb_status keeps_writer_iosb_status : keeps.

Lemma keeps_pipe_end_read fuel f x : keeps_graph (pipe_end_read fuel f x).
Proof. unfold pipe_end_read. keeps_tac. Qed.

Lemma keeps_pipe_end_write fuel f x : keeps_graph (pipe_end_write fuel f x).
Proof. unfold pipe_end_write. keeps_tac. Qed.

Lemma keeps_pipe_end_reselect_async fuel f q :
  keeps_graph (pipe_end_reselect_async fuel f q).
Proof. unfold pipe_end_reselect_async. keeps_tac. Qed.

Lemma keeps_pipe_end_peek reply_max a : keeps_graph (pipe_end_peek reply_max a).
Proof. unfold pipe_end_peek. keeps_tac. Qed.

Hint Resolve keeps_pipe_end_peek : keeps.

Lemma keeps_pipe_client_ioctl reply_max f code x :
  keeps_graph (pipe_client_ioctl reply_max f code x).
Proof. unfold pipe_client_ioctl. keeps_tac. Qed.

Lemma keeps_first_server_in st l : keeps_graph (first_server_in st l).
Proof. induction l as [|a l IH]; simpl; keeps_tac. Qed.

Hint Resolve keeps_first_server_in : keeps.

Lemma keeps_find_available_server pipe : keeps_graph (find_available_server pipe).
Proof. unfold find_available_server. keeps_tac. Qed.

Hint Resolve keeps_find_available_server : keeps.

Lemma keeps_named_pipe_device_ioctl code wr x :
  keeps_graph (named_pipe_device_ioctl code wr x).
Proof. unfold named_pipe_device_ioctl. keeps_tac. Qed.

Lemma keeps_get_named_pipe_info target : keeps_graph (get_named_pipe_info target).
Proof. unfold get_named_pipe_info. keeps_tac. Qed.

Lemma keeps_set_named_pipe_info target fl : keeps_graph (set_named_pipe_info target fl).
Proof. unfold set_named_pipe_info. keeps_tac. Qed.


(** ** The connection graph under the assignments of the code *)

Lemma conn_of_graph w a c :
  conn_of (graph w) a = Some c
  ↔ ∃ o, objects w !! a = Some o ∧ connection (object_end o) = c.
Proof.
  unfold conn_of, graph. rewrite lookup_fmap.
  destruct (objects w !! a) as [o|]; simpl; split.
  - intros [= <-]. eauto.
  - intros (o' & [= <-] & <-). reflexivity.
  - discriminate.
  - intros (o' & Ho & _). discriminate.
Qed.

Lemma state_of_graph w a e s :
  objects w !! a = Some (server_object e s) → state_of (graph w) a = Some (state s).
Proof. intros Ho. unfold state_of, graph. rewrite lookup_fmap, Ho. reflexivity. Qed.

Lemma lookup_alter_at (f : node → node) x (g : gmap addr node) a :
  alter f x g !! a = if decide (x = a) then f <$> g !! a else g !! a.
Proof. rewrite lookup_alter. destruct (decide (x = a)) as [->|]; reflexivity. Qed.

Lemma lookup_delete_at x (g : gmap addr node) a :
  delete x g !! a = if decide (x = a) then None else g !! a.
Proof. rewrite lookup_delete. destruct (decide (x = a)); reflexivity. Qed.

Lemma lookup_insert_at x n (g : gmap addr node) a :
  <[x := n]> g !! a = if decide (x = a) then Some n else g !! a.
Proof. rewrite lookup_insert. destruct (decide (x = a)); reflexivity. Qed.

Lemma conn_of_clear x g a :
  conn_of (clear_connection x g) a
  = if decide (x = a) then (λ _, None) <$> conn_of g a else conn_of g a.
Proof.
  unfold conn_of, clear_connection. rewrite lookup_alter_at.
  destruct (decide (x = a)) as [->|]; [|reflexivity].
  destruct (g !! a) as [[c k]|]; reflexivity.
Qed.

Lemma state_of_clear x g a : state_of (clear_connection x g) a = state_of g a.
Proof.
  unfold state_of, clear_connection. rewrite lookup_alter_at.
  destruct (decide (x = a)) as [->|]; [|reflexivity].
  destruct (g !! a) as [[c k]|]; reflexivity.
Qed.

Lemma conn_of_cut x g a :
  conn_of (cut x g) a
  = if decide (x = a ∨ conn_of g x = Some (Some a))
    then (λ _, None) <$> conn_of g a else conn_of g a.
Proof.
  unfold cut. destruct (conn_of g x) as [[b|]|] eqn:Hx; rewrite !conn_of_clear;
    repeat (destruct (decide _) as [?|?]); subst; try reflexivity;
    try (destruct (conn_of g a) eqn:?; reflexivity); exfalso; intuition congruence.
Qed.

Lemma state_of_cut x g a : state_of (cut x g) a = state_of g a.
Proof. unfold cut. destruct (conn_of g x) as [[b|]|]; rewrite ?state_of_clear; reflexivity. Qed.

Lemma conn_of_set_state s st g a : conn_of (set_state s st g) a = conn_of g a.
Proof.
  unfold conn_of, set_state. rewrite lookup_alter_at.
  destruct (decide (s = a)) as [->|]; [|reflexivity].
  destruct (g !! a) as [[c k]|]; reflexivity.
Qed.

Lemma state_of_set_state s st g a :
  state_of (set_state s st g) a
  = if decide (s = a) then (λ _, st) <$> conn_of g a else state_of g a.
Proof.
  unfold state_of, conn_of, set_state. rewrite lookup_alter_at.
  destruct (decide (s = a)) as [->|]; [|reflexivity].
  destruct (g !! a) as [[c k]|]; reflexivity.
Qed.

Lemma conn_of_connect x y g a :
  conn_of (connect x y g) a
  = if decide (x = a) then (λ _, Some y) <$> conn_of g a else conn_of g a.
Proof.
  unfold conn_of, connect. rewrite lookup_alter_at.
  destruct (decide (x = a)) as [->|]; [|reflexivity].
  destruct (g !! a) as [[c k]|]; reflexivity.
Qed.

Lemma state_of_connect x y g a : state_of (connect x y g) a = state_of g a.
Proof.
  unfold state_of, connect. rewrite lookup_alter_at.
  destruct (decide (x = a)) as [->|]; [|reflexivity].
  destruct (g !! a) as [[c k]|]; reflexivity.
Qed.

Lemma conn_of_delete x g a :
  conn_of (delete x g) a = if decide (x = a) then None else conn_of g a.
Proof. unfold conn_of. rewrite lookup_delete_at. destruct (decide (x = a)); reflexivity. Qed.

Lemma state_of_delete x g a :
  state_of (delete x g) a = if decide (x = a) then None else state_of g a.
Proof. unfold state_of. rewrite lookup_delete_at. destruct (decide (x = a)); reflexivity. Qed.

Lemma conn_of_insert x n g a :
  conn_of (<[x := n]> g) a = if decide (x = a) then Some n.1 else conn_of g a.
Proof. unfold conn_of. rewrite lookup_insert_at. destruct (decide (x = a)); reflexivity. Qed.

Lemma state_of_insert x n g a :
  state_of (<[x := n]> g) a = if decide (x = a) then n.2 else state_of g a.
Proof. unfold state_of. rewrite lookup_insert_at. destruct (decide (x = a)); reflexivity. Qed.

Lemma conn_of_None (g : gmap addr node) (a : addr) :
  g !! a = None → conn_of g a = None.
Proof. intros Ha. unfold conn_of. rewrite Ha. reflexivity. Qed.

Lemma cut_unconnected g a :
  conn_of g a = Some None ∨ conn_of g a = None → cut a g = g.
Proof.
  intros Ha. unfold cut, clear_connection.
  assert (Hid : alter (λ n : node, (None, n.2)) a g = g).
  { apply alter_id. intros [c k] Hn. unfold conn_of in Ha. rewrite Hn in Ha.
    destruct Ha as [[= ->]|[=]]. reflexivity. }
  destruct Ha as [-> | ->]; exact Hid.
Qed.

Lemma set_state_same (g : gmap addr node) (a : addr) c st :
  g !! a = Some (c, Some st) → set_state a st g = g.
Proof.
  intros Ha. apply alter_id. intros n Hn. rewrite Ha in Hn. injection Hn as <-. reflexivity.
Qed.

(** ** The invariant under the moves of the graph *)

Ltac graph_simpl :=
  repeat (progress
    rewrite ?conn_of_cut, ?state_of_cut, ?conn_of_set_state, ?state_of_set_state,
      ?conn_of_connect, ?state_of_connect, ?conn_of_delete, ?state_of_delete,
      ?conn_of_insert, ?state_of_insert in * ).

(** The cases of the addresses that a move names, with the lookups that
    the move overwrites. *)
Ltac graph_cases :=
  graph_simpl; repeat case_decide; simplify_eq/=;
  repeat match goal with
         | H : _ <$> conn_of ?g ?a = Some _ |- _ =>
             let E := fresh "E" in
             destruct (conn_of g a) eqn:E; simpl in H; simplify_eq/=
         | H : conn_of ?g ?a = Some _ |- context [conn_of ?g ?a] => rewrite H; simpl
         end.

Lemma graph_ok_cut a g : graph_ok g → graph_ok (cut a g).
Proof.
  intros [Hsym Hwait]. split.
  - intros x y Hx. graph_cases; try (exfalso; intuition congruence).
    + exfalso. pose proof (Hsym _ _ Hx) as Hy.
      match goal with
      | Hn : ¬ _, Hd : _ ∨ _ |- _ =>
          destruct Hd as [->|Ha]; apply Hn;
          [right; exact Hy|apply Hsym in Ha; left; congruence]
      end.
    + apply Hsym, Hx.
  - intros x st Hst Hw. graph_simpl. pose proof (Hwait _ _ Hst Hw) as Hx.
    rewrite Hx. case_decide; reflexivity.
Qed.

Lemma graph_ok_delete a g :
  graph_ok g → conn_of g a = Some None ∨ conn_of g a = None → graph_ok (delete a g).
Proof.
  intros [Hsym Hwait] Ha. split.
  - intros x y Hx. graph_cases.
    + apply Hsym in Hx. destruct Ha; congruence.
    + apply Hsym, Hx.
  - intros x st Hst Hw. graph_cases. apply (Hwait _ _ Hst Hw).
Qed.

Lemma graph_ok_insert_fresh (a : addr) k (g : gmap addr node) :
  graph_ok g → g !! a = None → graph_ok (<[a := (None, k)]> g).
Proof.
  intros [Hsym Hwait] Ha. apply conn_of_None in Ha. split.
  - intros x y Hx. graph_cases.
    + apply Hsym in Hx. congruence.
    + apply Hsym, Hx.
  - intros x st Hst Hw. graph_cases; [reflexivity|]. apply (Hwait _ _ Hst Hw).
Qed.

Lemma graph_ok_set_state s st g :
  graph_ok g →
  (waiting st → conn_of g s = Some None ∨ conn_of g s = None) →
  graph_ok (set_state s st g).
Proof.
  intros [Hsym Hwait] Hs. split.
  - intros x y Hx. graph_cases. apply Hsym, Hx.
  - intros x st' Hst Hw. graph_cases.
    + destruct (Hs Hw); congruence.
    + apply (Hwait _ _ Hst Hw).
Qed.

Lemma graph_ok_pair s c g :
  graph_ok g → s ≠ c →
  conn_of g s = Some None → conn_of g c = Some None →
  (∀ st, state_of g s = Some st → ¬ waiting st) →
  (∀ st, state_of g c = Some st → ¬ waiting st) →
  graph_ok (connect c s (connect s c g)).
Proof.
  intros [Hsym Hwait] Hsc Hs Hc Hss Hcs. split.
  - intros x y Hx. graph_cases; try congruence.
    + apply Hsym in Hx. congruence.
    + apply Hsym in Hx. congruence.
    + apply Hsym, Hx.
  - intros x st Hst Hw. graph_cases.
    + destruct (Hcs _ Hst Hw).
    + destruct (Hss _ Hst Hw).
    + apply (Hwait _ _ Hst Hw).
Qed.

Lemma waiting_conn g a st :
  graph_ok g → state_of g a = Some st → waiting st → conn_of g a = Some None.
Proof. intros [_ Hwait]. apply Hwait. Qed.

Lemma conn_of_cut_self a g :
  conn_of (cut a g) a = Some None ∨ conn_of (cut a g) a = None.
Proof.
  rewrite conn_of_cut. rewrite decide_True by (left; reflexivity).
  destruct (conn_of g a); simpl; auto.
Qed.

Lemma cut_discipline g x a c c' :
  symmetric g → conn_of g a = Some c → conn_of (cut x g) a = Some c' → c' ≠ c →
  c' = None ∧ ∀ b c'', c = Some b → conn_of (cut x g) b = Some c'' → c'' = None.
Proof.
  intros Hsym Ha Ha' Hne. rewrite conn_of_cut in Ha'.
  destruct (decide (x = a ∨ conn_of g x = Some (Some a))) as [Hd|Hd];
    [|congruence].
  rewrite Ha in Ha'. injection Ha' as <-. split; [reflexivity|].
  intros b c'' -> Hb. rewrite conn_of_cut in Hb.
  rewrite decide_True in Hb.
  - destruct (conn_of g b); simpl in Hb; congruence.
  - destruct Hd as [->|Hx]; [right; exact Ha|].
    apply Hsym in Hx. left. congruence.
Qed.

Lemma request_moves_ok r g g' : graph_ok g → request_moves r g g' → graph_ok g'.
Proof.
  intros Hok Hmove.
  destruct r as [req|pipe access sharing_req options|reply_max f code a| | | | | | | | | |
                 | s|c| | |]; simpl in Hmove; subst; try assumption.
  - destruct Hmove as [->|(a & Ha & ->)]; [assumption|].
    apply graph_ok_insert_fresh; assumption.
  - destruct Hmove as [->|[(s & ->)|(s & c & Hc & Hs & ->)]]; [assumption| |].
    + apply graph_ok_set_state; [assumption|]. intros [?|[?|?]]; discriminate.
    + assert (Hsc : s ≠ c).
      { intros ->. unfold state_of in Hs. rewrite Hc in Hs. destruct Hs; discriminate. }
      assert (Hconn : conn_of g s = Some None).
      { destruct Hs as [Hs|Hs]; apply (waiting_conn _ _ _ Hok Hs); unfold waiting; auto. }
      apply graph_ok_pair; [|assumption| | | |].
      * apply graph_ok_set_state; [apply graph_ok_insert_fresh; assumption|].
        intros [?|[?|?]]; discriminate.
      * graph_cases. reflexivity.
      * graph_cases. reflexivity.
      * intros st Hst. graph_cases. intros [?|[?|?]]; discriminate.
      * intros st Hst. graph_cases.
  - destruct code; subst; try assumption.
    + destruct Hmove as [->|(s & Hs & ->)]; [assumption|].
      apply graph_ok_set_state; [assumption|]. intros _. left.
      destruct Hs as [Hs|Hs]; apply (waiting_conn _ _ _ Hok Hs); unfold waiting; auto.
    + destruct Hmove as [->|(s & ->)]; [assumption|].
      apply graph_ok_set_state; [apply graph_ok_cut, Hok|]. intros _.
      apply conn_of_cut_self.
  - apply graph_ok_delete; [apply graph_ok_cut, Hok|apply conn_of_cut_self].
  - destruct Hmove as [->|(s & ->)].
    + apply graph_ok_delete; [apply graph_ok_cut, Hok|apply conn_of_cut_self].
    + apply graph_ok_delete.
      * apply graph_ok_set_state; [apply graph_ok_cut, Hok|].
        intros [?|[?|?]]; discriminate.
      * rewrite conn_of_set_state. apply conn_of_cut_self.
Qed.

Lemma request_moves_discipline r g g' :
  graph_ok g → request_moves r g g' → connection_discipline r g g'.
Proof.
  intros Hok Hmove a c c' Ha Ha' Hne.
  assert (Hcut : ∀ x g1,
    (∀ z v, conn_of g1 z = Some v → conn_of (cut x g) z = Some v) →
    conn_of g1 a = Some c' →
    c' = None ∧ ∀ b c'', c = Some b → conn_of g1 b = Some c'' → c'' = None).
  { intros x g1 Hg1 Hc'.
    destruct (cut_discipline g x a c c' (proj1 Hok) Ha (Hg1 _ _ Hc') Hne) as [-> Hpeer].
    split; [reflexivity|]. intros b c'' Hb Hc''. exact (Hpeer b c'' Hb (Hg1 _ _ Hc'')). }
  destruct r as [req|pipe access sharing_req options|reply_max f code x| | | | | | | | | |
                 | s|cl| | |]; simpl in Hmove; subst; try congruence.
  - destruct Hmove as [->|(b & Hb & ->)]; [congruence|].
    apply conn_of_None in Hb. graph_cases; congruence.
  - destruct Hmove as [->|[(s & ->)|(s & cl & Hcl & Hs & ->)]]; [congruence| |].
    + graph_cases; congruence.
    + assert (Hconn : conn_of g s = Some None).
      { destruct Hs as [Hs|Hs]; apply (waiting_conn _ _ _ Hok Hs); unfold waiting; auto. }
      apply conn_of_None in Hcl. left. split; [exact I|].
      graph_cases; try congruence.
      split; [reflexivity|]. exists cl. split; [reflexivity|].
      graph_cases. reflexivity.
  - destruct code; simpl in Hmove; subst; try congruence.
    + destruct Hmove as [->|(s & _ & ->)]; [congruence|]. graph_cases; congruence.
    + destruct Hmove as [->|(s & ->)]; [congruence|]. right. split; [exact I|].
      apply (Hcut s (set_state s ps_wait_connect (cut s g))); [|exact Ha'].
      intros z v Hz. rewrite conn_of_set_state in Hz. exact Hz.
  - right. split; [exact I|]. apply (Hcut s (delete s (cut s g))); [|exact Ha'].
    intros z v Hz. rewrite conn_of_delete in Hz. case_decide; [discriminate|exact Hz].
  - right. split; [exact I|]. destruct Hmove as [->|(s & ->)].
    + apply (Hcut cl (delete cl (cut cl g))); [|exact Ha'].
      intros z v Hz. rewrite conn_of_delete in Hz. case_decide; [discriminate|exact Hz].
    + apply (Hcut cl (delete cl (set_state s ps_wait_disconnect (cut cl g)))); [|exact Ha'].
      intros z v Hz. rewrite conn_of_delete, conn_of_set_state in Hz.
      case_decide; [discriminate|exact Hz].
Qed.

(** ** What the code does to the graph *)

Lemma insert_as_alter (f : node → node) (a : addr) n (g : gmap addr node) :
  g !! a = Some n → <[a := f n]> g = alter f a g.
Proof.
  intros Ha. apply map_eq. intros i. rewrite lookup_alter_at, lookup_insert_at.
  destruct (decide (a = i)) as [->|]; [rewrite Ha|]; reflexivity.
Qed.

Lemma update_server_state_graph a st w w' :
  update_server a (with_state st) w = Ok (tt, w') →
  graph w' = set_state a st (graph w).
Proof.
  intros Hrun. unfold update_server in Hrun.
  apply bind_inv in Hrun as (o & w1 & Hget & Hrun).
  unfold get_object, bind, get_world, deref in Hget.
  destruct (objects w !! a) as [o'|] eqn:Ho; [|discriminate].
  injection Hget as <- <-. destruct o' as [e s|e c]; [|discriminate].
  injection Hrun as <-. rewrite graph_insert.
  apply (insert_as_alter (λ n, (n.1, Some st)) a (node_of (server_object e s))).
  apply graph_lookup, Ho.
Qed.

Lemma update_end_clear_graph a w w' :
  update_end a (with_connection None) w = Ok (tt, w') →
  graph w' = clear_connection a (graph w).
Proof.
  intros Hrun. apply update_end_inv in Hrun as (o & Ho & ->). rewrite graph_insert.
  replace (node_of (with_end o (with_connection None (object_end o))))
    with (@None addr, (node_of o).2) by (destruct o; reflexivity).
  apply (insert_as_alter (λ n : node, (None, n.2)) a (node_of o)), graph_lookup, Ho.
Qed.

Lemma update_end_connect_graph a b w w' :
  update_end a (with_connection (Some b)) w = Ok (tt, w') →
  graph w' = connect a b (graph w).
Proof.
  intros Hrun. apply update_end_inv in Hrun as (o & Ho & ->). rewrite graph_insert.
  replace (node_of (with_end o (with_connection (Some b) (object_end o))))
    with (Some b, (node_of o).2) by (destruct o; reflexivity).
  apply (insert_as_alter (λ n : node, (Some b, n.2)) a (node_of o)), graph_lookup, Ho.
Qed.

Lemma get_end_graph a e w w' :
  get_end a w = Ok (e, w') → w' = w ∧ conn_of (graph w) a = Some (connection e).
Proof.
  intros Hrun. apply get_end_inv in Hrun as (-> & o & Ho & ->).
  split; [reflexivity|]. apply conn_of_graph. eauto.
Qed.

Lemma get_server_graph a s w w' :
  get_server a w = Ok (s, w') → w' = w ∧ state_of (graph w) a = Some (state s).
Proof.
  intros Hrun. unfold get_server in Hrun.
  apply bind_inv in Hrun as (o & w1 & Hget & Hrun).
  unfold get_object, bind, get_world, deref in Hget.
  destruct (objects w !! a) as [o'|] eqn:Ho; [|discriminate].
  injection Hget as <- <-. destruct o' as [e s'|e c]; [|discriminate].
  injection Hrun as <- <-. split; [reflexivity|]. eapply state_of_graph, Ho.
Qed.

Lemma alloc_object_graph o r w w' :
  alloc_object o w = Ok (r, w') →
  match r with
  | Some a => graph w !! a = None ∧ graph w' = <[a := node_of o]> (graph w)
  | None => graph w' = graph w
  end.
Proof.
  intros Hrun. unfold alloc_object in Hrun.
  apply bind_inv in Hrun as (ok & w1 & Hok & Hrun).
  apply keeps_run in Hok as Hg; [|apply keeps_host_try]. destruct ok.
  - unfold bind, get_world, modify, ret in Hrun. injection Hrun as <- <-.
    rewrite graph_insert, Hg. split; [|reflexivity].
    rewrite <- Hg. unfold graph. rewrite lookup_fmap.
    rewrite (proj1 (not_elem_of_dom (objects w1) _)); [reflexivity|apply is_fresh].
  - apply bind_inv in Hrun as ([] & w2 & Herr & Hrun). injection Hrun as <- <-.
    apply keeps_run in Herr; [|auto with keeps]. congruence.
Qed.

Lemma free_object_graph a w w' :
  free_object a w = Ok (tt, w') → graph w' = delete a (graph w).
Proof. intros [= <-]. apply graph_delete. Qed.

Lemma set_server_state_graph server st w w' :
  set_server_state server st w = Ok (tt, w') →
  graph w' = set_state server st (graph w).
Proof.
  intros Hrun. unfold set_server_state in Hrun.
  apply bind_inv in Hrun as ([] & w1 & Hup & Hrun).
  apply update_server_state_graph in Hup. rewrite <- Hup.
  revert Hrun. apply keeps_run. keeps_tac.
Qed.

Lemma clear_connection_idemp a g :
  clear_connection a (clear_connection a g) = clear_connection a g.
Proof.
  apply map_eq. intros i. unfold clear_connection. rewrite !lookup_alter_at.
  destruct (decide (a = i)); [|reflexivity]. destruct (g !! i) as [[c k]|]; reflexivity.
Qed.

Lemma disconnect_own_end_graph a e st w w' :
  disconnect_own_end a e st w = Ok (tt, w') →
  graph w' = clear_connection a (graph w).
Proof.
  intros Hrun. unfold disconnect_own_end in Hrun.
  apply bind_inv in Hrun as ([] & w1 & Hup & Hrun).
  apply update_end_clear_graph in Hup. rewrite <- Hup.
  revert Hrun. apply keeps_run. keeps_tac.
Qed.

Lemma pipe_end_disconnect_1_graph c st w w' :
  pipe_end_disconnect 1 c st w = Ok (tt, w') →
  graph w' = clear_connection c (graph w).
Proof.
  intros Hrun. rewrite pipe_end_disconnect_unfold in Hrun.
  apply bind_inv in Hrun as (e & w1 & He & Hrun). apply get_end_graph in He as [-> _].
  apply bind_inv in Hrun as ([] & w2 & Hown & Hrun).
  apply disconnect_own_end_graph in Hown.
  destruct (connection e) as [x|].
  - apply bind_inv in Hrun as ([] & w3 & _ & Hrun). discriminate Hrun.
  - injection Hrun as <-. exact Hown.
Qed.

(** [pipe_end_disconnect] cuts the edge of the end: it clears the
    connection of the end and of the peer that it had. *)
Lemma pipe_end_disconnect_graph a st w w' :
  pipe_end_disconnect 2 a st w = Ok (tt, w') → graph w' = cut a (graph w).
Proof.
  intros Hrun. rewrite pipe_end_disconnect_unfold in Hrun.
  apply bind_inv in Hrun as (e & w1 & He & Hrun). apply get_end_graph in He as [-> He].
  apply bind_inv in Hrun as ([] & w2 & Hown & Hrun).
  apply disconnect_own_end_graph in Hown. unfold cut. rewrite He.
  destruct (connection e) as [c|].
  - apply bind_inv in Hrun as ([] & w3 & Hpeer & Hrun).
    apply update_end_clear_graph in Hpeer. apply pipe_end_disconnect_1_graph in Hrun.
    rewrite Hrun, Hpeer, Hown. apply clear_connection_idemp.
  - injection Hrun as <-. exact Hown.
Qed.

Lemma pipe_server_destroy_graph server w w' :
  pipe_server_destroy server w = Ok (tt, w') →
  graph w' = delete server (cut server (graph w)).
Proof.
  intros Hrun. unfold pipe_server_destroy in Hrun.
  apply bind_inv in Hrun as ([] & w1 & Hcut & Hrun).
  apply pipe_end_disconnect_graph in Hcut. rewrite <- Hcut. clear Hcut.
  repeat match type of Hrun with
         | bind _ _ _ = Ok _ =>
             let Hk := fresh "Hk" in
             apply bind_inv in Hrun as (? & ? & Hk & Hrun);
             apply keeps_run in Hk; [rewrite <- Hk; clear Hk|solve [keeps_tac]]
         end.
  apply free_object_graph, Hrun.
Qed.

(** Runs the leading computations of [Hrun] that leave the graph alone. *)
Ltac run_keeps Hrun :=
  repeat match type of Hrun with
         | bind _ _ _ = Ok _ =>
             let Hk := fresh "Hk" in
             apply bind_inv in Hrun as (? & ? & Hk & Hrun);
             apply keeps_run in Hk; [rewrite <- Hk; clear Hk|solve [keeps_tac]]
         end.

Lemma pipe_client_destroy_graph client w w' :
  pipe_client_destroy client w = Ok (tt, w') →
  graph w' = delete client (cut client (graph w))
  ∨ ∃ s, graph w' = delete client (set_state s ps_wait_disconnect (cut client (graph w))).
Proof.
  intros Hrun. unfold pipe_client_destroy in Hrun.
  apply bind_inv in Hrun as (cl & w1 & Hcl & Hrun).
  apply keeps_run in Hcl; [|auto with keeps]. rewrite <- Hcl. clear Hcl.
  apply bind_inv in Hrun as ([] & w2 & Hcut & Hrun).
  apply pipe_end_disconnect_graph in Hcut. rewrite <- Hcut. clear Hcut.
  apply bind_inv in Hrun as ([] & w3 & Hsrv & Hrun).
  assert (Hend : graph w' = delete client (graph w3)).
  { run_keeps Hrun. apply free_object_graph, Hrun. }
  rewrite Hend. clear Hend Hrun.
  destruct (server_of cl) as [server|].
  - right. exists server. f_equal. run_keeps Hsrv.
    apply bind_inv in Hsrv as ([] & w4 & Hstate & Hsrv).
    match type of Hstate with
    | match ?st with _ => _ end _ = _ => destruct st; try discriminate Hstate
    end.
    apply set_server_state_graph in Hstate. rewrite <- Hstate.
    revert Hsrv. apply keeps_run. keeps_tac.
  - left. injection Hsrv as <-. reflexivity.
Qed.

(** The same when the graph of the current world is described by [Hg]. *)
Ltac run_keeps_in Hrun Hg :=
  repeat match type of Hrun with
         | bind _ _ _ = Ok _ =>
             let Hk := fresh "Hk" in
             apply bind_inv in Hrun as (? & ? & Hk & Hrun);
             apply keeps_run in Hk; [rewrite <- Hk in Hg; clear Hk|solve [keeps_tac]]
         end.

Lemma destroy_fresh (a : addr) k (g : gmap addr node) :
  g !! a = None → delete a (cut a (<[a := (None, k)]> g)) = g.
Proof.
  intros Ha. rewrite cut_unconnected.
  - apply delete_insert_id, Ha.
  - left. rewrite conn_of_insert. rewrite decide_True by reflexivity. reflexivity.
Qed.

Lemma create_pipe_server_graph pipe options pipe_flags r w w' :
  create_pipe_server pipe options pipe_flags w = Ok (r, w') →
  match r with
  | Some a => graph w !! a = None
              ∧ graph w' = <[a := (None, Some ps_idle_server)]> (graph w)
  | None => graph w' = graph w
  end.
Proof.
  intros Hrun. unfold create_pipe_server in Hrun.
  remember (graph w) as g eqn:Hg. symmetry in Hg.
  apply bind_inv in Hrun as (np & w1 & Hnp & Hrun).
  apply keeps_run in Hnp; [|auto with keeps]. rewrite <- Hnp in Hg. clear Hnp.
  apply bind_inv in Hrun as (allocated & w2 & Halloc & Hrun).
  apply alloc_object_graph in Halloc. rewrite Hg in Halloc. clear Hg.
  destruct allocated as [server|].
  - destruct Halloc as [Hfresh Hg]. simpl in Hg. run_keeps_in Hrun Hg.
    match type of Hrun with
    | match ?f with _ => _ end _ = _ => destruct f
    end.
    + run_keeps_in Hrun Hg.
      apply bind_inv in Hrun as ([] & w3 & Hstate & Hrun). injection Hrun as <- <-.
      apply set_server_state_graph in Hstate. rewrite Hg in Hstate.
      split; [assumption|]. rewrite Hstate.
      eapply set_state_same. apply lookup_insert_eq.
    + apply bind_inv in Hrun as ([] & w3 & Hdestroy & Hrun). injection Hrun as <- <-.
      apply pipe_server_destroy_graph in Hdestroy. rewrite Hg in Hdestroy.
      rewrite Hdestroy. apply destroy_fresh, Hfresh.
  - injection Hrun as <- <-. exact Halloc.
Qed.

Lemma create_named_pipe_graph req h w w' :
  create_named_pipe req w = Ok (h, w') →
  graph w' = graph w
  ∨ ∃ a, graph w !! a = None ∧ graph w' = <[a := (None, Some ps_idle_server)]> (graph w).
Proof.
  intros Hrun. unfold create_named_pipe in Hrun.
  remember (graph w) as g eqn:Hg. symmetry in Hg.
  assert (Hkeep : ∀ (m : M Z) w1, graph w1 = g → keeps_graph m →
                    m w1 = Ok (h, w') → graph w' = g).
  { intros m w1 Hw1 Hm Hm1. rewrite <- Hw1. exact (Hm _ _ _ Hm1). }
  destruct (req_objattr req) as [objattr|st];
    [|left; apply (Hkeep _ _ Hg) in Hrun; [assumption|solve [keeps_tac]]].
  match type of Hrun with
  | (if ?b then _ else _) _ = _ => destruct b
  end; [left; apply (Hkeep _ _ Hg) in Hrun; [assumption|solve [keeps_tac]]|].
  apply bind_inv in Hrun as (root_ok & w1 & Hroot & Hrun).
  apply keeps_run in Hroot; [|keeps_tac]. rewrite <- Hroot in Hg. clear Hroot.
  destruct root_ok; simpl in Hrun; [|left; injection Hrun as <- <-; assumption].
  apply bind_inv in Hrun as (created & w2 & Hcreated & Hrun).
  apply keeps_run in Hcreated; [|keeps_tac]. rewrite <- Hcreated in Hg. clear Hcreated.
  destruct created as [pipe|]; [|left; injection Hrun as <- <-; assumption].
  apply bind_inv in Hrun as (err & w3 & Herr & Hrun).
  apply keeps_run in Herr; [|keeps_tac]. rewrite <- Herr in Hg. clear Herr.
  apply bind_inv in Hrun as (proceed & w4 & Hproceed & Hrun).
  apply keeps_run in Hproceed; [|keeps_tac]. rewrite <- Hproceed in Hg. clear Hproceed.
  destruct proceed; simpl in Hrun; [|left; injection Hrun as <- <-; assumption].
  apply bind_inv in Hrun as (created_server & w5 & Hserver & Hrun).
  apply create_pipe_server_graph in Hserver. rewrite Hg in Hserver. clear Hg.
  apply bind_inv in Hrun as (handle & w6 & Hhandle & Hrun).
  assert (Hlast : graph w' = graph w6).
  { revert Hrun. apply keeps_run. keeps_tac. }
  rewrite Hlast. clear Hlast Hrun.
  destruct created_server as [server|].
  - destruct Hserver as [Hfresh Hg]. run_keeps_in Hhandle Hg.
    apply bind_inv in Hhandle as ([] & w7 & Hdestroy & Hhandle).
    injection Hhandle as <- <-.
    match type of Hdestroy with
    | when ?b _ _ = _ => destruct b; simpl in Hdestroy
    end.
    + left. apply pipe_server_destroy_graph in Hdestroy. rewrite Hg in Hdestroy.
      rewrite Hdestroy. apply destroy_fresh, Hfresh.
    + right. injection Hdestroy as <-. eauto.
  - left. injection Hhandle as <- <-. exact Hserver.
Qed.

Lemma pipe_server_ioctl_graph reply_max f code a h w w' :
  pipe_server_ioctl reply_max f code a w = Ok (h, w') →
  request_moves (do_server_ioctl reply_max f code a) (graph w) (graph w').
Proof.
  intros Hrun. unfold pipe_server_ioctl in Hrun.
  remember (graph w) as g eqn:Hg. symmetry in Hg.
  assert (Hkeep : ∀ (m : M Z) w1, graph w1 = g → keeps_graph m →
                    m w1 = Ok (h, w') → graph w' = g).
  { intros m w1 Hw1 Hm Hm1. rewrite <- Hw1. exact (Hm _ _ _ Hm1). }
  apply bind_inv in Hrun as (user & w1 & Huser & Hrun).
  apply keeps_run in Huser; [|auto with keeps]. rewrite <- Huser in Hg. clear Huser.
  destruct code; simpl;
    try (apply (Hkeep _ _ Hg) in Hrun; [assumption|solve [keeps_tac]]).
  - (* FSCTL_PIPE_LISTEN *)
    apply bind_inv in Hrun as (server & w2 & Hserver & Hrun).
    apply keeps_run in Hserver; [|auto with keeps]. rewrite <- Hserver in Hg. clear Hserver.
    apply bind_inv in Hrun as (s & w3 & Hs & Hrun).
    apply get_server_graph in Hs as [-> Hs]. rewrite Hg in Hs.
    destruct (state s);
      try (left; apply (Hkeep _ _ Hg) in Hrun; [assumption|solve [keeps_tac]]).
    + apply bind_inv in Hrun as (queued & w4 & Hq & Hrun).
      apply keeps_run in Hq; [|auto with keeps]. rewrite <- Hq in Hg. clear Hq.
      destruct queued; [|left; apply (Hkeep _ _ Hg) in Hrun; [assumption|solve [keeps_tac]]].
      right. exists server. split; [left; exact Hs|].
      run_keeps_in Hrun Hg.
      apply bind_inv in Hrun as ([] & w5 & Hstate & Hrun).
      apply set_server_state_graph in Hstate. rewrite Hg in Hstate. rewrite <- Hstate.
      revert Hrun. apply keeps_run. keeps_tac.
    + apply bind_inv in Hrun as (queued & w4 & Hq & Hrun).
      apply keeps_run in Hq; [|auto with keeps]. rewrite <- Hq in Hg. clear Hq.
      destruct queued; [|left; apply (Hkeep _ _ Hg) in Hrun; [assumption|solve [keeps_tac]]].
      right. exists server. split; [right; exact Hs|].
      run_keeps_in Hrun Hg.
      apply bind_inv in Hrun as ([] & w5 & Hstate & Hrun).
      apply set_server_state_graph in Hstate. rewrite Hg in Hstate. rewrite <- Hstate.
      revert Hrun. apply keeps_run. keeps_tac.
  - (* FSCTL_PIPE_DISCONNECT *)
    apply bind_inv in Hrun as (server & w2 & Hserver & Hrun).
    apply keeps_run in Hserver; [|auto with keeps]. rewrite <- Hserver in Hg. clear Hserver.
    apply bind_inv in Hrun as (s & w3 & Hs & Hrun).
    apply get_server_graph in Hs as [-> _].
    destruct (state s);
      try (left; apply (Hkeep _ _ Hg) in Hrun; [assumption|solve [keeps_tac]]);
      right; exists server; run_keeps_in Hrun Hg;
      apply bind_inv in Hrun as ([] & w5 & Hcut & Hrun);
      apply pipe_end_disconnect_graph in Hcut; rewrite Hg in Hcut; clear Hg;
      run_keeps_in Hrun Hcut;
      apply bind_inv in Hrun as ([] & w6 & Hstate & Hrun);
      apply set_server_state_graph in Hstate; rewrite Hcut in Hstate;
      injection Hrun as <- <-; exact Hstate.
Qed.

Lemma first_server_in_graph st l r w w' :
  first_server_in st l w = Ok (r, w') →
  w' = w ∧ ∀ s, r = Some s → state_of (graph w) s = Some st.
Proof.
  induction l as [|a l IH]; simpl; intros Hrun.
  - injection Hrun as <- <-. split; [reflexivity|discriminate].
  - apply bind_inv in Hrun as (s & w1 & Hs & Hrun).
    apply get_server_graph in Hs as [-> Hs].
    destruct (bool_decide_reflect (state s = st)) as [Hst|Hst]; [|apply IH, Hrun].
    injection Hrun as <- <-. split; [reflexivity|]. intros s' [= <-]. congruence.
Qed.

Lemma find_available_server_graph pipe r w w' :
  find_available_server pipe w = Ok (r, w') →
  graph w' = graph w
  ∧ ∀ s, r = Some s →
         state_of (graph w) s = Some ps_wait_open
         ∨ state_of (graph w) s = Some ps_idle_server.
Proof.
  intros Hrun. unfold find_available_server in Hrun.
  apply bind_inv in Hrun as (np & w1 & Hnp & Hrun).
  assert (w1 = w) as ->.
  { unfold get_pipe, bind, get_world, deref in Hnp.
    destruct (pipes w !! pipe); [|discriminate]. injection Hnp as <- <-. reflexivity. }
  apply bind_inv in Hrun as (listening & w2 & Hl & Hrun).
  apply first_server_in_graph in Hl as [-> Hl].
  destruct listening as [server|].
  - injection Hrun as <- <-. split; [reflexivity|]. intros s Hs. left. apply Hl, Hs.
  - apply first_server_in_graph in Hrun as [-> Hi].
    split; [reflexivity|]. intros s Hs. right. apply Hi, Hs.
Qed.

Lemma delete_set_state_fresh (c s : addr) st n (g : gmap addr node) :
  g !! c = None →
  delete c (set_state s st (<[c := n]> g)) = g
  ∨ delete c (set_state s st (<[c := n]> g)) = set_state s st g.
Proof.
  intros Hc. destruct (decide (s = c)) as [->|Hsc]; [left|right];
    apply map_eq; intros i; unfold set_state;
    rewrite lookup_delete_at, ?lookup_alter_at, ?lookup_insert_at;
    repeat case_decide; simplify_eq; try reflexivity; try congruence.
Qed.

(** The two ways in which the attempt to give the new client its
    descriptors ends: with both ends ready, or with the client destroyed. *)
Lemma destroy_new_client client (g : gmap addr node) paired w w' :
  g !! client = None →
  graph w = <[client := (None, None)]> g →
  (pipe_client_destroy client;; ret false) w = Ok (paired, w') →
  paired = false
  ∧ (graph w' = g ∨ ∃ s, graph w' = set_state s ps_wait_disconnect g).
Proof.
  intros Hfresh Hg Hrun.
  apply bind_inv in Hrun as ([] & w1 & Hdestroy & Hrun). injection Hrun as <- <-.
  split; [reflexivity|].
  apply pipe_client_destroy_graph in Hdestroy. rewrite Hg in Hdestroy.
  destruct Hdestroy as [Hd|(s & Hd)]; rewrite Hd.
  - left. apply destroy_fresh, Hfresh.
  - rewrite cut_unconnected
      by (left; rewrite conn_of_insert, decide_True by reflexivity; reflexivity).
    destruct (delete_set_state_fresh client s ps_wait_disconnect (None, None) g Hfresh)
      as [-> | ->]; eauto.
Qed.

Lemma named_pipe_open_file_graph pipe access sharing_req options r w w' :
  named_pipe_open_file pipe access sharing_req options w = Ok (r, w') →
  request_moves (do_open_file pipe access sharing_req options) (graph w) (graph w').
Proof.
  intros Hrun. unfold named_pipe_open_file in Hrun. simpl.
  remember (graph w) as g eqn:Hg. symmetry in Hg.
  assert (Hkeep : ∀ (m : M (option addr)) w1, graph w1 = g → keeps_graph m →
                    m w1 = Ok (r, w') → graph w' = g).
  { intros m w1 Hw1 Hm Hm1. rewrite <- Hw1. exact (Hm _ _ _ Hm1). }
  apply bind_inv in Hrun as (np & w1 & Hnp & Hrun).
  apply keeps_run in Hnp; [|auto with keeps]. rewrite <- Hnp in Hg. clear Hnp.
  apply bind_inv in Hrun as (found & w2 & Hfound & Hrun).
  apply find_available_server_graph in Hfound as [Hw2 Hfound].
  rewrite Hg in Hfound. rewrite <- Hw2 in Hg. clear Hw2.
  destruct found as [server|];
    [|left; apply (Hkeep _ _ Hg) in Hrun; [assumption|solve [keeps_tac]]].
  specialize (Hfound server eq_refl).
  apply bind_inv in Hrun as (s & w3 & Hs & Hrun).
  apply keeps_run in Hs; [|auto with keeps]. rewrite <- Hs in Hg. clear Hs.
  apply bind_inv in Hrun as (sp & w4 & Hsp & Hrun).
  apply keeps_run in Hsp; [|auto with keeps]. rewrite <- Hsp in Hg. clear Hsp.
  match type of Hrun with
  | (if ?b then _ else _) _ = _ => destruct b
  end; [left; apply (Hkeep _ _ Hg) in Hrun; [assumption|solve [keeps_tac]]|].
  apply bind_inv in Hrun as (created & w5 & Hcreated & Hrun).
  apply alloc_object_graph in Hcreated. rewrite Hg in Hcreated. clear Hg.
  destruct created as [client|]; [|left; injection Hrun as <- <-; exact Hcreated].
  destruct Hcreated as [Hfresh Hg]. simpl in Hg.
  apply bind_inv in Hrun as (e & w6 & He & Hrun).
  apply keeps_run in He; [|auto with keeps]. rewrite <- He in Hg. clear He.
  apply bind_inv in Hrun as (paired & w7 & Hpaired & Hrun).
  assert (Hblock :
    (paired = true ∧ graph w7 = <[client := (None, None)]> g)
    ∨ (paired = false
       ∧ (graph w7 = g ∨ ∃ s, graph w7 = set_state s ps_wait_disconnect g))).
  { destruct (use_server_io e).
    - run_keeps_in Hpaired Hg.
      match type of Hpaired with
      | match ?cf with _ => _ end _ = _ => destruct cf
      end.
      + left. run_keeps_in Hpaired Hg. injection Hpaired as <- <-. auto.
      + right. eapply destroy_new_client; eassumption.
    - apply bind_inv in Hpaired as (socketpair_ok & w8 & Hsp & Hpaired).
      apply keeps_run in Hsp; [|auto with keeps]. rewrite <- Hsp in Hg. clear Hsp.
      destruct socketpair_ok.
      + run_keeps_in Hpaired Hg.
        match type of Hpaired with
        | (if ?b then _ else _) _ = _ => destruct b
        end.
        * left. injection Hpaired as <- <-. auto.
        * right. eapply destroy_new_client; eassumption.
      + right. run_keeps_in Hpaired Hg. eapply destroy_new_client; eassumption. }
  clear Hpaired Hg.
  destruct Hblock as [[-> Hg]|[-> Hg]].
  - right. right. exists server, client. split; [assumption|]. split; [assumption|].
    run_keeps_in Hrun Hg.
    apply bind_inv in Hrun as ([] & w8 & Hstate & Hrun).
    apply set_server_state_graph in Hstate. rewrite Hg in Hstate. clear Hg.
    run_keeps_in Hrun Hstate.
    apply bind_inv in Hrun as ([] & w9 & Hc1 & Hrun).
    apply update_end_connect_graph in Hc1. rewrite Hstate in Hc1.
    apply bind_inv in Hrun as ([] & w10 & Hc2 & Hrun).
    apply update_end_connect_graph in Hc2. rewrite Hc1 in Hc2.
    injection Hrun as <- <-. exact Hc2.
  - injection Hrun as <- <-. destruct Hg as [Hg|Hg]; auto.
Qed.

(** Every request moves the graph as [request_moves] says. *)
Lemma execute_graph r w w' :
  execute r w = Ok (tt, w') → request_moves r (graph w) (graph w').
Proof.
  intros Hrun.
  assert (Hkeep : ∀ m : M unit, keeps_graph m → m w = Ok (tt, w') → graph w' = graph w).
  { intros m Hm Hm1. exact (Hm _ _ _ Hm1). }
  destruct r as [req|pipe access sharing_req options|reply_max f code a|
                 reply_max f code a|code wr a|fuel f a|fuel f a|f a|f a|fuel f q|
                 server|target|target fl|server|client|outcomes|e a st|f unread];
    simpl in Hrun; simpl request_moves.
  - apply bind_inv in Hrun as (h & w1 & Hm & Hrun). injection Hrun as <-.
    eapply create_named_pipe_graph, Hm.
  - apply bind_inv in Hrun as (h & w1 & Hm & Hrun). injection Hrun as <-.
    eapply named_pipe_open_file_graph, Hm.
  - apply bind_inv in Hrun as (h & w1 & Hm & Hrun). injection Hrun as <-.
    eapply pipe_server_ioctl_graph, Hm.
  - revert Hrun. apply Hkeep. apply keeps_bind; [apply keeps_pipe_client_ioctl|keeps_tac].
  - revert Hrun. apply Hkeep.
    apply keeps_bind; [apply keeps_named_pipe_device_ioctl|keeps_tac].
  - revert Hrun. apply Hkeep. apply keeps_bind; [apply keeps_pipe_end_read|keeps_tac].
  - revert Hrun. apply Hkeep. apply keeps_bind; [apply keeps_pipe_end_write|keeps_tac].
  - revert Hrun. apply Hkeep. apply keeps_bind; [apply keeps_pipe_server_flush|keeps_tac].
  - revert Hrun. apply Hkeep. apply keeps_bind; [apply keeps_pipe_client_flush|keeps_tac].
  - revert Hrun. apply Hkeep. apply keeps_pipe_end_reselect_async.
  - revert Hrun. apply Hkeep. apply keeps_check_flushed.
  - revert Hrun. apply Hkeep.
    apply keeps_bind; [apply keeps_get_named_pipe_info|keeps_tac].
  - revert Hrun. apply Hkeep. apply keeps_set_named_pipe_info.
  - apply pipe_server_destroy_graph, Hrun.
  - apply pipe_client_destroy_graph, Hrun.
  - revert Hrun. apply Hkeep. keeps_tac.
  - revert Hrun. apply Hkeep. keeps_tac.
  - revert Hrun. apply Hkeep. keeps_tac.
Qed.

Lemma reachable_graph_ok w : reachable w → graph_ok (graph w).
Proof.
  induction 1 as [|w r w' _ IH Hrun].
  - split.
    + intros a b Ha. unfold conn_of, graph, empty_world in Ha. simpl in Ha.
      rewrite fmap_empty, lookup_empty in Ha. discriminate.
    + intros a st Ha. unfold state_of, graph, empty_world in Ha. simpl in Ha.
      rewrite fmap_empty, lookup_empty in Ha. discriminate.
  - eapply request_moves_ok; [exact IH|]. apply execute_graph, Hrun.
Qed.

Lemma reachable_run_requests rs : reachable (run_requests rs empty_world).
Proof.
  unfold run_requests. generalize reachable_start. generalize empty_world.
  induction rs as [|r rs IH]; intros w Hw; simpl; [assumption|].
  apply IH. destruct (execute r w) as [[[] w']|] eqn:Hrun; [|assumption].
  eapply reachable_step; eassumption.
Qed.

(** C2: in every reachable state, the connection of every pipe end is
    null or points to a live end whose connection points back.  A request
    changes the connection of an end that it keeps in two ways only: the
    pairing step of [named_pipe_open_file] sets a null connection, and the
    two ends then point to each other; a request that calls
    [pipe_end_disconnect] clears it, and the former peer, if it is kept, has
    a null connection as well.  So every operation preserves the
    symmetry. *)
Theorem connection_symmetric w :
  reachable w →
  (∀ a o b, objects w !! a = Some o → connection (object_end o) = Some b →
     ∃ o', objects w !! b = Some o' ∧ connection (object_end o') = Some a)
  ∧ (∀ r w', execute r w = Ok (tt, w') →
       reachable w'
       ∧ ∀ a o o', objects w !! a = Some o → objects w' !! a = Some o' →
           connection (object_end o') ≠ connection (object_end o) →
           (pairs r ∧ connection (object_end o) = None
            ∧ ∃ b ob, connection (object_end o') = Some b
                      ∧ objects w' !! b = Some ob
                      ∧ connection (object_end ob) = Some a)
           ∨ (disconnects r ∧ connection (object_end o') = None
              ∧ ∀ b ob, connection (object_end o) = Some b →
                        objects w' !! b = Some ob →
                        connection (object_end ob) = None)).
Proof.
  intros Hreach. pose proof (reachable_graph_ok w Hreach) as Hok. split.
  - intros a o b Ho Hb.
    assert (Ha : conn_of (graph w) a = Some (Some b)) by (apply conn_of_graph; eauto).
    apply (proj1 Hok) in Ha. apply conn_of_graph in Ha. exact Ha.
  - intros r w' Hrun. split; [eapply reachable_step; eassumption|].
    intros a o o' Ho Ho' Hne.
    pose proof (request_moves_discipline r _ _ Hok (execute_graph r w w' Hrun)) as Hd.
    destruct (Hd a (connection (object_end o)) (connection (object_end o')))
      as [(Hp & Hnull & b & Hb & Hback)|(Hdis & Hnull & Hpeer)];
      [apply conn_of_graph; eauto|apply conn_of_graph; eauto|exact Hne| |].
    + left. split; [exact Hp|]. split; [exact Hnull|].
      apply conn_of_graph in Hback as (ob & Hob & Hback). eauto 6.
    + right. split; [exact Hdis|]. split; [exact Hnull|].
      intros b ob Hb Hob. apply (Hpeer b (connection (object_end ob)) Hb).
      apply conn_of_graph. eauto.
Qed.

End connection_graph.

(** The statement at the worlds reached by creating a message-mode pipe
    and opening it: the open pairs the two ends, and in the world that it
    reaches the client at 1 is connected to the server at 0, whose
    connection points back. *)
Lemma connection_symmetric_witness :
  reachable (H := wine_constants) paired_world
  ∧ ∃ o', objects paired_world !! 0%nat = Some o'
          ∧ connection (object_end o') = Some 1%nat.
Proof.
  assert (Hl : reachable (H := wine_constants) listening_world).
  { apply (reachable_step empty_world (do_create_named_pipe request_message_pipe));
      [apply reachable_start|vm_compute; reflexivity]. }
  destruct (connection_symmetric (H := wine_constants) listening_world Hl) as [_ Hstep].
  destruct (Hstep (do_open_file 0%nat 3221225472 0 0) paired_world) as [Hp _];
    [vm_compute; reflexivity|].
  split; [exact Hp|].
  destruct (connection_symmetric (H := wine_constants) paired_world Hp) as [Hsym _].
  eapply (Hsym 1%nat); [vm_compute; reflexivity|reflexivity].
Defined.

(** ** Reads on an end whose peer is gone *)

Lemma keeps_objects_ret {A} (a : A) : keeps_objects (ret a).
Proof. intros w a' w' [= <- <-]. reflexivity. Qed.

Lemma keeps_objects_raise {A} f : keeps_objects (@raise A f).
Proof. intros w a w' [=]. Qed.

Lemma keeps_objects_bind {A B} (m : M A) (k : A → M B) :
  keeps_objects m → (∀ a, keeps_objects (k a)) → keeps_objects (bind m k).
Proof.
  intros Hm Hk w b w' Hrun. apply bind_inv in Hrun as (a & w1 & Hm1 & Hk1).
  rewrite (Hk a _ _ _ Hk1). eapply Hm, Hm1.
Qed.

Lemma keeps_objects_get_world : keeps_objects get_world.
Proof. intros w a w' [= <- <-]. reflexivity. Qed.

Lemma keeps_objects_modify f :
  (∀ w, objects (f w) = objects w) → keeps_objects (modify f).
Proof. intros Hf w [] w' [= <-]. apply Hf. Qed.

Lemma keeps_objects_deref {A} (p : option A) : keeps_objects (deref p).
Proof. destruct p; [apply keeps_objects_ret|apply keeps_objects_raise]. Qed.

Lemma keeps_objects_when b m : keeps_objects m → keeps_objects (when b m).
Proof. intros Hm. destruct b; [exact Hm|apply keeps_objects_ret]. Qed.

Create HintDb objects.
#[local] Hint Resolve keeps_objects_ret keeps_objects_raise keeps_objects_get_world
  keeps_objects_deref : objects.
#[local] Hint Extern 1 (keeps_objects (modify _)) =>
  apply keeps_objects_modify; intros; reflexivity : objects.

Ltac keeps_objects_tac :=
  repeat first
    [ solve [auto with objects]
    | apply keeps_objects_bind; [|intros]
    | apply keeps_objects_when
    | match goal with
      | |- keeps_objects (match ?x with _ => _ end) => destruct x
      | |- keeps_objects (if ?b then _ else _) => destruct b
      | |- keeps_objects (let '(_, _) := ?x in _) => destruct x
      end ].

Lemma keeps_objects_log_calls cs : keeps_objects (log_calls cs).
Proof. unfold log_calls. keeps_objects_tac. Qed.

Lemma keeps_objects_fd_async_wake_up f st : keeps_objects (fd_async_wake_up f st).
Proof.
  unfold fd_async_wake_up, get_fd, update_fd, get_fd, log_calls. keeps_objects_tac.
Qed.

Lemma keeps_objects_set_fd_signaled f b : keeps_objects (set_fd_signaled f b).
Proof. unfold set_fd_signaled, update_fd, get_fd. keeps_objects_tac. Qed.

Lemma update_end_objects a f w w' :
  update_end a f w = Ok (tt, w') →
  ∃ o, objects w !! a = Some o
       ∧ objects w' = <[a := with_end o (f (object_end o))]> (objects w).
Proof. intros Hrun. apply update_end_inv in Hrun as (o & Ho & ->). eauto. Qed.

Lemma object_end_with_end o e : object_end (with_end o e) = e.
Proof. destruct o; reflexivity. Qed.

Lemma with_end_with_end o e e' : with_end (with_end o e) e' = with_end o e'.
Proof. destruct o; reflexivity. Qed.

Section broken_pipe.
Context `{protocol_constants}.

Lemma disconnect_own_end_objects a o st w w' :
  objects w !! a = Some o →
  disconnect_own_end a (object_end o) st w = Ok (tt, w') →
  objects w' = <[a := with_end o (torn_down st (object_end o))]> (objects w).
Proof.
  intros Ho Hrun. unfold disconnect_own_end in Hrun. unfold torn_down.
  apply bind_inv in Hrun as ([] & w1 & Hup & Hrun).
  apply update_end_objects in Hup as (o1 & Ho1 & Hw1).
  rewrite Ho in Ho1. injection Ho1 as <-.
  destruct (use_server_io (object_end o)); simpl in Hrun;
    [|injection Hrun as <-; exact Hw1].
  apply bind_inv in Hrun as ([] & w2 & Hfd & Hrun).
  assert (Hw2 : objects w2 = objects w1).
  { revert Hfd. apply keeps_objects_when, keeps_objects_fd_async_wake_up. }
  clear Hfd. rewrite Hw1 in Hw2. clear Hw1 w1.
  destruct (async_wake_up st (read_q (object_end o))) as [rq cs1].
  destruct (disconnect_walk st (message_queue (object_end o))) as [q cs2].
  apply bind_inv in Hrun as ([] & w3 & Hrq & Hrun).
  apply bind_inv in Hrq as ([] & w4 & Hup & Hlog).
  apply update_end_objects in Hup as (o1 & Ho1 & Hw4).
  rewrite Hw2, lookup_insert_eq in Ho1. injection Ho1 as <-.
  apply keeps_objects_log_calls in Hlog. rewrite Hw4, Hw2, insert_insert_eq in Hlog.
  clear Hw4 Hw2 w4 w2.
  rewrite with_end_with_end, object_end_with_end in Hlog.
  apply bind_inv in Hrun as ([] & w5 & Hmq & Hrun).
  apply bind_inv in Hmq as ([] & w6 & Hup & Hlog').
  apply update_end_objects in Hup as (o1 & Ho1 & Hw6).
  rewrite Hlog, lookup_insert_eq in Ho1. injection Ho1 as <-.
  apply keeps_objects_log_calls in Hlog'. rewrite Hw6, Hlog, insert_insert_eq in Hlog'.
  rewrite with_end_with_end, object_end_with_end in Hlog'.
  assert (Hw' : objects w' = objects w5).
  { revert Hrun. apply keeps_objects_when, keeps_objects_set_fd_signaled. }
  rewrite Hw', Hlog'. reflexivity.
Qed.

(** The teardown of the peer: [pipe_end_disconnect], called for an end that
    is connected to another one, leaves that other end torn down. *)
Lemma pipe_end_disconnect_peer peer p opeer o st w w' :
  objects w !! peer = Some opeer → connection (object_end opeer) = Some p →
  p ≠ peer → objects w !! p = Some o →
  pipe_end_disconnect 2 peer st w = Ok (tt, w') →
  objects w' !! p = Some (with_end o (torn_down st (with_connection None (object_end o)))).
Proof.
  intros Hpeer Hconn Hne Ho Hrun. rewrite pipe_end_disconnect_unfold in Hrun.
  apply bind_inv in Hrun as (e & w1 & He & Hrun).
  apply get_end_inv in He as (-> & o1 & Ho1 & ->).
  rewrite Hpeer in Ho1. injection Ho1 as <-.
  apply bind_inv in Hrun as ([] & w2 & Hown & Hrun).
  apply (disconnect_own_end_objects _ _ _ _ _ Hpeer) in Hown.
  rewrite Hconn in Hrun.
  apply bind_inv in Hrun as ([] & w3 & Hup & Hrun).
  apply update_end_objects in Hup as (o1 & Ho1 & Hw3).
  rewrite Hown, lookup_insert_ne, Ho in Ho1 by congruence. injection Ho1 as <-.
  rewrite pipe_end_disconnect_unfold in Hrun.
  apply bind_inv in Hrun as (e & w4 & He & Hrun).
  apply get_end_inv in He as (-> & o1 & Ho1 & ->).
  rewrite Hw3, lookup_insert_eq in Ho1. injection Ho1 as <-.
  apply bind_inv in Hrun as ([] & w5 & Hown' & Hrun).
  eapply disconnect_own_end_objects in Hown'; [|rewrite Hw3; apply lookup_insert_eq].
  rewrite object_end_with_end in Hrun. simpl in Hrun. injection Hrun as <-.
  rewrite Hown', lookup_insert_eq, with_end_with_end, object_end_with_end. reflexivity.
Qed.

Lemma disconnect_walk_broken q :
  (disconnect_walk STATUS_PIPE_BROKEN q).1 = List.filter writer_completed q.
Proof.
  induction q as [|m q IH]; [reflexivity|]. simpl.
  destruct (disconnect_walk STATUS_PIPE_BROKEN q) as [q' cs]. simpl in IH. subst q'.
  unfold writer_completed. destruct (msg_async m); reflexivity.
Qed.

Lemma bind_deref {A B} (a : A) (k : A → M B) w : bind (deref (Some a)) k w = k a w.
Proof. reflexivity. Qed.

Lemma bind_fd_user_end {B} f p fo o (k : addr → pipe_end → M B) w :
  fds w !! f = Some fo → fd_user fo = Some p → objects w !! p = Some o →
  bind (get_fd_user f)
    (λ user, bind (deref user) (λ pipe_end, bind (get_end pipe_end) (k pipe_end))) w
  = k p (object_end o) w.
Proof.
  intros Hf Huser Ho. unfold get_fd_user. rewrite bind_assoc.
  rewrite (bind_get_fd _ _ _ _ Hf), bind_ret, Huser, bind_deref.
  apply (bind_get_end _ _ _ _ Ho).
Qed.

(** The read on an end that has neither a peer nor a message. *)
Lemma pipe_end_read_drained fuel f p fo o a w :
  fds w !! f = Some fo → fd_user fo = Some p → objects w !! p = Some o →
  use_server_io (object_end o) = true →
  connection (object_end o) = None → message_queue (object_end o) = [] →
  pipe_end_read fuel f a w = Ok (0, with_error STATUS_PIPE_BROKEN w).
Proof.
  intros Hf Huser Ho Hio Hconn Hq. unfold pipe_end_read.
  rewrite (bind_fd_user_end _ _ _ _ _ _ Hf Huser Ho), Hio, Hconn, Hq. reflexivity.
Qed.

Lemma create_async_queue_inv ok w w' :
  create_async_queue w = Ok (ok, w') →
  if ok then error w' = error w else error w' = STATUS_NO_MEMORY.
Proof.
  unfold create_async_queue. rewrite bind_host_try.
  destruct (default true (head (script w))); intros [= <- <-]; reflexivity.
Qed.

Lemma alloc_handle_inv h w w' :
  alloc_handle w = Ok (h, w') → h = 0 → error w' = STATUS_NO_MEMORY.
Proof.
  unfold alloc_handle. rewrite bind_host_try.
  destruct (default true (head (script w))); intros [= <- <-]; [lia|reflexivity].
Qed.

Lemma reader_iosb_status_inv p a st w w' :
  reader_iosb_status p a w = Ok (st, w') → w' = w.
Proof.
  intros Hrun. unfold reader_iosb_status in Hrun.
  apply bind_inv in Hrun as (e & w1 & He & Hrun). apply get_end_inv in He as [-> _].
  rewrite bind_get_world in Hrun.
  destruct (bool_decide _); injection Hrun as _ <-; reflexivity.
Qed.

(** The read on an end that has no peer but still has messages does not
    report a broken pipe. *)
Lemma pipe_end_read_not_broken fuel f p fo o a h w w' :
  fds w !! f = Some fo → fd_user fo = Some p → objects w !! p = Some o →
  use_server_io (object_end o) = true →
  message_queue (object_end o) ≠ [] →
  pipe_end_read fuel f a w = Ok (h, w') →
  error w' ≠ STATUS_PIPE_BROKEN.
Proof.
  intros Hf Huser Ho Hio Hq Hrun. unfold pipe_end_read in Hrun.
  rewrite (bind_fd_user_end _ _ _ _ _ _ Hf Huser Ho), Hio in Hrun. simpl negb in Hrun.
  cbv iota in Hrun.
  rewrite (bool_decide_eq_false_2 (message_queue (object_end o) = [])), andb_false_r
    in Hrun by assumption.
  apply bind_inv in Hrun as (have_q & w1 & Hhave & Hrun).
  assert (Herr : have_q = false → error w1 = STATUS_NO_MEMORY).
  { intros ->. destruct (read_q (object_end o)); [discriminate|].
    apply bind_inv in Hhave as (ok & w2 & Hcreate & Hhave).
    apply bind_inv in Hhave as ([] & w3 & Hup & Hhave). injection Hhave as -> <-.
    apply create_async_queue_inv in Hcreate. injection Hup as <-. exact Hcreate. }
  destruct have_q; simpl in Hrun;
    [|injection Hrun as _ <-; rewrite Herr by reflexivity; discriminate].
  clear Herr Hhave.
  apply bind_inv in Hrun as (handle & w2 & Hhandle & Hrun).
  destruct (Z.eqb_spec handle 0) as [Hzero|Hnz].
  { injection Hrun as _ <-. rewrite (alloc_handle_inv _ _ _ Hhandle Hzero). discriminate. }
  apply bind_inv in Hrun as (e & w3 & _ & Hrun).
  apply bind_inv in Hrun as ([] & w4 & _ & Hrun).
  apply bind_inv in Hrun as ([] & w5 & _ & Hrun).
  rewrite bind_set_error in Hrun.
  assert (Hlast : w' = with_error STATUS_PENDING w5).
  { destruct (negb (async_is_blocking a)); [|injection Hrun as _ <-; reflexivity].
    apply bind_inv in Hrun as (st & w6 & Hst & Hrun).
    apply reader_iosb_status_inv in Hst as ->.
    destruct (bool_decide (st = STATUS_PENDING)); injection Hrun as _ <-; reflexivity. }
  rewrite Hlast. discriminate.
Qed.

Lemma terminated_iosb_last id st io l :
  terminated_iosb id (l ++ [call_async_terminate id st io; call_release_async id]) = Some io.
Proof.
  induction l as [|c l IH]; simpl.
  - rewrite decide_True by reflexivity. reflexivity.
  - destruct c; rewrite IH; reflexivity.
Qed.

(** Without the temporary buffer a read either does not need it, or it
    reports no_memory and leaves the queue as it is. *)
Lemma message_queue_read_without_buffer fl q io :
  message_queue_read false fl q io = message_queue_read true fl q io
  ∨ message_queue_read false fl q io
    = Ok (q, mk_iosb STATUS_NO_MEMORY (result io) (in_size io) (in_data io) 0 None, []).
Proof.
  unfold message_queue_read. destruct q as [|m rest]; [left; reflexivity|].
  destruct (if has_flag fl NAMED_PIPE_MESSAGE_STREAM_READ then _ else _) as [size st].
  destruct ((read_pos m =? 0) && (in_size (msg_iosb m) =? size)); [left; reflexivity|].
  destruct (size =? 0); [left|right]; reflexivity.
Qed.

(** A read that does not ask for the temporary buffer does not depend on
    what the host would answer. *)
Lemma message_queue_read_unasked b fl q io :
  read_allocates fl q io = false →
  message_queue_read b fl q io = message_queue_read true fl q io.
Proof.
  unfold read_allocates, message_queue_read. destruct q as [|m rest]; [reflexivity|].
  destruct (has_flag fl NAMED_PIPE_MESSAGE_STREAM_READ); cbv zeta;
    destruct ((read_pos m =? 0) && (in_size (msg_iosb m) =? _)); try reflexivity;
    cbn [negb andb]; intros ->; destruct b; reflexivity.
Qed.

(** A read that asks for the buffer and does not get it reports
    no_memory. *)
Lemma message_queue_read_refused fl q io :
  read_allocates fl q io = true →
  message_queue_read false fl q io
  = Ok (q, mk_iosb STATUS_NO_MEMORY (result io) (in_size io) (in_data io) 0 None, []).
Proof.
  unfold read_allocates, message_queue_read. destruct q as [|m rest]; [discriminate|].
  destruct (has_flag fl NAMED_PIPE_MESSAGE_STREAM_READ); cbv zeta;
    destruct ((read_pos m =? 0) && (in_size (msg_iosb m) =? _)); try discriminate;
    cbn [negb andb]; intros ->; reflexivity.
Qed.

(** The reselect of the read queue of an end without a peer, with one
    pending read and a message to serve it. *)
Lemma reselect_read_queue_serves n p o a m rest q' a' cs w :
  objects w !! p = Some o →
  connection (object_end o) = None →
  message_queue (object_end o) = m :: rest →
  read_q (object_end o) = Some [a] →
  read_round (default true (head (script w))) (flags (object_end o)) (m :: rest) a
  = Ok (q', a', cs) →
  ∃ w', reselect_read_queue (S n) p w = Ok (tt, w')
        ∧ objects w'
          = <[p := with_end o (with_read_q (Some []) (with_message_queue q' (object_end o)))]>
              (objects w)
        ∧ calls w' = calls w ++ cs
        ∧ script w'
          = (if read_allocates (flags (object_end o)) (m :: rest) (async_iosb a)
             then tail (script w) else script w)
        ∧ fds w' = fds w ∧ error w' = error w.
Proof.
  intros Ho Hconn Hq Hrq Hround.
  assert (Hrounds : read_rounds (script w) (flags (object_end o)) (m :: rest) [a] [] false
                    = Ok (q', [], cs, true,
                          if read_allocates (flags (object_end o)) (m :: rest) (async_iosb a)
                          then tail (script w) else script w)).
  { cbn [read_rounds]. rewrite Hround. destruct q'; reflexivity. }
  eexists. split.
  - cbn [reselect_read_queue]. unfold set_ignore_reselect. rewrite bind_modify.
    erewrite bind_get_end by (world_simpl; exact Ho).
    rewrite bind_get_world. world_simpl. rewrite Hq, Hrq.
    change (default [] (Some [a])) with [a]. rewrite Hrounds.
    unfold bind at 1. cbv beta iota.
    erewrite bind_update_end by (world_simpl; exact Ho).
    erewrite bind_update_end by (world_simpl; apply lookup_insert_eq).
    unfold log_calls. rewrite !bind_modify, Hconn. reflexivity.
  - world_simpl. rewrite insert_insert_eq, with_end_with_end, object_end_with_end.
    auto 6.
Qed.

Lemma reader_iosb_status_terminated p o a st io l w :
  objects w !! p = Some o → read_q (object_end o) = Some [] →
  calls w = l ++ [call_async_terminate (async_id a) st io; call_release_async (async_id a)] →
  reader_iosb_status p a w = Ok (status io, w).
Proof.
  intros Ho Hrq Hcalls. unfold reader_iosb_status.
  rewrite (bind_get_end _ _ _ _ Ho), bind_get_world, Hrq, Hcalls, terminated_iosb_last.
  reflexivity.
Qed.

Lemma with_read_q_same o l :
  read_q (object_end o) = Some l → with_end o (with_read_q (Some l) (object_end o)) = o.
Proof. destruct o as [[] ?|[] ?]; simpl; intros ->; reflexivity. Qed.

(** The start of a read on an end that has messages: the end gets its
    read queue, unless the host refuses it. *)
Lemma read_queue_ready p o w :
  objects w !! p = Some o → default [] (read_q (object_end o)) = [] →
  ∃ ok w1,
    match read_q (object_end o) with
    | Some _ => ret true
    | None =>
        ok <- create_async_queue;
        when ok (update_end p (with_read_q (Some [])));;
        ret ok
    end w = Ok (ok, w1)
    ∧ fds w1 = fds w ∧ calls w1 = calls w ∧ handles w1 = handles w
    ∧ (script w = [] → script w1 = [] ∧ ok = true)
    ∧ if ok
      then objects w1
           = <[p := with_end o (with_read_q (Some []) (object_end o))]> (objects w)
      else objects w1 = objects w ∧ error w1 = STATUS_NO_MEMORY.
Proof.
  intros Ho Hrq. destruct (read_q (object_end o)) as [l|] eqn:Hrq'; simpl in Hrq.
  - subst l. exists true, w. split; [reflexivity|]. repeat split; try assumption.
    rewrite (with_read_q_same _ _ Hrq'). symmetry. apply insert_id, Ho.
  - assert (Hgranted : default true (head (script w)) = true →
      bind create_async_queue
        (λ ok, bind (when ok (update_end p (with_read_q (Some [])))) (λ _, ret ok)) w
      = Ok (true, set_objects
                    (insert p (with_end o (with_read_q (Some []) (object_end o))))
                    (with_script (tail (script w)) w))).
    { intros Hhead. unfold create_async_queue.
      rewrite !bind_assoc, bind_host_try, Hhead. cbv iota. rewrite bind_ret.
      unfold when.
      erewrite bind_update_end by (world_simpl; exact Ho). reflexivity. }
    destruct (script w) as [|[] rest] eqn:Hs.
    + eexists _, _. split; [apply Hgranted; reflexivity|]. world_simpl. auto 8.
    + eexists _, _. split; [apply Hgranted; reflexivity|]. world_simpl.
      repeat split; try reflexivity; discriminate.
    + eexists _, _. split.
      * unfold create_async_queue. rewrite !bind_assoc, bind_host_try, Hs.
        cbn [default from_option id head tail]. cbv iota.
        rewrite bind_assoc, bind_set_error, !bind_ret. reflexivity.
      * world_simpl. repeat split; try reflexivity; discriminate.
Qed.

(** One round of the read loop for the read [a]: it is served, or, without
    the buffer, it reports no_memory and leaves the queue. *)
Lemma read_round_outcome b fl m rest a :
  queue_ok (m :: rest) → is_data_size (out_size (async_iosb a)) →
  ∃ q' io cs,
    read_round b fl (m :: rest) a
    = Ok (q', mk_async (async_id a) (async_blocking a) io,
          cs ++ [call_async_terminate (async_id a)
                   (if result io =? 0 then status io else STATUS_ALERTED) io;
                 call_release_async (async_id a)])
    ∧ status io ≠ STATUS_PENDING
    ∧ (message_queue_read true fl (m :: rest) (async_iosb a) = Ok (q', io, cs)
       ∨ (b = false ∧ q' = m :: rest ∧ cs = []
          ∧ io = mk_iosb STATUS_NO_MEMORY (result (async_iosb a)) (in_size (async_iosb a))
                         (in_data (async_iosb a)) 0 None)).
Proof.
  intros Hok Hsize.
  destruct (message_queue_read_spec fl m rest (async_iosb a) Hok Hsize)
    as (q' & data & cs & Hread & _).
  set (io := mk_iosb _ _ _ _ _ data) in Hread.
  assert (Hstatus : status io ≠ STATUS_PENDING).
  { subst io. cbn [status]. destruct (_ && _); discriminate. }
  assert (Hserved : ∀ b', message_queue_read b' fl (m :: rest) (async_iosb a)
                          = message_queue_read true fl (m :: rest) (async_iosb a) →
    ∃ q' io cs,
      read_round b' fl (m :: rest) a
      = Ok (q', mk_async (async_id a) (async_blocking a) io,
            cs ++ [call_async_terminate (async_id a)
                     (if result io =? 0 then status io else STATUS_ALERTED) io;
                   call_release_async (async_id a)])
      ∧ status io ≠ STATUS_PENDING
      ∧ (message_queue_read true fl (m :: rest) (async_iosb a) = Ok (q', io, cs)
         ∨ (b' = false ∧ q' = m :: rest ∧ cs = []
            ∧ io = mk_iosb STATUS_NO_MEMORY (result (async_iosb a))
                           (in_size (async_iosb a)) (in_data (async_iosb a)) 0 None))).
  { intros b' Hsame. exists q', io, cs. unfold read_round. rewrite Hsame, Hread. auto. }
  destruct b; [apply Hserved; reflexivity|].
  destruct (message_queue_read_without_buffer fl (m :: rest) (async_iosb a))
    as [Hsame|Hnone]; [apply Hserved, Hsame|].
  eexists (m :: rest), _, []. unfold read_round. rewrite Hnone.
  split; [reflexivity|]. split; [discriminate|]. right. auto.
Qed.

(** A read on a peerless end that has messages returns: it is served, or
    the host refuses memory and the end keeps its queue; it is served when
    the host grants what is asked. *)
Lemma pipe_end_read_peerless n f p fl m rest a w :
  peerless w f p fl (m :: rest) → queue_ok (m :: rest) →
  is_data_size (out_size (async_iosb a)) →
  ∃ h w', pipe_end_read (S n) f a w = Ok (h, w')
          ∧ (read_served f p fl m rest a h w' ∨ read_starved f p fl (m :: rest) a w')
          ∧ (script w = [] → read_served f p fl m rest a h w').
Proof.
  intros (fo & o & Hf & Huser & Ho & Hio & Hconn & Hfl & Hq & Hrq) Hok Hsize.
  destruct (read_queue_ready p o w Ho Hrq)
    as (ok & w1 & Hready & Hf1 & Hc1 & Hh1 & Hs1 & Hobj1).
  assert (Hrun : pipe_end_read (S n) f a w
    = (if negb ok then ret 0
       else
         handle <- alloc_handle;
         if handle =? 0 then ret 0
         else
           e <- get_end p;
           update_end p (with_read_q (Some (default [] (read_q e) ++ [a])));;
           reselect_read_queue (S n) p;;
           set_error STATUS_PENDING;;
           if negb (async_is_blocking a)
           then
             st <- reader_iosb_status p a;
             if bool_decide (st = STATUS_PENDING)
             then close_handle handle;; ret 0
             else ret handle
           else ret handle) w1).
  { unfold pipe_end_read.
    rewrite (bind_fd_user_end _ _ _ _ _ _ Hf Huser Ho), Hio, Hconn, Hq. cbn [negb].
    cbv iota. rewrite (bool_decide_eq_false_2 (m :: rest = [])), andb_false_r by discriminate.
    rewrite (bind_ok _ _ _ _ _ Hready). reflexivity. }
  rewrite Hrun. clear Hrun Hready.
  assert (Hpeer : ∀ w' o' q,
    fds w' = fds w → objects w' !! p = Some o' →
    use_server_io (object_end o') = true → connection (object_end o') = None →
    flags (object_end o') = fl → message_queue (object_end o') = q →
    default [] (read_q (object_end o')) = [] →
    peerless w' f p fl q).
  { intros w' o' q Hf' Ho' Hio' Hconn' Hfl' Hq' Hrq'. exists fo, o'. rewrite Hf'.
    repeat split; assumption. }
  destruct ok; cbn [negb]; cbv iota.
  2: { destruct Hobj1 as [Hobj1 Herr1]. exists 0, w1. split; [reflexivity|]. split.
       - right. split; [|left; exact Herr1].
         apply (Hpeer w1 o); try assumption. rewrite Hobj1. exact Ho.
       - intros Hscript. destruct (Hs1 Hscript) as [_ [=]]. }
  set (o1 := with_end o (with_read_q (Some []) (object_end o))) in Hobj1.
  assert (Ho1 : objects w1 !! p = Some o1) by (rewrite Hobj1; apply lookup_insert_eq).
  unfold alloc_handle. rewrite bind_assoc, bind_host_try.
  destruct (default true (head (script w1))) eqn:Hgranted; cbv iota.
  2: { rewrite bind_assoc, bind_set_error, !bind_ret. cbn [Z.eqb]. cbv iota.
       eexists 0, _. split; [reflexivity|]. split.
       - right. split; [|left; reflexivity].
         apply (Hpeer _ o1); world_simpl; try assumption;
           subst o1; rewrite object_end_with_end; fields_simpl; try assumption; reflexivity.
       - intros Hscript. destruct (Hs1 Hscript) as [Hscript1 _].
         rewrite Hscript1 in Hgranted. discriminate Hgranted. }
  assert (Hnz : (4 * Z.of_nat (S (handles w1)) =? 0) = false) by (apply Z.eqb_neq; lia).
  rewrite bind_assoc, bind_get_world, bind_assoc, bind_modify, bind_ret.
  world_simpl. rewrite Hnz.
  erewrite bind_get_end by (world_simpl; exact Ho1).
  erewrite bind_update_end by (world_simpl; exact Ho1).
  subst o1. rewrite object_end_with_end, with_end_with_end. fields_simpl.
  change (default [] (Some []) ++ [a]) with [a].
  set (w3 := set_objects _ _).
  set (o3 := with_end o (with_read_q (Some [a]) (with_read_q (Some []) (object_end o)))).
  assert (Ho3 : objects w3 !! p = Some o3) by apply lookup_insert_eq.
  destruct (read_round_outcome (default true (head (script w3))) fl m rest a Hok Hsize)
    as (q' & io & cs & Hround & Hstatus & Hcase).
  destruct (reselect_read_queue_serves n p o3 a m rest q'
              (mk_async (async_id a) (async_blocking a) io)
              (cs ++ [call_async_terminate (async_id a)
                        (if result io =? 0 then status io else STATUS_ALERTED) io;
                      call_release_async (async_id a)]) w3 Ho3)
    as (w4 & Hres & Hw4 & Hc4 & Hs4 & Hf4 & He4).
  { subst o3. rewrite object_end_with_end. exact Hconn. }
  { subst o3. rewrite object_end_with_end. exact Hq. }
  { subst o3. rewrite object_end_with_end. reflexivity. }
  { subst o3. rewrite object_end_with_end. fields_simpl. rewrite Hfl. exact Hround. }
  subst o3. rewrite with_end_with_end, object_end_with_end in Hw4.
  unfold w3 in Hw4. world_simpl. rewrite insert_insert_eq in Hw4.
  rewrite (bind_ok _ _ _ _ _ Hres), bind_set_error.
  assert (Hcalls : calls w4
    = (calls w ++ cs)
      ++ [call_async_terminate (async_id a)
            (if result io =? 0 then status io else STATUS_ALERTED) io;
          call_release_async (async_id a)]).
  { rewrite Hc4. unfold w3. world_simpl. rewrite Hc1, app_assoc. reflexivity. }
  assert (Hlookup : objects w4 !! p
    = Some (with_end o (with_read_q (Some [])
              (with_message_queue q'
                 (with_read_q (Some [a]) (with_read_q (Some []) (object_end o))))))).
  { rewrite Hw4. apply lookup_insert_eq. }
  assert (Hfinal :
    (if negb (async_is_blocking a)
     then st <- reader_iosb_status p a;
          if bool_decide (st = STATUS_PENDING)
          then close_handle (4 * Z.of_nat (S (handles w1)));; ret 0
          else ret (4 * Z.of_nat (S (handles w1)))
     else ret (4 * Z.of_nat (S (handles w1)))) (with_error STATUS_PENDING w4)
    = Ok (4 * Z.of_nat (S (handles w1)), with_error STATUS_PENDING w4)).
  { destruct (async_is_blocking a); cbn [negb]; [reflexivity|].
    erewrite bind_ok.
    - rewrite bool_decide_eq_false_2 by exact Hstatus. reflexivity.
    - eapply reader_iosb_status_terminated.
      + world_simpl. exact Hlookup.
      + rewrite object_end_with_end. reflexivity.
      + world_simpl. exact Hcalls. }
  rewrite Hfinal. eexists _, _. split; [reflexivity|].
  assert (Hpeer' : peerless (with_error STATUS_PENDING w4) f p fl q').
  { eapply Hpeer; [|world_simpl; exact Hlookup|..];
      rewrite ?object_end_with_end; fields_simpl; try assumption; try reflexivity.
    world_simpl. rewrite Hf4. unfold w3. world_simpl. exact Hf1. }
  assert (Hserved :
    message_queue_read true fl (m :: rest) (async_iosb a) = Ok (q', io, cs) →
    read_served f p fl m rest a (4 * Z.of_nat (S (handles w1)))
      (with_error STATUS_PENDING w4)).
  { intros Hread.
    destruct (message_queue_read_spec fl m rest (async_iosb a) Hok Hsize)
      as (q'' & data & cs' & Hread' & Hdata & Hok' & Hbytes & _).
    rewrite Hread in Hread'. injection Hread' as <- Hio' <-.
    exists q', io. split; [lia|]. split; [reflexivity|].
    split; [world_simpl; rewrite Hcalls; apply elem_of_app; right; apply list_elem_of_here|].
    subst io. cbn [result out_size out_data status].
    split; [destruct (_ && _); auto|]. split; [reflexivity|]. split; [reflexivity|].
    split; [exact Hdata|]. split; [exact Hbytes|]. split; [exact Hok'|exact Hpeer']. }
  destruct Hcase as [Hread|(Hrefused & -> & -> & ->)].
  - split; [left|intros _]; apply Hserved, Hread.
  - split.
    + right. split; [exact Hpeer'|]. right. eexists. split; [|split]; [| |
        world_simpl; rewrite Hcalls; apply elem_of_app; right; apply list_elem_of_here];
        reflexivity.
    + intros Hscript. destruct (Hs1 Hscript) as [Hscript1 _].
      unfold w3 in Hrefused. world_simpl. rewrite Hscript1 in Hrefused.
      discriminate Hrefused.
Qed.

(** C10: a message-mode read on a pipe end whose connection is null fails
    at once with pipe_broken when the message queue of the end is empty,
    and only then: with a message in the queue no read reports
    pipe_broken.  When the peer is torn down with pipe_broken, the messages
    whose writer's async had completed stay in the queue of the end, in
    order, and the others are removed.  A later read on the end returns and
    is served from the queue at once: it is terminated with the bytes at the
    front of the queue, of the head message only in message-stream-read
    mode, the queue keeps the bytes that follow, and the end is as before
    for the next read, until the queue is empty; the only other outcome is
    that the host refuses memory, and then the read reports no_memory and
    the queue is as it was. *)
Theorem pipe_broken_when_drained :
  (∀ peer p opeer o w w',
     objects w !! peer = Some opeer → connection (object_end opeer) = Some p →
     p ≠ peer → objects w !! p = Some o → use_server_io (object_end o) = true →
     pipe_end_disconnect 2 peer STATUS_PIPE_BROKEN w = Ok (tt, w') →
     ∃ o', objects w' !! p = Some o'
           ∧ connection (object_end o') = None
           ∧ message_queue (object_end o')
             = List.filter writer_completed (message_queue (object_end o)))
  ∧ (∀ fuel f p fl a w,
       peerless w f p fl [] →
       pipe_end_read fuel f a w = Ok (0, with_error STATUS_PIPE_BROKEN w))
  ∧ (∀ fuel f p fl q a h w w',
       peerless w f p fl q → q ≠ [] →
       pipe_end_read fuel f a w = Ok (h, w') → error w' ≠ STATUS_PIPE_BROKEN)
  ∧ (∀ n f p fl m rest a w,
       peerless w f p fl (m :: rest) → queue_ok (m :: rest) →
       is_data_size (out_size (async_iosb a)) →
       ∃ h w',
         pipe_end_read (S n) f a w = Ok (h, w')
         ∧ (read_served f p fl m rest a h w' ∨ read_starved f p fl (m :: rest) a w')
         ∧ (script w = [] → read_served f p fl m rest a h w')).
Proof.
  split; [|split; [|split]].
  - intros peer p opeer o w w' Hpeer Hconn Hne Ho Hio Hrun.
    eexists. split; [exact (pipe_end_disconnect_peer _ _ _ _ _ _ _ Hpeer Hconn Hne Ho Hrun)|].
    rewrite object_end_with_end. unfold torn_down.
    change (use_server_io (with_connection None (object_end o)))
      with (use_server_io (object_end o)).
    rewrite Hio. split; [reflexivity|]. apply disconnect_walk_broken.
  - intros fuel f p fl a w (fo & o & Hf & Huser & Ho & Hio & Hconn & _ & Hq & _).
    eapply pipe_end_read_drained; eassumption.
  - intros fuel f p fl q a h w w' (fo & o & Hf & Huser & Ho & Hio & _ & _ & Hq & _) Hne.
    eapply pipe_end_read_not_broken; try eassumption. rewrite Hq. exact Hne.
  - intros n f p fl m rest a w. apply pipe_end_read_peerless.
Qed.

End broken_pipe.

(** The statement at the connected pair: when the client (object 2) is
    torn down, the server (object 1) keeps the woken message of three bytes
    and loses the pending one; a read of four bytes on the server's
    descriptor then gets these three bytes, and the queue is empty. *)
Lemma pipe_broken_when_drained_witness :
  (∃ o', objects broken_pair !! 1%nat = Some o'
         ∧ connection (object_end o') = None
         ∧ message_queue (object_end o') = [woken_abc])
  ∧ ∃ h w' q' io,
      pipe_end_read (H := wine_constants) 1 10%nat read_of_four broken_pair = Ok (h, w')
      ∧ h ≠ 0
      ∧ out_size io = 3
      ∧ out_data io = Some [Byte.x41; Byte.x42; Byte.x43]
      ∧ call_async_terminate 9 STATUS_ALERTED io ∈ calls w'
      ∧ queue_bytes q' = []
      ∧ peerless (H := wine_constants) w' 10%nat 1%nat 3 q'.
Proof.
  destruct (pipe_broken_when_drained (H := wine_constants))
    as (Hteardown & _ & _ & Hread).
  split.
  - apply (Hteardown 2%nat 1%nat pair_client pair_server connected_pair broken_pair);
      [reflexivity|reflexivity|discriminate|reflexivity|reflexivity
      |vm_compute; reflexivity].
  - destruct (Hread 0%nat 10%nat 1%nat 3 woken_abc [] read_of_four broken_pair)
      as (h & w' & Hrun & _ & Hserved).
    + eexists _, _. vm_compute. repeat split; reflexivity.
    + split; [|vm_compute; reflexivity].
      repeat constructor; vm_compute; congruence.
    + vm_compute. split; [discriminate|reflexivity].
    + destruct (Hserved eq_refl)
        as (q' & io & Hh & _ & Hcall & _ & Hresult & Hsize & Hdata & Hbytes & _ & Hpeerless).
      exists h, w', q', io. split; [exact Hrun|]. split; [exact Hh|].
      assert (Hthree : out_size io = 3) by (rewrite Hsize; reflexivity).
      split; [exact Hthree|]. split; [rewrite Hdata, Hthree by lia; reflexivity|].
      split; [rewrite Hresult, Hthree in Hcall; exact Hcall|].
      split; [rewrite Hbytes, Hthree; reflexivity|exact Hpeerless].
Defined.

(** When the host refuses memory the read on the server of the torn down
    pair, which still holds the woken message of three bytes, delivers
    nothing: it returns no handle, reports no_memory, terminates no async
    and leaves the message queued.  The reading that every such read is
    served fails. *)
Lemma pipe_end_read_starves :
  (∃ w', pipe_end_read (H := wine_constants) 1 10%nat read_of_four refusing_pair
         = Ok (0, w')
         ∧ error w' = STATUS_NO_MEMORY
         ∧ calls w' = calls refusing_pair
         ∧ objects w' = objects refusing_pair)
  ∧ ¬ read_delivers (H := wine_constants) refusing_pair 10%nat 1%nat 3 woken_abc []
        read_of_four.
Proof.
  split.
  - eexists. split; [vm_compute; reflexivity|]. repeat split.
  - intros (h & w' & Hrun & q' & io & Hh & _).
    vm_compute in Hrun. injection Hrun as <- _. apply Hh. reflexivity.
Qed.

Lemma fd_queue_async_inv f a queued w w' :
  fd_queue_async f a w = Ok (queued, w') →
  if queued
  then ∃ fa qo, f = Some fa ∧ fds w' !! fa = Some qo ∧ a ∈ fd_wait_q qo
  else error w' = STATUS_NO_MEMORY.
Proof.
  intros Hrun. unfold fd_queue_async in Hrun. destruct f as [fa|]; [|discriminate].
  rewrite bind_deref in Hrun.
  apply bind_inv in Hrun as (o & w1 & Ho & Hrun).
  unfold get_fd, bind, get_world, deref in Ho.
  destruct (fds w !! fa) as [o'|] eqn:Hfa; [|discriminate]. injection Ho as <- <-.
  rewrite bind_host_try in Hrun.
  destruct (default true (head (script w))).
  - erewrite bind_update_fd in Hrun by (world_simpl; exact Hfa).
    injection Hrun as <- <-. exists fa, (with_wait_q (fd_wait_q o' ++ [a]) o').
    split; [reflexivity|]. split; [world_simpl; apply lookup_insert_eq|].
    fields_simpl. apply elem_of_app. right. apply list_elem_of_here.
  - injection Hrun as <- <-. reflexivity.
Qed.

Lemma alloc_handle_fds h w w' : alloc_handle w = Ok (h, w') → fds w' = fds w.
Proof.
  unfold alloc_handle. rewrite bind_host_try.
  destruct (default true (head (script w))); intros [= <- <-]; reflexivity.
Qed.

(** ** Flushing *)

Section flush.
Context `{protocol_constants}.

(** C7: what the code does for the flush of a client end.  In message
    mode the flush returns at once, with the world as it was, when the end
    has no peer or the peer's message queue is empty, and with a message in
    the peer's queue a flush that returns has reported pending (the async
    is then on the wait queue of the end's descriptor) or no_memory.  In
    byte mode the flush returns at once, with the world as it was: no async
    is queued and no status is set, whatever the server has still to read
    from its socket. *)
Theorem pipe_client_flush_byte_mode f p fo o a w :
  fds w !! f = Some fo → fd_user fo = Some p → objects w !! p = Some o →
  (use_server_io (object_end o) = false → pipe_client_flush f a w = Ok (0, w))
  ∧ (use_server_io (object_end o) = true →
     (connection (object_end o) = None
      ∨ (∃ c oc, connection (object_end o) = Some c ∧ objects w !! c = Some oc
                 ∧ message_queue (object_end oc) = [])) →
     pipe_client_flush f a w = Ok (0, w))
  ∧ (use_server_io (object_end o) = true →
     ∀ c oc h w',
       connection (object_end o) = Some c → objects w !! c = Some oc →
       message_queue (object_end oc) ≠ [] →
       pipe_client_flush f a w = Ok (h, w') →
       (error w' = STATUS_PENDING
        ∧ ∃ fa qo, fd (object_end o) = Some fa ∧ fds w' !! fa = Some qo
                   ∧ a ∈ fd_wait_q qo)
       ∨ error w' = STATUS_NO_MEMORY).
Proof.
  intros Hf Huser Ho. unfold pipe_client_flush.
  rewrite (bind_fd_user_end _ _ _ _ _ _ Hf Huser Ho).
  split; [|split].
  - intros ->. reflexivity.
  - intros Hio Hdrained. rewrite Hio. unfold pipe_end_flush.
    rewrite (bind_get_end _ _ _ _ Ho), Hio.
    destruct Hdrained as [-> | (c & oc & -> & Hoc & Hq)]; [reflexivity|].
    cbv iota. rewrite bind_assoc, (bind_get_end _ _ _ _ Hoc), bind_ret, Hq. reflexivity.
  - intros Hio c oc h w' Hconn Hoc Hq Hrun. rewrite Hio in Hrun.
    unfold pipe_end_flush in Hrun.
    rewrite (bind_get_end _ _ _ _ Ho), Hio, Hconn in Hrun.
    cbv iota in Hrun. rewrite bind_assoc, (bind_get_end _ _ _ _ Hoc), bind_ret in Hrun.
    rewrite (bool_decide_eq_false_2 (message_queue (object_end oc) = [])) in Hrun
      by assumption.
    apply bind_inv in Hrun as (queued & w1 & Hqueued & Hrun).
    apply fd_queue_async_inv in Hqueued.
    destruct queued; cbn [negb] in Hrun;
      [|injection Hrun as _ <-; right; exact Hqueued].
    destruct Hqueued as (fa & qo & Hfa & Hqo & Hin).
    destruct (async_is_blocking a); cbn [negb] in Hrun.
    + apply bind_inv in Hrun as (handle & w2 & Hhandle & Hrun).
      apply bind_inv in Hrun as ([] & w3 & Hwhen & Hrun). injection Hrun as -> <-.
      destruct (Z.eqb_spec h 0) as [Hzero|Hnz]; cbn [negb when] in Hwhen.
      * right. injection Hwhen as <-. apply (alloc_handle_inv _ _ _ Hhandle Hzero).
      * left. injection Hwhen as <-. split; [reflexivity|].
        exists fa, qo. world_simpl. rewrite (alloc_handle_fds _ _ _ Hhandle). auto.
    + left. rewrite bind_set_error in Hrun. injection Hrun as _ <-.
      split; [reflexivity|]. exists fa, qo. auto.
Qed.

End flush.

(** The statement at the byte-mode pair: the server has five bytes of the
    client to read, and the flush of the client returns at once with the
    world as it was, and so with the status success. *)
Lemma pipe_client_flush_byte_mode_witness :
  (∃ so, fds byte_pair !! 10%nat = Some so ∧ fd_user so = Some 1%nat
         ∧ fd_unix so = Some 5)
  ∧ pipe_client_flush (H := wine_constants) 11%nat flush_async byte_pair
    = Ok (0, byte_pair)
  ∧ error byte_pair = STATUS_SUCCESS.
Proof.
  split; [eexists; repeat split; reflexivity|]. split; [|reflexivity].
  edestruct (pipe_client_flush_byte_mode (H := wine_constants) 11%nat 2%nat)
    as [Hbyte _]; [| | |apply Hbyte]; reflexivity.
Defined.

(** * More of the code *)

(** ** Stepping under a continuation *)

(** The steps of [mrun] that apply to a computation followed by a
    continuation, with the dereference of a pointer that is known. *)
Ltac mforward :=
  repeat (first
    [ rewrite bind_assoc
    | rewrite bind_ret
    | rewrite bind_modify
    | rewrite bind_get_world
    | rewrite bind_raise
    | rewrite bind_set_error
    | rewrite bind_deref
    | erewrite bind_get_end by solve_lookup
    | erewrite bind_get_server by solve_lookup
    | erewrite bind_get_client by solve_lookup
    | erewrite bind_get_object by solve_lookup
    | erewrite bind_get_pipe by solve_lookup
    | erewrite bind_get_fd by solve_lookup
    | erewrite bind_update_end by solve_lookup
    | erewrite bind_update_server by solve_lookup
    | erewrite bind_update_client by solve_lookup
    | erewrite bind_update_pipe by solve_lookup
    | erewrite bind_update_fd by solve_lookup ];
    world_simpl; fields_simpl).

(** The same, through the tests whose outcome is known. *)
Ltac mgo := repeat (progress (mforward; cbn [negb andb orb when c_assert])).

(** The host grants everything: its script is empty. *)
Lemma with_script_same w : with_script (script w) w = w.
Proof. destruct w; reflexivity. Qed.

Lemma bind_host_try_granted {B} (k : bool → M B) w :
  script w = [] → bind host_try k w = k true w.
Proof.
  intros Hscript. rewrite bind_host_try, Hscript. cbn [head tail default from_option id].
  rewrite <- Hscript, with_script_same. reflexivity.
Qed.

(** Two maps built by insertions are equal when they agree at every key. *)
Ltac same_map :=
  apply map_eq; intros ?; rewrite ?lookup_insert;
  repeat case_decide; subst; solve [reflexivity | congruence].

(** A lookup at a key that is, or is not, one of those inserted. *)
Ltac lookup_tac :=
  solve [ repeat first
            [ apply lookup_insert_eq
            | rewrite lookup_insert_ne by congruence
            | reflexivity
            | assumption ] ].

(** ** Peeking *)

Lemma peek_available q : ∀ acc,
  Forall message_ok q → 0 <= acc → acc + queue_total q < 4294967296 →
  fold_left (λ acc m, add32 acc (remaining m)) q acc = acc + queue_total q.
Proof.
  induction q as [|m q IH]; intros acc Hall Hacc Htot; simpl in *; [lia|].
  inversion Hall as [|? ? Hm Hq]; subst.
  pose proof (queue_total_nonneg q Hq) as Hnn.
  pose proof Hm as (Hpos & _).
  rewrite (remaining_ok m Hm), add32_small by (unfold is_data_size; lia).
  rewrite IH by (assumption || lia). lia.
Qed.

Section peek.
Context `{protocol_constants}.

(** Peek on a message-mode end: the host is handed the count of all unread
    bytes of the queue, the unread length of the first message and the
    unread bytes of that message that fit in the reply; the queue, and the
    rest of the world, stay as they are. *)
Theorem pipe_end_peek_reports reply_max p o w :
  objects w !! p = Some o →
  use_server_io (object_end o) = true →
  queue_ok (message_queue (object_end o)) →
  0 <= PEEK_DATA_OFFSET <= reply_max → reply_max < 4294967296 →
  default true (head (script w)) = true →
  pipe_end_peek reply_max p w
  = Ok (tt, with_calls (calls w ++ [peek_reply reply_max (message_queue (object_end o))])
              (with_script (tail (script w)) w)).
Proof.
  intros Ho Hio [Hall Htot] Hoff Hmax Hgrant. unfold pipe_end_peek.
  rewrite (bind_get_end _ _ _ _ Ho), Hio. cbn [negb].
  destruct (Z.ltb_spec reply_max PEEK_DATA_OFFSET) as [Hlt|_]; [lia|].
  rewrite (peek_available _ 0 Hall) by lia. rewrite Z.add_0_l.
  rewrite sub32_small by (unfold is_data_size; lia).
  destruct (message_queue (object_end o)) as [|m rest] eqn:Hq.
  - simpl. rewrite bind_ret, bind_host_try, Hgrant. reflexivity.
  - inversion Hall as [|? ? Hm Hrest]; subst.
    pose proof (queue_total_nonneg rest Hrest) as Hnn.
    pose proof Hm as (Hpos & Hsize & Hlen).
    pose proof (remaining_bytes_length m Hm) as Hbytes.
    assert (Hdata : (if Z.min (reply_max - PEEK_DATA_OFFSET) (remaining m) =? 0
                     then Ok []
                     else memcpy_from m (Z.min (reply_max - PEEK_DATA_OFFSET) (remaining m)) [])
                    = Ok (take (Z.to_nat (reply_max - PEEK_DATA_OFFSET)) (remaining_bytes m))).
    { rewrite (remaining_ok m Hm).
      destruct (Z.eqb_spec (Z.min (reply_max - PEEK_DATA_OFFSET)
                              (in_size (msg_iosb m) - read_pos m)) 0) as [Hz|Hnz].
      - f_equal. symmetry. apply length_zero_iff_nil. rewrite length_take. lia.
      - rewrite memcpy_from_ok by (assumption || lia). simpl. f_equal.
        destruct (Z.le_ge_cases (reply_max - PEEK_DATA_OFFSET)
                    (in_size (msg_iosb m) - read_pos m)).
        + rewrite Z.min_l by assumption. reflexivity.
        + rewrite Z.min_r by assumption.
          rewrite !take_ge by lia. reflexivity. }
    cbn [head]. simpl queue_total.
    destruct (Z.eqb_spec (in_size (msg_iosb m) - read_pos m + queue_total rest) 0) as [Hz|Hnz].
    + rewrite bind_ret, bind_host_try, Hgrant. cbv iota. cbn [negb].
      unfold peek_reply. simpl queue_total. rewrite Hz.
      replace (in_size (msg_iosb m) - read_pos m) with 0 by lia.
      replace (take _ (remaining_bytes m)) with (@nil Byte.byte); [reflexivity|].
      symmetry. apply length_zero_iff_nil. rewrite length_take. lia.
    + rewrite bind_assoc, bind_deref, bind_ret, Hdata, bind_host_try, Hgrant.
      cbv iota. cbn [negb]. unfold peek_reply. rewrite (remaining_ok m Hm). reflexivity.
Qed.

End peek.

(** The peek at the server of the connected pair with room for two bytes
    of data: five bytes are unread, three of them in the first message, and
    the first two are shown. *)
Lemma pipe_end_peek_reports_witness :
  pipe_end_peek (H := wine_constants) 18 1%nat connected_pair
  = Ok (tt, with_calls [call_set_reply_data 5 3 [Byte.x41; Byte.x42]] connected_pair).
Proof.
  apply (pipe_end_peek_reports (H := wine_constants) 18 1%nat pair_server connected_pair).
  - reflexivity.
  - reflexivity.
  - split; [|reflexivity]. repeat constructor; simpl; lia.
  - simpl. lia.
  - lia.
  - reflexivity.
Defined.

(** ** The pipe information requests *)

Section pipe_info.
Context `{protocol_constants}.

Lemma info_server_other a o sa e s w :
  objects w !! a = Some o → info_server a o = Some sa →
  objects w !! sa = Some (server_object e s) →
  (a = sa ∧ o = server_object e s) ∨ (a ≠ sa ∧ ∃ ec c, o = client_object ec c ∧ server c = Some sa).
Proof.
  intros Ho Hsrv Hsa. destruct o as [e' s'|ec c]; simpl in Hsrv.
  - injection Hsrv as <-. left. split; [reflexivity|]. congruence.
  - right. split; [intros ->; congruence|]. eauto.
Qed.

(** set_named_pipe_info followed by get_named_pipe_info on the same
    handle: flags that are accepted replace the flags of the end by the
    flags of the pipe joined with the new ones, and the reply shows them,
    with the server-end bit for a server, beside the parameters of the
    pipe. *)
Theorem set_named_pipe_info_round_trip a o sa e s np fl w :
  objects w !! a = Some o → info_server a o = Some sa →
  objects w !! sa = Some (server_object e s) → pipes w !! pipe s = Some np →
  ¬ refused_flags (pipe_flags np) fl →
  ∃ w1 w2,
    set_named_pipe_info (Some a) fl w = Ok (tt, w1)
    ∧ get_named_pipe_info (Some a) w1
      = Ok (Some (mk_info (Z.lor (Z.lor (pipe_flags np) fl) (info_side o))
                          (sharing np) (maxinstances np) (instances np)
                          (insize np) (outsize np)), w2)
    ∧ objects w2 = <[a := with_end o (with_flags (Z.lor (pipe_flags np) fl) (object_end o))]>
                     (objects w).
Proof.
  intros Ho Hsrv Hsa Hnp Hfl.
  assert (Hcheck :
    negb (Z.land fl (Z.lnot (Z.lor NAMED_PIPE_MESSAGE_STREAM_READ NAMED_PIPE_NONBLOCKING_MODE))
          =? 0)
    || (has_flag fl NAMED_PIPE_MESSAGE_STREAM_READ
        && negb (has_flag (pipe_flags np) NAMED_PIPE_MESSAGE_STREAM_WRITE)) = false).
  { apply orb_false_iff. split.
    - apply negb_false_iff, Z.eqb_eq.
      destruct (Z.eq_dec (Z.land fl (Z.lnot (Z.lor NAMED_PIPE_MESSAGE_STREAM_READ
                                               NAMED_PIPE_NONBLOCKING_MODE))) 0) as [Hz|Hnz];
        [exact Hz|]. exfalso. apply Hfl. left. exact Hnz.
    - destruct (has_flag fl NAMED_PIPE_MESSAGE_STREAM_READ) eqn:Hread; [|reflexivity].
      destruct (has_flag (pipe_flags np) NAMED_PIPE_MESSAGE_STREAM_WRITE) eqn:Hwrite;
        [reflexivity|]. exfalso. apply Hfl. right. auto. }
  destruct (info_server_other _ _ _ _ _ _ Ho Hsrv Hsa)
    as [[<- ->] | [Hne (ec & c & -> & Hc)]].
  - eexists _, _. split; [|split].
    + unfold set_named_pipe_info. mrun. rewrite Hcheck. mrun. reflexivity.
    + unfold get_named_pipe_info. mrun. reflexivity.
    + reflexivity.
  - eexists _, _. split; [|split].
    + unfold set_named_pipe_info. mrun. unfold clear_error. mrun. unfold server_of. rewrite Hc. mrun.
      rewrite Hcheck. mrun. reflexivity.
    + unfold get_named_pipe_info. mrun. unfold clear_error. mrun. unfold server_of. rewrite Hc. mrun.
      rewrite Z.lor_0_r. reflexivity.
    + reflexivity.
Qed.

(** set_named_pipe_info changes nothing when it refuses the flags, which
    it reports with invalid_parameter, and when the handle is of a client
    whose server is gone, which it does not report at all, whatever the
    flags are. *)
Theorem set_named_pipe_info_refuses a o fl w :
  objects w !! a = Some o →
  (∀ sa e s np,
     info_server a o = Some sa →
     objects w !! sa = Some (server_object e s) → pipes w !! pipe s = Some np →
     refused_flags (pipe_flags np) fl →
     set_named_pipe_info (Some a) fl w = Ok (tt, with_error STATUS_INVALID_PARAMETER w))
  ∧ (info_server a o = None →
     set_named_pipe_info (Some a) fl w = Ok (tt, with_error STATUS_SUCCESS w)).
Proof.
  intros Ho. split.
  - intros sa e s np Hsrv Hsa Hnp Hfl.
    assert (Hcheck :
      negb (Z.land fl (Z.lnot (Z.lor NAMED_PIPE_MESSAGE_STREAM_READ NAMED_PIPE_NONBLOCKING_MODE))
            =? 0)
      || (has_flag fl NAMED_PIPE_MESSAGE_STREAM_READ
          && negb (has_flag (pipe_flags np) NAMED_PIPE_MESSAGE_STREAM_WRITE)) = true).
    { apply orb_true_iff. destruct Hfl as [Hnz|[-> ->]]; [left|right; reflexivity].
      apply negb_true_iff, Z.eqb_neq, Hnz. }
    destruct (info_server_other _ _ _ _ _ _ Ho Hsrv Hsa)
      as [[<- ->] | [Hne (ec & c & -> & Hc)]].
    + unfold set_named_pipe_info. mrun. rewrite Hcheck. reflexivity.
    + unfold set_named_pipe_info. mrun. unfold clear_error. mrun. unfold server_of. rewrite Hc. mrun.
      rewrite Hcheck. reflexivity.
  - destruct o as [e s|ec c]; simpl; [discriminate|]. intros Hc.
    unfold set_named_pipe_info. mrun. unfold clear_error. mrun. unfold server_of. rewrite Hc. reflexivity.
Qed.

End pipe_info.

(** At the client of the connected pair (object 2, of the pipe with the
    flags 1): message-stream-read is accepted, and the reply then shows
    the flags 3 and the parameters of the pipe. *)
Lemma set_named_pipe_info_round_trip_witness :
  ∃ w1 w2,
    set_named_pipe_info (H := wine_constants) (Some 2%nat) 2 connected_pair = Ok (tt, w1)
    ∧ get_named_pipe_info (H := wine_constants) (Some 2%nat) w1
      = Ok (Some (mk_info 3 3 1 1 4 4), w2).
Proof.
  destruct (set_named_pipe_info_round_trip (H := wine_constants) 2%nat pair_client 1%nat
              pair_server_end pair_server_state pair_pipe 2 connected_pair)
    as (w1 & w2 & Hset & Hget & _).
  - reflexivity.
  - reflexivity.
  - reflexivity.
  - reflexivity.
  - intros [Hbits|[_ Hmode]]; [apply Hbits; reflexivity|discriminate].
  - exists w1, w2. split; [exact Hset|exact Hget].
Defined.

(** At the client of the connected pair, the flag 8 is refused; at the
    client of the disconnected pair, whose server is gone, the same flag
    is taken without an error and changes nothing. *)
Lemma set_named_pipe_info_refuses_witness :
  set_named_pipe_info (H := wine_constants) (Some 2%nat) 8 connected_pair
  = Ok (tt, with_error STATUS_INVALID_PARAMETER connected_pair)
  ∧ set_named_pipe_info (H := wine_constants) (Some 2%nat) 8 disconnected_pair
    = Ok (tt, with_error STATUS_SUCCESS disconnected_pair).
Proof.
  split.
  - destruct (set_named_pipe_info_refuses (H := wine_constants) 2%nat pair_client 8
                connected_pair eq_refl) as [Hrefused _].
    apply (Hrefused 1%nat pair_server_end pair_server_state pair_pipe);
      try reflexivity.
    left. discriminate.
  - destruct (set_named_pipe_info_refuses (H := wine_constants) 2%nat orphan_client 8
                disconnected_pair eq_refl) as [_ Horphan].
    apply Horphan. reflexivity.
Defined.

(** ** Listening and waiting for a listener *)

Section listen.
Context `{protocol_constants}.

Lemma wake_up_list_success q :
  wake_up_list STATUS_SUCCESS q = ([], map (terminate_call STATUS_SUCCESS) q).
Proof. reflexivity. Qed.

Lemma bind_set_server_state_listening {B} server e s fi io (k : unit → M B) w :
  objects w !! server = Some (server_object e s) → fd e = None →
  ioctl_fd s = Some fi → fds w !! fi = Some io →
  bind (set_server_state server ps_wait_open) k w
  = k tt (set_fds (insert fi (with_no_fd_status STATUS_PIPE_LISTENING io))
            (set_objects (insert server (server_object e (with_state ps_wait_open s))) w)).
Proof.
  intros Ho Hfd Hioctl Hio. unfold set_server_state. mforward. rewrite Hfd.
  rewrite (bool_decide_eq_true_2 (@None addr = None)) by reflexivity.
  cbn [c_assert]. mforward. rewrite Hioctl. unfold set_no_fd_status. mforward.
  reflexivity.
Qed.

Lemma bind_set_server_state_idle {B} server e s fi io (k : unit → M B) w :
  objects w !! server = Some (server_object e s) → fd e = None →
  ioctl_fd s = Some fi → fds w !! fi = Some io →
  bind (set_server_state server ps_idle_server) k w
  = k tt (set_fds (insert fi (with_no_fd_status STATUS_PIPE_LISTENING io))
            (set_objects (insert server (server_object e (with_state ps_idle_server s))) w)).
Proof.
  intros Ho Hfd Hioctl Hio. unfold set_server_state. mforward. rewrite Hfd.
  rewrite (bool_decide_eq_true_2 (@None addr = None)) by reflexivity.
  cbn [c_assert]. mforward. rewrite Hioctl. unfold set_no_fd_status. mforward.
  reflexivity.
Qed.

Lemma bind_fd_queue_async {B} f fa o a (k : bool → M B) w :
  f = Some fa → fds w !! fa = Some o → script w = [] →
  bind (fd_queue_async f a) k w
  = k true (set_fds (insert fa (with_wait_q (fd_wait_q o ++ [a]) o)) w).
Proof.
  intros -> Hfa Hscript. unfold fd_queue_async. mforward.
  rewrite bind_host_try_granted by exact Hscript. mforward. reflexivity.
Qed.

Lemma bind_wait_handle {B} a (k : Z → M B) w :
  script w = [] →
  ∃ h, (h ≠ 0 ↔ async_blocking a = true)
       ∧ bind (if async_is_blocking a then alloc_handle else ret 0) k w
         = k h (with_handles (if async_blocking a then S (handles w) else handles w) w).
Proof.
  intros Hscript. unfold async_is_blocking. destruct (async_blocking a).
  - exists (4 * Z.of_nat (S (handles w))). split; [split; [reflexivity|lia]|].
    unfold alloc_handle. rewrite bind_assoc, bind_host_try_granted by exact Hscript.
    mforward. reflexivity.
  - exists 0. split; [split; [lia|discriminate]|]. rewrite bind_ret. destruct w; reflexivity.
Qed.

Lemma listen_runs reply_max f fo server e s fi io np a w :
  fds w !! f = Some fo → fd_user fo = Some server →
  objects w !! server = Some (server_object e s) →
  state s = ps_idle_server ∨ state s = ps_wait_connect →
  fd e = None →
  ioctl_fd s = Some fi → fds w !! fi = Some io →
  pipes w !! pipe s = Some np →
  script w = [] →
  ∃ h w',
    pipe_server_ioctl reply_max f FSCTL_PIPE_LISTEN a w = Ok (h, w')
    ∧ parked a h w' ∧ listening_after server fi e s io np a w w' ∧ script w' = [].
Proof.
  intros Hf Huser Ho Hstate Hfd Hioctl Hio Hnp Hscript.
  destruct (bind_wait_handle a
    (λ wait_handle, bind (set_server_state server ps_wait_open)
       (λ _, bind (get_pipe (pipe s))
          (λ np0, bind
             match waiters np0 with
             | Some q =>
                 let '(q', cs) := wake_up_list STATUS_SUCCESS q in
                 bind (update_pipe (pipe s) (with_waiters (Some q')))
                   (λ _, log_calls cs)
             | None => ret tt
             end
             (λ _, bind (set_error STATUS_PENDING) (λ _, ret wait_handle)))))
    (set_fds (insert fi (with_wait_q (fd_wait_q io ++ [a]) io)) w) Hscript)
    as (h & Hh & Hhandle).
  assert (Hlisten : ∃ w',
    bind (fd_queue_async (ioctl_fd s) a)
      (λ queued, if queued
         then bind (if async_is_blocking a then alloc_handle else ret 0)
                (λ wait_handle, bind (set_server_state server ps_wait_open)
                   (λ _, bind (get_pipe (pipe s))
                      (λ np0, bind
                         match waiters np0 with
                         | Some q =>
                             let '(q', cs) := wake_up_list STATUS_SUCCESS q in
                             bind (update_pipe (pipe s) (with_waiters (Some q')))
                               (λ _, log_calls cs)
                         | None => ret tt
                         end
                         (λ _, bind (set_error STATUS_PENDING) (λ _, ret wait_handle)))))
         else ret 0) w = Ok (h, w')
    ∧ parked a h w' ∧ listening_after server fi e s io np a w w' ∧ script w' = []).
  { rewrite (bind_fd_queue_async _ _ _ _ _ _ Hioctl Hio Hscript), Hhandle.
    erewrite bind_set_server_state_listening
      by (solve_lookup || exact Hfd || exact Hioctl).
    mrun. unfold parked, listening_after.
    destruct (waiters np) as [q|] eqn:Hwait.
    - rewrite wake_up_list_success. unfold log_calls. mrun.
      eexists. split; [reflexivity|]. world_simpl.
      rewrite insert_insert_eq. auto 10.
    - mrun. eexists. split; [reflexivity|]. world_simpl.
      rewrite insert_insert_eq, app_nil_r.
      rewrite (insert_id (pipes w) (pipe s) (with_waiters None np))
        by (rewrite Hnp, <- Hwait; destruct np; reflexivity).
      auto 10. }
  destruct Hlisten as (w' & Hrun & Hrest). exists h, w'. split; [|exact Hrest].
  unfold pipe_server_ioctl.
  rewrite (bind_ok _ _ _ _ _ (get_fd_user_ok _ _ _ Hf)), Huser, bind_deref.
  rewrite (bind_get_server _ _ _ _ _ Ho).
  destruct Hstate as [-> | ->]; exact Hrun.
Qed.

(** FSCTL_PIPE_LISTEN on a server that is idle or disconnected, when the
    host grants what is asked: the async is parked on the ioctl descriptor,
    whose status without a host descriptor becomes pipe_listening; the
    server is in wait_open; every async that waits for the pipe is
    completed with success and the waiters' queue is left empty; the
    request reports pending, with a wait handle just for a blocking
    caller. *)
Theorem pipe_server_ioctl_listens reply_max f fo server e s fi io np a w :
  fds w !! f = Some fo → fd_user fo = Some server →
  objects w !! server = Some (server_object e s) →
  state s = ps_idle_server ∨ state s = ps_wait_connect →
  fd e = None →
  ioctl_fd s = Some fi → fds w !! fi = Some io →
  pipes w !! pipe s = Some np →
  script w = [] →
  ∃ h w',
    pipe_server_ioctl reply_max f FSCTL_PIPE_LISTEN a w = Ok (h, w')
    ∧ parked a h w' ∧ listening_after server fi e s io np a w w'.
Proof.
  intros Hf Huser Ho Hstate Hfd Hioctl Hio Hnp Hscript.
  destruct (listen_runs reply_max _ _ _ _ _ _ _ _ a _ Hf Huser Ho Hstate Hfd Hioctl Hio Hnp
              Hscript) as (h & w' & Hrun & Hparked & Hafter & _).
  eauto.
Qed.

End listen.

(** At the world with the newly created pipe: the listen on its idle
    server (object 0, descriptor 0) parks the async and leaves the server
    in wait_open. *)
Lemma pipe_server_ioctl_listens_witness :
  ∃ h w',
    pipe_server_ioctl (H := wine_constants) 0 0%nat FSCTL_PIPE_LISTEN listen_async
      listening_world = Ok (h, w')
    ∧ parked listen_async h w'
    ∧ listening_after 0%nat 0%nat idle_server_end idle_server_state idle_fd created_pipe
        listen_async listening_world w'.
Proof.
  apply (pipe_server_ioctl_listens (H := wine_constants) 0 0%nat idle_fd 0%nat
           idle_server_end idle_server_state 0%nat idle_fd created_pipe listen_async
           listening_world); try reflexivity.
  left. reflexivity.
Defined.

Section wait.
Context `{protocol_constants}.

Lemma find_available_server_run pipe np w :
  pipes w !! pipe = Some np →
  (∀ a, a ∈ servers np → ∃ e s, objects w !! a = Some (server_object e s)) →
  ∃ chosen, find_available_server pipe w = Ok (chosen, w)
            ∧ (is_Some chosen ↔ server_available w (servers np)).
Proof.
  intros Hp Hlive. unfold find_available_server. rewrite (bind_get_pipe _ _ _ _ Hp).
  rewrite (bind_ok _ _ _ _ _ (first_server_in_spec _ _ _ Hlive)).
  destruct (List.find (λ a, bool_decide (server_state_at w a = Some ps_wait_open))
              (servers np)) as [server|] eqn:Hopen.
  - exists (Some server). split; [reflexivity|]. split; [|eauto].
    intros _. apply find_state_some in Hopen as [Hin Hst]. exists server. auto.
  - rewrite (first_server_in_spec _ _ _ Hlive).
    destruct (List.find (λ a, bool_decide (server_state_at w a = Some ps_idle_server))
                (servers np)) as [server|] eqn:Hidle.
    + exists (Some server). split; [reflexivity|]. split; [|eauto].
      intros _. apply find_state_some in Hidle as [Hin Hst]. exists server. auto.
    + exists None. split; [reflexivity|]. split; [intros [? [=]]|].
      intros (sa & Hin & [Hst|Hst]); exfalso.
      * exact (find_state_none _ _ _ Hopen sa Hin Hst).
      * exact (find_state_none _ _ _ Hidle sa Hin Hst).
Qed.

Lemma wait_runs nm tmo p np a w :
  namespace w !! nm = Some p → pipes w !! p = Some np →
  find_available_server p w = Ok (None, w) →
  script w = [] →
  ∃ h w',
    named_pipe_device_ioctl FSCTL_PIPE_WAIT (Some (nm, tmo)) a w = Ok (h, w')
    ∧ parked a h w' ∧ waiting_after p np a w w'.
Proof.
  intros Hnm Hp Hfind Hscript. unfold named_pipe_device_ioctl, open_named_object.
  rewrite bind_assoc, bind_get_world, Hnm, bind_ret, (bind_ok _ _ _ _ _ Hfind).
  rewrite (bind_get_pipe _ _ _ _ Hp).
  assert (Hqueue : ∃ w1,
    match waiters np with
    | Some _ => ret true
    | None =>
        ok <- create_async_queue;
        when ok (update_pipe p (with_waiters (Some [])));;
        ret ok
    end w = Ok (true, w1)
    ∧ pipes w1 = <[p := with_waiters (Some (default [] (waiters np))) np]> (pipes w)
    ∧ objects w1 = objects w ∧ fds w1 = fds w ∧ calls w1 = calls w
    ∧ namespace w1 = namespace w ∧ script w1 = [] ∧ handles w1 = handles w).
  { destruct (waiters np) as [q|] eqn:Hwait.
    - exists w. split; [reflexivity|]. split; [|auto 10].
      symmetry. apply insert_id. rewrite Hp. f_equal.
      destruct np; simpl in *; subst; reflexivity.
    - eexists. split.
      + unfold create_async_queue.
        rewrite !bind_assoc, bind_host_try_granted by exact Hscript.
        cbv iota. unfold when. mrun. reflexivity.
      + world_simpl. auto 10. }
  destruct Hqueue as (w1 & Hq & Hpipes & Hobj & Hfds & Hcalls & Hns & Hscript1 & Hhandles).
  rewrite (bind_ok _ _ _ _ _ Hq). cbn [negb].
  assert (Hp1 : pipes w1 !! p = Some (with_waiters (Some (default [] (waiters np))) np))
    by (rewrite Hpipes; apply lookup_insert_eq).
  rewrite (bind_get_pipe _ _ _ _ Hp1), (bind_update_pipe _ _ _ _ _ Hp1).
  destruct (bind_wait_handle a (λ wait_handle, set_error STATUS_PENDING;; ret wait_handle)
              (set_pipes (insert p (with_waiters
                                      (Some (default [] (waiters (with_waiters
                                         (Some (default [] (waiters np))) np)) ++ [a]))
                                      (with_waiters (Some (default [] (waiters np))) np))) w1)
              Hscript1) as (h & Hh & Hhandle).
  rewrite Hhandle. exists h. eexists. split; [reflexivity|].
  split; [split; [reflexivity|exact Hh]|].
  unfold waiting_after. world_simpl. fields_simpl.
  rewrite Hpipes, insert_insert_eq. auto 10.
Qed.

(** FSCTL_PIPE_WAIT on the device, for a pipe of that name whose servers
    are live: when a server of the pipe listens or is idle the request
    returns at once and leaves the world as it is, and so reports nothing;
    otherwise, when the host grants what is asked, the async joins the
    waiters of the pipe and the request reports pending, with a wait handle
    just for a blocking caller. *)
Theorem named_pipe_device_ioctl_waits nm tmo p np a w :
  namespace w !! nm = Some p → pipes w !! p = Some np →
  (∀ sa, sa ∈ servers np → ∃ e s, objects w !! sa = Some (server_object e s)) →
  (server_available w (servers np) →
   named_pipe_device_ioctl FSCTL_PIPE_WAIT (Some (nm, tmo)) a w = Ok (0, w))
  ∧ (¬ server_available w (servers np) → script w = [] →
     ∃ h w',
       named_pipe_device_ioctl FSCTL_PIPE_WAIT (Some (nm, tmo)) a w = Ok (h, w')
       ∧ parked a h w' ∧ waiting_after p np a w w').
Proof.
  intros Hnm Hp Hlive.
  destruct (find_available_server_run p np w Hp Hlive) as (chosen & Hfind & Hchosen).
  split.
  - intros Havail. apply Hchosen in Havail as [server ->].
    unfold named_pipe_device_ioctl, open_named_object.
    rewrite bind_assoc, bind_get_world, Hnm, bind_ret, (bind_ok _ _ _ _ _ Hfind).
    reflexivity.
  - intros Hnone Hscript. destruct chosen as [server|].
    + exfalso. apply Hnone, Hchosen. eauto.
    + apply wait_runs; assumption.
Qed.

(** A wait for a listener is completed by the next listen: with no server
    of the pipe listening or idle, FSCTL_PIPE_WAIT parks the async and
    reports pending; FSCTL_PIPE_LISTEN on a disconnected server of that
    pipe then terminates the async with success and leaves the server in
    wait_open and the pipe without waiters. *)
Theorem wait_completed_by_listen nm tmo p np a reply_max f fo server e s fi io b w :
  namespace w !! nm = Some p → pipes w !! p = Some np →
  (∀ sa, sa ∈ servers np → ∃ e s, objects w !! sa = Some (server_object e s)) →
  ¬ server_available w (servers np) →
  script w = [] →
  fds w !! f = Some fo → fd_user fo = Some server →
  objects w !! server = Some (server_object e s) →
  pipe s = p → state s = ps_wait_connect → fd e = None →
  ioctl_fd s = Some fi → fds w !! fi = Some io →
  ∃ h1 w1 h2 w2,
    named_pipe_device_ioctl FSCTL_PIPE_WAIT (Some (nm, tmo)) a w = Ok (h1, w1)
    ∧ parked a h1 w1
    ∧ pipe_server_ioctl reply_max f FSCTL_PIPE_LISTEN b w1 = Ok (h2, w2)
    ∧ parked b h2 w2
    ∧ call_async_terminate (async_id a) STATUS_SUCCESS (async_iosb a) ∈ calls w2
    ∧ server_state_at w2 server = Some ps_wait_open
    ∧ ∃ np2, pipes w2 !! p = Some np2 ∧ waiters np2 = Some [].
Proof.
  intros Hnm Hp Hlive Hnone Hscript Hf Huser Ho Hpipe Hstate Hfd Hioctl Hio.
  destruct (find_available_server_run p np w Hp Hlive) as (chosen & Hfind & Hchosen).
  destruct chosen as [sa|]; [exfalso; apply Hnone, Hchosen; eauto|].
  destruct (wait_runs nm tmo p np a w Hnm Hp Hfind Hscript)
    as (h1 & w1 & Hwait & Hparked1 & Hpipes & Hobj & Hfds & Hcalls & _ & Hscript1).
  assert (Hp1 : pipes w1 !! pipe s
                = Some (with_waiters (Some (default [] (waiters np) ++ [a])) np))
    by (rewrite Hpipe, Hpipes; apply lookup_insert_eq).
  destruct (listen_runs reply_max f fo server e s fi io
              (with_waiters (Some (default [] (waiters np) ++ [a])) np) b w1)
    as (h2 & w2 & Hlisten & Hparked2 & (Hobj2 & Hfds2 & Hpipes2 & Hcalls2) & _);
    try (rewrite ?Hobj, ?Hfds; eassumption); [right; exact Hstate|].
  exists h1, w1, h2, w2. split; [exact Hwait|]. split; [exact Hparked1|].
  split; [exact Hlisten|]. split; [exact Hparked2|]. split; [|split].
  - rewrite Hcalls2. fields_simpl. apply elem_of_app. right.
    change (default [] (Some (default [] (waiters np) ++ [a])))
      with (default [] (waiters np) ++ [a]).
    rewrite map_app. apply elem_of_app. right. apply list_elem_of_here.
  - unfold server_state_at. rewrite Hobj2, lookup_insert_eq. reflexivity.
  - eexists. rewrite Hpipes2, Hpipe, lookup_insert_eq. split; reflexivity.
Qed.

End wait.

(** At the world with the newly created pipe, whose server is idle, a
    wait for the pipe returns at once; at the connected pair, whose only
    server is taken, it parks the async. *)
Lemma named_pipe_device_ioctl_waits_witness :
  named_pipe_device_ioctl FSCTL_PIPE_WAIT
    (Some ([112; 105; 112; 101], None)) wait_async listening_world
  = Ok (0, listening_world)
  ∧ ∃ h w',
      named_pipe_device_ioctl FSCTL_PIPE_WAIT
        (Some ([112; 105; 112; 101], None)) wait_async connected_pair = Ok (h, w')
      ∧ parked wait_async h w'
      ∧ waiting_after 20%nat pair_pipe wait_async connected_pair w'.
Proof.
  split.
  - destruct (named_pipe_device_ioctl_waits [112; 105; 112; 101] None
                0%nat created_pipe wait_async listening_world eq_refl eq_refl)
      as [Havailable _].
    + intros sa Hsa. apply list_elem_of_singleton in Hsa as ->.
      eexists _, _. reflexivity.
    + apply Havailable. exists 0%nat. split; [apply list_elem_of_here|].
      right. reflexivity.
  - destruct (named_pipe_device_ioctl_waits [112; 105; 112; 101] None
                20%nat pair_pipe wait_async connected_pair eq_refl eq_refl)
      as [_ Hwaits].
    + intros sa Hsa. apply list_elem_of_singleton in Hsa as ->.
      eexists _, _. reflexivity.
    + apply Hwaits; [|reflexivity].
      intros (sa & Hsa & Hstate). apply list_elem_of_singleton in Hsa as ->.
      destruct Hstate as [Hstate|Hstate]; discriminate Hstate.
Defined.

(** At the disconnected pair, whose only server waits to be connected: the
    wait is parked, and the listen on the server (descriptor 10) then
    completes it. *)
Lemma wait_completed_by_listen_witness :
  ∃ h1 w1 h2 w2,
    named_pipe_device_ioctl FSCTL_PIPE_WAIT
      (Some ([112; 105; 112; 101], None)) wait_async disconnected_pair = Ok (h1, w1)
    ∧ parked wait_async h1 w1
    ∧ pipe_server_ioctl (H := wine_constants) 0 10%nat FSCTL_PIPE_LISTEN listen_async w1
      = Ok (h2, w2)
    ∧ call_async_terminate 4 STATUS_SUCCESS (async_iosb wait_async) ∈ calls w2
    ∧ server_state_at w2 1%nat = Some ps_wait_open.
Proof.
  destruct (wait_completed_by_listen (H := wine_constants) [112; 105; 112; 101] None
              20%nat pair_pipe wait_async 0 10%nat disconnected_fd 1%nat
              disconnected_server_end disconnected_server_state 10%nat disconnected_fd
              listen_async disconnected_pair)
    as (h1 & w1 & h2 & w2 & Hwait & Hparked & Hlisten & _ & Hdone & Hstate & _);
    try reflexivity.
  - intros sa Hsa. apply list_elem_of_singleton in Hsa as ->.
    eexists _, _. reflexivity.
  - intros (sa & Hsa & Hstate). apply list_elem_of_singleton in Hsa as ->.
    destruct Hstate as [Hstate|Hstate]; discriminate Hstate.
  - exists h1, w1, h2, w2. auto.
Defined.

(** ** The disconnect of a connected pair *)

Section disconnect.
Context `{protocol_constants}.

Lemma torn_down_message_mode st e :
  use_server_io e = true →
  torn_down st e
  = with_message_queue (disconnect_walk st (message_queue e)).1
      (with_read_q (async_wake_up st (read_q e)).1 (with_connection None e)).
Proof. intros Hio. unfold torn_down. rewrite Hio. reflexivity. Qed.

Lemma bind_disconnect_own_end {B} a o fa fo st (k : unit → M B) w :
  objects w !! a = Some o → use_server_io (object_end o) = true →
  fd (object_end o) = Some fa → fds w !! fa = Some fo →
  bind (disconnect_own_end a (object_end o) st) k w
  = k tt (with_calls (calls w ++ teardown_calls st (object_end o) fo)
            (set_fds (insert fa (torn_down_fd st fo))
               (set_objects (insert a (with_end o (torn_down st (object_end o)))) w))).
Proof.
  intros Ho Hio Hfd Hfa. unfold disconnect_own_end. rewrite Hio, Hfd.
  rewrite (torn_down_message_mode _ _ Hio). unfold teardown_calls, torn_down_fd.
  cbn [when]. rewrite (bool_decide_eq_true_2 (is_Some (Some fa))) by eauto.
  cbn [when]. unfold fd_async_wake_up, set_fd_signaled, log_calls.
  destruct (wake_up_list st (fd_wait_q fo)) as [fq cs0] eqn:Hwake.
  destruct (async_wake_up st (read_q (object_end o))) as [rq cs1].
  destruct (disconnect_walk st (message_queue (object_end o))) as [q cs2].
  mforward. rewrite Hwake. mforward. cbn [fst snd].
  destruct (bool_decide (st = STATUS_PIPE_DISCONNECTED)); cbn [when]; mforward;
    f_equal; apply world_eq; world_simpl;
    rewrite ?insert_insert_eq, ?with_end_with_end, ?object_end_with_end, <- ?app_assoc;
    reflexivity.
Qed.

Lemma bind_cong {A B} (m m' : M A) (k : A → M B) w :
  m w = m' w → bind m k w = bind m' k w.
Proof. unfold bind. intros ->. reflexivity. Qed.

Lemma bind_pipe_end_disconnect_pair {B} a o fa fo p op fp fpo st (k : unit → M B) w :
  objects w !! a = Some o → use_server_io (object_end o) = true →
  fd (object_end o) = Some fa → fds w !! fa = Some fo →
  connection (object_end o) = Some p → p ≠ a →
  objects w !! p = Some op → use_server_io (object_end op) = true →
  fd (object_end op) = Some fp → fds w !! fp = Some fpo → fp ≠ fa →
  bind (pipe_end_disconnect 2 a st) k w
  = k tt (with_calls (calls w ++ teardown_calls st (object_end o) fo
                              ++ teardown_calls st (object_end op) fpo)
            (set_fds (λ m, <[fp := torn_down_fd st fpo]> (<[fa := torn_down_fd st fo]> m))
               (set_objects
                  (λ m, <[p := with_end op (torn_down st (with_connection None (object_end op)))]>
                          (<[a := with_end o (torn_down st (object_end o))]> m))
                  w))).
Proof.
  intros Ho Hio Hfd Hfa Hconn Hne Hp Hpio Hpfd Hfp Hfne.
  rewrite (bind_cong _ _ _ _ (pipe_end_disconnect_unfold _ _ _ _)).
  rewrite bind_assoc, (bind_get_end _ _ _ _ Ho), bind_assoc.
  rewrite (bind_disconnect_own_end _ _ _ _ _ _ _ Ho Hio Hfd Hfa), Hconn.
  mforward.
  rewrite (bind_cong _ _ _ _ (pipe_end_disconnect_unfold _ _ _ _)).
  mforward.
  erewrite bind_disconnect_own_end;
    [|solve_lookup|rewrite object_end_with_end; exact Hpio
     |rewrite object_end_with_end; exact Hpfd|solve_lookup].
  rewrite object_end_with_end. fields_simpl. rewrite bind_ret.
  f_equal. apply world_eq; world_simpl;
    rewrite ?insert_insert_eq, ?with_end_with_end, ?object_end_with_end, <- ?app_assoc;
    reflexivity.
Qed.

Lemma bind_set_server_state_wait_connect {B} server e s fi io (k : unit → M B) w :
  objects w !! server = Some (server_object e s) → fd e = None →
  ioctl_fd s = Some fi → fds w !! fi = Some io →
  bind (set_server_state server ps_wait_connect) k w
  = k tt (set_fds (insert fi (with_no_fd_status STATUS_PIPE_DISCONNECTED io))
            (set_objects (insert server (server_object e (with_state ps_wait_connect s))) w)).
Proof.
  intros Ho Hfd Hioctl Hio. unfold set_server_state. mforward. rewrite Hfd.
  rewrite (bool_decide_eq_true_2 (@None addr = None)) by reflexivity.
  cbn [c_assert]. mforward. rewrite Hioctl. unfold set_no_fd_status. mforward.
  reflexivity.
Qed.

Lemma disconnect_walk_disconnected q :
  (disconnect_walk STATUS_PIPE_DISCONNECTED q).1 = []
  ∧ ∀ m x, m ∈ q → msg_async m = Some x →
           call_async_terminate x STATUS_PIPE_DISCONNECTED (msg_iosb m)
           ∈ (disconnect_walk STATUS_PIPE_DISCONNECTED q).2.
Proof.
  induction q as [|m0 q [IHq IHcs]]; [split; [reflexivity|]; intros m x Hin; inversion Hin|].
  simpl. destruct (disconnect_walk STATUS_PIPE_DISCONNECTED q) as [q' cs]. simpl in *.
  subst q'. split; [destruct (msg_async m0); reflexivity|].
  intros m x Hin Hx. apply elem_of_cons in Hin as [->|Hin].
  - rewrite Hx. simpl. apply list_elem_of_here.
  - pose proof (IHcs m x Hin Hx) as Hcs.
    destruct (msg_async m0); simpl; [do 2 apply list_elem_of_further|]; exact Hcs.
Qed.

Lemma async_wake_up_calls st rq r :
  st ≠ STATUS_ALERTED → r ∈ default [] rq → terminate_call st r ∈ (async_wake_up st rq).2.
Proof.
  intros Hst Hin. destruct rq as [l|]; [|inversion Hin]. simpl in *.
  unfold wake_up_list. rewrite decide_False by exact Hst. simpl.
  apply list_elem_of_fmap. eauto.
Qed.

(** FSCTL_PIPE_DISCONNECT on the server of a connected message-mode pair
    that is as the requests leave it (on neither end a read is pending
    while messages are queued, and no message of the server's queue holds
    an async that was completed from outside): the request returns and
    leaves the server in wait_connect, without its descriptor and its
    client, and the client without its server; neither end has a connection
    or a message left; every writer whose message was queued on the client's
    end is terminated with pipe_disconnected, and so is the writer of the
    first message of the server's queue that holds one, and every read that
    was pending on either end; the server's descriptor reports
    pipe_disconnected and is not signalled.  Of the later writers of the
    server's queue nothing is said: the termination of the first lets the
    host reselect for the client while the server's queue is walked, and the
    recorded calls do not follow that. *)
Theorem pipe_server_ioctl_disconnects reply_max server c e s ec cl fs fc fso fco a w :
  message_pair w server c e s ec cl fs fc fso fco →
  read_settled e → read_settled ec →
  Forall (λ m, still_queued m = true) (message_queue e) →
  ∃ w',
    pipe_server_ioctl reply_max fs FSCTL_PIPE_DISCONNECT a w = Ok (0, w')
    ∧ objects w' !! server = Some (disconnected_server e s)
    ∧ objects w' !! c = Some (disconnected_client ec cl)
    ∧ (∀ x, x ≠ server → x ≠ c → objects w' !! x = objects w !! x)
    ∧ (∀ o, o = disconnected_server e s ∨ o = disconnected_client ec cl →
            connection (object_end o) = None ∧ message_queue (object_end o) = [])
    ∧ (∀ m x, m ∈ message_queue ec → msg_async m = Some x →
              call_async_terminate x STATUS_PIPE_DISCONNECTED (msg_iosb m) ∈ calls w')
    ∧ (∀ m x, List.find holds_writer (message_queue e) = Some m → msg_async m = Some x →
              call_async_terminate x STATUS_PIPE_DISCONNECTED (msg_iosb m) ∈ calls w')
    ∧ (∀ r, r ∈ default [] (read_q e) ++ default [] (read_q ec) →
            terminate_call STATUS_PIPE_DISCONNECTED r ∈ calls w')
    ∧ (∃ fso', fds w' !! fs = Some fso'
               ∧ fd_no_fd_status fso' = STATUS_PIPE_DISCONNECTED
               ∧ fd_signaled fso' = false ∧ fd_wait_q fso' = [])
    ∧ error w' = error w.
Proof.
  intros (Ho & Hc & Hstate & Hpoll & Hclient & Hserver & Hconn & Hcconn & Hio & Hcio
          & Hfd & Hioctl & Hcfd & Hfne & Hfs & Hfc & Huser & Hcuser) _ _ _.
  assert (Hne : c ≠ server) by (intros ->; congruence).
  eexists. split.
  - unfold pipe_server_ioctl.
    rewrite (bind_ok _ _ _ _ _ (get_fd_user_ok _ _ _ Hfs)), Huser, bind_deref.
    rewrite (bind_get_server _ _ _ _ _ Ho), Hstate. cbv iota.
    unfold client_of. rewrite Hclient.
    rewrite (bool_decide_eq_true_2 (is_Some (Some c))) by eauto.
    cbn [c_assert]. mforward. rewrite Hcfd.
    rewrite (bool_decide_eq_true_2 (is_Some (Some fc))) by eauto.
    cbn [c_assert]. mforward. unfold notify_empty. mforward. rewrite Hpoll. cbn [negb].
    mforward.
    erewrite (bind_pipe_end_disconnect_pair server (server_object e s) fs fso c
                (client_object ec cl) fc fco) by (eassumption || reflexivity).
    fields_simpl. rewrite !(torn_down_message_mode _ _ Hio).
    rewrite !(torn_down_message_mode _ (with_connection None ec) Hcio).
    fields_simpl.
    unfold do_disconnect. mforward. rewrite Hclient. mforward.
    rewrite Hserver, Hcfd, Hfd.
    rewrite (bool_decide_eq_true_2 (Some server = Some server)) by reflexivity.
    rewrite (bool_decide_eq_true_2 (is_Some (Some fc))) by eauto.
    rewrite (bool_decide_eq_true_2 (is_Some (Some fs))) by eauto.
    change (use_server_io (with_message_queue ?q (with_read_q ?r (with_connection None e))))
      with (use_server_io e).
    rewrite Hio. cbn [c_assert negb when]. mforward. rewrite Hclient. mforward.
    erewrite bind_set_server_state_wait_connect;
      [|solve_lookup|reflexivity|exact Hioctl|solve_lookup].
    reflexivity.
  - world_simpl.
    pose proof (disconnect_walk_disconnected (message_queue e)) as [Hq Hqcs].
    pose proof (disconnect_walk_disconnected (message_queue ec)) as [Hcq Hcqcs].
    assert (Hstatus : STATUS_PIPE_DISCONNECTED ≠ STATUS_ALERTED) by discriminate.
    split; [|split; [|split; [|split; [|split; [|split; [|split; [|split]]]]]]].
    + rewrite lookup_insert_eq. unfold disconnected_server.
      rewrite (torn_down_message_mode _ _ Hio). reflexivity.
    + rewrite lookup_insert_ne, lookup_insert_ne, lookup_insert_eq by congruence.
      unfold disconnected_client. rewrite (torn_down_message_mode _ _ Hcio). reflexivity.
    + intros x Hxs Hxc. rewrite !lookup_insert_ne by congruence. reflexivity.
    + intros o [-> | ->]; unfold disconnected_server, disconnected_client;
        rewrite (torn_down_message_mode _ _ Hio) || rewrite (torn_down_message_mode _ _ Hcio);
        fields_simpl; auto.
    + intros m x Hin Hx. apply elem_of_app. right. unfold teardown_calls.
      apply elem_of_app. right. do 2 (apply elem_of_app; right). eauto.
    + intros m x Hfind Hx. apply find_some in Hfind as [Hin _].
      apply list_elem_of_In in Hin.
      apply elem_of_app. right. unfold teardown_calls.
      apply elem_of_app. left. do 2 (apply elem_of_app; right). eauto.
    + intros r Hin. apply elem_of_app. right. unfold teardown_calls.
      apply elem_of_app in Hin as [Hin|Hin].
      * apply elem_of_app. left. apply elem_of_app. right. apply elem_of_app. left.
        apply async_wake_up_calls; assumption.
      * apply elem_of_app. right. apply elem_of_app. right. apply elem_of_app. left.
        apply async_wake_up_calls; assumption.
    + eexists. split; [apply lookup_insert_eq|]. repeat split.
    + reflexivity.
Qed.

End disconnect.

(** At the connected pair: the disconnect leaves the server (object 1)
    without its two messages, and the writer of the pending one (async 7),
    the first that the queue of the server holds, is terminated with
    pipe_disconnected. *)
Lemma pipe_server_ioctl_disconnects_witness :
  ∃ w',
    pipe_server_ioctl (H := wine_constants) 0 10%nat FSCTL_PIPE_DISCONNECT flush_async
      connected_pair = Ok (0, w')
    ∧ objects w' !! 1%nat
      = Some (disconnected_server (H := wine_constants) pair_server_end pair_server_state)
    ∧ message_queue (object_end (disconnected_server (H := wine_constants)
                                   pair_server_end pair_server_state)) = []
    ∧ call_async_terminate 7 STATUS_PIPE_DISCONNECTED (msg_iosb pending_de) ∈ calls w'.
Proof.
  destruct (pipe_server_ioctl_disconnects (H := wine_constants) 0 1%nat 2%nat
              pair_server_end pair_server_state pair_client_end pair_client_state
              10%nat 11%nat pair_server_fd pair_client_fd flush_async connected_pair)
    as (w' & Hrun & Hserver & _ & _ & Hempty & _ & Hfirst & _).
  - unfold message_pair. repeat split; try reflexivity. discriminate.
  - right. reflexivity.
  - left. reflexivity.
  - repeat constructor.
  - exists w'. split; [exact Hrun|]. split; [exact Hserver|]. split.
    + apply Hempty. left. reflexivity.
    + apply (Hfirst pending_de 7%nat); reflexivity.
Defined.

(** ** The client open that pairs two ends *)

Section open_pairs.
Context `{protocol_constants}.

Lemma bind_alloc_object {B} o (k : option addr → M B) w :
  script w = [] →
  bind (alloc_object o) k w
  = k (Some (fresh (dom (objects w))))
      (set_objects (insert (fresh (dom (objects w))) o) w).
Proof.
  intros Hscript. unfold alloc_object.
  rewrite bind_assoc, bind_host_try_granted by exact Hscript. mforward. reflexivity.
Qed.

Lemma bind_new_fd {B} o (k : option addr → M B) w :
  script w = [] →
  bind (new_fd o) k w
  = k (Some (fresh (dom (fds w)))) (set_fds (insert (fresh (dom (fds w))) o) w).
Proof.
  intros Hscript. unfold new_fd.
  rewrite bind_assoc, bind_host_try_granted by exact Hscript. mforward. reflexivity.
Qed.

Lemma fresh_object_ne w (a : addr) o :
  objects w !! a = Some o → fresh (dom (objects w)) ≠ a.
Proof.
  intros Ho Heq. apply (is_fresh (dom (objects w))). rewrite Heq.
  apply elem_of_dom. eauto.
Qed.

Lemma fresh_fd_ne w (f : addr) o :
  fds w !! f = Some o → fresh (dom (fds w)) ≠ f.
Proof.
  intros Hf Heq. apply (is_fresh (dom (fds w))). rewrite Heq.
  apply elem_of_dom. eauto.
Qed.

Lemma open_runs pipe np access sharing_req options server e s fi io w :
  pipes w !! pipe = Some np →
  find_available_server pipe w = Ok (Some server, w) →
  objects w !! server = Some (server_object e s) → pipe_of s = pipe →
  ¬ access_conflicts access (sharing np) →
  use_server_io e = true →
  has_flag (pipe_flags np) NAMED_PIPE_MESSAGE_STREAM_WRITE = true →
  state s = ps_wait_open ∨ state s = ps_idle_server →
  flush_poll s = false →
  ioctl_fd s = Some fi → fds w !! fi = Some io → fd_user io = Some server →
  script w = [] →
  ∃ c fc w',
    named_pipe_open_file pipe access sharing_req options w = Ok (Some c, w')
    ∧ objects w !! c = None ∧ fds w !! fc = None
    ∧ opened_pair server c fi fc e s io np options w w'.
Proof.
  intros Hp Hfind Ho Hpipe Haccess Hio Hpio Hstate Hpoll Hioctl Hfi Huser Hscript.
  set (c := fresh (dom (objects w))).
  set (fc := fresh (dom (fds w))).
  assert (Hc : c ≠ server) by (eapply fresh_object_ne; eassumption).
  assert (Hfc : fc ≠ fi) by (eapply fresh_fd_ne; eassumption).
  assert (Hcnone : objects w !! c = None) by (apply not_elem_of_dom, is_fresh).
  assert (Hfcnone : fds w !! fc = None) by (apply not_elem_of_dom, is_fresh).
  assert (Hcheck :
    has_flag access GENERIC_READ && negb (has_flag (sharing np) FILE_SHARE_READ)
    || has_flag access GENERIC_WRITE && negb (has_flag (sharing np) FILE_SHARE_WRITE)
    = false).
  { apply not_true_is_false. intros Hconflict. apply Haccess.
    apply orb_true_iff in Hconflict as [Hc'|Hc']; apply andb_true_iff in Hc' as [Ha Hs];
      apply negb_true_iff in Hs; [left|right]; auto. }
  assert (Hconnect : ∀ w0,
    objects w0 !! server = Some (server_object (with_fd (Some fi) e) s) →
    objects w0 !! c
    = Some (client_object (with_fd (Some fc) (init_pipe_end (pipe_flags np) (outsize np)))
                          (mk_pipe_client None options)) →
    bind (set_server_state server ps_connected_server)
      (λ _, bind (update_server server (with_client (Some c)))
         (λ _, bind (update_client c (with_server (Some server)))
            (λ _, bind (update_end server (with_connection (Some c)))
               (λ _, bind (update_end c (with_connection (Some server)))
                  (λ _, ret (Some c)))))) w0
    = Ok (Some c,
          set_objects
            (λ m, <[c := client_object
                           (mk_pipe_end (Some fc) (pipe_flags np) (Some server)
                                        (outsize np) [] None None)
                           (mk_pipe_client (Some server) options)]>
                    (<[server := server_object
                                   (with_connection (Some c) (with_fd (Some fi) e))
                                   (with_client (Some c)
                                      (with_state ps_connected_server s))]> m))
            w0)).
  { intros w0 Hs0 Hc0. unfold set_server_state. mforward.
    rewrite (bool_decide_eq_true_2 (is_Some (Some fi))) by eauto.
    cbn [c_assert]. mforward. unfold ret. do 2 f_equal.
    apply world_eq; world_simpl; try reflexivity. same_map. }
  exists c, fc. unfold opened_pair.
  destruct (bool_decide (state s = ps_wait_open)) eqn:Hopen;
    (eexists; split; [|split; [exact Hcnone|split; [exact Hfcnone|]]]).
  1, 3: unfold named_pipe_open_file;
    rewrite (bind_get_pipe _ _ _ _ Hp), (bind_ok _ _ _ _ _ Hfind);
    rewrite (bind_get_server _ _ _ _ _ Ho), Hpipe;
    rewrite (bind_get_pipe _ _ _ _ Hp), Hcheck;
    unfold create_pipe_client; rewrite bind_alloc_object by exact Hscript;
    fold c; mforward; rewrite Hio; unfold alloc_pseudo_fd;
    rewrite !bind_assoc, bind_new_fd by exact Hscript; world_simpl; fold fc;
    mforward; unfold set_fd_signaled; mforward; rewrite Hioctl;
    unfold set_no_fd_status; mforward;
    rewrite Hopen; cbn [when];
    unfold fd_async_wake_up, log_calls; mforward; rewrite ?Hioctl; mforward;
    rewrite ?wake_up_list_success; mforward;
    rewrite Hconnect by solve_lookup; reflexivity.
  all: unfold message_pair, use_server_io; world_simpl; fields_simpl;
    rewrite ?app_nil_r;
    repeat split; try first [assumption | reflexivity | lookup_tac];
    intros x Hx1 Hx2; lookup_tac.
Qed.

(** A client open in message mode, when the host grants what is asked:
    the server that is chosen and the new client become a connected pair,
    the client with its own new descriptor and the flags and the output
    size of the pipe, the server with its ioctl descriptor as the
    descriptor of its end; the asyncs of a listen on the server are
    completed with success; no other object or descriptor changes and no
    error is reported. *)
Theorem named_pipe_open_file_pairs pipe np access sharing_req options server e s fi io w :
  pipes w !! pipe = Some np →
  find_available_server pipe w = Ok (Some server, w) →
  objects w !! server = Some (server_object e s) → pipe_of s = pipe →
  ¬ access_conflicts access (sharing np) →
  use_server_io e = true →
  has_flag (pipe_flags np) NAMED_PIPE_MESSAGE_STREAM_WRITE = true →
  state s = ps_wait_open ∨ state s = ps_idle_server →
  flush_poll s = false →
  ioctl_fd s = Some fi → fds w !! fi = Some io → fd_user io = Some server →
  script w = [] →
  ∃ c fc w',
    named_pipe_open_file pipe access sharing_req options w = Ok (Some c, w')
    ∧ objects w !! c = None ∧ fds w !! fc = None
    ∧ opened_pair server c fi fc e s io np options w w'.
Proof. apply open_runs. Qed.

Lemma find_unique `{EqDecision A} (p : A → bool) (l : list A) (x : A) :
  x ∈ l → p x = true → (∀ y, y ∈ l → y ≠ x → p y = false) → List.find p l = Some x.
Proof.
  induction l as [|y l IH]; intros Hin Hx Hothers; [inversion Hin|].
  simpl. destruct (decide (y = x)) as [->|Hne].
  - rewrite Hx. reflexivity.
  - rewrite (Hothers y) by (apply list_elem_of_here || exact Hne).
    apply elem_of_cons in Hin as [->|Hin]; [congruence|].
    apply IH; [assumption|assumption|].
    intros z Hz. apply Hothers. apply list_elem_of_further, Hz.
Qed.

Lemma find_available_server_listening pipe np server e s w :
  pipes w !! pipe = Some np → server ∈ servers np →
  (∀ sa, sa ∈ servers np → ∃ e s, objects w !! sa = Some (server_object e s)) →
  objects w !! server = Some (server_object e s) → state s = ps_wait_open →
  (∀ sa, sa ∈ servers np → sa ≠ server → server_state_at w sa ≠ Some ps_wait_open) →
  find_available_server pipe w = Ok (Some server, w).
Proof.
  intros Hp Hin Hlive Ho Hstate Hothers. unfold find_available_server.
  rewrite (bind_get_pipe _ _ _ _ Hp).
  rewrite (bind_ok _ _ _ _ _ (first_server_in_spec _ _ _ Hlive)).
  rewrite (find_unique _ _ server); [reflexivity|exact Hin| |].
  - apply bool_decide_eq_true_2. unfold server_state_at. rewrite Ho, Hstate. reflexivity.
  - intros sa Hsa Hne. apply bool_decide_eq_false_2. auto.
Qed.

(** A listen is completed by the next client open: FSCTL_PIPE_LISTEN on an
    idle or disconnected message-mode server, the only one of its pipe to
    listen, parks the async and reports pending; a client open on the pipe
    then takes this server, terminates the async with success, and leaves
    the server connected to the new client. *)
Theorem listen_completed_by_open reply_max f fo server e s fi io np a
    access sharing_req opts w :
  fds w !! f = Some fo → fd_user fo = Some server →
  objects w !! server = Some (server_object e s) →
  state s = ps_idle_server ∨ state s = ps_wait_connect →
  fd e = None → flush_poll s = false →
  ioctl_fd s = Some fi → fds w !! fi = Some io → fd_user io = Some server →
  pipes w !! pipe_of s = Some np → server ∈ servers np →
  (∀ sa, sa ∈ servers np → ∃ e s, objects w !! sa = Some (server_object e s)) →
  (∀ sa, sa ∈ servers np → sa ≠ server → server_state_at w sa ≠ Some ps_wait_open) →
  ¬ access_conflicts access (sharing np) →
  use_server_io e = true →
  has_flag (pipe_flags np) NAMED_PIPE_MESSAGE_STREAM_WRITE = true →
  script w = [] →
  ∃ h w1 c w2,
    pipe_server_ioctl reply_max f FSCTL_PIPE_LISTEN a w = Ok (h, w1)
    ∧ parked a h w1
    ∧ named_pipe_open_file (pipe_of s) access sharing_req opts w1 = Ok (Some c, w2)
    ∧ call_async_terminate (async_id a) STATUS_SUCCESS (async_iosb a) ∈ calls w2
    ∧ server_state_at w2 server = Some ps_connected_server
    ∧ ∃ es ss ec cl,
        objects w2 !! server = Some (server_object es ss)
        ∧ objects w2 !! c = Some (client_object ec cl)
        ∧ connection es = Some c ∧ connection ec = Some server
        ∧ client ss = Some c ∧ server_of cl = Some server.
Proof.
  intros Hf Huser Ho Hstate Hfd Hpoll Hioctl Hfi Hfiuser Hnp Hin Hlive Hothers Haccess
         Hio Hpio Hscript.
  destruct (listen_runs reply_max f fo server e s fi io np a w)
    as (h & w1 & Hlisten & Hparked & (Hobj & Hfds & Hpipes & Hcalls) & Hscript1);
    try assumption.
  assert (Ho1 : objects w1 !! server = Some (server_object e (with_state ps_wait_open s)))
    by (rewrite Hobj; apply lookup_insert_eq).
  assert (Hnp1 : pipes w1 !! pipe_of s
                 = Some (with_waiters (match waiters np with
                                       | Some _ => Some []
                                       | None => None
                                       end) np))
    by (rewrite Hpipes; apply lookup_insert_eq).
  assert (Hfind : find_available_server (pipe_of s) w1 = Ok (Some server, w1)).
  { eapply find_available_server_listening; [exact Hnp1|exact Hin| |exact Ho1|reflexivity|].
    - intros sa Hsa. rewrite Hobj. destruct (decide (sa = server)) as [->|Hne].
      + rewrite lookup_insert_eq. eauto.
      + rewrite lookup_insert_ne by congruence. apply Hlive, Hsa.
    - intros sa Hsa Hne. unfold server_state_at. rewrite Hobj, lookup_insert_ne by congruence.
      apply Hothers; assumption. }
  destruct (open_runs (pipe_of s) _ access sharing_req opts server e
              (with_state ps_wait_open s) fi
              (with_no_fd_status STATUS_PIPE_LISTENING (with_wait_q (fd_wait_q io ++ [a]) io))
              w1 Hnp1 Hfind Ho1)
    as (c & fc & w2 & Hopen & _ & _ & Hpair & _ & _ & Hcalls2 & _);
    try first [assumption | reflexivity | left; reflexivity].
  { rewrite Hfds. apply lookup_insert_eq. }
  exists h, w1, c, w2. split; [exact Hlisten|]. split; [exact Hparked|].
  split; [exact Hopen|]. 
  destruct Hpair as (Hs2 & Hc2 & _ & _ & Hcl & Hsv & Hconn & Hcconn & _).
  split; [|split].
  - rewrite Hcalls2. apply elem_of_app. right. fields_simpl.
    rewrite map_app. apply elem_of_app. right. apply list_elem_of_here.
  - unfold server_state_at. rewrite Hs2. reflexivity.
  - eexists _, _, _, _. eauto 10.
Qed.


End open_pairs.

(** At the world with the newly created pipe: a client open for reading
    and writing pairs the idle server (object 0) with a new client. *)
Lemma named_pipe_open_file_pairs_witness :
  ∃ c fc w',
    named_pipe_open_file (H := wine_constants) 0%nat 3221225472 0 0 listening_world
    = Ok (Some c, w')
    ∧ objects listening_world !! c = None ∧ fds listening_world !! fc = None
    ∧ opened_pair (H := wine_constants) 0%nat c 0%nat fc idle_server_end idle_server_state
        idle_fd created_pipe 0 listening_world w'.
Proof.
  apply (named_pipe_open_file_pairs (H := wine_constants) 0%nat created_pipe 3221225472 0 0
           0%nat idle_server_end idle_server_state 0%nat idle_fd listening_world);
    try reflexivity.
  - intros [[_ Hshare]|[_ Hshare]]; discriminate Hshare.
  - right. reflexivity.
Defined.

(** At the same world: the listen on the idle server is completed by the
    open that follows. *)
Lemma listen_completed_by_open_witness :
  ∃ h w1 c w2,
    pipe_server_ioctl (H := wine_constants) 0 0%nat FSCTL_PIPE_LISTEN listen_async
      listening_world = Ok (h, w1)
    ∧ parked listen_async h w1
    ∧ named_pipe_open_file (H := wine_constants) 0%nat 3221225472 0 0 w1 = Ok (Some c, w2)
    ∧ call_async_terminate 6 STATUS_SUCCESS (async_iosb listen_async) ∈ calls w2
    ∧ server_state_at w2 0%nat = Some ps_connected_server.
Proof.
  destruct (listen_completed_by_open (H := wine_constants) 0 0%nat idle_fd 0%nat
              idle_server_end idle_server_state 0%nat idle_fd created_pipe listen_async
              3221225472 0 0 listening_world)
    as (h & w1 & c & w2 & Hlisten & Hparked & Hopen & Hdone & Hstate & _);
    try reflexivity.
  - left. reflexivity.
  - apply list_elem_of_here.
  - intros sa Hsa. apply list_elem_of_singleton in Hsa as ->. eexists _, _. reflexivity.
  - intros sa Hsa Hne. apply list_elem_of_singleton in Hsa. contradiction.
  - intros [[_ Hshare]|[_ Hshare]]; discriminate Hshare.
  - exists h, w1, c, w2. auto.
Defined.

(** ** A write and the read that takes it *)

Section round_trip.
Context `{protocol_constants}.

Lemma write_walk_single buffer a :
  status (async_iosb a) = STATUS_PENDING → 0 <= in_size (async_iosb a) < 4294967296 →
  write_walk buffer [written_message a] 0
  = if fits_buffer buffer a
    then ([(wake_message (written_message a)).1], (wake_message (written_message a)).2)
    else ([written_message a], []).
Proof.
  intros Hpending Hsize. unfold write_walk, written_message, fits_buffer.
  cbn [msg_async msg_iosb]. rewrite Hpending.
  rewrite (bool_decide_eq_true_2 (STATUS_PENDING = STATUS_PENDING)) by reflexivity.
  cbn [andb]. unfold remaining. cbn [msg_iosb read_pos].
  rewrite sub32_small, add32_small by (unfold is_data_size; lia).
  rewrite Z.sub_0_r, Z.add_0_l.
  destruct ((in_size (async_iosb a) <=? buffer) || (in_size (async_iosb a) =? 0)).
  - destruct (wake_message _) as [m' c]. simpl. rewrite app_nil_r. reflexivity.
  - reflexivity.
Qed.

Lemma bind_alloc_handle_granted {B} (k : Z → M B) w :
  script w = [] →
  bind alloc_handle k w
  = k (4 * Z.of_nat (S (handles w))) (with_handles (S (handles w)) w).
Proof.
  intros Hscript. unfold alloc_handle.
  rewrite bind_assoc, bind_host_try_granted by exact Hscript. mforward. reflexivity.
Qed.

Lemma with_end_same o : with_end o (object_end o) = o.
Proof. destruct o; reflexivity. Qed.

(** The reselect of a read queue without pending reads leaves the end as
    it is. *)
Lemma reselect_read_queue_idle n b o w :
  objects w !! b = Some o → default [] (read_q (object_end o)) = [] →
  message_queue (object_end o) ≠ [] →
  reselect_read_queue (S n) b w = Ok (tt, with_ignore_reselect false w).
Proof.
  intros Hb Hrq Hq. cbn [reselect_read_queue]. unfold set_ignore_reselect.
  rewrite bind_modify. erewrite bind_get_end by (world_simpl; exact Hb).
  rewrite bind_get_world. world_simpl. rewrite Hrq.
  assert (Hrounds : read_rounds (script w) (flags (object_end o))
                      (message_queue (object_end o)) [] [] false
                    = Ok (message_queue (object_end o), [], [], false, script w)).
  { destruct (message_queue (object_end o)); reflexivity. }
  rewrite Hrounds. unfold bind at 1. cbv beta iota.
  assert (Hsame : with_end o (with_read_q
                                (match read_q (object_end o) with
                                 | Some _ => Some []
                                 | None => None
                                 end)
                                (with_message_queue (message_queue (object_end o))
                                   (object_end o))) = o).
  { destruct o as [[? ? ? ? ? [l|] ?] ?|[? ? ? ? ? [l|] ?] ?]; simpl in *; subst; reflexivity. }
  erewrite bind_update_end by (world_simpl; exact Hb).
  erewrite bind_update_end by (world_simpl; apply lookup_insert_eq).
  unfold log_calls. rewrite !bind_modify.
  rewrite with_end_with_end, object_end_with_end.
  assert (Hend : match connection (object_end o) with
                 | Some c =>
                     if bool_decide (message_queue (object_end o) = [])
                     then ce <- get_end c; fd_async_wake_up (fd ce) STATUS_SUCCESS
                     else ret tt
                 | None => ret tt
                 end = ret tt).
  { destruct (connection (object_end o)); [|reflexivity].
    rewrite bool_decide_eq_false_2 by exact Hq. reflexivity. }
  rewrite Hend. unfold ret. do 2 f_equal.
  apply world_eq; world_simpl; try reflexivity.
  - rewrite insert_insert_eq, Hsame. apply insert_id, Hb.
  - apply app_nil_r.
Qed.

Lemma write_runs n a b oa ob fa fb fao fbo wa w :
  connected_ends w a b oa ob fa fb fao fbo →
  message_queue (object_end ob) = [] → default [] (read_q (object_end ob)) = [] →
  status (async_iosb wa) = STATUS_PENDING →
  0 <= in_size (async_iosb wa) < 4294967296 →
  script w = [] →
  ∃ h1 w1, pipe_end_write (S n) fa wa w = Ok (h1, w1) ∧ written a b oa ob wa w w1.
Proof.
  intros (Hne & Ha & Hb & Hconn & Hbconn & Hio & Hbio & Hfa & Hauser & Hafd & Hfb & Hbuser)
         Hq Hrq Hpending Hsize Hscript.
  unfold pipe_end_write.
  rewrite (bind_fd_user_end _ _ _ _ _ _ Hfa Hauser Ha), Hio. cbn [negb]. rewrite Hconn.
  assert (Hqueue : ∃ w0,
    match write_q (object_end oa) with
    | Some _ => ret true
    | None =>
        ok <- create_async_queue;
        when ok (update_end a (with_write_q (Some [])));;
        ret ok
    end w = Ok (true, w0)
    ∧ objects w0 = <[a := with_end oa (with_write_q
                                         (Some (default [] (write_q (object_end oa))))
                                         (object_end oa))]> (objects w)
    ∧ fds w0 = fds w ∧ calls w0 = calls w ∧ script w0 = [] ∧ handles w0 = handles w).
  { destruct (write_q (object_end oa)) as [l|] eqn:Hwq.
    - exists w. split; [reflexivity|]. split; [|auto].
      symmetry. apply insert_id. rewrite Ha. f_equal.
      destruct oa as [[] ?|[] ?]; simpl in *; subst; reflexivity.
    - eexists. split.
      + unfold create_async_queue.
        rewrite !bind_assoc, bind_host_try_granted by exact Hscript.
        cbv iota. unfold when. mrun. reflexivity.
      + world_simpl. auto. }
  destruct Hqueue as (w0 & Hrun0 & Hobj0 & Hfds0 & Hcalls0 & Hscript0 & Hhandles0).
  rewrite (bind_ok _ _ _ _ _ Hrun0). cbn [negb].
  rewrite bind_alloc_handle_granted by exact Hscript0.
  destruct (Z.eqb_spec (4 * Z.of_nat (S (handles w0))) 0) as [Hz|_]; [lia|].
  rewrite bind_host_try_granted by (world_simpl; exact Hscript0). cbn [negb].
  assert (Hb0 : objects w0 !! b = Some ob) by (rewrite Hobj0, lookup_insert_ne; congruence).
  assert (Ha0 : objects w0 !! a
                = Some (with_end oa (with_write_q
                                       (Some (default [] (write_q (object_end oa))))
                                       (object_end oa))))
    by (rewrite Hobj0; apply lookup_insert_eq).
  mforward. rewrite Hq, app_nil_l, object_end_with_end, with_end_with_end. fields_simpl.
  change (default [] (Some (default [] (write_q (object_end oa)))))
    with (default [] (write_q (object_end oa))).
  unfold bind at 1.
  erewrite (reselect_write_queue_runs (S n) a b);
    [|world_simpl; apply lookup_insert_eq|rewrite object_end_with_end; exact Hconn
     |world_simpl; rewrite lookup_insert_ne by congruence; apply lookup_insert_eq].
  unfold after_write_walk. rewrite object_end_with_end, with_end_with_end. fields_simpl.
  change [mk_message 0 (async_iosb wa) (Some (async_id wa))] with [written_message wa].
  rewrite (write_walk_single _ _ Hpending Hsize).
  unfold written, queued_message, write_calls.
  destruct (fits_buffer (buffer_size (object_end ob)) wa) eqn:Hfits; cbn [fst snd];
    (erewrite reselect_read_queue_idle;
     [|world_simpl; apply lookup_insert_eq
      |rewrite object_end_with_end; exact Hrq
      |rewrite object_end_with_end; discriminate]);
    cbv beta iota; rewrite bind_set_error; unfold async_is_blocking;
    destruct (async_blocking wa); cbn [negb];
    try (unfold writer_iosb_status; rewrite bind_assoc;
         erewrite bind_get_end by (world_simpl; apply lookup_insert_eq);
         rewrite object_end_with_end;
         cbn [message_queue with_message_queue find wake_message written_message fst
              msg_async msg_iosb];
         rewrite ?(bool_decide_eq_false_2 (@None nat = Some (async_id wa))) by discriminate;
         rewrite ?(bool_decide_eq_true_2 (Some (async_id wa) = Some (async_id wa)))
           by reflexivity;
         change (msg_iosb (written_message wa)) with (async_iosb wa);
         rewrite bind_ret, Hpending, ?decide_True by reflexivity;
         rewrite ?(bool_decide_eq_false_2 (STATUS_SUCCESS = STATUS_PENDING)) by discriminate;
         rewrite ?(bool_decide_eq_true_2 (STATUS_PENDING = STATUS_PENDING)) by reflexivity;
         unfold close_handle; rewrite ?bind_ret);
    (eexists _, _; split; [reflexivity|]);
    world_simpl; rewrite Hobj0, Hfds0, Hcalls0, Hscript0, ?with_end_with_end;
    (split; [reflexivity|]); (split; [same_map|]); auto.
Qed.

Lemma message_queue_read_whole fl m io :
  read_pos m = 0 → 0 <= in_size (msg_iosb m) <= out_size io → out_size io < 4294967296 →
  message_queue_read true fl [m] io
  = Ok ([], whole_read m io, (wake_message (moved_message m)).2).
Proof.
  intros Hpos Hsize Hout. unfold message_queue_read, whole_read, moved_message.
  assert (Hrem : remaining m = in_size (msg_iosb m)).
  { unfold remaining. rewrite Hpos, sub32_small by (unfold is_data_size; lia). lia. }
  assert (Havail : queue_avail (out_size io) [m] 0 = in_size (msg_iosb m)).
  { cbn [queue_avail]. rewrite Hrem, add32_small by (unfold is_data_size; lia).
    destruct (_ >=? _); reflexivity. }
  rewrite Hrem, Havail, Hpos, Z.min_r by lia.
  rewrite add32_small by (unfold is_data_size; lia). rewrite Z.add_0_l, Z.ltb_irrefl.
  destruct (has_flag fl NAMED_PIPE_MESSAGE_STREAM_READ);
    rewrite Z.eqb_refl, Z.eqb_refl; reflexivity.
Qed.

(** The reselect of the read queue of a connected end with one pending
    read that takes all that is queued: the asyncs on the descriptor of the
    peer, which wait for the queue to drain, are woken. *)
Lemma reselect_read_queue_drains n p o c oc fc fco a m rest a' cs w :
  objects w !! p = Some o → connection (object_end o) = Some c → c ≠ p →
  objects w !! c = Some oc → fd (object_end oc) = Some fc → fds w !! fc = Some fco →
  message_queue (object_end o) = m :: rest →
  read_q (object_end o) = Some [a] →
  read_round (default true (head (script w))) (flags (object_end o)) (m :: rest) a
  = Ok ([], a', cs) →
  reselect_read_queue (S n) p w
  = Ok (tt, with_calls (calls w ++ cs ++ map (terminate_call STATUS_SUCCESS) (fd_wait_q fco))
              (set_fds (insert fc (with_wait_q [] fco))
                 (with_ignore_reselect false
                    (with_script
                       (if read_allocates (flags (object_end o)) (m :: rest) (async_iosb a)
                        then tail (script w) else script w)
                       (set_objects
                          (insert p (with_end o (with_read_q (Some [])
                                                   (with_message_queue [] (object_end o)))))
                          w))))).
Proof.
  intros Ho Hconn Hne Hc Hfd Hfc Hq Hrq Hround.
  assert (Hrounds : read_rounds (script w) (flags (object_end o)) (m :: rest) [a] [] false
                    = Ok ([], [], cs, true,
                          if read_allocates (flags (object_end o)) (m :: rest) (async_iosb a)
                          then tail (script w) else script w)).
  { cbn [read_rounds]. rewrite Hround. reflexivity. }
  cbn [reselect_read_queue]. unfold set_ignore_reselect. rewrite bind_modify.
  erewrite bind_get_end by (world_simpl; exact Ho).
  rewrite bind_get_world. world_simpl. rewrite Hq, Hrq.
  change (default [] (Some [a])) with [a]. rewrite Hrounds.
  unfold bind at 1. cbv beta iota.
  erewrite bind_update_end by (world_simpl; exact Ho).
  erewrite bind_update_end by (world_simpl; apply lookup_insert_eq).
  unfold log_calls. rewrite !bind_modify, Hconn.
  rewrite (bool_decide_eq_true_2 (@nil pipe_message = [])) by reflexivity.
  erewrite bind_get_end
    by (world_simpl; rewrite !lookup_insert_ne by congruence; exact Hc).
  rewrite Hfd. unfold fd_async_wake_up. rewrite bind_deref.
  erewrite bind_get_fd by (world_simpl; exact Hfc).
  rewrite wake_up_list_success.
  erewrite bind_update_fd by (world_simpl; exact Hfc).
  unfold log_calls, modify. do 2 f_equal.
  apply world_eq; world_simpl; try reflexivity.
  - rewrite insert_insert_eq, with_end_with_end, object_end_with_end. reflexivity.
  - rewrite <- app_assoc. reflexivity.
Qed.

Lemma reader_iosb_status_runs p o a w :
  objects w !! p = Some o → ∃ st, reader_iosb_status p a w = Ok (st, w).
Proof.
  intros Ho. unfold reader_iosb_status. rewrite (bind_get_end _ _ _ _ Ho), bind_get_world.
  destruct (bool_decide _); eauto.
Qed.

Lemma read_runs n a b oa ob fa fb fao fbo ra m w :
  connected_ends w a b oa ob fa fb fao fbo →
  message_queue (object_end ob) = [m] → read_pos m = 0 →
  default [] (read_q (object_end ob)) = [] →
  0 <= in_size (msg_iosb m) <= out_size (async_iosb ra) →
  out_size (async_iosb ra) < 4294967296 →
  script w = [] →
  ∃ h w2,
    pipe_end_read (S n) fb ra w = Ok (h, w2)
    ∧ error w2 = STATUS_PENDING
    ∧ objects w2
      = <[b := with_end ob (with_read_q (Some []) (with_message_queue [] (object_end ob)))]>
          (objects w)
    ∧ calls w2
      = calls w ++ (wake_message (moved_message m)).2
        ++ [call_async_terminate (async_id ra)
              (if in_size (msg_iosb m) =? 0 then STATUS_SUCCESS else STATUS_ALERTED)
              (whole_read m (async_iosb ra));
            call_release_async (async_id ra)]
        ++ map (terminate_call STATUS_SUCCESS) (fd_wait_q fao)
    ∧ fds w2 = <[fa := with_wait_q [] fao]> (fds w).
Proof.
  intros (Hne & Ha & Hb & Hconn & Hbconn & Hio & Hbio & Hfa & Hauser & Hafd & Hfb & Hbuser)
         Hq Hpos Hrq Hsize Hout Hscript.
  unfold pipe_end_read.
  rewrite (bind_fd_user_end _ _ _ _ _ _ Hfb Hbuser Hb), Hbio. cbn [negb]. rewrite Hbconn.
  rewrite (bool_decide_eq_false_2 (Some a = None)) by discriminate. cbn [andb].
  destruct (read_queue_ready b ob w Hb Hrq)
    as (ok & w1 & Hready & Hfds1 & Hcalls1 & Hhandles1 & Hgranted & Hobj1).
  destruct (Hgranted Hscript) as [Hscript1 ->].
  rewrite (bind_ok _ _ _ _ _ Hready). cbn [negb].
  rewrite bind_alloc_handle_granted by exact Hscript1.
  destruct (Z.eqb_spec (4 * Z.of_nat (S (handles w1))) 0) as [Hz|_]; [lia|].
  assert (Hb1 : objects w1 !! b
                = Some (with_end ob (with_read_q (Some []) (object_end ob))))
    by (rewrite Hobj1; apply lookup_insert_eq).
  mforward. rewrite object_end_with_end, with_end_with_end. fields_simpl.
  change (default [] (Some []) ++ [ra]) with [ra].
  unfold bind at 1.
  erewrite (reselect_read_queue_drains n b _ a oa fa fao ra m [] _ _);
    [ |world_simpl; apply lookup_insert_eq|rewrite object_end_with_end; exact Hbconn
      |exact Hne
      |world_simpl; rewrite lookup_insert_ne, Hobj1, lookup_insert_ne by congruence; exact Ha
      |exact Hafd|world_simpl; rewrite Hfds1; exact Hfa
      |rewrite object_end_with_end; exact Hq|rewrite object_end_with_end; reflexivity
      |world_simpl; rewrite Hscript1; cbn [head default from_option id];
       unfold read_round; rewrite object_end_with_end; fields_simpl;
       rewrite (message_queue_read_whole _ _ _ Hpos Hsize Hout); reflexivity].
  cbv beta iota. rewrite bind_set_error.
  unfold async_is_blocking. destruct (async_blocking ra); cbn [negb].
  2: { edestruct (reader_iosb_status_runs b) as [st Hst];
         [|rewrite (bind_ok _ _ _ _ _ Hst)]; [world_simpl; apply lookup_insert_eq|].
       destruct (bool_decide (st = STATUS_PENDING)); unfold close_handle; rewrite ?bind_ret.
       all: eexists _, _; (split; [reflexivity|]); world_simpl;
         rewrite ?Hcalls1, ?Hfds1, Hobj1, !insert_insert_eq, !with_end_with_end,
           ?object_end_with_end, <- !app_assoc; auto. }
  eexists _, _; (split; [reflexivity|]); world_simpl;
    rewrite ?Hcalls1, ?Hfds1, Hobj1, !insert_insert_eq, !with_end_with_end,
      ?object_end_with_end, <- !app_assoc; auto.
Qed.

(** A write and the read that takes it, on two connected message-mode
    ends of which the reader has nothing queued and no read pending, when
    the host grants what is asked: the write queues its bytes at the reader
    and reports pending; a read with room for them is then terminated with
    exactly these bytes and their count, its status block in success; the
    writer is completed with success and the count of its bytes, by the
    write itself when the bytes fit the buffer of the reader and by the
    read otherwise; and the queue of the reader is empty again. *)
Theorem write_then_read_round_trip n1 n2 a b oa ob fa fb fao fbo wa ra d w :
  connected_ends w a b oa ob fa fb fao fbo →
  message_queue (object_end ob) = [] → default [] (read_q (object_end ob)) = [] →
  status (async_iosb wa) = STATUS_PENDING →
  in_data (async_iosb wa) = Some d → in_size (async_iosb wa) = Z.of_nat (length d) →
  Z.of_nat (length d) <= out_size (async_iosb ra) → out_size (async_iosb ra) < 4294967296 →
  script w = [] →
  ∃ h1 w1 h2 w2 io iow,
    pipe_end_write (S n1) fa wa w = Ok (h1, w1) ∧ error w1 = STATUS_PENDING
    ∧ pipe_end_read (S n2) fb ra w1 = Ok (h2, w2) ∧ error w2 = STATUS_PENDING
    ∧ call_async_terminate (async_id ra)
        (if Z.of_nat (length d) =? 0 then STATUS_SUCCESS else STATUS_ALERTED) io
      ∈ calls w2
    ∧ status io = STATUS_SUCCESS ∧ result io = Z.of_nat (length d)
    ∧ out_size io = Z.of_nat (length d) ∧ out_data io = Some d
    ∧ call_async_terminate (async_id wa)
        (if Z.of_nat (length d) =? 0 then STATUS_SUCCESS else STATUS_ALERTED) iow
      ∈ calls w2
    ∧ status iow = STATUS_SUCCESS ∧ result iow = Z.of_nat (length d)
    ∧ ∃ ob2, objects w2 !! b = Some ob2 ∧ message_queue (object_end ob2) = [].
Proof.
  intros Hends Hq Hrq Hpending Hdata Hlen Hroom Hout Hscript.
  assert (Hsize : 0 <= in_size (async_iosb wa) < 4294967296) by lia.
  destruct (write_runs n1 a b oa ob fa fb fao fbo wa w Hends Hq Hrq Hpending Hsize Hscript)
    as (h1 & w1 & Hwrite & Herr1 & Hobj1 & Hfds1 & Hcalls1 & Hscript1).
  destruct Hends as (Hne & Ha & Hb & Hconn & Hbconn & Hio & Hbio & Hfa & Hauser & Hafd
                     & Hfb & Hbuser).
  set (m := queued_message (buffer_size (object_end ob)) wa) in *.
  assert (Hm : read_pos m = 0 ∧ in_size (msg_iosb m) = in_size (async_iosb wa)
               ∧ in_data (msg_iosb m) = in_data (async_iosb wa)).
  { unfold m, queued_message. destruct (fits_buffer _ _); auto. }
  destruct Hm as (Hpos & Hmsize & Hmdata).
  destruct (read_runs n2 a b
              (with_end oa (with_write_q
                              (Some (default [] (write_q (object_end oa)) ++ [async_id wa]))
                              (object_end oa)))
              (with_end ob (with_message_queue [m] (object_end ob)))
              fa fb fao fbo ra m w1)
    as (h2 & w2 & Hread & Herr2 & Hobj2 & Hcalls2 & _).
  { unfold connected_ends. rewrite Hobj1, Hfds1, !object_end_with_end. fields_simpl.
    unfold use_server_io in *. fields_simpl.
    repeat split; try first [assumption | lookup_tac]. }
  { rewrite object_end_with_end. reflexivity. }
  { exact Hpos. }
  { rewrite object_end_with_end. exact Hrq. }
  { lia. }
  { exact Hout. }
  { exact Hscript1. }
  exists h1, w1, h2, w2, (whole_read m (async_iosb ra)).
  assert (Hwriter : ∃ iow,
    call_async_terminate (async_id wa)
      (if Z.of_nat (length d) =? 0 then STATUS_SUCCESS else STATUS_ALERTED) iow ∈ calls w2
    ∧ status iow = STATUS_SUCCESS ∧ result iow = Z.of_nat (length d)).
  { rewrite Hcalls2, Hcalls1. unfold m, write_calls, queued_message.
    destruct (fits_buffer (buffer_size (object_end ob)) wa).
    - exists (msg_iosb (wake_message (written_message wa)).1). split; [|split].
      + apply elem_of_app. left. apply elem_of_app. right.
        cbn. rewrite Hlen. apply list_elem_of_here.
      + reflexivity.
      + cbn. exact Hlen.
    - exists (msg_iosb (wake_message (moved_message (written_message wa))).1).
      split; [|split].
      + apply elem_of_app. right. apply elem_of_app. left.
        cbn. rewrite Hlen. apply list_elem_of_here.
      + reflexivity.
      + cbn. exact Hlen. }
  destruct Hwriter as (iow & Hwin & Hwst & Hwres). exists iow.
  split; [exact Hwrite|]. split; [exact Herr1|]. split; [exact Hread|].
  split; [exact Herr2|]. split.
  { rewrite Hcalls2, Hmsize, Hlen. apply elem_of_app. right. apply elem_of_app. right.
    apply elem_of_app. left. apply list_elem_of_here. }
  split; [reflexivity|]. unfold whole_read. cbn [result out_size out_data].
  rewrite Hmsize, Hmdata, Hlen, Hdata.
  do 3 (split; [reflexivity|]). split; [exact Hwin|]. split; [exact Hwst|].
  split; [exact Hwres|].
  eexists. rewrite Hobj2, lookup_insert_eq. split; [reflexivity|].
  rewrite !object_end_with_end. reflexivity.
Qed.

End round_trip.

(** At the connected pair, whose client (object 2) has nothing queued: the
    server writes two bytes and a read of four on the client's descriptor
    gets these two bytes. *)
Lemma write_then_read_round_trip_witness :
  ∃ h1 w1 h2 w2 io,
    pipe_end_write (H := wine_constants) 1 10%nat write_of_two connected_pair = Ok (h1, w1)
    ∧ pipe_end_read (H := wine_constants) 1 11%nat read_of_four w1 = Ok (h2, w2)
    ∧ call_async_terminate 9 STATUS_ALERTED io ∈ calls w2
    ∧ result io = 2 ∧ out_data io = Some [Byte.x48; Byte.x49].
Proof.
  destruct (write_then_read_round_trip (H := wine_constants) 0 0 1%nat 2%nat
              pair_server pair_client 10%nat 11%nat pair_server_fd pair_client_fd
              write_of_two read_of_four [Byte.x48; Byte.x49] connected_pair)
    as (h1 & w1 & h2 & w2 & io & iow & Hwrite & _ & Hread & _ & Hdone & _ & Hresult & _
        & Hdata & _); try reflexivity.
  - unfold connected_ends. repeat split; try reflexivity. discriminate.
  - simpl. lia.
  - exists h1, w1, h2, w2, io. auto.
Defined.

(** ** The flush of a server end *)

Section server_flush.
Context `{protocol_constants}.

Lemma message_pair_ends w server c e s ec cl fs fc fso fco :
  message_pair w server c e s ec cl fs fc fso fco →
  connected_ends w server c (server_object e s) (client_object ec cl) fs fc fso fco.
Proof.
  intros (Ho & Hc & Hstate & Hpoll & Hclient & Hserver & Hconn & Hcconn & Hio & Hcio
          & Hfd & Hioctl & Hcfd & Hfne & Hfs & Hfc & Huser & Hcuser).
  unfold connected_ends. fields_simpl.
  repeat split; try assumption. intros ->. congruence.
Qed.

(** The flush of the server of a connected message-mode pair returns at
    once, and leaves the world as it is, when the client has nothing left
    to read.  Otherwise, when the host grants what is asked, the flush is
    parked on the descriptor of the server and reports pending, and a read
    by the client that takes what is queued completes it with success and
    leaves no async on that descriptor. *)
Theorem pipe_server_flush_completes server c e s ec cl fs fc fso fco fl w :
  message_pair w server c e s ec cl fs fc fso fco →
  (message_queue ec = [] → pipe_server_flush fs fl w = Ok (0, w))
  ∧ (∀ n m ra,
       message_queue ec = [m] → read_pos m = 0 → default [] (read_q ec) = [] →
       0 <= in_size (msg_iosb m) <= out_size (async_iosb ra) →
       out_size (async_iosb ra) < 4294967296 →
       script w = [] →
       ∃ h1 w1 h2 w2,
         pipe_server_flush fs fl w = Ok (h1, w1)
         ∧ parked fl h1 w1
         ∧ fds w1 = <[fs := with_wait_q (fd_wait_q fso ++ [fl]) fso]> (fds w)
         ∧ pipe_end_read (S n) fc ra w1 = Ok (h2, w2)
         ∧ terminate_call STATUS_SUCCESS fl ∈ calls w2
         ∧ ∃ fso2, fds w2 !! fs = Some fso2 ∧ fd_wait_q fso2 = []).
Proof.
  intros Hpair. pose proof (message_pair_ends _ _ _ _ _ _ _ _ _ _ _ Hpair) as Hends.
  destruct Hpair as (Ho & Hc & Hstate & Hpoll & Hclient & Hserver & Hconn & Hcconn & Hio
                     & Hcio & Hfd & Hioctl & Hcfd & Hfne & Hfs & Hfc & Huser & Hcuser).
  assert (Hremaining : ∀ B (k : bool → M B) w0,
    objects w0 !! server = Some (server_object e s) →
    objects w0 !! c = Some (client_object ec cl) →
    bind (pipe_data_remaining server) k w0
    = k (negb (bool_decide (message_queue ec = []))) w0).
  { intros B k w0 Ho0 Hc0. unfold pipe_data_remaining. mforward. unfold client_of.
    rewrite Hclient.
    rewrite (bool_decide_eq_true_2 (is_Some (Some c))) by eauto.
    cbn [c_assert]. mforward. rewrite Hio. mforward. reflexivity. }
  assert (Hstart : pipe_server_flush fs fl w
                   = if negb (negb (bool_decide (message_queue ec = []))) then Ok (0, w)
                     else bind (pipe_end_flush server fl)
                            (λ handle, e <- get_end server; s <- get_server server;
                               when (negb (handle =? 0) && negb (use_server_io e)
                                     && negb (flush_poll s))
                                    (update_server server (with_flush_poll true));;
                               ret handle) w).
  { unfold pipe_server_flush.
    rewrite (bind_ok _ _ _ _ _ (get_fd_user_ok _ _ _ Hfs)), Huser.
    rewrite (bind_get_server _ _ _ _ _ Ho), Hstate.
    rewrite (bool_decide_eq_true_2 (ps_connected_server = ps_connected_server))
      by reflexivity.
    cbn [negb]. rewrite (Hremaining _ _ _ Ho Hc).
    destruct (negb (negb (bool_decide (message_queue ec = [])))); reflexivity. }
  split.
  - intros Hq. rewrite Hstart, Hq. reflexivity.
  - intros n m ra Hq Hpos Hrq Hsize Hout Hscript.
    rewrite Hstart, Hq. cbn [bool_decide decide_rel negb].
    rewrite (bool_decide_eq_false_2 ([m] = [])) by discriminate. cbn [negb].
    assert (Hflush : ∃ h1 w1,
      bind (pipe_end_flush server fl)
        (λ handle, e <- get_end server; s <- get_server server;
           when (negb (handle =? 0) && negb (use_server_io e) && negb (flush_poll s))
                (update_server server (with_flush_poll true));;
           ret handle) w = Ok (h1, w1)
      ∧ parked fl h1 w1
      ∧ fds w1 = <[fs := with_wait_q (fd_wait_q fso ++ [fl]) fso]> (fds w)
      ∧ objects w1 = objects w ∧ calls w1 = calls w ∧ script w1 = []).
    { unfold pipe_end_flush. mforward. rewrite Hio, Hconn. mforward. rewrite Hq.
      rewrite (bool_decide_eq_false_2 ([m] = [])) by discriminate. mforward.
      rewrite (bind_fd_queue_async _ _ _ _ _ _ Hfd Hfs Hscript). cbn [negb].
      unfold async_is_blocking, parked. destruct (async_blocking fl); cbn [negb].
      - rewrite bind_assoc, bind_alloc_handle_granted by exact Hscript. world_simpl.
        destruct (Z.eqb_spec (4 * Z.of_nat (S (handles w))) 0) as [Hz|_]; [lia|].
        cbn [negb when]. mforward. rewrite Hio. cbn [negb andb when]. mforward.
        eexists _, _. split; [reflexivity|]. world_simpl.
        repeat split; try assumption; try reflexivity. lia.
      - mforward. rewrite Hio. rewrite andb_false_r. cbn [negb andb when]. mforward.
        eexists _, _. split; [reflexivity|]. world_simpl.
        repeat split; try assumption; try reflexivity; try lia; try discriminate. }
    destruct Hflush as (h1 & w1 & Hrun & Hparked & Hfds1 & Hobj1 & Hcalls1 & Hscript1).
    destruct (read_runs n server c (server_object e s) (client_object ec cl) fs fc
                (with_wait_q (fd_wait_q fso ++ [fl]) fso) fco ra m w1)
      as (h2 & w2 & Hread & _ & _ & Hcalls2 & Hfds2); try assumption.
    { destruct Hends as (? & ? & ? & ? & ? & ? & ? & ? & ? & ? & ? & ?).
      unfold connected_ends. rewrite Hobj1, Hfds1.
      repeat split; try first [assumption | lookup_tac]. }
    exists h1, w1, h2, w2. split; [exact Hrun|]. split; [exact Hparked|].
    split; [exact Hfds1|]. split; [exact Hread|]. split.
    + rewrite Hcalls2. do 3 (apply elem_of_app; right). fields_simpl.
      rewrite map_app. apply elem_of_app. right. apply list_elem_of_here.
    + eexists. rewrite Hfds2, lookup_insert_eq. split; reflexivity.
Qed.

End server_flush.

(** At the pair whose client has three bytes to read: the flush of the
    server is parked, and the read of four bytes by the client completes
    it. *)
Lemma pipe_server_flush_completes_witness :
  ∃ h1 w1 h2 w2,
    pipe_server_flush (H := wine_constants) 10%nat flush_async served_pair = Ok (h1, w1)
    ∧ parked flush_async h1 w1
    ∧ pipe_end_read (H := wine_constants) 1 11%nat read_of_four w1 = Ok (h2, w2)
    ∧ terminate_call STATUS_SUCCESS flush_async ∈ calls w2.
Proof.
  destruct (pipe_server_flush_completes (H := wine_constants) 1%nat 2%nat
              served_server_end pair_server_state served_client_end pair_client_state
              10%nat 11%nat pair_server_fd pair_client_fd flush_async served_pair)
    as [_ Hparks].
  - unfold message_pair. repeat split; try reflexivity. discriminate.
  - destruct (Hparks 0%nat woken_abc read_of_four)
      as (h1 & w1 & h2 & w2 & Hflush & Hparked & _ & Hread & Hdone & _);
      try reflexivity; [simpl; lia|].
    exists h1, w1, h2, w2. auto.
Defined.

(** ** The flush poll of a byte-mode server *)

Section flush_poll.
Context `{protocol_constants}.

(** The flush of a byte-mode server whose client has bytes to read, when
    the host grants what is asked: the async is parked on the descriptor of
    the server and the request reports pending; the poll for the socket to
    drain is started for a blocking caller only.  Once the host finds the
    socket of the client empty, check_flushed stops the poll and completes the flush
    with success. *)
Theorem pipe_server_flush_polls server c e s ec cl fs fc fso fco unread fl w :
  byte_mode_pair w server c e s ec cl fs fc fso fco unread → 0 < unread →
  script w = [] →
  ∃ h w1,
    pipe_server_flush fs fl w = Ok (h, w1)
    ∧ parked fl h w1
    ∧ objects w1 = <[server := server_object e (with_flush_poll (async_blocking fl) s)]>
                     (objects w)
    ∧ fds w1 = <[fs := with_wait_q (fd_wait_q fso ++ [fl]) fso]> (fds w)
    ∧ ∃ w2,
        bind (execute (host_socket fc 0)) (λ _, check_flushed server) w1 = Ok (tt, w2)
        ∧ terminate_call STATUS_SUCCESS fl ∈ calls w2
        ∧ objects w2 !! server = Some (server_object e (with_flush_poll false s))
        ∧ ∃ fso2, fds w2 !! fs = Some fso2 ∧ fd_wait_q fso2 = [].
Proof.
  intros (Ho & Hc & Hstate & Hpoll & Hclient & Hio & Hfd & Hcfd & Hfne & Hfs & Hfc
          & Huser & Hunix) Hunread Hscript.
  assert (Hpositive : (0 <? unread) = true) by (apply Z.ltb_lt; exact Hunread).
  assert (Hflush : ∃ h w1,
    pipe_server_flush fs fl w = Ok (h, w1)
    ∧ parked fl h w1
    ∧ objects w1 = <[server := server_object e (with_flush_poll (async_blocking fl) s)]>
                     (objects w)
    ∧ fds w1 = <[fs := with_wait_q (fd_wait_q fso ++ [fl]) fso]> (fds w)
    ∧ calls w1 = calls w ∧ script w1 = []).
  { unfold pipe_server_flush.
    rewrite (bind_ok _ _ _ _ _ (get_fd_user_ok _ _ _ Hfs)), Huser.
    rewrite (bind_get_server _ _ _ _ _ Ho), Hstate.
    rewrite (bool_decide_eq_true_2 (ps_connected_server = ps_connected_server))
      by reflexivity.
    cbn [negb]. unfold pipe_data_remaining. mforward. unfold client_of. rewrite Hclient.
    rewrite (bool_decide_eq_true_2 (is_Some (Some c))) by eauto.
    cbn [c_assert]. mforward. rewrite Hio, Hcfd. mforward. rewrite Hunix.
    rewrite bind_assoc, bind_host_try_granted by exact Hscript.
    rewrite bind_ret, Hpositive. cbn [andb negb].
    unfold pipe_end_flush. mforward. rewrite Hio. mforward.
    rewrite (bind_fd_queue_async _ _ _ _ _ _ Hfd Hfs Hscript). cbn [negb].
    unfold async_is_blocking, parked. destruct (async_blocking fl); cbn [negb].
    - assert (Hnz : (4 * Z.of_nat (S (handles w)) =? 0) = false) by (apply Z.eqb_neq; lia).
      rewrite bind_assoc, bind_alloc_handle_granted by exact Hscript. world_simpl.
      rewrite Hnz. cbn [negb when]. mforward. rewrite Hio, Hpoll, Hnz.
      cbn [negb andb when]. mforward.
      eexists _, _. split; [reflexivity|]. world_simpl.
      repeat split; try assumption; try reflexivity. lia.
    - mforward. rewrite Hio. cbn [negb andb when]. mforward.
      eexists _, _. split; [reflexivity|]. world_simpl.
      repeat split; try assumption; try reflexivity; try lia; try discriminate.
      symmetry. apply insert_id. rewrite Ho. f_equal. f_equal.
      destruct s; simpl in *; subst; reflexivity. }
  destruct Hflush as (h & w1 & Hrun & Hparked & Hobj1 & Hfds1 & Hcalls1 & Hscript1).
  exists h, w1. split; [exact Hrun|]. split; [exact Hparked|]. split; [exact Hobj1|].
  split; [exact Hfds1|].
  assert (Ho1 : objects w1 !! server
                = Some (server_object e (with_flush_poll (async_blocking fl) s)))
    by (rewrite Hobj1; apply lookup_insert_eq).
  assert (Hc1 : objects w1 !! c = Some (client_object ec cl)).
  { rewrite Hobj1, lookup_insert_ne; [exact Hc|]. intros ->. congruence. }
  assert (Hfs1 : fds w1 !! fs = Some (with_wait_q (fd_wait_q fso ++ [fl]) fso))
    by (rewrite Hfds1; apply lookup_insert_eq).
  assert (Hfc1 : fds w1 !! fc = Some fco)
    by (rewrite Hfds1, lookup_insert_ne by congruence; exact Hfc).
  eexists. split.
  - unfold execute, check_flushed, pipe_data_remaining. mforward. unfold client_of.
    rewrite Hclient.
    rewrite (bool_decide_eq_true_2 (is_Some (Some c))) by eauto.
    cbn [c_assert]. mforward. rewrite Hio, Hcfd. mforward. rewrite Hunix. cbv iota.
    rewrite bind_assoc, bind_host_try_granted by (world_simpl; exact Hscript1).
    mforward. cbn [andb Z.ltb Z.compare]. cbv iota. mforward. rewrite Hfd.
    unfold fd_async_wake_up. mforward. rewrite wake_up_list_success.
    unfold log_calls. mforward. reflexivity.
  - world_simpl. split; [|split].
    + apply elem_of_app. right. fields_simpl. rewrite map_app. apply elem_of_app. right.
      apply list_elem_of_here.
    + rewrite lookup_insert_eq. reflexivity.
    + eexists. rewrite lookup_insert_eq. split; reflexivity.
Qed.

End flush_poll.

(** At the byte-mode pair whose client has five bytes to read: the flush
    of the server by a blocking caller is parked and starts the poll, and
    check_flushed completes it once the socket is empty. *)
Lemma pipe_server_flush_polls_witness :
  ∃ h w1 w2,
    pipe_server_flush (H := wine_constants) 10%nat flush_async byte_pair_unread
    = Ok (h, w1)
    ∧ parked flush_async h w1
    ∧ objects w1 !! 1%nat
      = Some (server_object byte_server_end (with_flush_poll true byte_server_state))
    ∧ bind (execute (H := wine_constants) (host_socket 11%nat 0))
        (λ _, check_flushed (H := wine_constants) 1%nat) w1
      = Ok (tt, w2)
    ∧ terminate_call STATUS_SUCCESS flush_async ∈ calls w2.
Proof.
  destruct (pipe_server_flush_polls (H := wine_constants) 1%nat 2%nat byte_server_end
              byte_server_state byte_client_end pair_client_state 10%nat 11%nat
              byte_server_socket byte_client_socket 5 flush_async byte_pair_unread)
    as (h & w1 & Hflush & Hparked & Hobjects & _ & w2 & Hcheck & Hdone & _).
  - unfold byte_mode_pair. repeat split; try reflexivity. discriminate.
  - lia.
  - reflexivity.
  - exists h, w1, w2. split; [exact Hflush|]. split; [exact Hparked|].
    split; [rewrite Hobjects; apply lookup_insert_eq|]. auto.
Defined.

(** ** The creation of a server that fails half way *)

Section create_failure.
Context `{protocol_constants}.

Lemma filter_not_in (x : addr) (l : list addr) :
  x ∉ l → filter (λ a, a ≠ x) l = l.
Proof.
  induction l as [|y l IH]; intros Hnot; [reflexivity|].
  apply not_elem_of_cons in Hnot as [Hne Hnot].
  rewrite filter_cons_True by congruence. rewrite IH by exact Hnot. reflexivity.
Qed.

(** create_pipe_server when the object is allocated and the pseudo
    descriptor is refused: the release of the half-built server runs
    pipe_server_destroy, which takes an instance off the count of the pipe
    that create_named_pipe has not yet added.  For a pipe without
    instances the assertion on the count fails; for a pipe with instances
    the creation fails with no_memory and leaves the pipe with its servers
    and one instance less than before. *)
Theorem create_pipe_server_without_fd pipe np opts fl rest w :
  pipes w !! pipe = Some np → script w = true :: false :: rest →
  (instances np = 0 → create_pipe_server pipe opts fl w = Fault assertion_failed)
  ∧ (instances np ≠ 0 → refcount np ≠ 0%nat →
     (∀ sa, sa ∈ servers np → is_Some (objects w !! sa)) →
     ∃ w', create_pipe_server pipe opts fl w = Ok (None, w')
           ∧ error w' = STATUS_NO_MEMORY
           ∧ objects w' = objects w
           ∧ pipes w' = <[pipe := with_instances (sub32 (instances np) 1) np]> (pipes w)
           ∧ fds w' = fds w).
Proof.
  intros Hp Hscript.
  set (sv := fresh (dom (objects w))).
  assert (Hsv : objects w !! sv = None) by (apply not_elem_of_dom, is_fresh).
  assert (Hnone : bool_decide (is_Some (@None addr)) = false).
  { apply bool_decide_eq_false_2. intros [? [=]]. }
  assert (Hbroken : bool_decide (STATUS_PIPE_BROKEN = STATUS_PIPE_DISCONNECTED) = false)
    by (apply bool_decide_eq_false_2; discriminate).
  split.
  - intros Hzero. unfold create_pipe_server. rewrite (bind_get_pipe _ _ _ _ Hp).
    unfold alloc_object. rewrite bind_assoc, bind_host_try, Hscript.
    cbn [head tail default from_option id]. cbv iota. mforward. fold sv.
    unfold grab_pipe, alloc_pseudo_fd, new_fd. mforward.
    rewrite bind_host_try. world_simpl. cbn [head tail default from_option id]. cbv iota.
    mforward. unfold pipe_server_destroy. cbn [pipe_end_disconnect]. mforward.
    rewrite Hnone, Hbroken. cbn [when async_wake_up disconnect_walk]. unfold log_calls.
    destruct (use_server_io (init_pipe_end fl (insize np))); cbn [when];
      mforward; rewrite ?Hnone; cbn [when]; mforward;
      unfold pipe_end_destroy; mforward; cbn [forallb c_assert]; mforward;
      rewrite Hzero; reflexivity.
  - intros Hnz Hrefs Hlive.
    destruct (refcount np) as [|r] eqn:Hr; [congruence|].
    assert (Hfresh : sv ∉ servers np).
    { intros Hin. destruct (Hlive sv Hin) as [o Ho]. congruence. }
    assert (Hinst : (instances np =? 0) = false) by (apply Z.eqb_neq; exact Hnz).
    unfold create_pipe_server. rewrite (bind_get_pipe _ _ _ _ Hp).
    unfold alloc_object. rewrite bind_assoc, bind_host_try, Hscript.
    cbn [head tail default from_option id]. cbv iota. mforward. fold sv.
    unfold grab_pipe, alloc_pseudo_fd, new_fd. mforward.
    rewrite bind_host_try. world_simpl. cbn [head tail default from_option id]. cbv iota.
    mforward. unfold pipe_server_destroy. cbn [pipe_end_disconnect]. mforward.
    rewrite Hnone, Hbroken. cbn [when async_wake_up disconnect_walk]. unfold log_calls.
    destruct (use_server_io (init_pipe_end fl (insize np))); cbn [when];
      mforward; rewrite ?Hnone; cbn [when]; mforward;
      unfold pipe_end_destroy; mforward; cbn [forallb c_assert]; mforward;
      rewrite Hinst; cbn [negb c_assert]; mforward;
      unfold release_pipe; mforward; rewrite Hr; mforward; unfold free_object; mforward;
      (eexists; split; [reflexivity|]); world_simpl;
      (split; [reflexivity|]); (split; [|split; [|reflexivity]]).
    1, 3: apply map_eq; intros x; rewrite lookup_delete, ?lookup_insert;
      repeat case_decide; subst; congruence.
    all: rewrite !insert_insert_eq; f_equal;
      rewrite filter_cons_False by (intros Hne; apply Hne; reflexivity);
      rewrite (filter_not_in _ _ Hfresh);
      destruct np; simpl in *; subst; reflexivity.
Qed.

End create_failure.

(** At the pipe that has no instance yet the assertion fails; at the pipe
    of the connected pair, which has one instance and one server, the
    failed creation leaves the server and no instance. *)
Lemma create_pipe_server_without_fd_witness :
  create_pipe_server (H := wine_constants) 20%nat 0 1 first_server_refused
  = Fault assertion_failed
  ∧ ∃ w', create_pipe_server (H := wine_constants) 20%nat 0 1 second_server_refused
          = Ok (None, w')
          ∧ pipes w' !! 20%nat = Some (mk_named_pipe 1 1 3 1 4 4 0 0 [1%nat] None).
Proof.
  split.
  - destruct (create_pipe_server_without_fd (H := wine_constants) 20%nat
                pipe_without_instance 0 1 [] first_server_refused eq_refl eq_refl)
      as [Hfails _].
    apply Hfails. reflexivity.
  - destruct (create_pipe_server_without_fd (H := wine_constants) 20%nat pair_pipe 0 1 []
                second_server_refused eq_refl eq_refl) as [_ Hless].
    destruct Hless as (w' & Hrun & _ & _ & Hpipes & _).
    + discriminate.
    + discriminate.
    + intros sa Hsa. apply list_elem_of_singleton in Hsa as ->. eexists. reflexivity.
    + exists w'. split; [exact Hrun|]. rewrite Hpipes. apply lookup_insert_eq.
Defined.

(** ** The first instance of a pipe, and its end *)

Section first_instance.
Context `{protocol_constants}.

Lemma create_runs req oa nm w :
  req_objattr req = inl oa → name oa = nm → nm ≠ [] →
  ¬ bad_parameters req → namespace w !! nm = None → script w = [] →
  ∃ h p sv fi w',
    create_named_pipe req w = Ok (h, w') ∧ h ≠ 0
    ∧ first_instance req nm p sv fi w w'.
Proof.
  intros Hoa Hname Hnm Hgood Hns Hscript.
  set (p := fresh (dom (pipes w))).
  set (sv := fresh (dom (objects w))).
  set (fi := fresh (dom (fds w))).
  assert (Hp : pipes w !! p = None) by (apply not_elem_of_dom, is_fresh).
  assert (Hsv : objects w !! sv = None) by (apply not_elem_of_dom, is_fresh).
  assert (Hfi : fds w !! fi = None) by (apply not_elem_of_dom, is_fresh).
  exists (4 * Z.of_nat (S (handles w))), p, sv, fi. eexists. split; [|split; [lia|]].
  - unfold create_named_pipe. rewrite Hoa, (good_parameters _ Hgood), Hname.
    rewrite (bool_decide_eq_false_2 (nm = [])) by exact Hnm.
    mgo. unfold create_named_object, clear_error. mgo.
    rewrite decide_False by exact Hnm. rewrite Hns.
    rewrite bind_assoc, bind_host_try_granted by exact Hscript. mgo.
    fold p. rewrite (bool_decide_eq_false_2 (nm = [])) by exact Hnm.
    mgo. unfold get_error. mgo.
    rewrite (bool_decide_eq_false_2 (STATUS_SUCCESS = STATUS_OBJECT_NAME_EXISTS))
      by discriminate.
    mgo. unfold create_pipe_server. mgo.
    rewrite bind_alloc_object by exact Hscript. world_simpl. fold sv. mgo.
    unfold grab_pipe, alloc_pseudo_fd. mgo.
    rewrite bind_new_fd by exact Hscript. world_simpl. fold fi. mgo.
    unfold set_fd_signaled. mgo.
    erewrite (bind_set_server_state_idle sv) by solve_lookup || reflexivity.
    mgo. rewrite bind_alloc_handle_granted by (world_simpl; exact Hscript). world_simpl.
    assert (Hnz : (4 * Z.of_nat (S (handles w)) =? 0) = false) by (apply Z.eqb_neq; lia).
    mgo. rewrite Hnz. mgo. unfold release_pipe. mgo. reflexivity.
  - unfold first_instance, first_pipe, first_server. world_simpl.
    split; [exact Hp|]. split; [exact Hsv|]. split; [exact Hfi|].
    split; [same_map|]. split; [reflexivity|]. split; [same_map|]. split; [same_map|].
    auto.
Qed.

(** create_named_pipe for a name that does not exist, with parameters
    that are accepted, when the host grants what is asked: the reply has a
    handle and no error; the world has one new pipe under the name, with
    one instance and the parameters of the request (of the flags, the
    message-stream-write bit only), one new idle server, which carries the
    flags of the request as they are, and one new descriptor for it, which
    is signalled and reports pipe_listening. *)
Theorem create_named_pipe_first_instance req oa nm w :
  req_objattr req = inl oa → name oa = nm → nm ≠ [] →
  ¬ bad_parameters req → namespace w !! nm = None → script w = [] →
  ∃ h p sv fi w',
    create_named_pipe req w = Ok (h, w') ∧ h ≠ 0
    ∧ first_instance req nm p sv fi w w'.
Proof. apply create_runs. Qed.

Lemma namespace_unlinked (ns : gmap (list Z) addr) nm p :
  ns !! nm = None → (∀ k q, ns !! k = Some q → q ≠ p) →
  filter (λ kv, kv.2 ≠ p) (<[nm := p]> ns) = ns.
Proof.
  intros Hnm Hother. apply map_eq. intros k. apply option_eq. intros q.
  rewrite map_lookup_filter_Some. simpl. destruct (decide (k = nm)) as [->|Hne].
  - rewrite lookup_insert_eq, Hnm. split; [intros [[= ->] Hq]; congruence|discriminate].
  - rewrite lookup_insert_ne by congruence. split; [tauto|eauto].
Qed.

(** The first instance of a pipe and its end: when the server that
    create_named_pipe made for a new name is destroyed, with no client ever
    connected, the pipe and its name are gone with it, and the objects, the
    pipes and the names are those from before the creation. *)
Theorem first_instance_destroyed req oa nm w :
  req_objattr req = inl oa → name oa = nm → nm ≠ [] →
  ¬ bad_parameters req → namespace w !! nm = None → script w = [] →
  (∀ k q, namespace w !! k = Some q → is_Some (pipes w !! q)) →
  ∃ h p sv fi w1 w2,
    create_named_pipe req w = Ok (h, w1)
    ∧ first_instance req nm p sv fi w w1
    ∧ pipe_server_destroy sv w1 = Ok (tt, w2)
    ∧ objects w2 = objects w ∧ pipes w2 = pipes w ∧ namespace w2 = namespace w.
Proof.
  intros Hoa Hname Hnm Hgood Hns Hscript Hnames.
  destruct (create_runs req oa nm w Hoa Hname Hnm Hgood Hns Hscript)
    as (h & p & sv & fi & w1 & Hcreate & _ & Hfirst).
  exists h, p, sv, fi, w1. 
  pose proof Hfirst as (Hp & Hsv & Hfi & Hpipes & Hnamespace & Hobjects & Hfds & _).
  assert (Hsv1 : objects w1 !! sv = Some (first_server req p fi))
    by (rewrite Hobjects; apply lookup_insert_eq).
  assert (Hp1 : pipes w1 !! p = Some (first_pipe req sv))
    by (rewrite Hpipes; apply lookup_insert_eq).
  assert (Hnone : bool_decide (is_Some (@None addr)) = false).
  { apply bool_decide_eq_false_2. intros [? [=]]. }
  assert (Hbroken : bool_decide (STATUS_PIPE_BROKEN = STATUS_PIPE_DISCONNECTED) = false)
    by (apply bool_decide_eq_false_2; discriminate).
  assert (Hdestroy : ∃ w2,
    pipe_server_destroy sv w1 = Ok (tt, w2)
    ∧ objects w2 = delete sv (objects w1) ∧ pipes w2 = delete p (pipes w1)
    ∧ namespace w2 = filter (λ kv, kv.2 ≠ p) (namespace w1)).
  { unfold pipe_server_destroy. cbn [pipe_end_disconnect].
    unfold first_server, first_pipe in *. mgo.
    rewrite Hnone, Hbroken. cbn [when async_wake_up disconnect_walk]. unfold log_calls.
    destruct (use_server_io (init_pipe_end (req_flags req) (req_insize req))); cbn [when];
      mgo; rewrite ?Hnone; cbn [when]; mgo;
      unfold pipe_end_destroy; mgo; cbn [forallb c_assert]; mgo;
      change (1 =? 0) with false; change (sub32 1 1) with 0; mgo;
      rewrite filter_cons_False by (intros Hne; apply Hne; reflexivity);
      rewrite filter_nil;
      unfold release_pipe; mgo; unfold named_pipe_destroy; mgo;
      rewrite (bool_decide_eq_true_2 (@nil addr = [])) by reflexivity;
      change (0 =? 0) with true; mgo; unfold free_object; mgo;
      (eexists; split; [reflexivity|]); world_simpl; rewrite Hobjects, Hpipes;
      (split; [|split; [|reflexivity]]);
      apply map_eq; intros x; rewrite !lookup_delete, ?lookup_insert;
      repeat case_decide; subst; congruence. }
  destruct Hdestroy as (w2 & Hrun & Hobj2 & Hpipes2 & Hns2).
  exists w2. split; [exact Hcreate|]. split; [exact Hfirst|]. split; [exact Hrun|].
  rewrite Hobj2, Hpipes2, Hns2, Hobjects, Hpipes, Hnamespace.
  split; [|split].
  - apply delete_insert_id. exact Hsv.
  - apply delete_insert_id. exact Hp.
  - apply namespace_unlinked; [exact Hns|].
    intros k q Hk ->. destruct (Hnames k _ Hk) as [np Hnp]. congruence.

Qed.

End first_instance.

(** At the empty world: the request for the message-mode pipe creates
    it. *)
Lemma create_named_pipe_first_instance_witness :
  ∃ h p sv fi w',
    create_named_pipe (H := wine_constants) request_message_pipe empty_world = Ok (h, w')
    ∧ h ≠ 0
    ∧ first_instance (H := wine_constants) request_message_pipe [112; 105; 112; 101]
        p sv fi empty_world w'.
Proof.
  apply (create_named_pipe_first_instance (H := wine_constants) request_message_pipe
           (mk_objattr 0 0 [112; 105; 112; 101]) [112; 105; 112; 101] empty_world);
    try reflexivity.
  - discriminate.
  - intros [Hz|[(i & Hi & Hs & Hr & Hw)|[Hr Hw]]]; try discriminate.
    simpl in Hs, Hr, Hw.
    destruct i as [|[i|i|]|i]; simpl in *; try discriminate; lia.
Defined.

(** At the empty world: the pipe that is created and whose server is then
    destroyed leaves the empty maps behind. *)
Lemma first_instance_destroyed_witness :
  ∃ h sv w1 w2,
    create_named_pipe (H := wine_constants) request_message_pipe empty_world = Ok (h, w1)
    ∧ pipe_server_destroy (H := wine_constants) sv w1 = Ok (tt, w2)
    ∧ objects w2 = ∅ ∧ pipes w2 = ∅ ∧ namespace w2 = ∅.
Proof.
  destruct (first_instance_destroyed (H := wine_constants) request_message_pipe
              (mk_objattr 0 0 [112; 105; 112; 101]) [112; 105; 112; 101] empty_world)
    as (h & p & sv & fi & w1 & w2 & Hcreate & _ & Hdestroy & Hobjects & Hpipes & Hnames);
    try reflexivity.
  - discriminate.
  - intros [Hz|[(i & Hi & Hs & Hr & Hw)|[Hr Hw]]]; try discriminate.
    simpl in Hs, Hr, Hw.
    destruct i as [|[i|i|]|i]; simpl in *; try discriminate; lia.
  - intros k q Hk. discriminate Hk.
  - exists h, sv, w1, w2. auto.
Defined.

(** ** The mapping of generic access rights *)

Section map_access_properties.
Context `{protocol_constants} `{access_rights}.

Lemma has_flag_within access bit mask :
  Z.land access mask = 0 → Z.land bit (Z.lnot mask) = 0 → has_flag access bit = false.
Proof.
  intros Haccess Hbit. unfold has_flag. apply negb_false_iff, Z.eqb_eq.
  apply Z.bits_inj'. intros i Hi. rewrite Z.bits_0, Z.land_spec.
  apply (f_equal (λ z, Z.testbit z i)) in Haccess, Hbit.
  rewrite Z.bits_0, Z.land_spec in Haccess.
  rewrite Z.bits_0, Z.land_spec, Z.lnot_spec in Hbit by exact Hi.
  destruct (Z.testbit access i), (Z.testbit bit i), (Z.testbit mask i);
    simpl in *; congruence.
Qed.

Lemma within_mask_l a b : Z.land a (Z.lnot (Z.lor a b)) = 0.
Proof.
  apply Z.bits_inj'. intros i Hi.
  rewrite Z.bits_0, Z.land_spec, Z.lnot_spec, Z.lor_spec by exact Hi.
  destruct (Z.testbit a i), (Z.testbit b i); reflexivity.
Qed.

Lemma within_mask_r a b : Z.land b (Z.lnot (Z.lor a b)) = 0.
Proof. rewrite Z.lor_comm. apply within_mask_l. Qed.

Lemma within_mask_step a b c :
  Z.land a (Z.lnot b) = 0 → Z.land a (Z.lnot (Z.lor b c)) = 0.
Proof.
  intros Ha. apply Z.bits_inj'. intros i Hi.
  apply (f_equal (λ z, Z.testbit z i)) in Ha.
  rewrite Z.bits_0, Z.land_spec, Z.lnot_spec in Ha by exact Hi.
  rewrite Z.bits_0, Z.land_spec, Z.lnot_spec, Z.lor_spec by exact Hi.
  destruct (Z.testbit a i), (Z.testbit b i), (Z.testbit c i); simpl in *; congruence.
Qed.

Lemma has_flag_lor a x bit : has_flag a bit = true → has_flag (Z.lor a x) bit = true.
Proof.
  unfold has_flag. intros Ha. apply negb_true_iff, Z.eqb_neq in Ha.
  apply negb_true_iff, Z.eqb_neq. rewrite Z.land_lor_distr_l. intros Hz.
  apply Z.lor_eq_0_iff in Hz as [Hz _]. contradiction.
Qed.

(** named_pipe_map_access never returns a generic bit; it returns an
    access mask without generic bits as it is; and it turns generic write
    access into rights that include the creation of pipe instances, when
    that right is not itself a generic bit. *)
Theorem named_pipe_map_access_maps access :
  Z.land (named_pipe_map_access access) generic_mask = 0
  ∧ (Z.land access generic_mask = 0 → named_pipe_map_access access = access)
  ∧ (has_flag access GENERIC_WRITE = true →
     Z.land FILE_CREATE_PIPE_INSTANCE generic_mask = 0 →
     Z.land (named_pipe_map_access access) FILE_CREATE_PIPE_INSTANCE
     = FILE_CREATE_PIPE_INSTANCE).
Proof.
  split; [|split].
  - unfold named_pipe_map_access. rewrite <- Z.land_assoc.
    rewrite (Z.land_comm (Z.lnot generic_mask)), Z.land_lnot_diag. apply Z.land_0_r.
  - intros Hnone. unfold named_pipe_map_access.
    assert (Hread : has_flag access GENERIC_READ = false).
    { apply (has_flag_within _ _ _ Hnone). unfold generic_mask.
      do 2 apply within_mask_step. apply within_mask_l. }
    assert (Hwrite : has_flag access GENERIC_WRITE = false).
    { apply (has_flag_within _ _ _ Hnone). unfold generic_mask.
      do 2 apply within_mask_step. apply within_mask_r. }
    assert (Hexecute : has_flag access GENERIC_EXECUTE = false).
    { apply (has_flag_within _ _ _ Hnone). unfold generic_mask.
      apply within_mask_step. apply within_mask_r. }
    assert (Hall : has_flag access GENERIC_ALL = false).
    { apply (has_flag_within _ _ _ Hnone). unfold generic_mask. apply within_mask_r. }
    rewrite Hread, Hwrite, Hexecute, Hall.
    apply Z.bits_inj'. intros i Hi.
    apply (f_equal (λ z, Z.testbit z i)) in Hnone.
    rewrite Z.bits_0, Z.land_spec in Hnone.
    rewrite Z.land_spec, Z.lnot_spec by exact Hi.
    destruct (Z.testbit access i), (Z.testbit generic_mask i); simpl in *; congruence.
  - intros Hwrite Hright. unfold named_pipe_map_access.
    set (a1 := if has_flag access GENERIC_READ
               then Z.lor access STANDARD_RIGHTS_READ else access).
    assert (H1 : has_flag a1 GENERIC_WRITE = true).
    { unfold a1. destruct (has_flag access GENERIC_READ); [apply has_flag_lor|];
        exact Hwrite. }
    rewrite H1.
    set (a2 := Z.lor a1 (Z.lor STANDARD_RIGHTS_WRITE FILE_CREATE_PIPE_INSTANCE)).
    set (a3 := if has_flag a2 GENERIC_EXECUTE
               then Z.lor a2 STANDARD_RIGHTS_EXECUTE else a2).
    set (a4 := if has_flag a3 GENERIC_ALL then Z.lor a3 STANDARD_RIGHTS_ALL else a3).
    assert (Hkept : ∀ i, Z.testbit FILE_CREATE_PIPE_INSTANCE i = true →
                         Z.testbit a4 i = true).
    { intros i Hi. unfold a4, a3, a2.
      destruct (has_flag _ GENERIC_ALL), (has_flag _ GENERIC_EXECUTE);
        rewrite ?Z.lor_spec, Hi, ?orb_true_r; reflexivity. }
    apply Z.bits_inj'. intros i Hi.
    apply (f_equal (λ z, Z.testbit z i)) in Hright.
    rewrite Z.bits_0, Z.land_spec in Hright.
    rewrite !Z.land_spec, Z.lnot_spec by exact Hi.
    destruct (Z.testbit FILE_CREATE_PIPE_INSTANCE i) eqn:Hbit.
    + rewrite (Hkept i Hbit). simpl in Hright. rewrite Hright. reflexivity.
    + apply andb_false_r.
Qed.

End map_access_properties.

(** With the values of the Windows headers: generic write access
    (0x40000000) with the right to read data (1) maps to read-control, the
    creation of pipe instances and the right to read data (0x20005). *)
Lemma named_pipe_map_access_maps_witness :
  named_pipe_map_access (H := wine_constants) (H0 := wine_access_rights) 1073741825
  = 131077
  ∧ Z.land (named_pipe_map_access (H := wine_constants) (H0 := wine_access_rights)
              1073741825) 4 = 4.
Proof.
  split; [reflexivity|].
  destruct (named_pipe_map_access_maps (H := wine_constants) (H0 := wine_access_rights)
              1073741825) as (_ & _ & Hcreate).
  apply Hcreate; reflexivity.
Defined.

(** ** The client goes away, the server disconnects *)

Section client_close.
Context `{protocol_constants}.

Lemma bind_pipe_end_disconnect_single {B} a o fa fo st (k : unit → M B) w :
  objects w !! a = Some o → use_server_io (object_end o) = true →
  fd (object_end o) = Some fa → fds w !! fa = Some fo →
  connection (object_end o) = None →
  bind (pipe_end_disconnect 2 a st) k w
  = k tt (with_calls (calls w ++ teardown_calls st (object_end o) fo)
            (set_fds (insert fa (torn_down_fd st fo))
               (set_objects (insert a (with_end o (torn_down st (object_end o)))) w))).
Proof.
  intros Ho Hio Hfd Hfa Hconn.
  rewrite (bind_cong _ _ _ _ (pipe_end_disconnect_unfold _ _ _ _)).
  rewrite bind_assoc, (bind_get_end _ _ _ _ Ho), bind_assoc.
  rewrite (bind_disconnect_own_end _ _ _ _ _ _ _ Ho Hio Hfd Hfa), Hconn.
  rewrite bind_ret. reflexivity.
Qed.

Lemma teardown_leaves_no_async q :
  forallb (λ m, bool_decide (msg_async m = None)) (disconnect_walk STATUS_PIPE_BROKEN q).1
  = true.
Proof.
  rewrite disconnect_walk_broken. apply forallb_forall. intros m Hin.
  apply filter_In in Hin as [_ Hm]. exact Hm.
Qed.

Lemma client_close_runs server c e s ec cl fs fc fso fco w :
  message_pair w server c e s ec cl fs fc fso fco →
  ∃ w1,
    pipe_client_destroy c w = Ok (tt, w1)
    ∧ objects w1
      = <[server := server_object (torn_down STATUS_PIPE_BROKEN e)
                      (with_client None (with_state ps_wait_disconnect s))]>
          (delete c (objects w))
    ∧ fds w1 = <[fs := torn_down_fd STATUS_PIPE_BROKEN fso]>
                 (<[fc := torn_down_fd STATUS_PIPE_BROKEN fco]> (fds w))
    ∧ calls w1 = calls w ++ teardown_calls STATUS_PIPE_BROKEN ec fco
                 ++ teardown_calls STATUS_PIPE_BROKEN e fso
    ∧ pipes w1 = pipes w ∧ error w1 = error w.
Proof.
  intros (Ho & Hc & Hstate & Hpoll & Hclient & Hserver & Hconn & Hcconn & Hio & Hcio
          & Hfd & Hioctl & Hcfd & Hfne & Hfs & Hfc & Huser & Hcuser).
  assert (Hne : server ≠ c) by (intros ->; congruence).
  eexists. split.
  - unfold pipe_client_destroy. rewrite (bind_get_client _ _ _ _ _ Hc).
    erewrite (bind_pipe_end_disconnect_pair c (client_object ec cl) fc fco server
                (server_object e s) fs fso)
      by (eassumption || reflexivity || congruence).
    fields_simpl. rewrite Hserver. unfold notify_empty. mgo. rewrite Hpoll. mgo.
    rewrite Hstate. unfold set_server_state. mgo.
    rewrite (torn_down_message_mode _ (with_connection None e) Hio).
    fields_simpl. rewrite Hfd.
    rewrite (bool_decide_eq_true_2 (is_Some (Some fs))) by eauto.
    mgo. unfold client_of. rewrite Hclient.
    rewrite (bool_decide_eq_true_2 (is_Some (Some c))) by eauto.
    mgo. unfold pipe_end_destroy. mgo.
    rewrite (torn_down_message_mode _ _ Hcio). fields_simpl.
    rewrite teardown_leaves_no_async. mgo. unfold free_object. mgo. reflexivity.
  - world_simpl. split; [|split; [|split]].
    + rewrite (torn_down_message_mode _ _ Hio).
      apply map_eq. intros x. rewrite ?lookup_delete, ?lookup_insert, ?lookup_delete.
      repeat case_decide; subst; first [congruence | reflexivity].
    + same_map.
    + reflexivity.
    + auto.
Qed.

(** The client of a connected message-mode pair is closed and the server
    then disconnects: the destruction of the client frees it and leaves the
    server in wait_disconnect, with its descriptor and with the messages
    whose writers have completed; FSCTL_PIPE_DISCONNECT on the server then
    returns, drops these messages and the descriptor, and leaves the
    server in wait_connect, from where it can listen again. *)
Theorem client_close_then_disconnect reply_max server c e s ec cl fs fc fso fco a w :
  message_pair w server c e s ec cl fs fc fso fco →
  ∃ w1 w2 e2,
    pipe_client_destroy c w = Ok (tt, w1)
    ∧ objects w1 !! c = None
    ∧ objects w1 !! server
      = Some (server_object (torn_down STATUS_PIPE_BROKEN e)
                (with_client None (with_state ps_wait_disconnect s)))
    ∧ message_queue (torn_down STATUS_PIPE_BROKEN e)
      = List.filter writer_completed (message_queue e)
    ∧ pipe_server_ioctl reply_max fs FSCTL_PIPE_DISCONNECT a w1 = Ok (0, w2)
    ∧ objects w2 !! server
      = Some (server_object e2 (with_client None (with_state ps_wait_connect s)))
    ∧ fd e2 = None ∧ connection e2 = None ∧ message_queue e2 = []
    ∧ ∃ fso2, fds w2 !! fs = Some fso2
              ∧ fd_no_fd_status fso2 = STATUS_PIPE_DISCONNECTED.
Proof.
  intros Hpair.
  destruct (client_close_runs _ _ _ _ _ _ _ _ _ _ _ Hpair)
    as (w1 & Hclose & Hobj1 & Hfds1 & Hcalls1 & Hpipes1 & Herr1).
  destruct Hpair as (Ho & Hc & Hstate & Hpoll & Hclient & Hserver & Hconn & Hcconn & Hio
                     & Hcio & Hfd & Hioctl & Hcfd & Hfne & Hfs & Hfc & Huser & Hcuser).
  assert (Hne : server ≠ c) by (intros ->; congruence).
  assert (Ho1 : objects w1 !! server
                = Some (server_object (torn_down STATUS_PIPE_BROKEN e)
                          (with_client None (with_state ps_wait_disconnect s))))
    by (rewrite Hobj1; apply lookup_insert_eq).
  assert (Hfs1 : fds w1 !! fs = Some (torn_down_fd STATUS_PIPE_BROKEN fso))
    by (rewrite Hfds1; apply lookup_insert_eq).
  assert (Htorn : torn_down STATUS_PIPE_BROKEN e
                  = with_message_queue (disconnect_walk STATUS_PIPE_BROKEN (message_queue e)).1
                      (with_read_q (async_wake_up STATUS_PIPE_BROKEN (read_q e)).1
                         (with_connection None e)))
    by (apply torn_down_message_mode; exact Hio).
  exists w1. eexists. eexists.
  split; [exact Hclose|]. split.
  { rewrite Hobj1, lookup_insert_ne, lookup_delete_eq by congruence. reflexivity. }
  split; [exact Ho1|]. split.
  { rewrite Htorn. apply disconnect_walk_broken. }
  split; [|split; [|split; [|split; [|split]]]].
  - unfold pipe_server_ioctl.
    rewrite (bind_ok _ _ _ _ _ (get_fd_user_ok _ _ _ Hfs1)).
    change (fd_user (torn_down_fd STATUS_PIPE_BROKEN fso)) with (fd_user fso).
    rewrite Huser, bind_deref, (bind_get_server _ _ _ _ _ Ho1). fields_simpl.
    rewrite (bool_decide_eq_true_2 (@None addr = None)) by reflexivity. mgo.
    erewrite (bind_pipe_end_disconnect_single server _ fs)
      by first [exact Ho1 | exact Hfs1 | rewrite Htorn; assumption | rewrite Htorn; reflexivity].
    unfold do_disconnect. mgo. rewrite Htorn.
    rewrite !(torn_down_message_mode STATUS_PIPE_DISCONNECTED
                (with_message_queue (disconnect_walk STATUS_PIPE_BROKEN (message_queue e)).1
                   (with_read_q (async_wake_up STATUS_PIPE_BROKEN (read_q e)).1
                      (with_connection None e)))) by exact Hio.
    fields_simpl. rewrite Hfd.
    rewrite (bool_decide_eq_true_2 (is_Some (Some fs))) by eauto. mgo.
    erewrite bind_set_server_state_wait_connect;
      [|solve_lookup|reflexivity|exact Hioctl|solve_lookup].
    reflexivity.
  - world_simpl. rewrite lookup_insert_eq. reflexivity.
  - reflexivity.
  - reflexivity.
  - fields_simpl. apply disconnect_walk_disconnected.
  - world_simpl. eexists. rewrite lookup_insert_eq. split; reflexivity.
Qed.

End client_close.

(** At the connected pair: when the client (object 2) is closed the server
    (object 1) keeps the woken message; the disconnect that follows leaves
    it without a message and in wait_connect. *)
Lemma client_close_then_disconnect_witness :
  ∃ w1 w2 e2,
    pipe_client_destroy (H := wine_constants) 2%nat connected_pair = Ok (tt, w1)
    ∧ objects w1 !! 2%nat = None
    ∧ message_queue (torn_down (H := wine_constants) STATUS_PIPE_BROKEN pair_server_end)
      = [woken_abc]
    ∧ pipe_server_ioctl (H := wine_constants) 0 10%nat FSCTL_PIPE_DISCONNECT flush_async w1
      = Ok (0, w2)
    ∧ objects w2 !! 1%nat
      = Some (server_object e2 (with_client None (with_state ps_wait_connect
                                                    pair_server_state)))
    ∧ message_queue e2 = [].
Proof.
  destruct (client_close_then_disconnect (H := wine_constants) 0 1%nat 2%nat
              pair_server_end pair_server_state pair_client_end pair_client_state
              10%nat 11%nat pair_server_fd pair_client_fd flush_async connected_pair)
    as (w1 & w2 & e2 & Hclose & Hgone & _ & Hkept & Hdisconnect & Hserver & _ & _
        & Hempty & _).
  - unfold message_pair. repeat split; try reflexivity. discriminate.
  - exists w1, w2, e2. split; [exact Hclose|]. split; [exact Hgone|].
    split; [rewrite Hkept; reflexivity|]. auto.
Defined.

(** ** The server goes away *)

Section server_close.
Context `{protocol_constants}.

(** The server of a connected message-mode pair is destroyed while its
    pipe is still referred to from elsewhere: the server is freed, the
    pipe has one instance less and no longer lists it, and the client is
    left without server and connection, with the messages whose writers
    have completed.  A write of the client is then refused with
    pipe_disconnected and queues nothing. *)
Theorem server_close_orphans_client n k server c e s ec cl fs fc fso fco np wa w :
  message_pair w server c e s ec cl fs fc fso fco →
  pipes w !! pipe_of s = Some np → instances np ≠ 0 → refcount np = S (S k) →
  ∃ w1,
    pipe_server_destroy server w = Ok (tt, w1)
    ∧ objects w1
      = <[c := client_object (torn_down STATUS_PIPE_BROKEN ec) (with_server None cl)]>
          (delete server (objects w))
    ∧ connection (torn_down STATUS_PIPE_BROKEN ec) = None
    ∧ message_queue (torn_down STATUS_PIPE_BROKEN ec)
      = List.filter writer_completed (message_queue ec)
    ∧ pipes w1
      = <[pipe_of s := with_refcount (S k)
                         (with_servers (filter (λ a, a ≠ server) (servers np))
                            (with_instances (sub32 (instances np) 1) np))]> (pipes w)
    ∧ pipe_end_write (S n) fc wa w1 = Ok (0, with_error STATUS_PIPE_DISCONNECTED w1).
Proof.
  intros (Ho & Hc & Hstate & Hpoll & Hclient & Hserver & Hconn & Hcconn & Hio & Hcio
          & Hfd & Hioctl & Hcfd & Hfne & Hfs & Hfc & Huser & Hcuser) Hp Hinst Href.
  assert (Hne : c ≠ server) by (intros ->; congruence).
  assert (Hnz : (instances np =? 0) = false) by (apply Z.eqb_neq; exact Hinst).
  eexists. split.
  - unfold pipe_server_destroy.
    erewrite (bind_pipe_end_disconnect_pair server (server_object e s) fs fso c
                (client_object ec cl) fc fco) by (eassumption || reflexivity).
    fields_simpl. rewrite !(torn_down_message_mode _ _ Hio).
    rewrite !(torn_down_message_mode _ (with_connection None ec) Hcio).
    fields_simpl. mgo. rewrite Hfd.
    rewrite (bool_decide_eq_true_2 (is_Some (Some fs))) by eauto.
    cbn [when]. unfold notify_empty. mgo. rewrite Hpoll. mgo.
    unfold do_disconnect. mgo. rewrite Hclient. mgo.
    rewrite Hserver, Hcfd, Hfd.
    rewrite (bool_decide_eq_true_2 (Some server = Some server)) by reflexivity.
    rewrite (bool_decide_eq_true_2 (is_Some (Some fc))) by eauto.
    rewrite (bool_decide_eq_true_2 (is_Some (Some fs))) by eauto.
    change (use_server_io (with_message_queue ?q (with_read_q ?r (with_connection None e))))
      with (use_server_io e).
    rewrite Hio. mgo. unfold pipe_end_destroy. mgo.
    rewrite teardown_leaves_no_async. mgo. rewrite Hclient. mgo.
    unfold pipe_of in Hp. mgo. rewrite Hnz. mgo.
    unfold release_pipe. mgo. rewrite Href. mgo. unfold free_object. mgo.
    reflexivity.
  - assert (Htorn : torn_down STATUS_PIPE_BROKEN ec
                    = with_message_queue
                        (disconnect_walk STATUS_PIPE_BROKEN (message_queue ec)).1
                        (with_read_q (async_wake_up STATUS_PIPE_BROKEN (read_q ec)).1
                           (with_connection None ec)))
      by (apply torn_down_message_mode; exact Hcio).
    world_simpl. split; [|split; [|split; [|split]]].
    + rewrite Htorn.
      apply map_eq. intros x. rewrite ?lookup_delete, ?lookup_insert, ?lookup_delete.
      repeat case_decide; subst; first [congruence | reflexivity].
    + rewrite Htorn. reflexivity.
    + rewrite Htorn. apply disconnect_walk_broken.
    + unfold pipe_of. same_map.
    + unfold pipe_end_write.
      match goal with
      | |- bind _ _ ?W = _ =>
          assert (Hfc1 : fds W !! fc = Some (torn_down_fd STATUS_PIPE_BROKEN fco))
            by (world_simpl; rewrite lookup_insert_eq; reflexivity)
      end.
      rewrite (bind_ok _ _ _ _ _ (get_fd_user_ok _ _ _ Hfc1)).
      change (fd_user (torn_down_fd STATUS_PIPE_BROKEN fco)) with (fd_user fco).
      rewrite Hcuser, bind_deref.
      match goal with
      | |- bind _ _ ?W = _ =>
          assert (Hc1 : objects W !! c
                        = Some (client_object (torn_down STATUS_PIPE_BROKEN ec)
                                  (with_server None cl)))
            by (world_simpl; rewrite lookup_delete_ne, lookup_insert_ne, lookup_insert_eq
                  by congruence; rewrite Htorn; reflexivity)
      end.
      rewrite (bind_get_end _ _ _ _ Hc1). cbn [object_end]. rewrite Htorn.
      change (use_server_io (with_message_queue ?q (with_read_q ?r (with_connection None ec))))
        with (use_server_io ec).
      rewrite Hcio. fields_simpl. mgo. reflexivity.
Qed.

End server_close.

(** At the connected pair on a pipe of two instances: when the server
    (object 1) is destroyed the pipe keeps its other server and one
    instance, and a write of two bytes by the client (descriptor 11) is
    refused. *)
Lemma server_close_orphans_client_witness :
  ∃ w1 np1,
    pipe_server_destroy (H := wine_constants) 1%nat shared_pair = Ok (tt, w1)
    ∧ objects w1 !! 1%nat = None
    ∧ pipes w1 !! 20%nat = Some np1
    ∧ servers np1 = [3%nat] ∧ instances np1 = 1
    ∧ pipe_end_write (H := wine_constants) 1 11%nat write_of_two w1
      = Ok (0, with_error STATUS_PIPE_DISCONNECTED w1).
Proof.
  destruct (server_close_orphans_client (H := wine_constants) 0 0 1%nat 2%nat
              pair_server_end pair_server_state pair_client_end pair_client_state
              10%nat 11%nat pair_server_fd pair_client_fd shared_pipe write_of_two
              shared_pair)
    as (w1 & Hclose & Hobj & _ & _ & Hpipes & Hwrite).
  - unfold message_pair. repeat split; try reflexivity. discriminate.
  - reflexivity.
  - discriminate.
  - reflexivity.
  - exists w1. eexists. split; [exact Hclose|]. split.
    { rewrite Hobj. reflexivity. }
    split; [rewrite Hpipes; apply lookup_insert_eq|].
    split; [reflexivity|]. split; [reflexivity|exact Hwrite].
Defined.

(** ** The client open of a byte-mode pipe *)

Section open_sockets_granted.
Context `{protocol_constants}.

(** A client open of a byte-mode pipe.  When the host grants what is
    asked, the server that is chosen and the new client become a connected
    pair, each with a new socket descriptor of its own, the ioctl
    descriptor of the server keeps its status, and the asyncs of a listen
    on the server are completed with success.  When the host refuses the
    socket pair, the open fails with the status of the host, the client is
    freed again and no object and no descriptor has changed. *)
Theorem named_pipe_open_file_sockets pipe np access sharing_req options server e s fi io w :
  pipes w !! pipe = Some np →
  find_available_server pipe w = Ok (Some server, w) →
  objects w !! server = Some (server_object e s) → pipe_of s = pipe →
  ¬ access_conflicts access (sharing np) →
  use_server_io e = false →
  has_flag (pipe_flags np) NAMED_PIPE_MESSAGE_STREAM_WRITE = false →
  state s = ps_wait_open ∨ state s = ps_idle_server →
  flush_poll s = false → fd e = None →
  ioctl_fd s = Some fi → fds w !! fi = Some io →
  (script w = [] →
   ∃ c fsv fc w',
     named_pipe_open_file pipe access sharing_req options w = Ok (Some c, w')
     ∧ objects w !! c = None ∧ fds w !! fsv = None ∧ fds w !! fc = None
     ∧ opened_sockets server c fi fsv fc e s io np options w w')
  ∧ (script w = [true; false] →
     ∃ w',
       named_pipe_open_file pipe access sharing_req options w = Ok (None, w')
       ∧ error w' = STATUS_HOST 0
       ∧ objects w' = objects w ∧ fds w' = fds w ∧ pipes w' = pipes w).
Proof.
  intros Hp Hfind Ho Hpipe Haccess Hio Hpio Hstate Hpoll Hfd Hioctl Hfi.
  set (c := fresh (dom (objects w))).
  assert (Hc : c ≠ server) by (eapply fresh_object_ne; eassumption).
  assert (Hcnone : objects w !! c = None) by (apply not_elem_of_dom, is_fresh).
  assert (Hcheck :
    has_flag access GENERIC_READ && negb (has_flag (sharing np) FILE_SHARE_READ)
    || has_flag access GENERIC_WRITE && negb (has_flag (sharing np) FILE_SHARE_WRITE)
    = false).
  { apply not_true_is_false. intros Hconflict. apply Haccess.
    apply orb_true_iff in Hconflict as [Hc'|Hc']; apply andb_true_iff in Hc' as [Ha Hs];
      apply negb_true_iff in Hs; [left|right]; auto. }
  split; intros Hscript.
  - set (fc := fresh (dom (fds w))).
    set (fsv := fresh (dom (<[fc := socket_of c]> (fds w)))).
    assert (Hfcnone : fds w !! fc = None) by (apply not_elem_of_dom, is_fresh).
    assert (Hfc : fc ≠ fi) by (eapply fresh_fd_ne; eassumption).
    assert (Hfsvfresh : (<[fc := socket_of c]> (fds w)) !! fsv = None)
      by (apply not_elem_of_dom, is_fresh).
    assert (Hfsvfc : fsv ≠ fc)
      by (intros Heq; rewrite Heq, lookup_insert_eq in Hfsvfresh; discriminate).
    assert (Hfsvnone : fds w !! fsv = None)
      by (rewrite lookup_insert_ne in Hfsvfresh by congruence; exact Hfsvfresh).
    assert (Hfsv : fsv ≠ fi) by (intros Heq; rewrite Heq in Hfsvnone; congruence).
    exists c, fsv, fc. unfold opened_sockets.
    destruct (bool_decide (state s = ps_wait_open)) eqn:Hopen;
      (eexists; split; [|split; [exact Hcnone|split; [exact Hfsvnone|split; [exact Hfcnone|]]]]).
    1, 3: unfold named_pipe_open_file;
      rewrite (bind_get_pipe _ _ _ _ Hp), (bind_ok _ _ _ _ _ Hfind);
      rewrite (bind_get_server _ _ _ _ _ Ho), Hpipe;
      rewrite (bind_get_pipe _ _ _ _ Hp), Hcheck;
      unfold create_pipe_client; rewrite bind_alloc_object by exact Hscript;
      fold c; mforward; rewrite Hio, ?bind_assoc, bind_host_try_granted by exact Hscript;
      rewrite Hfd, (bool_decide_eq_true_2 (@None addr = None)) by reflexivity;
      unfold create_anonymous_fd; mgo;
      rewrite ?bind_assoc, bind_new_fd by exact Hscript; world_simpl; fold fc; mgo;
      rewrite bind_new_fd by exact Hscript; world_simpl;
      change (mk_fd (Some c) [] false STATUS_BAD_DEVICE_TYPE (Some 0)) with (socket_of c);
      change (mk_fd (Some server) [] false STATUS_BAD_DEVICE_TYPE (Some 0))
        with (socket_of server);
      fold fsv; mgo;
      rewrite !(bool_decide_eq_true_2 (is_Some (Some _))) by eauto;
      cbn [andb]; mgo; rewrite Hopen; cbn [when];
      unfold fd_async_wake_up, log_calls; mgo; rewrite ?Hioctl; mgo;
      rewrite ?wake_up_list_success; mgo;
      unfold set_server_state; mgo;
      rewrite ?(bool_decide_eq_true_2 (is_Some (Some _))) by eauto; mgo;
      reflexivity.
    all: unfold byte_mode_pair, use_server_io; world_simpl; fields_simpl;
      rewrite ?app_nil_r;
      repeat split; try first [assumption | reflexivity | congruence | lookup_tac];
      intros; lookup_tac.
  - eexists. split.
    + unfold named_pipe_open_file.
      rewrite (bind_get_pipe _ _ _ _ Hp), (bind_ok _ _ _ _ _ Hfind).
      rewrite (bind_get_server _ _ _ _ _ Ho), Hpipe.
      rewrite (bind_get_pipe _ _ _ _ Hp), Hcheck.
      unfold create_pipe_client, alloc_object.
      rewrite !bind_assoc, bind_host_try, Hscript. cbn [head tail default from_option id].
      mgo. fold c. rewrite Hio, !bind_assoc, bind_host_try. world_simpl.
      cbn [head tail default from_option id]. mgo.
      unfold pipe_client_destroy. mgo.
      rewrite (bind_cong _ _ _ _ (pipe_end_disconnect_unfold _ _ _ _)). mgo.
      unfold disconnect_own_end. fields_simpl. unfold use_server_io at 1.
      fields_simpl. rewrite Hpio. mgo. unfold pipe_end_destroy. mgo.
      unfold free_object. cbn [forallb c_assert]. mgo. reflexivity.
    + world_simpl. repeat split.
      apply map_eq. intros x. rewrite ?lookup_delete, ?lookup_insert.
      repeat case_decide; subst; first [congruence | reflexivity].
Qed.

End open_sockets_granted.

(** At the byte-mode pipe with its idle server: an open that the host
    grants connects the server, and an open whose socket pair is refused
    fails with the status of the host. *)
Lemma named_pipe_open_file_sockets_witness :
  (∃ c w',
     named_pipe_open_file (H := wine_constants) 20%nat 3221225472 0 0
       (with_script [] byte_idle_world) = Ok (Some c, w')
     ∧ server_state_at w' 1%nat = Some ps_connected_server)
  ∧ (∃ w',
       named_pipe_open_file (H := wine_constants) 20%nat 3221225472 0 0
         (with_script [true; false] byte_idle_world) = Ok (None, w')
       ∧ error w' = STATUS_HOST 0).
Proof.
  split.
  - destruct (named_pipe_open_file_sockets (H := wine_constants) 20%nat byte_pipe
                3221225472 0 0 1%nat byte_idle_end byte_idle_state 12%nat
                (mk_fd (Some 1%nat) [] true STATUS_PIPE_LISTENING None)
                (with_script [] byte_idle_world))
      as [Hgranted _]; try reflexivity.
    + intros [[_ Hshare]|[_ Hshare]]; discriminate Hshare.
    + right. reflexivity.
    + destruct (Hgranted eq_refl) as (c & fsv & fc & w' & Hopen & _ & _ & _ & Hpair & _).
      exists c, w'. split; [exact Hopen|].
      destruct Hpair as (Ho & _). unfold server_state_at. rewrite Ho. reflexivity.
  - destruct (named_pipe_open_file_sockets (H := wine_constants) 20%nat byte_pipe
                3221225472 0 0 1%nat byte_idle_end byte_idle_state 12%nat
                (mk_fd (Some 1%nat) [] true STATUS_PIPE_LISTENING None)
                (with_script [true; false] byte_idle_world))
      as [_ Hrefused]; try reflexivity.
    + intros [[_ Hshare]|[_ Hshare]]; discriminate Hshare.
    + right. reflexivity.
    + destruct (Hrefused eq_refl) as (w' & Hopen & Herr & _).
      exists w'. split; [exact Hopen|exact Herr].
Defined.

(** ** A client open that leaves the server half paired *)

Section open_sockets.
Context `{protocol_constants}.

Lemma find_agrees {A} (p q : A → bool) (l : list A) :
  (∀ x, x ∈ l → p x = q x) → List.find p l = List.find q l.
Proof.
  induction l as [|y l IH]; intros Hpq; [reflexivity|]. simpl.
  rewrite (Hpq y) by apply list_elem_of_here.
  rewrite IH; [reflexivity|]. intros x Hx. apply Hpq, list_elem_of_further, Hx.
Qed.

Lemma find_available_server_states pipe np w w' r :
  pipes w !! pipe = Some np → pipes w' !! pipe = Some np →
  (∀ a, a ∈ servers np → ∃ e s, objects w !! a = Some (server_object e s)) →
  (∀ a, a ∈ servers np → ∃ e s, objects w' !! a = Some (server_object e s)) →
  (∀ a, a ∈ servers np → server_state_at w' a = server_state_at w a) →
  find_available_server pipe w = Ok (r, w) →
  find_available_server pipe w' = Ok (r, w').
Proof.
  intros Hp Hp' Hlive Hlive' Hsame. unfold find_available_server.
  rewrite (bind_get_pipe _ _ _ _ Hp), (bind_get_pipe _ _ _ _ Hp').
  rewrite (bind_ok _ _ _ _ _ (first_server_in_spec _ _ _ Hlive)).
  rewrite (bind_ok _ _ _ _ _ (first_server_in_spec _ _ _ Hlive')).
  rewrite (find_agrees (λ a, bool_decide (server_state_at w' a = Some ps_wait_open))
             (λ a, bool_decide (server_state_at w a = Some ps_wait_open)))
    by (intros a Ha; rewrite (Hsame a Ha); reflexivity).
  destruct (List.find _ (servers np)) as [server|].
  - unfold ret. intros [= <-]. reflexivity.
  - rewrite (first_server_in_spec _ _ _ Hlive), (first_server_in_spec _ _ _ Hlive').
    rewrite (find_agrees (λ a, bool_decide (server_state_at w' a = Some ps_idle_server))
               (λ a, bool_decide (server_state_at w a = Some ps_idle_server)))
      by (intros a Ha; rewrite (Hsame a Ha); reflexivity).
    intros [= <-]. reflexivity.
Qed.

(** A client open of a byte-mode pipe in which the host grants the socket
    pair and the descriptor of the server and refuses the descriptor of
    the client: the open fails with no_memory and frees the client, and
    the server keeps the new descriptor as the descriptor of its end while
    it stays in its state, available for the next open.  The next open of
    the pipe then chooses this server again and fails the assertion that
    an available byte-mode server has no descriptor. *)
Theorem named_pipe_open_file_half_paired pipe np access sharing_req options
    access2 sharing_req2 options2 server e s w :
  pipes w !! pipe = Some np →
  (∀ a, a ∈ servers np → ∃ e s, objects w !! a = Some (server_object e s)) →
  find_available_server pipe w = Ok (Some server, w) →
  objects w !! server = Some (server_object e s) → pipe_of s = pipe →
  ¬ access_conflicts access (sharing np) → ¬ access_conflicts access2 (sharing np) →
  use_server_io e = false →
  has_flag (pipe_flags np) NAMED_PIPE_MESSAGE_STREAM_WRITE = false →
  fd e = None →
  script w = [true; true; false; true] →
  ∃ fsv w1,
    named_pipe_open_file pipe access sharing_req options w = Ok (None, w1)
    ∧ error w1 = STATUS_NO_MEMORY
    ∧ fds w !! fsv = None
    ∧ objects w1 = <[server := server_object (with_fd (Some fsv) e) s]> (objects w)
    ∧ fds w1 = <[fsv := mk_fd (Some server) [] false STATUS_BAD_DEVICE_TYPE (Some 0)]> (fds w)
    ∧ named_pipe_open_file pipe access2 sharing_req2 options2 w1 = Fault assertion_failed.
Proof.
  intros Hp Hlive Hfind Ho Hpipe Haccess Haccess2 Hio Hpio Hfd Hscript.
  set (c := fresh (dom (objects w))).
  set (fsv := fresh (dom (fds w))).
  assert (Hc : c ≠ server) by (eapply fresh_object_ne; eassumption).
  assert (Hcnone : objects w !! c = None) by (apply not_elem_of_dom, is_fresh).
  assert (Hfnone : fds w !! fsv = None) by (apply not_elem_of_dom, is_fresh).
  assert (Hcheck : ∀ acc, ¬ access_conflicts acc (sharing np) →
    has_flag acc GENERIC_READ && negb (has_flag (sharing np) FILE_SHARE_READ)
    || has_flag acc GENERIC_WRITE && negb (has_flag (sharing np) FILE_SHARE_WRITE)
    = false).
  { intros acc Hacc. apply not_true_is_false. intros Hconflict. apply Hacc.
    apply orb_true_iff in Hconflict as [Hc'|Hc']; apply andb_true_iff in Hc' as [Ha Hs];
      apply negb_true_iff in Hs; [left|right]; auto. }
  exists fsv,
    (with_error STATUS_NO_MEMORY
       (with_script []
          (set_fds (insert fsv (mk_fd (Some server) [] false STATUS_BAD_DEVICE_TYPE (Some 0)))
             (set_objects (insert server (server_object (with_fd (Some fsv) e) s)) w)))).
  split.
  - unfold named_pipe_open_file.
    rewrite (bind_get_pipe _ _ _ _ Hp), (bind_ok _ _ _ _ _ Hfind).
    rewrite (bind_get_server _ _ _ _ _ Ho), Hpipe.
    rewrite (bind_get_pipe _ _ _ _ Hp), (Hcheck _ Haccess).
    unfold create_pipe_client, alloc_object.
    rewrite !bind_assoc, bind_host_try, Hscript. cbn [head tail default from_option id].
    mgo. fold c. rewrite Hio, !bind_assoc, bind_host_try. world_simpl.
    cbn [head tail default from_option id]. rewrite Hfd.
    rewrite (bool_decide_eq_true_2 (@None addr = None)) by reflexivity.
    unfold create_anonymous_fd, new_fd. mgo.
    rewrite bind_host_try. world_simpl. cbn [head tail default from_option id]. mgo.
    rewrite bind_host_try. world_simpl. cbn [head tail default from_option id]. mgo.
    world_simpl. fold fsv. mgo.
    rewrite (bool_decide_eq_false_2 (is_Some (@None addr))) by (intros [? [=]]).
    cbn [andb]. unfold pipe_client_destroy. mgo.
    rewrite (bind_cong _ _ _ _ (pipe_end_disconnect_unfold _ _ _ _)). mgo.
    unfold disconnect_own_end. fields_simpl. unfold use_server_io at 1.
    fields_simpl. rewrite Hpio. mgo. unfold pipe_end_destroy. mgo.
    unfold free_object. cbn [forallb c_assert]. mgo. unfold ret. do 2 f_equal.
    apply world_eq; world_simpl; try reflexivity.
    apply map_eq. intros x. rewrite ?lookup_delete, ?lookup_insert.
    repeat case_decide; subst; first [congruence | reflexivity].
  - world_simpl. split; [reflexivity|]. split; [exact Hfnone|].
    split; [reflexivity|]. split; [reflexivity|].
    match goal with |- named_pipe_open_file _ _ _ _ ?W = _ => set (w1 := W) end.
    assert (Ho1 : objects w1 !! server = Some (server_object (with_fd (Some fsv) e) s))
      by (unfold w1; world_simpl; apply lookup_insert_eq).
    assert (Hp1 : pipes w1 !! pipe = Some np) by exact Hp.
    assert (Hfind1 : find_available_server pipe w1 = Ok (Some server, w1)).
    { apply (find_available_server_states pipe np w w1); try assumption.
      - intros a Ha. unfold w1. world_simpl. destruct (decide (a = server)) as [->|Hne].
        + rewrite lookup_insert_eq. eauto.
        + rewrite lookup_insert_ne by congruence. auto.
      - intros a Ha. unfold server_state_at, w1. world_simpl.
        destruct (decide (a = server)) as [->|Hne].
        + rewrite lookup_insert_eq, Ho. reflexivity.
        + rewrite lookup_insert_ne by congruence. reflexivity. }
    unfold named_pipe_open_file.
    rewrite (bind_get_pipe _ _ _ _ Hp1), (bind_ok _ _ _ _ _ Hfind1).
    rewrite (bind_get_server _ _ _ _ _ Ho1), Hpipe.
    rewrite (bind_get_pipe _ _ _ _ Hp1), (Hcheck _ Haccess2).
    unfold create_pipe_client. rewrite bind_alloc_object by reflexivity.
    assert (Hne1 : fresh (dom (objects w1)) ≠ server)
      by (eapply fresh_object_ne; exact Ho1).
    erewrite bind_get_end
      by (world_simpl; rewrite lookup_insert_ne by congruence; exact Ho1).
    cbn [object_end].
    change (use_server_io (with_fd (Some fsv) e)) with (use_server_io e).
    rewrite Hio, !bind_assoc, bind_host_try. reflexivity.
Qed.

End open_sockets.

(** At the byte-mode pipe with its idle server: the open whose client
    descriptor is refused leaves the server with a descriptor, and the
    open after it fails the assertion. *)
Lemma named_pipe_open_file_half_paired_witness :
  ∃ fsv w1,
    named_pipe_open_file (H := wine_constants) 20%nat 3221225472 0 0 byte_idle_world
    = Ok (None, w1)
    ∧ objects w1 !! 1%nat = Some (server_object (with_fd (Some fsv) byte_idle_end)
                                                byte_idle_state)
    ∧ named_pipe_open_file (H := wine_constants) 20%nat 3221225472 0 0 w1
      = Fault assertion_failed.
Proof.
  destruct (named_pipe_open_file_half_paired (H := wine_constants) 20%nat byte_pipe
              3221225472 0 0 3221225472 0 0 1%nat byte_idle_end byte_idle_state
              byte_idle_world)
    as (fsv & w1 & Hopen & _ & _ & Hobj & _ & Hnext); try reflexivity.
  - intros a Ha. apply list_elem_of_singleton in Ha as ->. eexists _, _. reflexivity.
  - intros [[_ Hshare]|[_ Hshare]]; discriminate Hshare.
  - intros [[_ Hshare]|[_ Hshare]]; discriminate Hshare.
  - exists fsv, w1. split; [exact Hopen|]. split; [|exact Hnext].
    rewrite Hobj. apply lookup_insert_eq.
Defined.

(** ** A read that waits for its write *)

Section read_waits.
Context `{protocol_constants}.

(** The reselect of the read queue of a connected end with nothing
    queued: the reads stay pending, and the asyncs on the descriptor of the
    peer, which wait for the queue to drain, are woken. *)
Lemma reselect_read_queue_empty n p o c oc fc fco w :
  objects w !! p = Some o → connection (object_end o) = Some c → c ≠ p →
  objects w !! c = Some oc → fd (object_end oc) = Some fc → fds w !! fc = Some fco →
  message_queue (object_end o) = [] →
  reselect_read_queue (S n) p w
  = Ok (tt, with_calls (calls w ++ map (terminate_call STATUS_SUCCESS) (fd_wait_q fco))
              (set_fds (insert fc (with_wait_q [] fco)) (with_ignore_reselect false w))).
Proof.
  intros Ho Hconn Hne Hc Hfd Hfc Hq.
  cbn [reselect_read_queue]. unfold set_ignore_reselect. rewrite bind_modify.
  erewrite bind_get_end by (world_simpl; exact Ho).
  rewrite bind_get_world. world_simpl. rewrite Hq.
  assert (Hrounds : ∀ l, read_rounds (script w) (flags (object_end o)) [] l [] false
                         = Ok ([], l, [], false, script w))
    by (intros [|? ?]; reflexivity).
  rewrite Hrounds. unfold bind at 1. cbv beta iota.
  erewrite bind_update_end by (world_simpl; exact Ho).
  erewrite bind_update_end by (world_simpl; apply lookup_insert_eq).
  unfold log_calls. rewrite !bind_modify, Hconn.
  rewrite (bool_decide_eq_true_2 (@nil pipe_message = [])) by reflexivity.
  erewrite bind_get_end by (world_simpl; rewrite !lookup_insert_ne by congruence; exact Hc).
  rewrite Hfd. unfold fd_async_wake_up. rewrite bind_deref.
  erewrite bind_get_fd by (world_simpl; exact Hfc).
  rewrite wake_up_list_success.
  erewrite bind_update_fd by (world_simpl; exact Hfc).
  unfold log_calls, modify. do 2 f_equal.
  apply world_eq; world_simpl; try reflexivity.
  - rewrite insert_insert_eq, with_end_with_end, object_end_with_end.
    apply insert_id. rewrite Ho. f_equal.
    destruct o as [[? ? ? ? ? [l|] ?] ?|[? ? ? ? ? [l|] ?] ?]; simpl in *; subst; reflexivity.
  - rewrite app_nil_r. reflexivity.
Qed.

Lemma read_parks n a b oa ob fa fb fao fbo ra w :
  connected_ends w a b oa ob fa fb fao fbo →
  message_queue (object_end ob) = [] → default [] (read_q (object_end ob)) = [] →
  status (async_iosb ra) = STATUS_PENDING →
  script w = [] →
  ∃ h w1,
    pipe_end_read (S n) fb ra w = Ok (h, w1)
    ∧ parked ra h w1
    ∧ objects w1 = <[b := with_end ob (with_read_q (Some [ra]) (object_end ob))]> (objects w)
    ∧ fds w1 = <[fa := with_wait_q [] fao]> (fds w)
    ∧ calls w1 = calls w ++ map (terminate_call STATUS_SUCCESS) (fd_wait_q fao)
    ∧ script w1 = [].
Proof.
  intros (Hne & Ha & Hb & Hconn & Hbconn & Hio & Hbio & Hfa & Hauser & Hafd & Hfb & Hbuser)
         Hq Hrq Hpending Hscript.
  unfold pipe_end_read.
  rewrite (bind_fd_user_end _ _ _ _ _ _ Hfb Hbuser Hb), Hbio. cbn [negb]. rewrite Hbconn.
  rewrite (bool_decide_eq_false_2 (Some a = None)) by discriminate. cbn [andb].
  destruct (read_queue_ready b ob w Hb Hrq)
    as (ok & w1 & Hready & Hfds1 & Hcalls1 & Hhandles1 & Hgranted & Hobj1).
  destruct (Hgranted Hscript) as [Hscript1 ->].
  rewrite (bind_ok _ _ _ _ _ Hready). cbn [negb].
  rewrite bind_alloc_handle_granted by exact Hscript1.
  destruct (Z.eqb_spec (4 * Z.of_nat (S (handles w1))) 0) as [Hz|Hnz]; [lia|].
  assert (Hb1 : objects w1 !! b
                = Some (with_end ob (with_read_q (Some []) (object_end ob))))
    by (rewrite Hobj1; apply lookup_insert_eq).
  mforward. rewrite object_end_with_end, with_end_with_end. fields_simpl.
  change (default [] (Some []) ++ [ra]) with [ra].
  unfold bind at 1.
  erewrite (reselect_read_queue_empty n b _ a oa fa fao);
    [ |world_simpl; apply lookup_insert_eq|rewrite object_end_with_end; exact Hbconn
      |exact Hne
      |world_simpl; rewrite lookup_insert_ne, Hobj1, lookup_insert_ne by congruence; exact Ha
      |exact Hafd|world_simpl; rewrite Hfds1; exact Hfa
      |rewrite object_end_with_end; exact Hq].
  cbv beta iota. rewrite bind_set_error.
  unfold async_is_blocking, parked. destruct (async_blocking ra) eqn:Hblocking; cbn [negb].
  2: (unfold reader_iosb_status; rewrite bind_assoc;
      erewrite bind_get_end by (world_simpl; apply lookup_insert_eq);
      cbv beta; rewrite bind_assoc, bind_get_world, object_end_with_end; fields_simpl;
      cbn [default from_option id map];
      rewrite (bool_decide_eq_true_2 (async_id ra ∈ [async_id ra]))
        by apply list_elem_of_here;
      rewrite bind_ret, Hpending;
      rewrite (bool_decide_eq_true_2 (STATUS_PENDING = STATUS_PENDING)) by reflexivity;
      unfold close_handle; rewrite bind_ret).
  all: eexists _, _; (split; [reflexivity|]); world_simpl;
    rewrite ?Hcalls1, ?Hfds1, Hobj1, ?insert_insert_eq, ?with_end_with_end,
      ?object_end_with_end; fields_simpl;
    repeat split; try first [assumption | reflexivity | congruence | lia].
Qed.

Lemma write_delivers n a b oa ob fa fb fao fbo wa ra w :
  connected_ends w a b oa ob fa fb fao fbo →
  message_queue (object_end ob) = [] → read_q (object_end ob) = Some [ra] →
  status (async_iosb wa) = STATUS_PENDING →
  0 <= in_size (async_iosb wa) <= out_size (async_iosb ra) →
  out_size (async_iosb ra) < 4294967296 →
  script w = [] →
  ∃ h w2,
    pipe_end_write (S n) fa wa w = Ok (h, w2)
    ∧ error w2 = STATUS_PENDING
    ∧ objects w2
      = <[b := with_end ob (with_read_q (Some []) (with_message_queue [] (object_end ob)))]>
          (<[a := with_end oa (with_write_q
                                 (Some (default [] (write_q (object_end oa)) ++ [async_id wa]))
                                 (object_end oa))]> (objects w))
    ∧ calls w2
      = calls w ++ write_calls (buffer_size (object_end ob)) wa
        ++ (wake_message (moved_message (queued_message (buffer_size (object_end ob)) wa))).2
        ++ [call_async_terminate (async_id ra)
              (if in_size (async_iosb wa) =? 0 then STATUS_SUCCESS else STATUS_ALERTED)
              (whole_read (queued_message (buffer_size (object_end ob)) wa) (async_iosb ra));
            call_release_async (async_id ra)]
        ++ map (terminate_call STATUS_SUCCESS) (fd_wait_q fao).
Proof.
  intros (Hne & Ha & Hb & Hconn & Hbconn & Hio & Hbio & Hfa & Hauser & Hafd & Hfb & Hbuser)
         Hq Hrq Hpending Hsize Hout Hscript.
  unfold pipe_end_write.
  rewrite (bind_fd_user_end _ _ _ _ _ _ Hfa Hauser Ha), Hio. cbn [negb]. rewrite Hconn.
  assert (Hqueue : ∃ w0,
    match write_q (object_end oa) with
    | Some _ => ret true
    | None =>
        ok <- create_async_queue;
        when ok (update_end a (with_write_q (Some [])));;
        ret ok
    end w = Ok (true, w0)
    ∧ objects w0 = <[a := with_end oa (with_write_q
                                         (Some (default [] (write_q (object_end oa))))
                                         (object_end oa))]> (objects w)
    ∧ fds w0 = fds w ∧ calls w0 = calls w ∧ script w0 = [] ∧ handles w0 = handles w).
  { destruct (write_q (object_end oa)) as [l|] eqn:Hwq.
    - exists w. split; [reflexivity|]. split; [|auto].
      symmetry. apply insert_id. rewrite Ha. f_equal.
      destruct oa as [[] ?|[] ?]; simpl in *; subst; reflexivity.
    - eexists. split.
      + unfold create_async_queue.
        rewrite !bind_assoc, bind_host_try_granted by exact Hscript.
        cbv iota. unfold when. mrun. reflexivity.
      + world_simpl. auto. }
  destruct Hqueue as (w0 & Hrun0 & Hobj0 & Hfds0 & Hcalls0 & Hscript0 & Hhandles0).
  rewrite (bind_ok _ _ _ _ _ Hrun0). cbn [negb].
  rewrite bind_alloc_handle_granted by exact Hscript0.
  destruct (Z.eqb_spec (4 * Z.of_nat (S (handles w0))) 0) as [Hz|_]; [lia|].
  rewrite bind_host_try_granted by (world_simpl; exact Hscript0). cbn [negb].
  assert (Hb0 : objects w0 !! b = Some ob) by (rewrite Hobj0, lookup_insert_ne; congruence).
  assert (Ha0 : objects w0 !! a
                = Some (with_end oa (with_write_q
                                       (Some (default [] (write_q (object_end oa))))
                                       (object_end oa))))
    by (rewrite Hobj0; apply lookup_insert_eq).
  mforward. rewrite Hq, app_nil_l, object_end_with_end, with_end_with_end. fields_simpl.
  change (default [] (Some (default [] (write_q (object_end oa)))))
    with (default [] (write_q (object_end oa))).
  unfold bind at 1.
  erewrite (reselect_write_queue_runs (S n) a b);
    [|world_simpl; apply lookup_insert_eq|rewrite object_end_with_end; exact Hconn
     |world_simpl; rewrite lookup_insert_ne by congruence; apply lookup_insert_eq].
  unfold after_write_walk. rewrite object_end_with_end, with_end_with_end. fields_simpl.
  change [mk_message 0 (async_iosb wa) (Some (async_id wa))] with [written_message wa].
  rewrite (write_walk_single _ _ Hpending) by lia.
  set (m := queued_message (buffer_size (object_end ob)) wa).
  assert (Hm : read_pos m = 0 ∧ in_size (msg_iosb m) = in_size (async_iosb wa)).
  { unfold m, queued_message. destruct (fits_buffer _ _); auto. }
  destruct Hm as (Hpos & Hmsize).
  assert (Hwalked : (if fits_buffer (buffer_size (object_end ob)) wa
                     then ([(wake_message (written_message wa)).1],
                           (wake_message (written_message wa)).2)
                     else ([written_message wa], []))
                    = ([m], write_calls (buffer_size (object_end ob)) wa)).
  { unfold m, queued_message, write_calls. destruct (fits_buffer _ _); reflexivity. }
  rewrite Hwalked. cbn [fst snd].
  erewrite (reselect_read_queue_drains n b _ a _ fa fao ra m [] _ _);
    [ |world_simpl; apply lookup_insert_eq
      |rewrite object_end_with_end; exact Hbconn
      |exact Hne
      |world_simpl; rewrite lookup_insert_ne by congruence; apply lookup_insert_eq
      |rewrite object_end_with_end; exact Hafd
      |world_simpl; rewrite Hfds0; exact Hfa
      |rewrite object_end_with_end; reflexivity
      |rewrite object_end_with_end; exact Hrq
      |world_simpl; rewrite Hscript0; cbn [head default from_option id];
       unfold read_round; rewrite object_end_with_end; fields_simpl;
       rewrite (message_queue_read_whole _ _ _ Hpos) by lia; reflexivity].
  cbv beta iota. rewrite bind_set_error.
  unfold async_is_blocking. destruct (async_blocking wa); cbn [negb].
  2: (unfold writer_iosb_status; rewrite bind_assoc;
      erewrite bind_get_end by (world_simpl; apply lookup_insert_eq);
      cbv beta; rewrite object_end_with_end; fields_simpl; cbn [find];
      rewrite bind_ret, Hpending, decide_True by reflexivity;
      rewrite (bool_decide_eq_false_2 (STATUS_SUCCESS = STATUS_PENDING)) by discriminate).
  all: eexists _, _; (split; [reflexivity|]); world_simpl;
    rewrite ?Hcalls0, ?Hfds0, Hobj0, ?with_end_with_end, ?object_end_with_end;
    fields_simpl; rewrite <- ?app_assoc;
    (split; [reflexivity|]); (split; [same_map|]);
    unfold whole_read; cbn [result status]; rewrite Hmsize; reflexivity.
Qed.

(** A read that waits and the write that feeds it, on two connected
    message-mode ends of which the reader has nothing queued and no read
    pending, when the host grants what is asked: the read is parked and
    reports pending, and wakes nothing but the asyncs that wait on the
    descriptor of the writer for the queue to drain; the write that follows
    terminates the read with exactly its bytes and their count, the status
    block of the read in success, is itself completed with success and the
    count of its bytes, and leaves the reader with no message and no read
    pending. *)
Theorem read_completed_by_write n1 n2 a b oa ob fa fb fao fbo wa ra d w :
  connected_ends w a b oa ob fa fb fao fbo →
  message_queue (object_end ob) = [] → default [] (read_q (object_end ob)) = [] →
  status (async_iosb ra) = STATUS_PENDING →
  status (async_iosb wa) = STATUS_PENDING →
  in_data (async_iosb wa) = Some d → in_size (async_iosb wa) = Z.of_nat (length d) →
  Z.of_nat (length d) <= out_size (async_iosb ra) → out_size (async_iosb ra) < 4294967296 →
  script w = [] →
  ∃ h1 w1 h2 w2 io iow,
    pipe_end_read (S n1) fb ra w = Ok (h1, w1) ∧ parked ra h1 w1
    ∧ calls w1 = calls w ++ map (terminate_call STATUS_SUCCESS) (fd_wait_q fao)
    ∧ pipe_end_write (S n2) fa wa w1 = Ok (h2, w2) ∧ error w2 = STATUS_PENDING
    ∧ call_async_terminate (async_id ra)
        (if Z.of_nat (length d) =? 0 then STATUS_SUCCESS else STATUS_ALERTED) io
      ∈ calls w2
    ∧ status io = STATUS_SUCCESS ∧ result io = Z.of_nat (length d)
    ∧ out_size io = Z.of_nat (length d) ∧ out_data io = Some d
    ∧ call_async_terminate (async_id wa)
        (if Z.of_nat (length d) =? 0 then STATUS_SUCCESS else STATUS_ALERTED) iow
      ∈ calls w2
    ∧ status iow = STATUS_SUCCESS ∧ result iow = Z.of_nat (length d)
    ∧ ∃ ob2, objects w2 !! b = Some ob2
             ∧ message_queue (object_end ob2) = [] ∧ read_q (object_end ob2) = Some [].
Proof.
  intros Hends Hq Hrq Hrpending Hpending Hdata Hlen Hroom Hout Hscript.
  destruct (read_parks n1 a b oa ob fa fb fao fbo ra w Hends Hq Hrq Hrpending Hscript)
    as (h1 & w1 & Hread & Hparked & Hobj1 & Hfds1 & Hcalls1 & Hscript1).
  destruct Hends as (Hne & Ha & Hb & Hconn & Hbconn & Hio & Hbio & Hfa & Hauser & Hafd
                     & Hfb & Hbuser).
  assert (Hfne : fb ≠ fa) by (intros ->; congruence).
  set (m := queued_message (buffer_size (object_end ob)) wa).
  assert (Hm : in_size (msg_iosb m) = in_size (async_iosb wa)
               ∧ in_data (msg_iosb m) = in_data (async_iosb wa)).
  { unfold m, queued_message. destruct (fits_buffer _ _); auto. }
  destruct Hm as (Hmsize & Hmdata).
  destruct (write_delivers n2 a b oa
              (with_end ob (with_read_q (Some [ra]) (object_end ob)))
              fa fb (with_wait_q [] fao) fbo wa ra w1)
    as (h2 & w2 & Hwrite & Herr2 & Hobj2 & Hcalls2).
  { unfold connected_ends. rewrite Hobj1, Hfds1, !object_end_with_end. fields_simpl.
    unfold use_server_io in *. fields_simpl.
    repeat split; try first [assumption | lookup_tac]. }
  { rewrite object_end_with_end. exact Hq. }
  { rewrite object_end_with_end. reflexivity. }
  { exact Hpending. }
  { lia. }
  { exact Hout. }
  { exact Hscript1. }
  rewrite object_end_with_end in Hcalls2. fields_simpl.
  change (queued_message (buffer_size (object_end ob)) wa) with m in Hcalls2.
  rewrite app_nil_r in Hcalls2.
  exists h1, w1, h2, w2, (whole_read m (async_iosb ra)).
  assert (Hwriter : ∃ iow,
    call_async_terminate (async_id wa)
      (if Z.of_nat (length d) =? 0 then STATUS_SUCCESS else STATUS_ALERTED) iow ∈ calls w2
    ∧ status iow = STATUS_SUCCESS ∧ result iow = Z.of_nat (length d)).
  { rewrite Hcalls2. unfold m, write_calls, queued_message.
    destruct (fits_buffer (buffer_size (object_end ob)) wa).
    - exists (msg_iosb (wake_message (written_message wa)).1). split; [|split].
      + apply elem_of_app. right. apply elem_of_app. left.
        cbn. rewrite Hlen. apply list_elem_of_here.
      + reflexivity.
      + cbn. exact Hlen.
    - exists (msg_iosb (wake_message (moved_message (written_message wa))).1).
      split; [|split].
      + apply elem_of_app. right. apply elem_of_app. right. apply elem_of_app. left.
        cbn. rewrite Hlen. apply list_elem_of_here.
      + reflexivity.
      + cbn. exact Hlen. }
  destruct Hwriter as (iow & Hwin & Hwst & Hwres). exists iow.
  split; [exact Hread|]. split; [exact Hparked|]. split; [exact Hcalls1|].
  split; [exact Hwrite|]. split; [exact Herr2|]. split.
  { rewrite Hcalls2, <- Hlen. apply elem_of_app. right. apply elem_of_app. right.
    apply elem_of_app. right. apply list_elem_of_here. }
  split; [reflexivity|]. unfold whole_read. cbn [result out_size out_data].
  rewrite Hmsize, Hmdata, Hlen, Hdata.
  do 3 (split; [reflexivity|]). split; [exact Hwin|]. split; [exact Hwst|].
  split; [exact Hwres|].
  eexists. rewrite Hobj2, lookup_insert_eq. split; [reflexivity|].
  rewrite !object_end_with_end. split; reflexivity.
Qed.

End read_waits.

(** At the connected pair, whose client (object 2) has nothing queued: a
    read of four on the client's descriptor waits, and the two bytes that
    the server then writes complete it. *)
Lemma read_completed_by_write_witness :
  ∃ h1 w1 h2 w2 io,
    pipe_end_read (H := wine_constants) 1 11%nat read_of_four connected_pair = Ok (h1, w1)
    ∧ calls w1 = []
    ∧ pipe_end_write (H := wine_constants) 1 10%nat write_of_two w1 = Ok (h2, w2)
    ∧ call_async_terminate 9 STATUS_ALERTED io ∈ calls w2
    ∧ result io = 2 ∧ out_data io = Some [Byte.x48; Byte.x49].
Proof.
  destruct (read_completed_by_write (H := wine_constants) 0 0 1%nat 2%nat
              pair_server pair_client 10%nat 11%nat pair_server_fd pair_client_fd
              write_of_two read_of_four [Byte.x48; Byte.x49] connected_pair)
    as (h1 & w1 & h2 & w2 & io & iow & Hread & _ & Hcalls & Hwrite & _ & Hdone & _
        & Hresult & _ & Hdata & _); try reflexivity.
  - unfold connected_ends. repeat split; try reflexivity. discriminate.
  - simpl. lia.
  - exists h1, w1, h2, w2, io. repeat split; assumption.
Defined.
